(** * pv: a shallow embedding of the pipe viewer's core routines

  The development follows the C sources under [src/pv]:
  - [elapsedtime.c]: timespec arithmetic ([ElapsedTime]);
  - [number.c]: size-string parsing ([Number]);
  - [string.c]: bounded string helpers ([PvString]);
  - [display.c]: percentage, format segments and line assembly ([Display]);
  - [transfer.c] and [loop.c]: the transfer engine and the main loop
    ([Transfer], [MainLoop]).

  C integers are modelled as [Z]; the wrap-around of every fixed-width
  operation is written out with the functions of [CInt].  Pointers that
  may be [NULL] are modelled as [option]. *)

From Stdlib Require Import ZArith List Lia Bool Ascii String.
Import ListNotations.

Local Open Scope Z_scope.

(** ** Machine integers *)

Module CInt.

(** Two's-complement reduction of [z] to a signed integer of [w] bits. *)
Definition wrap_signed (w z : Z) : Z :=
  (z + 2 ^ (w - 1)) mod 2 ^ w - 2 ^ (w - 1).

(** Reduction of [z] to an unsigned integer of [w] bits. *)
Definition wrap_unsigned (w z : Z) : Z := z mod 2 ^ w.

(** [long long], [off_t], [ssize_t], [time_t] and [long] on LP64. *)
Definition wrap64 : Z -> Z := wrap_signed 64.
(** [int]. *)
Definition wrap32 : Z -> Z := wrap_signed 32.
(** [size_t]. *)
Definition wrap_size : Z -> Z := wrap_unsigned 64.
(** [unsigned int]. *)
Definition wrap_uint : Z -> Z := wrap_unsigned 32.

Definition min64 : Z := - 2 ^ 63.
Definition max64 : Z := 2 ^ 63 - 1.
Definition in64 (z : Z) : Prop := min64 <= z <= max64.
Definition in32 (z : Z) : Prop := - 2 ^ 31 <= z <= 2 ^ 31 - 1.

End CInt.

(** ** elapsedtime.c *)

Module ElapsedTime.
Import CInt.

(** [struct timespec]: [tv_sec] is a [time_t], [tv_nsec] a [long]. *)
Record timespec : Type := mkTimespec { tv_sec : Z; tv_nsec : Z }.

Definition billion : Z := 1000000000.

(** The value a timespec stands for, in nanoseconds. *)
Definition total_nsec (t : timespec) : Z := tv_sec t * billion + tv_nsec t.

(** POSIX validity: the nanosecond field lies in [0, 999999999]. *)
Definition normalized (t : timespec) : Prop := 0 <= tv_nsec t < billion.

(** Both fields fit their 64-bit types. *)
Definition representable (t : timespec) : Prop :=
  in64 (tv_sec t) /\ in64 (tv_nsec t).

Definition zero_time : timespec := mkTimespec 0 0.

(** [pv_elapsedtime_zero]: the value left in [*zero_time]. *)
Definition pv_elapsedtime_zero (zero_time_p : option timespec)
  : option timespec :=
  match zero_time_p with
  | None => None
  | Some _ => Some (mkTimespec 0 0)
  end.

(** [pv_elapsedtime_copy]: the value left in [*dest_time]. *)
Definition pv_elapsedtime_copy (dest_time source_time : option timespec)
  : option timespec :=
  match dest_time, source_time with
  | None, _ => None
  | Some d, None => Some d
  | Some _, Some s => Some (mkTimespec (tv_sec s) (tv_nsec s))
  end.

(** [pv_elapsedtime_compare]. *)
Definition pv_elapsedtime_compare (first_time second_time : option timespec)
  : Z :=
  match first_time, second_time with
  | None, None => 0
  | None, Some _ => -1
  | Some _, None => 1
  | Some f, Some s =>
      if tv_sec f <? tv_sec s then -1
      else if tv_sec f >? tv_sec s then 1
      else if tv_nsec f <? tv_nsec s then -1
      else if tv_nsec f >? tv_nsec s then 1
      else 0
  end.

(** The accumulation [seconds += t->tv_sec; nanoseconds += t->tv_nsec]
    guarded by [NULL != t], on [long long] accumulators. *)
Definition accumulate (sign : Z) (acc : Z * Z) (t : option timespec) : Z * Z :=
  match t with
  | None => acc
  | Some t => (wrap64 (fst acc + sign * tv_sec t),
               wrap64 (snd acc + sign * tv_nsec t))
  end.

(** [pv_elapsedtime_add]: the value left in [*return_time].  The C [/]
    and [%] truncate towards zero: [Z.quot] and [Z.rem]. *)
Definition pv_elapsedtime_add (return_time first_time second_time : option timespec)
  : option timespec :=
  match return_time with
  | None => None
  | Some _ =>
      let '(seconds, nanoseconds) :=
        accumulate 1 (accumulate 1 (0, 0) first_time) second_time in
      let seconds := wrap64 (seconds + Z.quot nanoseconds billion) in
      let nanoseconds := Z.rem nanoseconds billion in
      Some (mkTimespec seconds nanoseconds)
  end.

(** [pv_elapsedtime_add_nsec]. *)
Definition pv_elapsedtime_add_nsec (return_time : option timespec)
    (add_nanoseconds : Z) : option timespec :=
  match return_time with
  | None => None
  | Some t =>
      let seconds := tv_sec t in
      let nanoseconds := wrap64 (tv_nsec t + add_nanoseconds) in
      let seconds := wrap64 (seconds + Z.quot nanoseconds billion) in
      let nanoseconds := Z.rem nanoseconds billion in
      Some (mkTimespec seconds nanoseconds)
  end.

(** [pv_elapsedtime_subtract]: the value left in [*return_time]. *)
Definition pv_elapsedtime_subtract
    (return_time first_time second_time : option timespec)
  : option timespec :=
  match return_time with
  | None => None
  | Some _ =>
      let '(seconds, nanoseconds) :=
        accumulate (-1) (accumulate 1 (0, 0) first_time) second_time in
      let seconds := wrap64 (seconds + Z.quot nanoseconds billion) in
      let nanoseconds := Z.rem nanoseconds billion in
      let '(seconds, nanoseconds) :=
        if nanoseconds <? 0
        then (wrap64 (seconds - 1), wrap64 (billion + nanoseconds))
        else (seconds, nanoseconds) in
      Some (mkTimespec seconds nanoseconds)
  end.

(** The saturating behaviour the specification attributes to the
    subtraction: a later second operand gives the zero time. *)
Definition saturates_at (a b : timespec) : Prop :=
  pv_elapsedtime_compare (Some a) (Some b) = -1 ->
  pv_elapsedtime_subtract (Some zero_time) (Some a) (Some b) = Some zero_time.

End ElapsedTime.

(** ** number.c *)

Module Number.
Import CInt.

(** A [const char *] is modelled by the characters it points to; the end
    of the list, or an embedded NUL character, is the terminating ['\0']. *)
Definition NUL : ascii := "000"%char.

Definition cstr (s : string) : list ascii := list_ascii_of_string s.

Definition char_code (c : ascii) : Z := Z.of_N (N_of_ascii c).

(** [str[0] == '\0']. *)
Definition at_end (str : list ascii) : bool :=
  match str with
  | [] => true
  | c :: _ => Ascii.eqb c NUL
  end.

(** [pv__isdigit]. *)
Definition pv__isdigit (c : ascii) : bool :=
  if (char_code "0" <=? char_code c) && (char_code c <=? char_code "9")
  then true else false.

(** [str[0] - '0']. *)
Definition digit_value (c : ascii) : Z := char_code c - char_code "0".

(** [while (str[0] != '\0' && (!pv__isdigit(str[0]))) str++;] *)
Fixpoint skip_non_digits (str : list ascii) : list ascii :=
  match str with
  | [] => []
  | c :: rest =>
      if negb (Ascii.eqb c NUL) && negb (pv__isdigit c)
      then skip_non_digits rest
      else str
  end.

(** The loop over the integral digits, on the [off_t] accumulator. *)
Fixpoint parse_integral (integral_part : Z) (str : list ascii)
  : Z * list ascii :=
  match str with
  | [] => (integral_part, [])
  | c :: rest =>
      if pv__isdigit c
      then
        let integral_part := wrap64 (integral_part * 10) in
        let integral_part := wrap64 (integral_part + digit_value c) in
        parse_integral integral_part rest
      else (integral_part, str)
  end.

(** The loop over the fractional digits: digits beyond the fourth are
    consumed without being counted. *)
Fixpoint parse_fractional (fractional_part fractional_divisor : Z)
    (str : list ascii) : Z * Z * list ascii :=
  match str with
  | [] => (fractional_part, fractional_divisor, [])
  | c :: rest =>
      if pv__isdigit c
      then
        if fractional_divisor <? 10000
        then
          let fractional_part := wrap64 (fractional_part * 10) in
          let fractional_part := wrap64 (fractional_part + digit_value c) in
          let fractional_divisor := wrap_uint (fractional_divisor * 10) in
          parse_fractional fractional_part fractional_divisor rest
        else parse_fractional fractional_part fractional_divisor rest
      else (fractional_part, fractional_divisor, str)
  end.

Definition is_decimal_mark (c : ascii) : bool :=
  Ascii.eqb c "." || Ascii.eqb c ",".

Definition is_blank (c : ascii) : bool :=
  Ascii.eqb c " " || Ascii.eqb c "009".

(** [while ((' ' == str[0]) || ('\t' == str[0])) str++;] *)
Fixpoint skip_blanks (str : list ascii) : list ascii :=
  match str with
  | [] => []
  | c :: rest => if is_blank c then skip_blanks rest else str
  end.

(** The [switch] on the units character. *)
Definition units_shift (c : ascii) : Z :=
  if Ascii.eqb c "k" || Ascii.eqb c "K" then 10
  else if Ascii.eqb c "m" || Ascii.eqb c "M" then 20
  else if Ascii.eqb c "g" || Ascii.eqb c "G" then 30
  else if Ascii.eqb c "t" || Ascii.eqb c "T" then 40
  else 0.

(** [str[0]], with ['\0'] at the end of the string. *)
Definition head_char (str : list ascii) : ascii :=
  match str with
  | [] => NUL
  | c :: _ => c
  end.

(** The shifting loop: never more than 30 bits at a time.  The loop
    counter decreases by at least one per round, so [Z.to_nat shift]
    rounds of fuel are enough. *)
Fixpoint apply_shift (fuel : nat) (shift integral_part fractional_part : Z)
  : Z * Z :=
  match fuel with
  | O => (integral_part, fractional_part)
  | S fuel =>
      if shift >? 0
      then
        let shiftby := if shift >? 30 then 30 else shift in
        let integral_part := wrap64 (Z.shiftl integral_part shiftby) in
        let fractional_part := wrap64 (Z.shiftl fractional_part shiftby) in
        apply_shift fuel (wrap_uint (shift - shiftby))
          integral_part fractional_part
      else (integral_part, fractional_part)
  end.

(** [pv_getnum_size]. *)
Definition pv_getnum_size (str : option (list ascii)) : Z :=
  match str with
  | None => 0
  | Some str =>
      let str := skip_non_digits str in
      let '(integral_part, str) := parse_integral 0 str in
      let '(fractional_part, fractional_divisor, str) :=
        if is_decimal_mark (head_char str)
        then parse_fractional 0 1 (tl str)
        else (0, 1, str) in
      let shift :=
        if negb (at_end str)
        then units_shift (head_char (skip_blanks str))
        else 0 in
      let '(integral_part, fractional_part) :=
        apply_shift (Z.to_nat shift) shift integral_part fractional_part in
      let fractional_part := Z.quot fractional_part fractional_divisor in
      wrap64 (integral_part + fractional_part)
  end.

(** [pv_getnum_count]. *)
Definition pv_getnum_count (str : option (list ascii)) : Z :=
  wrap_uint (pv_getnum_size str).

(** *** The value the specification assigns to a size string *)

(** The base-10 value of a digit string. *)
Definition decimal (digits : list ascii) : Z :=
  fold_left (fun acc c => acc * 10 + digit_value c) digits 0.

(** The fractional digits that count: at most four. *)
Definition counted (fraction_digits : list ascii) : list ascii :=
  firstn 4 fraction_digits.

(** ``[integer_part + fractional_part / fractional_divisor], both parts
    being shifted by the suffix before combining''. *)
Definition size_value (integer_digits fraction_digits : list ascii)
    (shift : Z) : Z :=
  decimal integer_digits * 2 ^ shift
  + (decimal (counted fraction_digits) * 2 ^ shift)
    / 10 ^ Z.of_nat (List.length (counted fraction_digits)).

(** The optional fractional part of a size string: nothing, or a decimal
    mark followed by digits. *)
Inductive fraction_part : list ascii -> list ascii -> Prop :=
| no_fraction : fraction_part [] []
| with_fraction mark digits :
    is_decimal_mark mark = true ->
    Forall (fun c => pv__isdigit c = true) digits ->
    fraction_part (mark :: digits) digits.

(** A well-formed size string: leading non-digits, a non-empty integer
    part, an optional fractional part, optional blanks and a tail whose
    first character, if any, is the units suffix.  The side conditions
    make the decomposition the one the parser finds. *)
Record well_formed_size
    (pre int_digits frac frac_digits blanks tail : list ascii) : Prop := {
  wf_pre : Forall (fun c => c <> NUL /\ pv__isdigit c = false) pre;
  wf_int : Forall (fun c => pv__isdigit c = true) int_digits;
  wf_int_nonempty : int_digits <> [];
  wf_frac : fraction_part frac frac_digits;
  wf_after_number :
    pv__isdigit (head_char (blanks ++ tail)) = false
    /\ (frac = [] -> is_decimal_mark (head_char (blanks ++ tail)) = false);
  wf_blanks : Forall (fun c => is_blank c = true) blanks;
  wf_tail : is_blank (head_char tail) = false
}.

(** *** pv_getnum_check *)

(** [pv_numtype]. *)
Inductive pv_numtype : Type :=
| PV_NUMTYPE_INTEGER
| PV_NUMTYPE_DOUBLE.

(** [for (; pv__isdigit(str[0]); str++);] *)
Fixpoint skip_digits (str : list ascii) : list ascii :=
  match str with
  | [] => []
  | c :: rest => if pv__isdigit c then skip_digits rest else str
  end.

(** The [switch] of [pv_getnum_check] on the units suffix. *)
Definition is_units (c : ascii) : bool :=
  Ascii.eqb c "k" || Ascii.eqb c "K" || Ascii.eqb c "m" || Ascii.eqb c "M"
  || Ascii.eqb c "g" || Ascii.eqb c "G" || Ascii.eqb c "t" || Ascii.eqb c "T".

(** [pv_getnum_check]. *)
Definition pv_getnum_check (str : option (list ascii)) (type : pv_numtype)
  : bool :=
  match str with
  | None => false
  | Some str =>
      let str := skip_blanks str in
      if negb (pv__isdigit (head_char str)) then false
      else
        let str := skip_digits str in
        let after_fraction :=
          if is_decimal_mark (head_char str)
          then
            match type with
            | PV_NUMTYPE_INTEGER => None
            | PV_NUMTYPE_DOUBLE => Some (skip_digits (tl str))
            end
          else Some str in
        match after_fraction with
        | None => false
        | Some str =>
            if at_end str then true
            else
              match type with
              | PV_NUMTYPE_DOUBLE => false
              | PV_NUMTYPE_INTEGER =>
                  let str := skip_blanks str in
                  if is_units (head_char str)
                  then
                    let str := tl str in
                    if negb (at_end str) then false else true
                  else false
              end
        end
  end.

End Number.

(** ** string.c *)

Module PvString.
Import CInt Number.

(** A [char] buffer is the list of its bytes; a [const char *] argument is
    the list of characters it points to, ended by the first NUL or by the
    end of the list. *)

(** [strlen]. *)
Fixpoint strlen_nat (s : list ascii) : nat :=
  match s with
  | [] => O
  | c :: rest => if Ascii.eqb c NUL then O else S (strlen_nat rest)
  end.

Definition strlen (s : list ascii) : Z := Z.of_nat (strlen_nat s).

(** The characters of the C string held in [s]. *)
Definition c_string (s : list ascii) : list ascii := firstn (strlen_nat s) s.

(** [buf[i] = c].  A store outside the buffer is undefined behaviour in C;
    here it leaves the buffer as it is, and the theorems below only use
    stores within bounds. *)
Definition store (buf : list ascii) (i : Z) (c : ascii) : list ascii :=
  if (0 <=? i) && (i <? Z.of_nat (List.length buf))
  then firstn (Z.to_nat i) buf ++ c :: skipn (S (Z.to_nat i)) buf
  else buf.

(** [memcpy(buf + off, chars, length chars)], within bounds. *)
Definition write_at (buf : list ascii) (off : Z) (chars : list ascii)
  : list ascii :=
  if (0 <=? off) && (off + Z.of_nat (List.length chars) <=? Z.of_nat (List.length buf))
  then firstn (Z.to_nat off) buf ++ chars
       ++ skipn (Z.to_nat off + List.length chars) buf
  else buf.

(** [vsnprintf(buf + off, size, "%.*s", precision, src)] for [size > 0]:
    at most [precision] characters of [src] (all of them when the
    precision is negative), cut to [size - 1], then a NUL.  Returns the
    length it would have written, as an [int]. *)
Definition vsnprintf_str (buf : list ascii) (off size precision : Z)
    (src : list ascii) : Z * list ascii :=
  let wanted :=
    if precision <? 0 then strlen src else Z.min precision (strlen src) in
  let copied := Z.min wanted (size - 1) in
  let buf := write_at buf off (firstn (Z.to_nat copied) (c_string src)) in
  (wrap32 wanted, store buf (off + copied) NUL).

(** [pv_snprintf(str, size, "%.*s", precision, src)] with [str = buf + off]:
    the instance of the variadic [pv_snprintf] that [pv_strlcat] calls.
    [buf = None] stands for a NULL [str]; the format is never NULL here.
    The bounded [vsnprintf] branch ([HAVE_VSNPRINTF]) is the one modelled. *)
Definition pv_snprintf_str (buf : option (list ascii)) (off size precision : Z)
    (src : list ascii) : Z * option (list ascii) :=
  match buf with
  | None => (-1, None)
  | Some buf =>
      if size =? 0 then (-1, Some buf)
      else
        let buf := store buf off NUL in
        let '(ret, buf) := vsnprintf_str buf off size precision src in
        let buf := store buf (off + size - 1) NUL in
        (ret, Some buf)
  end.

(** [pv_strlcat], the implementation used where the C library has no
    [strlcat]: the returned [size_t] and the destination buffer
    afterwards. *)
Definition pv_strlcat (dst src : option (list ascii)) (dstsize : Z)
  : Z * option (list ascii) :=
  match dst, src with
  | None, _ => (0, None)
  | Some _, None => (0, dst)
  | Some d, Some s =>
      if dstsize =? 0 then (0, dst)
      else
        let d := store d (dstsize - 1) NUL in
        let dstlen := strlen d in
        let srclen := strlen s in
        let available := wrap_size (dstsize - dstlen) in
        let d :=
          if available >? 1
          then
            match snd (pv_snprintf_str (Some d) dstlen available
                         (wrap32 (available - 1)) s) with
            | Some d' => d'
            | None => d
            end
          else d in
        (wrap_size (dstlen + srclen), Some d)
  end.

(** [pv_memrchr(buffer, match, length)] with [length] the length of
    [buffer]: the offset of the last matching byte, or [None] for NULL. *)
Fixpoint pv_memrchr (buffer : list ascii) (c : ascii) : option Z :=
  match buffer with
  | [] => None
  | b :: rest =>
      match pv_memrchr rest c with
      | Some i => Some (i + 1)
      | None => if Ascii.eqb b c then Some 0 else None
      end
  end.

(** A buffer is NUL-terminated within [size] when a NUL sits at some
    index below [size]. *)
Definition terminated_within (buf : list ascii) (size : Z) : Prop :=
  exists i : nat, Z.of_nat i < size /\ nth_error buf i = Some NUL.

(** *** pv_strdup and the portable pv_memrchr *)

(** [pv_strdup]: the duplicate, or [None] for NULL.  [calloc] gives
    zero-filled memory or fails. *)
Definition pv_strdup (original : option (list ascii)) (calloc_ok : bool)
  : option (list ascii) :=
  match original with
  | None => None
  | Some original =>
      let length := strlen original in
      if calloc_ok
      then
        let duplicate := repeat NUL (Z.to_nat (wrap_size (1 + length))) in
        let duplicate :=
          write_at duplicate 0 (firstn (Z.to_nat length) original) in
        Some (store duplicate length NUL)
      else None
  end.

(** The loop of [pv_memrchr] where the C library has no [memrchr]:
    [ptr] runs from [buffer + length - 1] down to [buffer]; [k] is
    [ptr - buffer + 1]. *)
Fixpoint scan_back (buffer : list ascii) (match_ : Z) (k : nat) : option Z :=
  match k with
  | O => None
  | S k' =>
      if char_code (nth k' buffer NUL) =? match_
      then Some (Z.of_nat k')
      else scan_back buffer match_ k'
  end.

(** [pv_memrchr] without [HAVE_MEMRCHR]: the offset of the byte found,
    or [None] for NULL.  [match_] is an [int]. *)
Definition pv_memrchr_portable (buffer : list ascii) (match_ length : Z)
  : option Z :=
  if length <? 1 then None else scan_back buffer match_ (Z.to_nat length).

(** *** pv_strlcat as built with and without HAVE_STRLCAT *)

(** [strlcat(dst, src, dsize)] of the C library, which is not part of
    this repository, by its documented contract: with [dlen] the length
    of the string in [dst], counted no further than [dsize], it returns
    [dlen + strlen(src)]; when [dlen < dsize] it appends the characters
    of [src] that fit in [dsize - dlen - 1] bytes, then a NUL; when
    [dlen = dsize] (no NUL in the first [dsize] bytes, or [dsize = 0]) it
    writes nothing. *)
Definition strlcat (dst src : list ascii) (dsize : Z) : Z * list ascii :=
  let dlen := Z.min (strlen dst) dsize in
  if dsize - dlen =? 0
  then (wrap_size (dlen + strlen src), dst)
  else
    let copied := Z.min (strlen src) (dsize - dlen - 1) in
    let dst := write_at dst dlen (firstn (Z.to_nat copied) (c_string src)) in
    (wrap_size (dlen + strlen src), store dst (dlen + copied) NUL).

(** [pv_strlcat] as compiled with [HAVE_STRLCAT]: the value of [strlcat]
    and the destination afterwards.  There is no test for NULL before the
    call of [strlcat], whose behaviour with a NULL pointer is undefined:
    [None] stands for that. *)
Definition pv_strlcat_libc (dst src : option (list ascii)) (dstsize : Z)
  : option (Z * option (list ascii)) :=
  match dst, src with
  | Some d, Some s =>
      let '(result, d) := strlcat d s dstsize in
      let d := if dstsize >? 0 then store d (dstsize - 1) NUL else d in
      Some (result, Some d)
  | _, _ => None
  end.

(** [pv_strlcat] under either setting of [HAVE_STRLCAT], which comes from
    the build's [config.h]. *)
Definition pv_strlcat_built (have_strlcat : bool)
    (dst src : option (list ascii)) (dstsize : Z)
  : option (Z * option (list ascii)) :=
  if have_strlcat then pv_strlcat_libc dst src dstsize
  else Some (pv_strlcat dst src dstsize).

End PvString.

(** ** pv-internal.h: the state record *)

Module State.
Import Number.

(** [pv_display_component]. *)
Inductive pv_display_component : Type :=
| PV_COMPONENT_STRING
| PV_COMPONENT_PROGRESS
| PV_COMPONENT_BYTES
| PV_COMPONENT_TIMER
| PV_COMPONENT_RATE
| PV_COMPONENT_AVERAGERATE
| PV_COMPONENT_ETA
| PV_COMPONENT_FINETA
| PV_COMPONENT_NAME
| PV_COMPONENT_BUFPERCENT
| PV_COMPONENT_OUTPUTBUF.

(** The value of the enumerator. *)
Definition component_index (c : pv_display_component) : nat :=
  match c with
  | PV_COMPONENT_STRING => 0
  | PV_COMPONENT_PROGRESS => 1
  | PV_COMPONENT_BYTES => 2
  | PV_COMPONENT_TIMER => 3
  | PV_COMPONENT_RATE => 4
  | PV_COMPONENT_AVERAGERATE => 5
  | PV_COMPONENT_ETA => 6
  | PV_COMPONENT_FINETA => 7
  | PV_COMPONENT_NAME => 8
  | PV_COMPONENT_BUFPERCENT => 9
  | PV_COMPONENT_OUTPUTBUF => 10
  end.

Definition component_eqb (a b : pv_display_component) : bool :=
  Nat.eqb (component_index a) (component_index b).

(** The components in enumeration order, up to [PV_COMPONENT__MAX]. *)
Definition all_components : list pv_display_component :=
  [PV_COMPONENT_STRING; PV_COMPONENT_PROGRESS; PV_COMPONENT_BYTES;
   PV_COMPONENT_TIMER; PV_COMPONENT_RATE; PV_COMPONENT_AVERAGERATE;
   PV_COMPONENT_ETA; PV_COMPONENT_FINETA; PV_COMPONENT_NAME;
   PV_COMPONENT_BUFPERCENT; PV_COMPONENT_OUTPUTBUF].

Definition PV_SIZEOF_COMPONENT_STR : Z := 1024.
Definition PV_SIZEOF_LASTOUTPUT_BUFFER : Z := 256.
Definition PV_FORMAT_ARRAY_MAX : nat := 100.
Definition BUFFER_SIZE : Z := 409600.
Definition BUFFER_SIZE_MAX : Z := 524288.
Definition MAX_READ_AT_ONCE : Z := 524288.
Definition MAX_WRITE_AT_ONCE : Z := 524288.

(** One entry of [display.format]. *)
Record format_segment : Type := mkSegment {
  seg_type : pv_display_component;
  str_start : Z;
  str_length : Z
}.

(** One entry of [display.component]; [content] is the whole
    [PV_SIZEOF_COMPONENT_STR]-byte array. *)
Record display_component : Type := mkComponent {
  required : bool;
  content : list ascii;
  content_length : Z
}.

(** [state->control], without the fields that only the clock, the cursor
    and the watch loops read. *)
Record control_t : Type := mkControl {
  numeric : bool;
  wait : bool;
  linemode : bool;
  bits : bool;
  null_terminated_lines : bool;
  no_display : bool;
  skip_errors : Z;
  error_skip_block : Z;
  stop_at_size : bool;
  sync_after_write : bool;
  direct_io_changed : bool;
  no_splice : bool;
  discard_input : bool;
  rate_limit : Z;
  target_buffer_size : Z;
  size : Z;
  width : Z;
  name : option (list ascii);
  default_format : list ascii;
  format_string : option (list ascii)
}.

(** [state->display], without the floating-point rate history. *)
Record display_t : Type := mkDisplay {
  display_buffer : option (list ascii);
  display_buffer_size : Z;
  display_string_len : Z;
  prev_screen_width : Z;
  display_visible : bool;
  percentage : Z;
  initial_offset : Z;
  lastoutput_length : Z;
  lastoutput_buffer : list ascii;
  format_segment_count : Z;
  format : list format_segment;
  component : pv_display_component -> display_component
}.

(** [state->transfer]; [transfer_buffer = None] is the NULL pointer. *)
Record transfer_t : Type := mkTransfer {
  transfer_buffer : option (list ascii);
  buffer_size : Z;
  read_position : Z;
  write_position : Z;
  last_read_skip_fd : Z;
  read_errors_in_a_row : Z;
  read_error_warning_shown : bool;
  splice_failed_fd : Z;
  splice_used : bool;
  to_write : Z;
  written : Z
}.

(** [struct pvstate_s]; [reported] collects the messages passed to
    [pv_error], oldest first. *)
Record pvstate : Type := mkState {
  exit_status : Z;
  control : control_t;
  display : display_t;
  transfer : transfer_t;
  reported : list string
}.

(** Field updates. *)

Definition set_numeric (v : bool) (r : control_t) : control_t :=
  mkControl v (wait r) (linemode r) (bits r) (null_terminated_lines r) (no_display r) (skip_errors r) (error_skip_block r) (stop_at_size r) (sync_after_write r) (direct_io_changed r) (no_splice r) (discard_input r) (rate_limit r) (target_buffer_size r) (size r) (width r) (name r) (default_format r) (format_string r).

Definition set_wait (v : bool) (r : control_t) : control_t :=
  mkControl (numeric r) v (linemode r) (bits r) (null_terminated_lines r) (no_display r) (skip_errors r) (error_skip_block r) (stop_at_size r) (sync_after_write r) (direct_io_changed r) (no_splice r) (discard_input r) (rate_limit r) (target_buffer_size r) (size r) (width r) (name r) (default_format r) (format_string r).

Definition set_linemode (v : bool) (r : control_t) : control_t :=
  mkControl (numeric r) (wait r) v (bits r) (null_terminated_lines r) (no_display r) (skip_errors r) (error_skip_block r) (stop_at_size r) (sync_after_write r) (direct_io_changed r) (no_splice r) (discard_input r) (rate_limit r) (target_buffer_size r) (size r) (width r) (name r) (default_format r) (format_string r).

Definition set_bits (v : bool) (r : control_t) : control_t :=
  mkControl (numeric r) (wait r) (linemode r) v (null_terminated_lines r) (no_display r) (skip_errors r) (error_skip_block r) (stop_at_size r) (sync_after_write r) (direct_io_changed r) (no_splice r) (discard_input r) (rate_limit r) (target_buffer_size r) (size r) (width r) (name r) (default_format r) (format_string r).

Definition set_null_terminated_lines (v : bool) (r : control_t) : control_t :=
  mkControl (numeric r) (wait r) (linemode r) (bits r) v (no_display r) (skip_errors r) (error_skip_block r) (stop_at_size r) (sync_after_write r) (direct_io_changed r) (no_splice r) (discard_input r) (rate_limit r) (target_buffer_size r) (size r) (width r) (name r) (default_format r) (format_string r).

Definition set_no_display (v : bool) (r : control_t) : control_t :=
  mkControl (numeric r) (wait r) (linemode r) (bits r) (null_terminated_lines r) v (skip_errors r) (error_skip_block r) (stop_at_size r) (sync_after_write r) (direct_io_changed r) (no_splice r) (discard_input r) (rate_limit r) (target_buffer_size r) (size r) (width r) (name r) (default_format r) (format_string r).

Definition set_skip_errors (v : Z) (r : control_t) : control_t :=
  mkControl (numeric r) (wait r) (linemode r) (bits r) (null_terminated_lines r) (no_display r) v (error_skip_block r) (stop_at_size r) (sync_after_write r) (direct_io_changed r) (no_splice r) (discard_input r) (rate_limit r) (target_buffer_size r) (size r) (width r) (name r) (default_format r) (format_string r).

Definition set_error_skip_block (v : Z) (r : control_t) : control_t :=
  mkControl (numeric r) (wait r) (linemode r) (bits r) (null_terminated_lines r) (no_display r) (skip_errors r) v (stop_at_size r) (sync_after_write r) (direct_io_changed r) (no_splice r) (discard_input r) (rate_limit r) (target_buffer_size r) (size r) (width r) (name r) (default_format r) (format_string r).

Definition set_stop_at_size (v : bool) (r : control_t) : control_t :=
  mkControl (numeric r) (wait r) (linemode r) (bits r) (null_terminated_lines r) (no_display r) (skip_errors r) (error_skip_block r) v (sync_after_write r) (direct_io_changed r) (no_splice r) (discard_input r) (rate_limit r) (target_buffer_size r) (size r) (width r) (name r) (default_format r) (format_string r).

Definition set_sync_after_write (v : bool) (r : control_t) : control_t :=
  mkControl (numeric r) (wait r) (linemode r) (bits r) (null_terminated_lines r) (no_display r) (skip_errors r) (error_skip_block r) (stop_at_size r) v (direct_io_changed r) (no_splice r) (discard_input r) (rate_limit r) (target_buffer_size r) (size r) (width r) (name r) (default_format r) (format_string r).

Definition set_direct_io_changed (v : bool) (r : control_t) : control_t :=
  mkControl (numeric r) (wait r) (linemode r) (bits r) (null_terminated_lines r) (no_display r) (skip_errors r) (error_skip_block r) (stop_at_size r) (sync_after_write r) v (no_splice r) (discard_input r) (rate_limit r) (target_buffer_size r) (size r) (width r) (name r) (default_format r) (format_string r).

Definition set_no_splice (v : bool) (r : control_t) : control_t :=
  mkControl (numeric r) (wait r) (linemode r) (bits r) (null_terminated_lines r) (no_display r) (skip_errors r) (error_skip_block r) (stop_at_size r) (sync_after_write r) (direct_io_changed r) v (discard_input r) (rate_limit r) (target_buffer_size r) (size r) (width r) (name r) (default_format r) (format_string r).

Definition set_discard_input (v : bool) (r : control_t) : control_t :=
  mkControl (numeric r) (wait r) (linemode r) (bits r) (null_terminated_lines r) (no_display r) (skip_errors r) (error_skip_block r) (stop_at_size r) (sync_after_write r) (direct_io_changed r) (no_splice r) v (rate_limit r) (target_buffer_size r) (size r) (width r) (name r) (default_format r) (format_string r).

Definition set_rate_limit (v : Z) (r : control_t) : control_t :=
  mkControl (numeric r) (wait r) (linemode r) (bits r) (null_terminated_lines r) (no_display r) (skip_errors r) (error_skip_block r) (stop_at_size r) (sync_after_write r) (direct_io_changed r) (no_splice r) (discard_input r) v (target_buffer_size r) (size r) (width r) (name r) (default_format r) (format_string r).

Definition set_target_buffer_size (v : Z) (r : control_t) : control_t :=
  mkControl (numeric r) (wait r) (linemode r) (bits r) (null_terminated_lines r) (no_display r) (skip_errors r) (error_skip_block r) (stop_at_size r) (sync_after_write r) (direct_io_changed r) (no_splice r) (discard_input r) (rate_limit r) v (size r) (width r) (name r) (default_format r) (format_string r).

Definition set_size (v : Z) (r : control_t) : control_t :=
  mkControl (numeric r) (wait r) (linemode r) (bits r) (null_terminated_lines r) (no_display r) (skip_errors r) (error_skip_block r) (stop_at_size r) (sync_after_write r) (direct_io_changed r) (no_splice r) (discard_input r) (rate_limit r) (target_buffer_size r) v (width r) (name r) (default_format r) (format_string r).

Definition set_width (v : Z) (r : control_t) : control_t :=
  mkControl (numeric r) (wait r) (linemode r) (bits r) (null_terminated_lines r) (no_display r) (skip_errors r) (error_skip_block r) (stop_at_size r) (sync_after_write r) (direct_io_changed r) (no_splice r) (discard_input r) (rate_limit r) (target_buffer_size r) (size r) v (name r) (default_format r) (format_string r).

Definition set_name (v : option (list ascii)) (r : control_t) : control_t :=
  mkControl (numeric r) (wait r) (linemode r) (bits r) (null_terminated_lines r) (no_display r) (skip_errors r) (error_skip_block r) (stop_at_size r) (sync_after_write r) (direct_io_changed r) (no_splice r) (discard_input r) (rate_limit r) (target_buffer_size r) (size r) (width r) v (default_format r) (format_string r).

Definition set_default_format (v : list ascii) (r : control_t) : control_t :=
  mkControl (numeric r) (wait r) (linemode r) (bits r) (null_terminated_lines r) (no_display r) (skip_errors r) (error_skip_block r) (stop_at_size r) (sync_after_write r) (direct_io_changed r) (no_splice r) (discard_input r) (rate_limit r) (target_buffer_size r) (size r) (width r) (name r) v (format_string r).

Definition set_format_string (v : option (list ascii)) (r : control_t) : control_t :=
  mkControl (numeric r) (wait r) (linemode r) (bits r) (null_terminated_lines r) (no_display r) (skip_errors r) (error_skip_block r) (stop_at_size r) (sync_after_write r) (direct_io_changed r) (no_splice r) (discard_input r) (rate_limit r) (target_buffer_size r) (size r) (width r) (name r) (default_format r) v.

Definition set_display_buffer (v : option (list ascii)) (r : display_t) : display_t :=
  mkDisplay v (display_buffer_size r) (display_string_len r) (prev_screen_width r) (display_visible r) (percentage r) (initial_offset r) (lastoutput_length r) (lastoutput_buffer r) (format_segment_count r) (format r) (component r).

Definition set_display_buffer_size (v : Z) (r : display_t) : display_t :=
  mkDisplay (display_buffer r) v (display_string_len r) (prev_screen_width r) (display_visible r) (percentage r) (initial_offset r) (lastoutput_length r) (lastoutput_buffer r) (format_segment_count r) (format r) (component r).

Definition set_display_string_len (v : Z) (r : display_t) : display_t :=
  mkDisplay (display_buffer r) (display_buffer_size r) v (prev_screen_width r) (display_visible r) (percentage r) (initial_offset r) (lastoutput_length r) (lastoutput_buffer r) (format_segment_count r) (format r) (component r).

Definition set_prev_screen_width (v : Z) (r : display_t) : display_t :=
  mkDisplay (display_buffer r) (display_buffer_size r) (display_string_len r) v (display_visible r) (percentage r) (initial_offset r) (lastoutput_length r) (lastoutput_buffer r) (format_segment_count r) (format r) (component r).

Definition set_display_visible (v : bool) (r : display_t) : display_t :=
  mkDisplay (display_buffer r) (display_buffer_size r) (display_string_len r) (prev_screen_width r) v (percentage r) (initial_offset r) (lastoutput_length r) (lastoutput_buffer r) (format_segment_count r) (format r) (component r).

Definition set_percentage (v : Z) (r : display_t) : display_t :=
  mkDisplay (display_buffer r) (display_buffer_size r) (display_string_len r) (prev_screen_width r) (display_visible r) v (initial_offset r) (lastoutput_length r) (lastoutput_buffer r) (format_segment_count r) (format r) (component r).

Definition set_initial_offset (v : Z) (r : display_t) : display_t :=
  mkDisplay (display_buffer r) (display_buffer_size r) (display_string_len r) (prev_screen_width r) (display_visible r) (percentage r) v (lastoutput_length r) (lastoutput_buffer r) (format_segment_count r) (format r) (component r).

Definition set_lastoutput_length (v : Z) (r : display_t) : display_t :=
  mkDisplay (display_buffer r) (display_buffer_size r) (display_string_len r) (prev_screen_width r) (display_visible r) (percentage r) (initial_offset r) v (lastoutput_buffer r) (format_segment_count r) (format r) (component r).

Definition set_lastoutput_buffer (v : list ascii) (r : display_t) : display_t :=
  mkDisplay (display_buffer r) (display_buffer_size r) (display_string_len r) (prev_screen_width r) (display_visible r) (percentage r) (initial_offset r) (lastoutput_length r) v (format_segment_count r) (format r) (component r).

Definition set_format_segment_count (v : Z) (r : display_t) : display_t :=
  mkDisplay (display_buffer r) (display_buffer_size r) (display_string_len r) (prev_screen_width r) (display_visible r) (percentage r) (initial_offset r) (lastoutput_length r) (lastoutput_buffer r) v (format r) (component r).

Definition set_format (v : list format_segment) (r : display_t) : display_t :=
  mkDisplay (display_buffer r) (display_buffer_size r) (display_string_len r) (prev_screen_width r) (display_visible r) (percentage r) (initial_offset r) (lastoutput_length r) (lastoutput_buffer r) (format_segment_count r) v (component r).

Definition set_component (v : pv_display_component -> display_component) (r : display_t) : display_t :=
  mkDisplay (display_buffer r) (display_buffer_size r) (display_string_len r) (prev_screen_width r) (display_visible r) (percentage r) (initial_offset r) (lastoutput_length r) (lastoutput_buffer r) (format_segment_count r) (format r) v.

Definition set_transfer_buffer (v : option (list ascii)) (r : transfer_t) : transfer_t :=
  mkTransfer v (buffer_size r) (read_position r) (write_position r) (last_read_skip_fd r) (read_errors_in_a_row r) (read_error_warning_shown r) (splice_failed_fd r) (splice_used r) (to_write r) (written r).

Definition set_buffer_size (v : Z) (r : transfer_t) : transfer_t :=
  mkTransfer (transfer_buffer r) v (read_position r) (write_position r) (last_read_skip_fd r) (read_errors_in_a_row r) (read_error_warning_shown r) (splice_failed_fd r) (splice_used r) (to_write r) (written r).

Definition set_read_position (v : Z) (r : transfer_t) : transfer_t :=
  mkTransfer (transfer_buffer r) (buffer_size r) v (write_position r) (last_read_skip_fd r) (read_errors_in_a_row r) (read_error_warning_shown r) (splice_failed_fd r) (splice_used r) (to_write r) (written r).

Definition set_write_position (v : Z) (r : transfer_t) : transfer_t :=
  mkTransfer (transfer_buffer r) (buffer_size r) (read_position r) v (last_read_skip_fd r) (read_errors_in_a_row r) (read_error_warning_shown r) (splice_failed_fd r) (splice_used r) (to_write r) (written r).

Definition set_last_read_skip_fd (v : Z) (r : transfer_t) : transfer_t :=
  mkTransfer (transfer_buffer r) (buffer_size r) (read_position r) (write_position r) v (read_errors_in_a_row r) (read_error_warning_shown r) (splice_failed_fd r) (splice_used r) (to_write r) (written r).

Definition set_read_errors_in_a_row (v : Z) (r : transfer_t) : transfer_t :=
  mkTransfer (transfer_buffer r) (buffer_size r) (read_position r) (write_position r) (last_read_skip_fd r) v (read_error_warning_shown r) (splice_failed_fd r) (splice_used r) (to_write r) (written r).

Definition set_read_error_warning_shown (v : bool) (r : transfer_t) : transfer_t :=
  mkTransfer (transfer_buffer r) (buffer_size r) (read_position r) (write_position r) (last_read_skip_fd r) (read_errors_in_a_row r) v (splice_failed_fd r) (splice_used r) (to_write r) (written r).

Definition set_splice_failed_fd (v : Z) (r : transfer_t) : transfer_t :=
  mkTransfer (transfer_buffer r) (buffer_size r) (read_position r) (write_position r) (last_read_skip_fd r) (read_errors_in_a_row r) (read_error_warning_shown r) v (splice_used r) (to_write r) (written r).

Definition set_splice_used (v : bool) (r : transfer_t) : transfer_t :=
  mkTransfer (transfer_buffer r) (buffer_size r) (read_position r) (write_position r) (last_read_skip_fd r) (read_errors_in_a_row r) (read_error_warning_shown r) (splice_failed_fd r) v (to_write r) (written r).

Definition set_to_write (v : Z) (r : transfer_t) : transfer_t :=
  mkTransfer (transfer_buffer r) (buffer_size r) (read_position r) (write_position r) (last_read_skip_fd r) (read_errors_in_a_row r) (read_error_warning_shown r) (splice_failed_fd r) (splice_used r) v (written r).

Definition set_written (v : Z) (r : transfer_t) : transfer_t :=
  mkTransfer (transfer_buffer r) (buffer_size r) (read_position r) (write_position r) (last_read_skip_fd r) (read_errors_in_a_row r) (read_error_warning_shown r) (splice_failed_fd r) (splice_used r) (to_write r) v.

Definition set_exit_status (v : Z) (r : pvstate) : pvstate :=
  mkState v (control r) (display r) (transfer r) (reported r).

Definition set_control (v : control_t) (r : pvstate) : pvstate :=
  mkState (exit_status r) v (display r) (transfer r) (reported r).

Definition set_display (v : display_t) (r : pvstate) : pvstate :=
  mkState (exit_status r) (control r) v (transfer r) (reported r).

Definition set_transfer (v : transfer_t) (r : pvstate) : pvstate :=
  mkState (exit_status r) (control r) (display r) v (reported r).

Definition set_reported (v : list string) (r : pvstate) : pvstate :=
  mkState (exit_status r) (control r) (display r) (transfer r) v.

Definition with_control (f : control_t -> control_t) (st : pvstate) : pvstate :=
  set_control (f (control st)) st.

Definition with_display (f : display_t -> display_t) (st : pvstate) : pvstate :=
  set_display (f (display st)) st.

Definition with_transfer (f : transfer_t -> transfer_t) (st : pvstate) : pvstate :=
  set_transfer (f (transfer st)) st.

(** [state->status.exit_status |= bit]. *)
Definition or_exit_status (bit : Z) (st : pvstate) : pvstate :=
  set_exit_status (Z.lor (exit_status st) bit) st.

(** [pv_error]: the message goes to standard error. *)
Definition pv_error (message : string) (st : pvstate) : pvstate :=
  set_reported (reported st ++ [message]) st.

(** [component[c] = v]. *)
Definition set_component_at (c : pv_display_component) (v : display_component)
    (table : pv_display_component -> display_component)
  : pv_display_component -> display_component :=
  fun c' => if component_eqb c c' then v else table c'.

End State.

(** ** display.c *)

Module Display.
Import CInt Number PvString State.

(** [pv__calc_percentage]: [so_far] and [total] are [off_t], the result
    an [int]. *)
Definition pv__calc_percentage (so_far total : Z) : Z :=
  if total <? 1 then 0
  else
    let so_far := wrap64 (so_far * 100) in
    let so_far := wrap64 (Z.quot so_far total) in
    wrap32 so_far.

(** [bound_long]. *)
Definition bound_long (x min max : Z) : Z :=
  if x <? min then min else if x >? max then max else x.

(** *** Pieces of the C library *)

(** The digits of a non-negative integer, most significant first. *)
Fixpoint decimal_digits (fuel : nat) (n : Z) (acc : list ascii) : list ascii :=
  match fuel with
  | O => acc
  | S fuel =>
      let d := ascii_of_nat (48 + Z.to_nat (n mod 10)) in
      if n <? 10 then d :: acc else decimal_digits fuel (n / 10) (d :: acc)
  end.

(** [printf("%ld", n)] for a 64-bit [n]. *)
Definition format_ld (n : Z) : list ascii :=
  if n <? 0 then "-"%char :: decimal_digits 20 (- n) []
  else decimal_digits 20 n [].

(** Right alignment to a minimum field width. *)
Definition pad_left (width : nat) (text : list ascii) : list ascii :=
  repeat " "%char (width - List.length text) ++ text.

(** [pv_snprintf(buf, size, fmt, ...)] where [text] is the expansion of the
    format. *)
Definition pv_snprintf_text (buf : list ascii) (size : Z) (text : list ascii)
  : list ascii :=
  match snd (pv_snprintf_str (Some buf) 0 size (-1) text) with
  | Some buf' => buf'
  | None => buf
  end.

(** [(void) pv_strlcat(buf, text, size)]. *)
Definition strlcat_into (buf : list ascii) (text : list ascii) (size : Z)
  : list ascii :=
  match snd (pv_strlcat (Some buf) (Some text) size) with
  | Some buf' => buf'
  | None => buf
  end.

(** [strncat(dst, src, n)], the destination being large enough. *)
Definition strncat (dst src : list ascii) (n : Z) : list ascii :=
  let chars := firstn (Z.to_nat n) (c_string src) in
  let at_pos := strlen dst in
  store (write_at dst at_pos chars) (at_pos + Z.of_nat (List.length chars)) NUL.

Definition is_space (c : ascii) : bool :=
  let n := char_code c in (n =? 32) || ((9 <=? n) && (n <=? 13)).

Fixpoint skip_spaces (s : list ascii) : nat * list ascii :=
  match s with
  | c :: rest =>
      if is_space c
      then let '(k, r) := skip_spaces rest in (S k, r)
      else (O, s)
  | [] => (O, [])
  end.

(** The digits of [strtoul]: the value saturates at [ULONG_MAX]. *)
Fixpoint strtoul_digits (acc : Z) (s : list ascii) : Z * nat :=
  match s with
  | c :: rest =>
      if pv__isdigit c
      then
        let acc := Z.min (acc * 10 + digit_value c) (2 ^ 64 - 1) in
        let '(v, k) := strtoul_digits acc rest in (v, S k)
      else (acc, O)
  | [] => (acc, O)
  end.

(** [strtoul(s, &end, 10)]: the value and the number of characters
    consumed, which is 0 when no digit is found. *)
Definition strtoul (s : list ascii) : Z * nat :=
  let '(blanks, s1) := skip_spaces s in
  let '(sign, negative, s2) :=
    match s1 with
    | c :: rest =>
        if Ascii.eqb c "-" then (1%nat, true, rest)
        else if Ascii.eqb c "+" then (1%nat, false, rest)
        else (O, false, s1)
    | [] => (O, false, s1)
    end in
  let '(v, k) := strtoul_digits 0 s2 in
  match k with
  | O => (0, O)
  | S _ =>
      let v := if negative && (v <? 2 ^ 64 - 1) then wrap_size (- v) else v in
      (v, (blanks + sign + k)%nat)
  end.

(** [strchr(s, '%')] as an offset, or [strlen(s)] when there is none. *)
Fixpoint literal_length (s : list ascii) : Z :=
  match s with
  | [] => 0
  | c :: rest =>
      if Ascii.eqb c NUL || Ascii.eqb c "%" then 0
      else 1 + literal_length rest
  end.

(** *** pv__format_init *)

Definition zero_component : display_component :=
  mkComponent false (repeat NUL (Z.to_nat PV_SIZEOF_COMPONENT_STR)) 0.

(** The [switch] on the character after the [%] and its numeric prefix:
    the segment type, its start and its length, and the new
    [lastoutput_length] for [%A]. *)
Definition format_directive (c : ascii) (number_prefix strpos : Z)
  : pv_display_component * Z * Z * option Z :=
  if Ascii.eqb c "p" then (PV_COMPONENT_PROGRESS, 0, 0, None)
  else if Ascii.eqb c "t" then (PV_COMPONENT_TIMER, 0, 0, None)
  else if Ascii.eqb c "e" then (PV_COMPONENT_ETA, 0, 0, None)
  else if Ascii.eqb c "I" then (PV_COMPONENT_FINETA, 0, 0, None)
  else if Ascii.eqb c "A" then
    let number_prefix :=
      if number_prefix >? PV_SIZEOF_LASTOUTPUT_BUFFER
      then PV_SIZEOF_LASTOUTPUT_BUFFER else number_prefix in
    let number_prefix := if number_prefix <? 1 then 1 else number_prefix in
    (PV_COMPONENT_OUTPUTBUF, 0, 0, Some number_prefix)
  else if Ascii.eqb c "r" then (PV_COMPONENT_RATE, 0, 0, None)
  else if Ascii.eqb c "a" then (PV_COMPONENT_AVERAGERATE, 0, 0, None)
  else if Ascii.eqb c "b" then (PV_COMPONENT_BYTES, 0, 0, None)
  else if Ascii.eqb c "T" then (PV_COMPONENT_BUFPERCENT, 0, 0, None)
  else if Ascii.eqb c "N" then (PV_COMPONENT_NAME, 0, 0, None)
  else if Ascii.eqb c "%" then (PV_COMPONENT_STRING, strpos, 1, None)
  else if Ascii.eqb c NUL then (PV_COMPONENT_STRING, strpos - 1, 1, None)
  else (PV_COMPONENT_STRING, strpos - 1, 2, None).

(** Recording one segment at the end of [display.format]. *)
Definition add_segment (seg_type : pv_display_component) (str_start str_length : Z)
    (d : display_t) : display_t :=
  let d :=
    match seg_type with
    | PV_COMPONENT_STRING => d
    | _ =>
        let old := component d seg_type in
        set_component
          (set_component_at seg_type
             (mkComponent true (content old) (content_length old))
             (component d)) d
    end in
  let d := set_format (format d ++ [mkSegment seg_type str_start str_length]) d in
  set_format_segment_count (format_segment_count d + 1) d.

(** The segment loop; [rest] is the format string from [strpos] on and
    [fuel] the number of free entries of the segment array.  The numeric
    prefix is read with [strtoul] ([HAVE_STRTOUL]). *)
Fixpoint format_segments (fuel : nat) (strpos : Z) (rest : list ascii)
    (d : display_t) : display_t :=
  match fuel with
  | O => d
  | S fuel =>
      match rest with
      | [] => d
      | c :: after =>
          if Ascii.eqb c NUL then d
          else if Ascii.eqb c "%" then
            let strpos := strpos + 1 in
            let '(number_prefix, consumed) := strtoul after in
            let after := skipn consumed after in
            if at_end after then d
            else
              let strpos := strpos + Z.of_nat consumed in
              let '(seg_type, str_start, str_length, lastoutput) :=
                format_directive (head_char after) number_prefix strpos in
              let d :=
                match lastoutput with
                | Some n => set_lastoutput_length n d
                | None => d
                end in
              let d := add_segment seg_type str_start str_length d in
              format_segments fuel (strpos + 1) (tl after) d
          else
            let foundlength := literal_length rest in
            let d := add_segment PV_COMPONENT_STRING strpos foundlength d in
            format_segments fuel (strpos + foundlength)
              (skipn (Z.to_nat foundlength) rest) d
      end
  end.

(** [formatstr = format_string ? format_string : default_format]; the
    default format is an array, so the result is never NULL. *)
Definition formatstr (c : control_t) : list ascii :=
  match format_string c with
  | Some f => f
  | None => default_format c
  end.

(** [pv__format_init]. *)
Definition pv__format_init (st : pvstate) : pvstate :=
  let d := display st in
  let d := set_format_segment_count 0 d in
  let d := set_format [] d in
  let d := set_component (fun _ => zero_component) d in
  let d :=
    match name (control st) with
    | Some n =>
        let text := pad_left 9 (firstn 500 (c_string n)) ++ [":"%char] in
        let buf := pv_snprintf_text (content zero_component)
                     PV_SIZEOF_COMPONENT_STR text in
        set_component
          (set_component_at PV_COMPONENT_NAME
             (mkComponent false buf (strlen buf)) (component d)) d
    | None => d
    end in
  let d := format_segments PV_FORMAT_ARRAY_MAX 0 (formatstr (control st)) d in
  set_display d st.

(** *** pv__format *)

(** What [pv__format] takes from outside the model: the floating-point
    rate, the allocator, and the text that the [switch] case of each
    component prints with [printf], [strftime] and the clock. *)
Record render_env : Type := mkEnv {
  rate_positive : bool;
  display_alloc_ok : bool;
  component_text : pv_display_component -> list ascii;
  numeric_prefix : list ascii
}.

(** The percentage update at the head of [pv__format]. *)
Definition update_percentage (env : render_env) (total_bytes : Z)
    (st : pvstate) : pvstate :=
  let d := display st in
  if size (control st) <=? 0
  then
    let p := percentage d in
    let p := if rate_positive env then wrap32 (p + 2) else p in
    let p := if p >? 199 then 0 else p in
    set_display (set_percentage p d) st
  else if numeric (control st) || required (component d PV_COMPONENT_PROGRESS)
  then
    set_display
      (set_percentage (pv__calc_percentage total_bytes (size (control st))) d)
      st
  else st.

(** Freeing and allocating the display buffer.  [None] is returned when
    [malloc] fails.  Fresh memory is taken to be zero-filled. *)
Definition ensure_display_buffer (env : render_env) (st : pvstate)
  : option pvstate :=
  let d := display st in
  let w := width (control st) in
  let d :=
    match display_buffer d with
    | Some _ =>
        if display_buffer_size d <? wrap_uint (w * 2)
        then set_display_buffer_size 0 (set_display_buffer None d)
        else d
    | None => d
    end in
  match display_buffer d with
  | Some _ => Some (set_display d st)
  | None =>
      let new_size := wrap_uint (wrap_uint (2 * w) + 80) in
      let new_size :=
        match name (control st) with
        | Some n => wrap_size (new_size + strlen n)
        | None => new_size
        end in
      if display_alloc_ok env
      then
        let buf := repeat NUL (Z.to_nat (wrap_size (new_size + 16))) in
        let d := set_display_buffer (Some (store buf 0 NUL)) d in
        let d := set_display_buffer_size new_size d in
        Some (set_display d st)
      else None
  end.

(** The output of numeric mode. *)
Definition numeric_output (env : render_env) (total_bytes : Z) (st : pvstate)
  : pvstate :=
  let d := display st in
  let numericprefix :=
    if required (component d PV_COMPONENT_TIMER)
    then firstn 127 (numeric_prefix env) else [] in
  let value :=
    if required (component d PV_COMPONENT_BYTES)
    then if bits (control st) then wrap64 (8 * total_bytes) else total_bytes
    else percentage d in
  let text := firstn 99 numericprefix ++ format_ld value ++ ["010"%char] in
  match display_buffer d with
  | Some buf =>
      let buf := pv_snprintf_text buf (display_buffer_size d) text in
      set_display
        (set_display_string_len (strlen buf) (set_display_buffer (Some buf) d))
        st
  | None => st
  end.

(** One round of the loop over the components. *)
Definition render_component (env : render_env) (c : pv_display_component)
    (st : pvstate) : pvstate :=
  let d := display st in
  let comp := component d c in
  if negb (required comp) then st
  else if (size (control st) <? 1)
          && (component_eqb c PV_COMPONENT_ETA
              || component_eqb c PV_COMPONENT_FINETA)
  then
    let comp := mkComponent true (store (content comp) 0 NUL) 0 in
    set_display (set_component (set_component_at c comp (component d)) d) st
  else
    let buf := store (content comp) 0 NUL in
    let buf :=
      match c with
      | PV_COMPONENT_STRING | PV_COMPONENT_PROGRESS => buf
      | _ => pv_snprintf_text buf PV_SIZEOF_COMPONENT_STR (component_text env c)
      end in
    let comp := mkComponent true buf (strlen buf) in
    set_display (set_component (set_component_at c comp (component d)) d) st.

(** The width taken by everything but the progress bar, an [int]. *)
Definition static_portion (d : display_t) : Z :=
  fold_left
    (fun acc seg =>
       match seg_type seg with
       | PV_COMPONENT_STRING => wrap32 (acc + str_length seg)
       | PV_COMPONENT_PROGRESS => acc
       | c => wrap32 (acc + content_length (component d c))
       end)
    (firstn (Z.to_nat (format_segment_count d)) (format d)) 0.

(** [for (; i < hi; i++) body(i)], returning the final [i]. *)
Fixpoint for_loop {A : Type} (fuel : nat) (i hi : Z) (body : Z -> A -> A)
    (a : A) : Z * A :=
  match fuel with
  | O => (i, a)
  | S fuel =>
      if i <? hi then for_loop fuel (i + 1) hi body (body i a) else (i, a)
  end.

Definition clamp_width (available_width : Z) : Z :=
  let available_width := if available_width <? 0 then 0 else available_width in
  if available_width >? PV_SIZEOF_COMPONENT_STR - 16
  then PV_SIZEOF_COMPONENT_STR - 16 else available_width.

(** The progress bar of a transfer of known size; also the clamp of the
    percentage to [0, 100000]. *)
Definition known_size_bar (static_portion_size : Z) (buf : list ascii)
    (st : pvstate) : list ascii * pvstate :=
  let p := percentage (display st) in
  let p := if p <? 0 then 0 else p in
  let p := if p >? 100000 then 100000 else p in
  let st := with_display (set_percentage p) st in
  let pct :=
    pv_snprintf_text (repeat NUL 16) 16
      (pad_left 3 (format_ld p) ++ ["%"%char]) in
  let pct_width := strlen pct in
  let available_width :=
    clamp_width (wrap32 (wrap32 (wrap32 (width (control st))
                                 - static_portion_size)
                         - wrap32 pct_width) - 3) in
  let bar_length := wrap32 (Z.quot (wrap32 (available_width * p)) 100 - 1) in
  let size := PV_SIZEOF_COMPONENT_STR in
  let '(pad_count, buf) :=
    for_loop (Z.to_nat bar_length) 0 bar_length
      (fun pad_count buf =>
         if pad_count <? available_width
         then strlcat_into buf ["="%char] size else buf) buf in
  let '(pad_count, buf) :=
    if pad_count <? available_width
    then (pad_count + 1, strlcat_into buf [">"%char] size)
    else (pad_count, buf) in
  let '(_, buf) :=
    for_loop (Z.to_nat (available_width - pad_count)) pad_count available_width
      (fun _ buf => strlcat_into buf [" "%char] size) buf in
  let buf := strlcat_into buf ["]"%char; " "%char] size in
  (strlcat_into buf (c_string pct) size, st).

(** The moving indicator of a transfer of unknown size. *)
Definition unknown_size_bar (static_portion_size : Z) (buf : list ascii)
    (st : pvstate) : list ascii :=
  let indicator_position := percentage (display st) in
  let available_width :=
    clamp_width (wrap32 (wrap32 (wrap32 (width (control st))
                                 - static_portion_size) - 5)) in
  let indicator_position :=
    if indicator_position >? 100 then 200 - indicator_position
    else indicator_position in
  let before := Z.quot (wrap32 (available_width * indicator_position)) 100 in
  let size := PV_SIZEOF_COMPONENT_STR in
  let '(pad_count, buf) :=
    for_loop (Z.to_nat before) 0 before
      (fun pad_count buf =>
         if pad_count <? available_width
         then strlcat_into buf [" "%char] size else buf) buf in
  let buf := strlcat_into buf ["<"%char; "="%char; ">"%char] size in
  let '(_, buf) :=
    for_loop (Z.to_nat (available_width - pad_count)) pad_count available_width
      (fun _ buf => strlcat_into buf [" "%char] size) buf in
  strlcat_into buf ["]"%char] size.

(** The assembly of the progress bar, dropped when it does not fit. *)
Definition render_progress (static_portion_size : Z) (st : pvstate) : pvstate :=
  let d := display st in
  let comp := component d PV_COMPONENT_PROGRESS in
  if negb (required comp) then st
  else
    let buf := store (content comp) 0 NUL in
    let buf := pv_snprintf_text buf PV_SIZEOF_COMPONENT_STR ["["%char] in
    let '(buf, st) :=
      if size (control st) >? 0
      then known_size_bar static_portion_size buf st
      else (unknown_size_bar static_portion_size buf st, st) in
    let len := strlen buf in
    let '(buf, len) :=
      if wrap_uint (len + static_portion_size) >? width (control st)
      then (store buf 0 NUL, 0)
      else (buf, len) in
    with_display
      (fun d =>
         set_component
           (set_component_at PV_COMPONENT_PROGRESS (mkComponent true buf len)
              (component d)) d) st.

(** The loop that appends the segments to the display buffer; it stops
    at the first segment that does not fit. *)
Fixpoint append_segments (segments : list format_segment)
    (fmt : list ascii) (d : display_t) (w : Z)
    (buf : list ascii) (new_display_string_len : Z) : list ascii * Z :=
  match segments with
  | [] => (buf, new_display_string_len)
  | seg :: segments =>
      let '(segment_content, segment_length) :=
        match seg_type seg with
        | PV_COMPONENT_STRING =>
            (skipn (Z.to_nat (str_start seg)) fmt, str_length seg)
        | c => (content (component d c), content_length (component d c))
        end in
      if segment_length =? 0
      then append_segments segments fmt d w buf new_display_string_len
      else
        let segment_length :=
          if wrap_size (segment_length + new_display_string_len)
             >? wrap_size (display_buffer_size d - 2)
          then wrap_size (wrap_size (display_buffer_size d
                                     - new_display_string_len) - 2)
          else segment_length in
        if segment_length <? 1 then (buf, new_display_string_len)
        else if wrap_uint (segment_length + new_display_string_len) >? w
        then (buf, new_display_string_len)
        else
          append_segments segments fmt d w
            (strncat buf segment_content segment_length)
            (wrap_size (new_display_string_len + segment_length))
  end.

(** [memset(buf, 0, n)]. *)
Definition zero_fill (buf : list ascii) (n : Z) : list ascii :=
  write_at buf 0 (repeat NUL (Z.to_nat n)).

(** The first half of the formatted mode: every component but the bar,
    then the bar in the room that is left. *)
Definition render_all (env : render_env) (st : pvstate) : pvstate :=
  let st :=
    fold_left (fun st c => render_component env c st) all_components st in
  render_progress (static_portion (display st)) st.

(** The second half: the segments are put together in the display
    buffer, and a line shorter than the previous one is padded with up to
    15 spaces. *)
Definition assemble_line (st : pvstate) : pvstate :=
  let d := display st in
  match display_buffer d with
  | None => st
  | Some buf =>
      let buf := zero_fill buf (display_buffer_size d) in
      let '(buf, _) :=
        append_segments
          (firstn (Z.to_nat (format_segment_count d)) (format d))
          (formatstr (control st)) d (width (control st)) buf 0 in
      let new_display_string_len := strlen buf in
      let '(buf, new_display_string_len) :=
        if (new_display_string_len <? display_string_len d)
           && (width (control st) >=? prev_screen_width d)
        then
          let spaces_to_add :=
            wrap32 (wrap_size (display_string_len d
                               - new_display_string_len)) in
          let spaces_to_add :=
            if spaces_to_add >? 15 then 15 else spaces_to_add in
          (strlcat_into buf
             (repeat " "%char (Z.to_nat spaces_to_add))
             (display_buffer_size d),
           wrap_size (new_display_string_len + spaces_to_add))
        else (buf, new_display_string_len) in
      let d := set_display_buffer (Some buf) d in
      let d := set_display_string_len new_display_string_len d in
      let d := set_prev_screen_width (width (control st)) d in
      set_display d st
  end.

(** [pv__format]: its boolean result and the state it leaves. *)
Definition pv__format (env : render_env) (bytes_since_last total_bytes : Z)
    (st : pvstate) : bool * pvstate :=
  if total_bytes <? 0
  then
    (false,
     with_display
       (fun d => set_display_buffer_size 0 (set_display_buffer None d)) st)
  else
    let st := update_percentage env total_bytes st in
    match ensure_display_buffer env st with
    | None =>
        let st := pv_error "buffer allocation failed" st in
        let st := or_exit_status 64 st in
        (false, with_display (set_display_buffer None) st)
    | Some st =>
        if numeric (control st)
        then (true, numeric_output env total_bytes st)
        else (true, assemble_line (render_all env st))
    end.

(** The text on the terminal line after an update: the C string held in
    the display buffer. *)
Definition display_line (st : pvstate) : list ascii :=
  match display_buffer (display st) with
  | Some buf => c_string buf
  | None => []
  end.

(** The text of a component after an update. *)
Definition component_string (c : pv_display_component) (st : pvstate)
  : list ascii :=
  c_string (content (component (display st) c)).

(** The reading of the specification under which a component of unknown
    ETA is kept as blank columns: its text is a non-empty run of spaces. *)
Definition rendered_as_spaces (c : pv_display_component) (st : pvstate) : Prop :=
  exists n : nat,
    (0 < n)%nat /\ component_string c st = repeat " "%char n
    /\ content_length (component (display st) c) = Z.of_nat n.

(** The bound the specification puts on the working percentage. *)
Definition percentage_in_spec_range (st : pvstate) : Prop :=
  if size (control st) >? 0
  then 0 <= percentage (display st) <= 100
  else 0 <= percentage (display st) < 200.

End Display.

(** ** The operating system seen by the transfer engine *)

Module OS.
Import CInt Number PvString State.

(** The [errno] values the engine tells apart; [EOTHER] stands for every
    other error. *)
Inductive errno : Type :=
| EINTR | EAGAIN | EINVAL | EPIPE | EIO | ESPIPE | EOTHER.

Definition errno_eqb (a b : errno) : bool :=
  match a, b with
  | EINTR, EINTR | EAGAIN, EAGAIN | EINVAL, EINVAL | EPIPE, EPIPE
  | EIO, EIO | ESPIPE, ESPIPE | EOTHER, EOTHER => true
  | _, _ => false
  end.

(** The current input file and standard output.  [inflow] is the record
    of every byte that [read] or [splice] has taken from the inputs, in
    order; [stdout] of every byte standard output has accepted. *)
Record world_t : Type := mkWorld {
  input : list ascii;
  offset : Z;
  seekable : bool;
  stdout : list ascii;
  inflow : list ascii
}.

(** The outcome the kernel chooses for a transfer call: a failure, or the
    most it is willing to move this time. *)
Inductive io_result : Type :=
| Transferred (want : nat)
| Failed (e : errno).

(** The outcome of [select]. *)
Inductive select_outcome : Type :=
| SelectFailed (e : errno)
| SelectReturned (readable writable : bool).

(** One round of [pv__transfer_read_repeated]: the result of [read],
    whether the 0.09 s allowance has run out afterwards, and whether the
    descriptor is readable again. *)
Record read_step : Type := mkReadStep {
  r_result : io_result;
  r_expired : bool;
  r_more : bool
}.

(** One round of [pv__transfer_write_repeated]: the result of [write],
    whether the following [fdatasync] fails with [EIO], and whether the
    0.9 s allowance has run out. *)
Record write_step : Type := mkWriteStep {
  w_result : io_result;
  w_sync_eio : bool;
  w_expired : bool
}.

(** Everything the kernel decides during one call of [pv_transfer]. *)
Record os_call : Type := mkOs {
  alloc_ok : bool;
  realloc_ok : bool;
  select_res : select_outcome;
  splice_res : io_result;
  splice_sync_eio : bool;
  reads : list read_step;
  seek_first : option errno;
  seek_retry : option errno;
  alarm_ok : bool;
  writes : list write_step
}.

(** The rounds the kernel's list does not reach: one [read] that delivers
    a byte if there is one, one [write] that takes a byte, and the allowance is
    over. *)
Definition default_read_step : read_step :=
  mkReadStep (Transferred 0) true false.

Definition default_write_step : write_step :=
  mkWriteStep (Transferred 1) false true.

(** [buf[from .. from + len)]. *)
Definition slice (buf : list ascii) (from len : Z) : list ascii :=
  firstn (Z.to_nat len) (skipn (Z.to_nat from) buf).

(** The bytes of the input that lie at and after the file offset. *)
Definition unread (w : world_t) : list ascii :=
  skipn (Z.to_nat (offset w)) (input w).

(** [read(fd, ..., request)] when it succeeds: at least one byte is
    delivered unless the input is exhausted or nothing is asked for. *)
Definition os_read (w : world_t) (request : Z) (want : nat)
  : list ascii * world_t :=
  let n := Z.min (Z.max 1 (Z.of_nat want)) request in
  let data := firstn (Z.to_nat n) (unread w) in
  (data,
   mkWorld (input w) (offset w + Z.of_nat (List.length data)) (seekable w)
     (stdout w) (inflow w ++ data)).

(** [write(STDOUT_FILENO, data, request)] when it succeeds. *)
Definition os_write (w : world_t) (data : list ascii) (request : Z) (want : nat)
  : Z * world_t :=
  let n := Z.min (Z.of_nat want) request in
  let accepted := firstn (Z.to_nat n) data in
  (Z.of_nat (List.length accepted),
   mkWorld (input w) (offset w) (seekable w) (stdout w ++ accepted) (inflow w)).

(** [splice(fd, NULL, STDOUT_FILENO, NULL, request, ...)] when it
    succeeds: the bytes go from the input to standard output. *)
Definition os_splice (w : world_t) (request : Z) (want : nat) : Z * world_t :=
  let n := Z.min (Z.of_nat want) request in
  let data := firstn (Z.to_nat n) (unread w) in
  (Z.of_nat (List.length data),
   mkWorld (input w) (offset w + Z.of_nat (List.length data)) (seekable w)
     (stdout w ++ data) (inflow w ++ data)).

(** [lseek(fd, 0, SEEK_CUR)]. *)
Definition os_tell (w : world_t) : Z :=
  if seekable w then offset w else -1.

(** [lseek(fd, target, SEEK_SET)]: the kernel's verdict comes with the
    call. *)
Definition os_seek (w : world_t) (target : Z) (verdict : option errno)
  : Z * world_t :=
  match verdict with
  | Some _ => (-1, w)
  | None =>
      (target,
       mkWorld (input w) target (seekable w) (stdout w) (inflow w))
  end.

End OS.

(** ** transfer.c *)

Module Transfer.
Import CInt Number PvString State OS.

(** The state record together with what [pv_main_loop] hands to
    [pv_transfer] by pointer, and the world outside. *)
Record machine : Type := mkMachine {
  state : pvstate;
  world : world_t;
  eof_in : bool;
  eof_out : bool;
  lineswritten : option Z
}.

Definition set_state (v : pvstate) (m : machine) : machine :=
  mkMachine v (world m) (eof_in m) (eof_out m) (lineswritten m).

Definition set_world (v : world_t) (m : machine) : machine :=
  mkMachine (state m) v (eof_in m) (eof_out m) (lineswritten m).

Definition set_eof_in (v : bool) (m : machine) : machine :=
  mkMachine (state m) (world m) v (eof_out m) (lineswritten m).

Definition set_eof_out (v : bool) (m : machine) : machine :=
  mkMachine (state m) (world m) (eof_in m) v (lineswritten m).

Definition set_lineswritten (v : option Z) (m : machine) : machine :=
  mkMachine (state m) (world m) (eof_in m) (eof_out m) v.

Definition on_state (f : pvstate -> pvstate) (m : machine) : machine :=
  set_state (f (state m)) m.

Definition on_transfer (f : transfer_t -> transfer_t) (m : machine) : machine :=
  on_state (with_transfer f) m.

Definition STDOUT_FILENO : Z := 1.

(** The bytes of the transfer buffer; nothing when it is not allocated. *)
Definition buffer_of (t : transfer_t) : list ascii :=
  match transfer_buffer t with
  | Some buf => buf
  | None => []
  end.

(** The new contents of the buffer, when there is one. *)
Definition store_buffer (buf : list ascii) (t : transfer_t) : transfer_t :=
  match transfer_buffer t with
  | Some _ => set_transfer_buffer (Some buf) t
  | None => t
  end.

(** The bytes read into the buffer and not yet written. *)
Definition pending (t : transfer_t) : list ascii :=
  slice (buffer_of t) (write_position t) (read_position t - write_position t).

(** [is_data_ready]: the result of [select], the two readiness flags and
    the [errno] of a failure. *)
Definition is_data_ready (sel : select_outcome) (fd_in fd_out : Z)
  : Z * bool * bool * option errno :=
  match sel with
  | SelectFailed e => (-1, false, false, Some e)
  | SelectReturned readable writable =>
      let r := readable && (0 <=? fd_in) in
      let w := writable && (0 <=? fd_out) in
      ((if r then 1 else 0) + (if w then 1 else 0), r, w, None)
  end.

(** [pv__transfer_read_repeated]: the return value, the [errno] of a
    failed [read], the buffer and the world.  [at_pos] is where [buf]
    points in the transfer buffer.  Every round but the last delivers at
    least one byte, so [count] rounds of fuel are enough. *)
Fixpoint pv__transfer_read_repeated (fuel : nat) (steps : list read_step)
    (buf : list ascii) (at_pos count total_read : Z) (w : world_t)
  : Z * option errno * list ascii * world_t :=
  match fuel with
  | O => (total_read, None, buf, w)
  | S fuel =>
      if count >? 0
      then
        let step := hd default_read_step steps in
        match r_result step with
        | Failed e => (-1, Some e, buf, w)
        | Transferred want =>
            let request :=
              if count >? MAX_READ_AT_ONCE then MAX_READ_AT_ONCE else count in
            let '(data, w) := os_read w request want in
            let nread := Z.of_nat (List.length data) in
            let buf := write_at buf at_pos data in
            let total_read := wrap64 (total_read + nread) in
            let at_pos := at_pos + nread in
            let count := wrap_size (count - nread) in
            if nread =? 0 then (total_read, None, buf, w)
            else if r_expired step then (total_read, None, buf, w)
            else if (count >? 0) && negb (r_more step)
            then (total_read, None, buf, w)
            else
              pv__transfer_read_repeated fuel (tl steps) buf at_pos count
                total_read w
        end
      else (total_read, None, buf, w)
  end.

(** [pv__transfer_write_repeated]: the return value, the [errno] of a
    failure and the world.  [data] holds the [count] bytes to write. *)
Fixpoint pv__transfer_write_repeated (fuel : nat) (steps : list write_step)
    (sync_after_write : bool) (data : list ascii) (count total_written : Z)
    (w : world_t) : Z * option errno * world_t :=
  match fuel with
  | O => (total_written, None, w)
  | S fuel =>
      if count >? 0
      then
        let step := hd default_write_step steps in
        let asked_to_write :=
          if count >? MAX_WRITE_AT_ONCE then MAX_WRITE_AT_ONCE else count in
        match w_result step with
        | Failed e =>
            if errno_eqb e EINTR || errno_eqb e EAGAIN
            then (total_written, Some e, w)
            else (-1, Some e, w)
        | Transferred want =>
            let '(nwritten, w) := os_write w data asked_to_write want in
            if sync_after_write && w_sync_eio step then (-1, Some EIO, w)
            else
              let total_written := wrap64 (total_written + nwritten) in
              let data := skipn (Z.to_nat nwritten) data in
              let count := wrap_size (count - nwritten) in
              if nwritten =? 0 then (total_written, None, w)
              else if w_expired step then (total_written, None, w)
              else
                pv__transfer_write_repeated fuel (tl steps) sync_after_write
                  data count total_written w
        end
      else (total_written, None, w)
  end.

(** [*eof_in = true; if (write_position >= read_position) *eof_out = true;] *)
Definition input_ended (m : machine) : machine :=
  let m := set_eof_in true m in
  let t := transfer (state m) in
  if write_position t >=? read_position t then set_eof_out true m else m.

(** The skip distance before rounding: the configured block, or the
    adaptive schedule on the number of errors in a row. *)
Definition skip_distance (c : control_t) (read_errors_in_a_row : Z) : Z :=
  if error_skip_block c >? 0 then error_skip_block c
  else if read_errors_in_a_row <? 10
  then (if read_errors_in_a_row <? 5 then 1 else 2)
  else if read_errors_in_a_row <? 20
  then
    let shift_by := wrap_uint (read_errors_in_a_row - 10) in
    wrap32 (Z.shiftl 1 shift_by)
  else 512.

(** The rounding of the target down to a multiple of the skip distance. *)
Definition round_skip (orig_offset amount_to_skip : Z) : Z :=
  if amount_to_skip >? 1
  then
    let skip_offset := wrap64 (orig_offset + amount_to_skip) in
    let skip_offset :=
      wrap64 (skip_offset - Z.rem skip_offset amount_to_skip) in
    if skip_offset >? orig_offset
    then wrap64 (skip_offset - orig_offset)
    else amount_to_skip
  else amount_to_skip.

(** The attempt to move data with [splice]: the value of [nread], the
    [errno], whether errors may still be skipped, and the machine. *)
Definition splice_phase (os : os_call) (fd allowed bytes_can_read : Z)
    (do_not_skip_errors : bool) (m : machine)
  : Z * option errno * bool * machine :=
  let c := control (state m) in
  let t := transfer (state m) in
  let m := on_transfer (set_splice_used false) m in
  if negb (linemode c) && negb (no_splice c)
     && negb (fd =? splice_failed_fd t) && (to_write t =? 0)
  then
    let bytes_to_splice :=
      if (rate_limit c >? 0) || negb (allowed =? 0)
      then wrap_size allowed else bytes_can_read in
    match splice_res os with
    | Failed e =>
        if errno_eqb e EINVAL
        then
          (-1, Some e, do_not_skip_errors,
           on_transfer (set_splice_failed_fd fd) m)
        else if errno_eqb e EAGAIN
        then (-1, Some e, do_not_skip_errors,
              on_transfer (set_splice_used true) m)
        else (-1, Some e, do_not_skip_errors, m)
    | Transferred want =>
        let '(nread, w) := os_splice (world m) bytes_to_splice want in
        let m := set_world w m in
        if nread >? 0
        then
          let m := on_transfer (set_splice_used true) m in
          let m := on_transfer (set_written nread) m in
          if sync_after_write c && splice_sync_eio os
          then (-1, Some EIO, true, m)
          else (nread, None, do_not_skip_errors, m)
        else (nread, None, do_not_skip_errors, m)
    end
  else (0, None, do_not_skip_errors, m).

(** The recovery from a read error that is not transient. *)
Definition skip_read_error (os : os_call) (err : option errno)
    (bytes_can_read : Z) (m : machine) : machine :=
  let m :=
    if read_error_warning_shown (transfer (state m)) then m
    else
      let m := on_state (pv_error "warning: read errors detected") m in
      on_transfer (set_read_error_warning_shown true) m in
  let orig_offset := os_tell (world m) in
  if 0 >? orig_offset
  then input_ended (on_state (pv_error "file is not seekable") m)
  else
    let c := control (state m) in
    let t := transfer (state m) in
    let amount_to_skip := skip_distance c (read_errors_in_a_row t) in
    let amount_to_skip := round_skip orig_offset amount_to_skip in
    let amount_to_skip :=
      if amount_to_skip >? wrap64 bytes_can_read
      then wrap64 bytes_can_read else amount_to_skip in
    let '(skip_offset, w) :=
      os_seek (world m) (wrap64 (orig_offset + amount_to_skip))
        (seek_first os) in
    let '(skip_offset, w, err) :=
      if skip_offset <? 0
      then
        let '(skip_offset, w) :=
          os_seek w (wrap64 (orig_offset + 1)) (seek_retry os) in
        (skip_offset, w,
         if skip_offset <? 0 then seek_retry os else seek_first os)
      else (skip_offset, w, err) in
    let m := set_world w m in
    let '(amount_skipped, m) :=
      if skip_offset <? 0
      then
        let m := set_eof_in true m in
        (-1,
         match err with
         | Some EINVAL => m
         | _ => on_state (pv_error "failed to seek past error") m
         end)
      else (wrap64 (skip_offset - orig_offset), m) in
    if amount_skipped >? 0
    then
      let t := transfer (state m) in
      let buf :=
        write_at (buffer_of t) (read_position t)
          (repeat NUL (Z.to_nat (wrap_size amount_skipped))) in
      let m := on_transfer (store_buffer buf) m in
      let m :=
        on_transfer
          (set_read_position (wrap_size (read_position t + amount_skipped)))
          m in
      if skip_errors c <? 2
      then on_state (pv_error "skipped past read error") m
      else m
    else input_ended m.

(** [pv__transfer_read]. *)
Definition pv__transfer_read (os : os_call) (fd allowed : Z) (m : machine)
  : Z * machine :=
  let c := control (state m) in
  let t := transfer (state m) in
  let do_not_skip_errors := skip_errors c =? 0 in
  let bytes_can_read := wrap_size (buffer_size t - read_position t) in
  let '(nread, err, do_not_skip_errors, m) :=
    splice_phase os fd allowed bytes_can_read do_not_skip_errors m in
  let '(nread, err, m) :=
    if splice_used (transfer (state m)) then (nread, err, m)
    else
      let t := transfer (state m) in
      let '(nread, err, buf, w) :=
        pv__transfer_read_repeated (Z.to_nat bytes_can_read) (reads os)
          (buffer_of t) (read_position t) bytes_can_read 0 (world m) in
      let m := set_world w m in
      (nread, err, on_transfer (store_buffer buf) m) in
  if nread =? 0 then (1, input_ended m)
  else if nread >? 0
  then
    let m := on_transfer (set_read_errors_in_a_row 0) m in
    let t := transfer (state m) in
    let m :=
      if splice_used t then m
      else on_transfer
             (set_read_position (wrap_size (read_position t + nread))) m in
    (1, m)
  else
    match err with
    | Some EINTR | Some EAGAIN => (0, m)
    | _ =>
        let m := on_state (or_exit_status 16) m in
        let t := transfer (state m) in
        let m :=
          on_transfer
            (set_read_errors_in_a_row (wrap64 (read_errors_in_a_row t + 1)))
            m in
        if do_not_skip_errors
        then (1, input_ended (on_state (pv_error "read failed") m))
        else (1, skip_read_error os err bytes_can_read m)
    end.

(** The number of [separator] bytes in [data]. *)
Definition count_lines (separator : ascii) (data : list ascii) : Z :=
  Z.of_nat (List.length (filter (Ascii.eqb separator) data)).

(** The update of the copy of the last bytes written, kept for [%A]. *)
Definition update_lastoutput (nwritten : Z) (st : pvstate) : pvstate :=
  let d := display st in
  let t := transfer st in
  if required (component d PV_COMPONENT_OUTPUTBUF) && (nwritten >? 0)
  then
    let new_portion_length :=
      if nwritten >? lastoutput_length d then lastoutput_length d
      else nwritten in
    let old_portion_length :=
      wrap_size (lastoutput_length d - new_portion_length) in
    let lob := lastoutput_buffer d in
    let lob :=
      if old_portion_length >? 0
      then write_at lob 0 (slice lob new_portion_length old_portion_length)
      else lob in
    let lob :=
      write_at lob old_portion_length
        (slice (buffer_of t)
           (wrap_size (write_position t - new_portion_length))
           new_portion_length) in
    set_display (set_lastoutput_buffer lob d) st
  else st.

(** [pv__transfer_write]. *)
Definition pv__transfer_write (os : os_call) (m : machine) : Z * machine :=
  let c := control (state m) in
  let t := transfer (state m) in
  match transfer_buffer t with
  | None =>
      let m := on_state (pv_error "no transfer buffer allocated") m in
      let m := on_state (or_exit_status 64) m in
      let m := set_eof_out true m in
      (1, on_transfer (set_written (-1)) m)
  | Some buf =>
      let '(nwritten, err, m) :=
        if discard_input c then (to_write t, None, m)
        else if to_write t >? 0
        then
          let m :=
            if alarm_ok os then m
            else on_state (pv_error "failed to set alarm signal handler") m in
          let '(nwritten, err, w) :=
            pv__transfer_write_repeated (Z.to_nat (to_write t)) (writes os)
              (sync_after_write c)
              (slice buf (write_position t) (to_write t))
              (wrap_size (to_write t)) 0 (world m) in
          (nwritten, err, set_world w m)
        else (0, None, m) in
      if nwritten =? 0 then (1, set_eof_out true m)
      else if nwritten >? 0
      then
        let m :=
          match lineswritten m with
          | Some lw =>
              if linemode c
              then
                let separator :=
                  if null_terminated_lines c then NUL else "010"%char in
                let lines :=
                  count_lines separator
                    (slice buf (write_position t) nwritten) in
                set_lineswritten (Some (wrap64 (lw + lines))) m
              else m
          | None => m
          end in
        let m :=
          on_transfer
            (set_write_position (wrap_size (write_position t + nwritten))) m in
        let m :=
          on_transfer (set_written (wrap64 (written t + nwritten))) m in
        let m := on_state (update_lastoutput nwritten) m in
        let t := transfer (state m) in
        let m :=
          if write_position t >=? read_position t
          then
            let m := on_transfer (set_write_position 0) m in
            let m := on_transfer (set_read_position 0) m in
            if eof_in m then set_eof_out true m else m
          else m in
        (1, m)
      else
        match err with
        | Some EINTR | Some EAGAIN => (0, m)
        | Some EPIPE => (0, set_eof_out true (set_eof_in true m))
        | _ =>
            let m := on_state (pv_error "write failed") m in
            let m := on_state (or_exit_status 16) m in
            let m := set_eof_out true m in
            (1, on_transfer (set_written (-1)) m)
        end
  end.

(** [pv__allocate_aligned_buffer]: fresh memory, zero-filled. *)
Definition pv__allocate_aligned_buffer (ok : bool) (target_size : Z)
  : option (list ascii) :=
  if ok then Some (repeat NUL (Z.to_nat target_size)) else None.

(** The last-newline restriction of line mode. *)
Definition line_mode_truncation (m : machine) : machine :=
  let c := control (state m) in
  let t := transfer (state m) in
  if (to_write t >? 0) && linemode c && negb (null_terminated_lines c)
  then
    let region := slice (buffer_of t) (write_position t) (to_write t) in
    match pv_memrchr region "010"%char with
    | Some end_offset =>
        on_transfer (set_to_write (wrap64 (end_offset + 1))) m
    | None => m
    end
  else m.

(** The rotation that brings the unwritten bytes back to offset zero
    ([MAXIMISE_BUFFER_FILL]). *)
Definition maximise_buffer_fill (m : machine) : machine :=
  let t := transfer (state m) in
  if write_position t >? 0
  then
    if write_position t <? read_position t
    then
      let buf :=
        write_at (buffer_of t) 0
          (slice (buffer_of t) (write_position t)
             (wrap_size (read_position t - write_position t))) in
      let m := on_transfer (store_buffer buf) m in
      let m :=
        on_transfer
          (set_read_position (wrap_size (read_position t - write_position t)))
          m in
      on_transfer (set_write_position 0) m
    else
      let m := on_transfer (set_write_position 0) m in
      on_transfer (set_read_position 0) m
  else m.

(** The allocation and the growth of the transfer buffer at the head of
    [pv_transfer]; [None] when the first allocation fails. *)
Definition prepare_buffer (os : os_call) (m : machine) : option machine :=
  let c := control (state m) in
  let t := transfer (state m) in
  let first :=
    match transfer_buffer t with
    | Some _ => Some m
    | None =>
        match pv__allocate_aligned_buffer (alloc_ok os)
                (wrap_size (target_buffer_size c + 32)) with
        | None => None
        | Some buf =>
            let m := on_transfer (set_transfer_buffer (Some buf)) m in
            Some (on_transfer (set_buffer_size (target_buffer_size c)) m)
        end
    end in
  match first with
  | None => None
  | Some m =>
      let t := transfer (state m) in
      if buffer_size t <? target_buffer_size c
      then
        match pv__allocate_aligned_buffer (realloc_ok os)
                (wrap_size (target_buffer_size c + 32)) with
        | None =>
            Some (on_state
                    (with_control (set_target_buffer_size (buffer_size t))) m)
        | Some newptr =>
            let newptr :=
              if buffer_size t >? 0
              then write_at newptr 0 (slice (buffer_of t) 0 (buffer_size t))
              else newptr in
            let m := on_transfer (set_transfer_buffer (Some newptr)) m in
            Some (on_transfer (set_buffer_size (target_buffer_size c)) m)
        end
      else Some m
  end.

(** Where [pv_transfer] stands after a phase: it has returned, or it
    goes on with the readiness of standard output in hand. *)
Inductive phase_result : Type :=
| Return (rc : Z) (m : machine)
| Continue (ready_to_write : bool) (m : machine).

(** [pv_transfer] up to the call of [select]: buffer set-up, the amount
    allowed to be written, and the wait for readiness. *)
Definition wait_phase (os : os_call) (fd allowed : Z) (m : machine)
  : bool * phase_result :=
  let m := on_state (with_control (set_direct_io_changed false)) m in
  let m :=
    if negb (fd =? last_read_skip_fd (transfer (state m)))
    then
      let m := on_transfer (set_last_read_skip_fd fd) m in
      let m := on_transfer (set_read_errors_in_a_row 0) m in
      on_transfer (set_read_error_warning_shown false) m
    else m in
  match prepare_buffer os m with
  | None =>
      let m := on_state (pv_error "buffer allocation failed") m in
      (false, Return (-1) (on_state (or_exit_status 64) m))
  | Some m =>
      let c := control (state m) in
      let m :=
        match lineswritten m with
        | Some _ => if linemode c then set_lineswritten (Some 0) m else m
        | None => m
        end in
      if eof_in m && eof_out m then (false, Return 0 m)
      else
        let t := transfer (state m) in
        let check_read_fd :=
          if negb (eof_in m) && (read_position t <? buffer_size t)
          then fd else -1 in
        let to_write' :=
          wrap64 (wrap_size (read_position t - write_position t)) in
        let to_write' :=
          if ((rate_limit c >? 0) || (allowed >? 0)) && (to_write' >? allowed)
          then allowed else to_write' in
        let m := on_transfer (set_to_write to_write') m in
        let check_write_fd :=
          if negb (eof_out m) && (to_write' >? 0) then STDOUT_FILENO else -1 in
        let '(n, ready_to_read, ready_to_write, err) :=
          is_data_ready (select_res os) check_read_fd check_write_fd in
        if n <? 0
        then
          match err with
          | Some EINTR => (false, Return 0 m)
          | _ =>
              let m := on_state (pv_error "select call failed") m in
              (false, Return (-1) (on_state (or_exit_status 16) m))
          end
        else
          (ready_to_read,
           Continue ready_to_write (on_transfer (set_written 0) m))
  end.

(** The read phase and the line-mode restriction that follows it. *)
Definition read_phase (os : os_call) (fd allowed : Z) (ready_to_read : bool)
    (m : machine) : Z * machine :=
  let '(rc, m) :=
    if ready_to_read then pv__transfer_read os fd allowed m else (1, m) in
  if rc =? 0 then (0, m) else (rc, line_mode_truncation m).

(** The condition under which [pv__transfer_write] is called. *)
Definition write_due (ready_to_write : bool) (m : machine) : bool :=
  let t := transfer (state m) in
  ready_to_write && negb (splice_used t)
  && (read_position t >? write_position t)
  && (to_write t >? 0)
  && (match lineswritten m with Some _ => true | None => false end).

(** The write phase and the rotation of the buffer. *)
Definition write_phase (os : os_call) (ready_to_write : bool) (m : machine)
  : Z * machine :=
  let '(rc, m) :=
    if write_due ready_to_write m then pv__transfer_write os m else (1, m) in
  if rc =? 0 then (0, m)
  else
    let m := maximise_buffer_fill m in
    (written (transfer (state m)), m).

(** [pv_transfer]: the return value and the machine it leaves. *)
Definition pv_transfer (os : os_call) (fd allowed : Z) (m : machine)
  : Z * machine :=
  match wait_phase os fd allowed m with
  | (_, Return rc m) => (rc, m)
  | (ready_to_read, Continue ready_to_write m) =>
      let '(rc, m) := read_phase os fd allowed ready_to_read m in
      if rc =? 0 then (0, m) else write_phase os ready_to_write m
  end.

(** *** The properties the specification states of the engine *)

(** The adaptive schedule as the specification gives it: five 1s, five
    2s, then 4, 8, 16, ... doubling, never more than 512. *)
Definition spec_schedule (n : Z) : Z :=
  if n <=? 5 then 1
  else if n <=? 10 then 2
  else Z.min 512 (2 ^ (n - 9)).

(** The call of [pv__transfer_write_repeated] that [pv__transfer_write]
    makes on machine [m] really writes (output is not discarded and
    something is to be written) and fails with [e]. *)
Definition write_fails_with (e : errno) (os : os_call) (m : machine) : Prop :=
  let c := control (state m) in
  let t := transfer (state m) in
  exists buf r w',
    transfer_buffer t = Some buf
    /\ discard_input c = false
    /\ 0 < to_write t
    /\ pv__transfer_write_repeated (Z.to_nat (to_write t)) (writes os)
         (sync_after_write c) (slice buf (write_position t) (to_write t))
         (wrap_size (to_write t)) 0 (world m)
       = (r, Some e, w')
    /\ r < 0.

(** A pending write is record-aligned when it ends just after a
    separator. *)
Definition ends_with (separator : ascii) (data : list ascii) : Prop :=
  exists front, data = front ++ [separator].

End Transfer.

(** ** state.c, remote.c, file.c and loop.c: the main loop *)

Module MainLoop.
Import CInt Number PvString State Display OS Transfer.

(** An input file as the loop meets it: the descriptor [open] returns,
    the exit-status bit of a failure to open it (cannot be opened, cannot
    be examined, or is the output file), its contents and whether it can
    be sought. *)
Record input_file : Type := mkFile {
  file_fd : Z;
  file_error : option Z;
  contents : list ascii;
  file_seekable : bool
}.

Definition readable (f : input_file) : bool :=
  match file_error f with
  | None => 0 <=? file_fd f
  | Some _ => false
  end.

(** The message of a remote reconfiguration ([struct remote_msg]),
    without the fields for the display interval and the height. *)
Record remote_msg : Type := mkRemote {
  msg_progress : bool;
  msg_timer : bool;
  msg_eta : bool;
  msg_fineta : bool;
  msg_rate : bool;
  msg_average_rate : bool;
  msg_bytes : bool;
  msg_bufpercent : bool;
  msg_lastwritten : Z;
  msg_rate_limit : Z;
  msg_buffer_size : Z;
  msg_size : Z;
  msg_width : Z;
  msg_width_set_manually : bool;
  msg_name : list ascii;
  msg_format : list ascii
}.

(** What the clock, the signals and the kernel decide during one round
    of the loop.  [budget] is the value of [(off_t) target], the
    floating-point rate-limit allowance. *)
Record tick : Type := mkTick {
  remote : option remote_msg;
  trigger_exit : bool;
  budget : Z;
  os : os_call;
  close_ok : bool;
  update_due : bool;
  shown : bool;
  env : render_env
}.

(** The locals of [pv_main_loop], with the [reparse_display] flag. *)
Record loop_state : Type := mkLoop {
  mach : machine;
  fd : Z;
  file_idx : Z;
  final_update : bool;
  total_written : Z;
  transferred_since_last : Z;
  reparse_display : bool
}.

Definition set_mach (v : machine) (r : loop_state) : loop_state :=
  mkLoop v (fd r) (file_idx r) (final_update r) (total_written r) (transferred_since_last r) (reparse_display r).

Definition set_fd (v : Z) (r : loop_state) : loop_state :=
  mkLoop (mach r) v (file_idx r) (final_update r) (total_written r) (transferred_since_last r) (reparse_display r).

Definition set_file_idx (v : Z) (r : loop_state) : loop_state :=
  mkLoop (mach r) (fd r) v (final_update r) (total_written r) (transferred_since_last r) (reparse_display r).

Definition set_final_update (v : bool) (r : loop_state) : loop_state :=
  mkLoop (mach r) (fd r) (file_idx r) v (total_written r) (transferred_since_last r) (reparse_display r).

Definition set_total_written (v : Z) (r : loop_state) : loop_state :=
  mkLoop (mach r) (fd r) (file_idx r) (final_update r) v (transferred_since_last r) (reparse_display r).

Definition set_transferred_since_last (v : Z) (r : loop_state) : loop_state :=
  mkLoop (mach r) (fd r) (file_idx r) (final_update r) (total_written r) v (reparse_display r).

Definition set_reparse_display (v : bool) (r : loop_state) : loop_state :=
  mkLoop (mach r) (fd r) (file_idx r) (final_update r) (total_written r) (transferred_since_last r) v.

Definition on_mach (f : machine -> machine) (ls : loop_state) : loop_state :=
  set_mach (f (mach ls)) ls.

Definition PV_SIZEOF_DEFAULT_FORMAT : Z := 512.

(** [PV_ADDFORMAT(x, y)]. *)
Definition PV_ADDFORMAT (x : bool) (y : list ascii) (default : list ascii)
  : list ascii :=
  if x
  then
    let default :=
      if negb (Ascii.eqb (head_char default) NUL)
      then strlcat_into default [" "%char] PV_SIZEOF_DEFAULT_FORMAT
      else default in
    strlcat_into default y PV_SIZEOF_DEFAULT_FORMAT
  else default.

(** [pv_state_set_format]: the default format and the name; the caller
    raises [reparse_display]. *)
Definition pv_state_set_format (progress timer eta fineta rate average_rate
    bytes bufpercent : bool) (lastwritten : Z) (new_name : option (list ascii))
    (c : control_t) : control_t :=
  let d := store (default_format c) 0 NUL in
  let d := PV_ADDFORMAT (match new_name with Some _ => true | None => false end)
             (cstr "%N") d in
  let d := PV_ADDFORMAT bytes (cstr "%b") d in
  let d := PV_ADDFORMAT bufpercent (cstr "%T") d in
  let d := PV_ADDFORMAT timer (cstr "%t") d in
  let d := PV_ADDFORMAT rate (cstr "%r") d in
  let d := PV_ADDFORMAT average_rate (cstr "%a") d in
  let d := PV_ADDFORMAT progress (cstr "%p") d in
  let d := PV_ADDFORMAT eta (cstr "%e") d in
  let d := PV_ADDFORMAT fineta (cstr "%I") d in
  let d :=
    if lastwritten >? 0
    then
      let buf :=
        pv_snprintf_text (repeat NUL 16) 16
          ("%"%char :: format_ld (wrap_uint lastwritten) ++ ["A"%char]) in
      PV_ADDFORMAT true (c_string buf) d
    else d in
  let c := set_default_format d c in
  set_name (option_map c_string new_name) c.

(** [pv_remote_check] when a message has been received and read. *)
Definition pv_remote_check (msg : remote_msg) (ls : loop_state) : loop_state :=
  let apply (c : control_t) : control_t :=
    let c := set_format_string None c in
    let c := set_name None c in
    let c :=
      pv_state_set_format (msg_progress msg) (msg_timer msg) (msg_eta msg)
        (msg_fineta msg) (msg_rate msg) (msg_average_rate msg)
        (msg_bytes msg) (msg_bufpercent msg) (msg_lastwritten msg)
        (if Ascii.eqb (head_char (msg_name msg)) NUL then None
         else Some (msg_name msg)) c in
    let c :=
      if msg_rate_limit msg >? 0 then set_rate_limit (msg_rate_limit msg) c
      else c in
    let c :=
      if msg_buffer_size msg >? 0
      then set_target_buffer_size (msg_buffer_size msg) c else c in
    let c := if msg_size msg >? 0 then set_size (msg_size msg) c else c in
    let c :=
      if (msg_width msg >? 0) && msg_width_set_manually msg
      then set_width (msg_width msg) c else c in
    if negb (Ascii.eqb (head_char (msg_format msg)) NUL)
    then set_format_string (Some (c_string (msg_format msg))) c
    else c in
  set_reparse_display true (on_mach (on_state (with_control apply)) ls).

(** [pv_next_file]: the new descriptor, or a negative value. *)
Definition pv_next_file (files : list input_file) (closes : bool)
    (filenum oldfd : Z) (m : machine) : Z * machine :=
  if (oldfd >=? 0) && negb closes
  then
    let m := on_state (pv_error "failed to close file") m in
    (-1, on_state (or_exit_status 8) m)
  else if filenum >=? Z.of_nat (List.length files)
  then (-1, on_state (or_exit_status 8) m)
  else
    match nth_error files (Z.to_nat filenum) with
    | None => (-1, on_state (or_exit_status 8) m)
    | Some f =>
        match file_error f with
        | Some bit =>
            let m := on_state (pv_error "failed to read file") m in
            (-1, on_state (or_exit_status bit) m)
        | None =>
            let w := world m in
            (file_fd f,
             set_world
               (mkWorld (contents f) 0 (file_seekable f)
                  (stdout w) (inflow w)) m)
        end
    end.

(** The loop that opens the first readable input file. *)
Fixpoint open_first (fuel : nat) (files : list input_file) (file_idx : Z)
    (m : machine) : Z * Z * machine :=
  match fuel with
  | O => (-1, file_idx, m)
  | S fuel =>
      if file_idx <? Z.of_nat (List.length files)
      then
        let '(fd, m) := pv_next_file files true file_idx (-1) m in
        if fd <? 0 then open_first fuel files (file_idx + 1) m
        else (fd, file_idx, m)
      else (-1, file_idx, m)
  end.

(** The loop that moves on to the next input file at the end of one. *)
Fixpoint advance_file (fuel : nat) (files : list input_file) (closes : bool)
    (ls : loop_state) : loop_state :=
  match fuel with
  | O => ls
  | S fuel =>
      let m := mach ls in
      if eof_in m && eof_out m
         && (file_idx ls <? wrap_uint (Z.of_nat (List.length files) - 1))
      then
        let file_idx := file_idx ls + 1 in
        let '(fd, m) := pv_next_file files closes file_idx (fd ls) m in
        let m :=
          if fd >=? 0 then set_eof_out false (set_eof_in false m) else m in
        advance_file fuel files closes
          (set_mach m (set_fd fd (set_file_idx file_idx ls)))
      else ls
  end.

(** [pv_display], as far as the state goes: the text itself leaves on
    standard error. *)
Definition pv_display (tk : tick) (sl tot : Z) (ls : loop_state) : loop_state :=
  let st := state (mach ls) in
  let st := if reparse_display ls then pv__format_init st else st in
  let ls := set_reparse_display false ls in
  let '(ok, st) := pv__format (env tk) sl tot st in
  let st :=
    if ok
    then
      match display_buffer (display st) with
      | None => st
      | Some _ =>
          if numeric (control st) then st
          else if shown tk then with_display (set_display_visible true) st
          else st
      end
    else st in
  on_mach (set_state st) ls.

(** How one round of the loop ends. *)
Inductive round_result : Type :=
| Goes_on (ls : loop_state)
| Breaks (ls : loop_state)
| Returns (ls : loop_state).

(** The body of the [while] loop of [pv_main_loop]. *)
Definition loop_body (files : list input_file) (tk : tick) (ls : loop_state)
  : round_result :=
  let ls :=
    match remote tk with
    | Some msg => pv_remote_check msg ls
    | None => ls
    end in
  if trigger_exit tk then Breaks ls
  else
    let c := control (state (mach ls)) in
    let cansend := if rate_limit c >? 0 then budget tk else 0 in
    let '(cansend, ls) :=
      if (0 <? size c) && stop_at_size c
      then
        if (size c <? wrap64 (total_written ls + cansend))
           || ((0 =? cansend) && (0 =? rate_limit c))
        then
          let cansend := wrap64 (size c - total_written ls) in
          if 0 >=? cansend
          then (cansend, on_mach (fun m => set_eof_out true (set_eof_in true m)) ls)
          else (cansend, ls)
        else (cansend, ls)
      else (cansend, ls) in
    let m := mach ls in
    let '(written, m) :=
      if (0 <? size c) && stop_at_size c && (0 >=? cansend)
         && eof_in m && eof_out m
      then (0, m)
      else pv_transfer (os tk) (fd ls) cansend m in
    let ls := set_mach m ls in
    if written <? 0 then Returns ls
    else
      let c := control (state (mach ls)) in
      let moved :=
        if linemode c
        then match lineswritten m with Some lw => lw | None => 0 end
        else written in
      let ls :=
        set_transferred_since_last
          (wrap64 (transferred_since_last ls + moved)) ls in
      let ls := set_total_written (wrap64 (total_written ls + moved)) ls in
      let ls := advance_file (List.length files) files (close_ok tk) ls in
      let m := mach ls in
      let ls :=
        if eof_in m && eof_out m then set_final_update true ls else ls in
      if no_display c then Goes_on ls
      else if wait c && (moved <? 1) then Goes_on ls
      else
        let ls :=
          if wait c
          then on_mach (on_state (with_control (set_wait false))) ls
          else ls in
        if negb (update_due tk) then Goes_on ls
        else
          let sl :=
            if final_update ls then -1 else transferred_since_last ls in
          let ls := pv_display tk sl (total_written ls) ls in
          Goes_on (set_transferred_since_last 0 ls).

(** How [pv_main_loop] ends: no input could be opened; the loop ran to
    its end; an exit signal broke it; a failed transfer made it return;
    or the rounds given were not enough. *)
Inductive run_result : Type :=
| No_input (st : pvstate)
| Completed (st : pvstate) (w : world_t)
| Interrupted (st : pvstate) (w : world_t)
| Aborted (st : pvstate) (w : world_t)
| Unfinished (ls : loop_state).

(** The [while] loop, one tick per round. *)
Fixpoint run_loop (files : list input_file) (ticks : list tick)
    (ls : loop_state) : run_result :=
  let m := mach ls in
  if negb (eof_in m && eof_out m) || negb (final_update ls)
  then
    match ticks with
    | [] => Unfinished ls
    | tk :: ticks =>
        match loop_body files tk ls with
        | Goes_on ls => run_loop files ticks ls
        | Breaks ls =>
            Interrupted (or_exit_status 32 (state (mach ls))) (world (mach ls))
        | Returns ls => Aborted (state (mach ls)) (world (mach ls))
        end
    end
  else Completed (state m) (world m).

(** [pv_main_loop].  [st_blksize] is the block size [fstat] reports for
    the first input, if it reports one. *)
Definition pv_main_loop (files : list input_file) (st_blksize : option Z)
    (ticks : list tick) (st : pvstate) : run_result :=
  let st := with_display (set_initial_offset 0) st in
  let m := mkMachine st (mkWorld [] 0 false [] []) false false (Some 0) in
  let '(fd, file_idx, m) := open_first (List.length files) files 0 m in
  if fd <? 0 then No_input (state m)
  else
    let m := on_state (with_control (set_direct_io_changed false)) m in
    let m :=
      if target_buffer_size (control (state m)) =? 0
      then
        match st_blksize with
        | Some blksize =>
            let sz := wrap_size (blksize * 32) in
            let sz := if sz >? BUFFER_SIZE_MAX then BUFFER_SIZE_MAX else sz in
            on_state (with_control (set_target_buffer_size sz)) m
        | None => m
        end
      else m in
    let m :=
      if target_buffer_size (control (state m)) =? 0
      then on_state (with_control (set_target_buffer_size BUFFER_SIZE)) m
      else m in
    run_loop files ticks (mkLoop m fd file_idx false 0 0 true).


End MainLoop.

(** ** file.c: the total size of the inputs *)

Module TotalSize.
Import CInt State.

(** What [S_ISREG] and [S_ISBLK] tell of [st_mode]. *)
Inductive file_type : Type := S_IFREG | S_IFBLK | S_IFOTHER.

(** The two fields of [struct stat] that are read. *)
Record stat_t : Type := mkStat {
  st_mode : file_type;
  st_size : Z
}.

(** A named input as [pv_calc_total_bytes] meets it: the result of
    [stat] followed by [access] ([fstat] for ["-"]), [None] when one of
    them fails; and, for a block device, what [lseek(fd, 0, SEEK_END)]
    returns once it is opened, [None] when [open] fails. *)
Record sized_input : Type := mkSized {
  stat_result : option stat_t;
  device_end : option Z
}.

(** Standard output when it is a block device that is not opened for
    appending: its end position, and whether the seek back to its start
    succeeds. *)
Record output_device : Type := mkOutput {
  output_end : Z;
  rewind_ok : bool
}.

(** The [for] loop of [pv_calc_total_bytes]; [None] when it returns
    zero from inside the loop. *)
Fixpoint add_sizes (files : list sized_input) (total : Z) : option Z :=
  match files with
  | [] => Some total
  | f :: files =>
      match stat_result f with
      | None => None
      | Some sb =>
          match st_mode sb with
          | S_IFBLK =>
              match device_end f with
              | Some end_position =>
                  add_sizes files
                    (if end_position >? 0 then wrap64 (total + end_position)
                     else total)
              | None => None
              end
          | S_IFREG => add_sizes files (wrap64 (total + st_size sb))
          | S_IFOTHER => add_sizes files 0
          end
      end
  end.

(** [pv_calc_total_bytes].  [files] is [None] when there is no list of
    file names; [stdin_stat] is the result of [fstat] on standard
    input; [output] describes standard output when it is a block device
    not in append mode. *)
Definition pv_calc_total_bytes (files : option (list sized_input))
    (stdin_stat : option stat_t) (output : option output_device)
    (st : pvstate) : Z * pvstate :=
  let no_names :=
    match files with
    | None | Some [] => true
    | Some (_ :: _) => false
    end in
  if no_names
  then
    (match stdin_stat with
     | Some sb => st_size sb
     | None => 0
     end, st)
  else
    match add_sizes (match files with Some l => l | None => [] end) 0 with
    | None => (0, st)
    | Some total =>
        if total <? 1
        then
          match output with
          | Some device =>
              let total :=
                if output_end device >? 0 then output_end device else 0 in
              let st :=
                if rewind_ok device then st
                else
                  or_exit_status 2
                    (pv_error "failed to seek to start of output" st) in
              let st :=
                if total >? 0 then with_control (set_stop_at_size true) st
                else st in
              (total, st)
          | None => (total, st)
          end
        else (total, st)
    end.

End TotalSize.

(** * Properties *)

(** ** Machine integers *)

Module CIntFacts.
Import CInt.

Lemma wrap64_small z : in64 z -> wrap64 z = z.
Proof.
  unfold in64, min64, max64, wrap64, wrap_signed. intros H.
  rewrite Z.mod_small; lia.
Qed.

Lemma wrap32_small z : in32 z -> wrap32 z = z.
Proof.
  unfold in32, wrap32, wrap_signed. intros H.
  rewrite Z.mod_small; lia.
Qed.

Lemma wrap64_range z : in64 (wrap64 z).
Proof.
  unfold in64, min64, max64, wrap64, wrap_signed.
  pose proof (Z.mod_pos_bound (z + 2 ^ (64 - 1)) (2 ^ 64) ltac:(lia)). lia.
Qed.

Lemma wrap32_range z : in32 (wrap32 z).
Proof.
  unfold in32, wrap32, wrap_signed.
  pose proof (Z.mod_pos_bound (z + 2 ^ (32 - 1)) (2 ^ 32) ltac:(lia)). lia.
Qed.

(** [wrap64] is the identity up to a multiple of [2^64]. *)
Lemma wrap64_eqm z : exists k, wrap64 z = z + k * 2 ^ 64.
Proof.
  unfold wrap64, wrap_signed.
  exists (- ((z + 2 ^ (64 - 1)) / 2 ^ 64)).
  pose proof (Z.div_mod (z + 2 ^ (64 - 1)) (2 ^ 64) ltac:(lia)). lia.
Qed.

(** Two representable integers that differ by a multiple of [2^64] are
    equal. *)
Lemma in64_unique a b k : in64 a -> in64 b -> a = b + k * 2 ^ 64 -> a = b.
Proof. unfold in64, min64, max64. intros. lia. Qed.

(** A wrapped summand may be unwrapped under an outer [wrap64]. *)
Lemma wrap64_add_l a b : wrap64 (wrap64 a + b) = wrap64 (a + b).
Proof.
  unfold wrap64, wrap_signed.
  replace ((a + 2 ^ (64 - 1)) mod 2 ^ 64 - 2 ^ (64 - 1) + b + 2 ^ (64 - 1))
    with ((a + 2 ^ (64 - 1)) mod 2 ^ 64 + b) by lia.
  rewrite Z.add_mod_idemp_l by lia.
  f_equal. f_equal. lia.
Qed.

Lemma wrap64_idem a : wrap64 (wrap64 a) = wrap64 a.
Proof. apply wrap64_small, wrap64_range. Qed.

Lemma wrap64_sub_l a b : wrap64 (wrap64 a - b) = wrap64 (a - b).
Proof. unfold Z.sub. apply wrap64_add_l. Qed.

(** Push every inner [wrap64] of a sum out to the outermost one. *)
Ltac wrap64_flatten :=
  repeat (rewrite <- Z.add_opp_r || rewrite wrap64_idem
          || rewrite wrap64_add_l || rewrite <- Z.add_assoc).

(** Close [wrap64 e = x] when [e] equals the representable [x]. *)
Ltac wrap64_exact :=
  wrap64_flatten;
  match goal with
  | |- wrap64 ?e = ?x =>
      replace e with x by lia;
      apply wrap64_small; unfold in64, min64, max64; lia
  end.

Lemma wrap_size_small z : 0 <= z < 2 ^ 64 -> wrap_size z = z.
Proof. intros. unfold wrap_size, wrap_unsigned. apply Z.mod_small; lia. Qed.

Lemma wrap_uint_small z : 0 <= z < 2 ^ 32 -> wrap_uint z = z.
Proof. intros. unfold wrap_uint, wrap_unsigned. apply Z.mod_small; lia. Qed.

End CIntFacts.

(** ** elapsedtime.c *)

Module ElapsedTimeFacts.
Import CInt CIntFacts ElapsedTime.

(** Replace every [wrap64 e] of the goal by a fresh integer known to be
    representable and congruent to [e] modulo [2^64]. *)
Ltac forget_wrap64 :=
  repeat match goal with
  | |- context [wrap64 ?e] =>
      let k := fresh "k" in
      let w := fresh "w" in
      let Hk := fresh "Hk" in
      let Hw := fresh "Hw" in
      destruct (wrap64_eqm e) as [k Hk];
      pose proof (wrap64_range e) as Hw;
      remember (wrap64 e) as w in *;
      unfold in64, min64, max64 in Hw
  end.

Ltac euclid := Z.to_euclidean_division_equations; lia.

Lemma compare_antisym (a b : timespec) :
  pv_elapsedtime_compare (Some a) (Some b)
  = - pv_elapsedtime_compare (Some b) (Some a).
Proof.
  unfold pv_elapsedtime_compare.
  repeat match goal with
  | |- context [?x <? ?y] => destruct (Z.ltb_spec x y)
  | |- context [?x >? ?y] => rewrite (Z.gtb_ltb x y)
  end; lia.
Qed.

Lemma compare_earlier_iff (a b : timespec) :
  normalized a -> normalized b ->
  (pv_elapsedtime_compare (Some a) (Some b) = -1
   <-> total_nsec a < total_nsec b).
Proof.
  unfold normalized, total_nsec, pv_elapsedtime_compare, billion.
  intros Ha Hb.
  repeat match goal with
  | |- context [?x <? ?y] => destruct (Z.ltb_spec x y)
  | |- context [?x >? ?y] => rewrite (Z.gtb_ltb x y)
  end; split; intros; try lia.
Qed.

(** C5, as stated, fails: subtracting one second from the zero time
    leaves [-1] seconds, not the zero time. *)
Lemma subtract_does_not_saturate :
  ~ saturates_at (mkTimespec 0 0) (mkTimespec 1 0).
Proof.
  unfold saturates_at. intros H.
  specialize (H eq_refl). vm_compute in H. discriminate H.
Qed.

(** C5 (amended): [pv_elapsedtime_subtract] stores the exact difference of
    two normalised times with the nanosecond field normalised into
    [0, 10^9); the seconds field is negative exactly when the second time
    is later than the first, and no clamping to zero takes place. *)
Theorem subtract_exact (r a b : timespec) :
  normalized a -> normalized b ->
  in64 (tv_sec a) -> in64 (tv_sec b) ->
  in64 (tv_sec a - tv_sec b) -> in64 (tv_sec a - tv_sec b - 1) ->
  exists res,
    pv_elapsedtime_subtract (Some r) (Some a) (Some b) = Some res
    /\ normalized res
    /\ total_nsec res = total_nsec a - total_nsec b
    /\ (tv_sec res < 0 <-> pv_elapsedtime_compare (Some a) (Some b) = -1).
Proof.
  intros Ha Hb Hsa Hsb Hd0 Hd.
  pose proof (compare_earlier_iff a b Ha Hb) as Hcmp.
  unfold normalized, total_nsec, billion, in64, min64, max64 in *.
  destruct a as [sa na], b as [sb nb]; cbn [tv_sec tv_nsec] in *.
  assert (Hq : Z.quot (na + -1 * nb) 1000000000 = 0) by euclid.
  assert (Hr : Z.rem (na + -1 * nb) 1000000000 = na - nb) by euclid.
  unfold pv_elapsedtime_subtract, accumulate, billion;
    cbn [tv_sec tv_nsec fst snd]; rewrite ?Z.add_0_l, ?Z.mul_1_l.
  rewrite (wrap64_small sa), (wrap64_small na),
    (wrap64_small (sa + -1 * sb)), (wrap64_small (na + -1 * nb))
    by (unfold in64, min64, max64; lia).
  rewrite Hq, Hr, Z.add_0_r.
  rewrite (wrap64_small (sa + -1 * sb)) by (unfold in64, min64, max64; lia).
  destruct (Z.ltb_spec (na - nb) 0).
  - rewrite (wrap64_small (sa + -1 * sb - 1)),
      (wrap64_small (1000000000 + (na - nb)))
      by (unfold in64, min64, max64; lia).
    eexists; split; [reflexivity|]. cbn [tv_sec tv_nsec].
    split; [lia|]. split; [lia|]. rewrite Hcmp. lia.
  - eexists; split; [reflexivity|]. cbn [tv_sec tv_nsec].
    split; [lia|]. split; [lia|]. rewrite Hcmp. lia.
Qed.

Lemma subtract_exact_witness :
  exists res,
    pv_elapsedtime_subtract (Some zero_time)
      (Some (mkTimespec 3 200000000)) (Some (mkTimespec 5 700000000))
    = Some res
    /\ normalized res
    /\ total_nsec res
       = total_nsec (mkTimespec 3 200000000) - total_nsec (mkTimespec 5 700000000)
    /\ (tv_sec res < 0
        <-> pv_elapsedtime_compare
              (Some (mkTimespec 3 200000000)) (Some (mkTimespec 5 700000000)) = -1).
Proof.
  apply (subtract_exact zero_time (mkTimespec 3 200000000) (mkTimespec 5 700000000));
    unfold normalized, in64, min64, max64, billion; cbn [tv_sec tv_nsec]; lia.
Defined.

(** Headroom on the nanosecond field of the first operand: any value that
    cannot overflow a [long long] when one more second's worth of
    nanoseconds is added.  Every normalised timespec qualifies. *)
Definition nsec_headroom (t : timespec) : Prop :=
  - 2 ^ 62 <= tv_nsec t <= 2 ^ 62.

(** C9: for every timespec [t1] and every non-negative normalised duration
    [d], subtracting [t1] from [t1 + d] gives back exactly [d], also when
    the nanosecond sum carries into the seconds. *)
Theorem subtract_add_cancel (r r' t1 d : timespec) :
  in64 (tv_sec t1) -> nsec_headroom t1 ->
  0 <= tv_sec d <= max64 -> normalized d ->
  exists sum,
    pv_elapsedtime_add (Some r) (Some t1) (Some d) = Some sum
    /\ pv_elapsedtime_subtract (Some r') (Some sum) (Some t1) = Some d.
Proof.
  intros Hs1 Hn1 Hsd Hnd.
  unfold nsec_headroom, normalized, billion, in64, min64, max64 in *.
  destruct t1 as [s1 n1], d as [sd nd]; cbn [tv_sec tv_nsec] in *.
  eexists. split.
  - unfold pv_elapsedtime_add, accumulate;
    cbn [tv_sec tv_nsec fst snd]; rewrite ?Z.add_0_l, ?Z.mul_1_l. reflexivity.
  - unfold pv_elapsedtime_subtract, accumulate, billion;
    cbn [tv_sec tv_nsec fst snd]; rewrite ?Z.add_0_l, ?Z.mul_1_l.
    rewrite (wrap64_small n1), (wrap64_small (n1 + nd))
      by (unfold in64, min64, max64; lia).
    set (q := Z.quot (n1 + nd) 1000000000).
    set (m := Z.rem (n1 + nd) 1000000000).
    assert (Hqm : n1 + nd = 1000000000 * q + m /\ -1000000000 < m < 1000000000
                  /\ - 2 ^ 62 <= 1000000000 * q <= 2 ^ 62 + 1000000000).
    { subst q m. euclid. }
    rewrite (wrap64_small m), (wrap64_small (m + -1 * n1))
      by (unfold in64, min64, max64; lia).
    set (q' := Z.quot (m + -1 * n1) 1000000000).
    set (m' := Z.rem (m + -1 * n1) 1000000000).
    assert (Hqm' : (0 <= m' /\ q' = - q /\ m' = nd)
                   \/ (m' < 0 /\ q' = - q + 1 /\ m' = nd - 1000000000)).
    { subst q' m'. euclid. }
    destruct Hqm' as [(Hm' & Hq' & Hnd') | (Hm' & Hq' & Hnd')].
    + destruct (Z.ltb_spec m' 0); [lia|].
      f_equal. f_equal; [|exact Hnd'].
      wrap64_exact.
    + destruct (Z.ltb_spec m' 0); [|lia].
      rewrite (wrap64_small (1000000000 + m')) by (unfold in64, min64, max64; lia).
      f_equal. f_equal; [|lia].
      wrap64_exact.
Qed.

Lemma subtract_add_cancel_witness :
  exists sum,
    pv_elapsedtime_add (Some zero_time)
      (Some (mkTimespec 7 900000000)) (Some (mkTimespec 2 300000000)) = Some sum
    /\ pv_elapsedtime_subtract (Some zero_time) (Some sum)
         (Some (mkTimespec 7 900000000)) = Some (mkTimespec 2 300000000).
Proof.
  apply (subtract_add_cancel zero_time zero_time
           (mkTimespec 7 900000000) (mkTimespec 2 300000000));
    unfold nsec_headroom, normalized, in64, min64, max64, billion;
    cbn [tv_sec tv_nsec]; lia.
Defined.

End ElapsedTimeFacts.

(** ** number.c *)

Module NumberFacts.
Import CInt CIntFacts Number.

Definition is_digit (c : ascii) : Prop := pv__isdigit c = true.

Lemma digit_value_range c : is_digit c -> 0 <= digit_value c <= 9.
Proof.
  unfold is_digit, pv__isdigit, digit_value.
  change (char_code "0") with 48. change (char_code "9") with 57.
  destruct (Z.leb_spec 48 (char_code c)), (Z.leb_spec (char_code c) 57);
    simpl; intros; try discriminate; lia.
Qed.

Lemma digit_not_nul c : is_digit c -> Ascii.eqb c NUL = false.
Proof.
  intros H. destruct (Ascii.eqb_spec c NUL) as [->|]; [|reflexivity].
  vm_compute in H. discriminate.
Qed.

Lemma digit_not_mark c : is_digit c -> is_decimal_mark c = false.
Proof.
  intros H. unfold is_decimal_mark.
  destruct (Ascii.eqb_spec c ".") as [->|]; [vm_compute in H; discriminate|].
  destruct (Ascii.eqb_spec c ",") as [->|]; [vm_compute in H; discriminate|].
  reflexivity.
Qed.

(** The accumulating form of [decimal]. *)
Definition decimal_from (acc : Z) (digits : list ascii) : Z :=
  fold_left (fun acc c => acc * 10 + digit_value c) digits acc.

Lemma decimal_from_mono digits : forall acc,
  Forall is_digit digits -> 0 <= acc -> acc <= decimal_from acc digits.
Proof.
  induction digits as [|c digits IH]; intros acc Hd Hacc; simpl.
  - lia.
  - inversion Hd as [|? ? Hc Hrest]; subst.
    pose proof (digit_value_range c Hc).
    specialize (IH (acc * 10 + digit_value c) Hrest ltac:(lia)).
    unfold decimal_from in *. lia.
Qed.

Lemma decimal_from_bound digits : forall acc k,
  Forall is_digit digits -> 0 <= acc < 10 ^ k -> 0 <= k ->
  0 <= decimal_from acc digits < 10 ^ (k + Z.of_nat (List.length digits)).
Proof.
  induction digits as [|c digits IH]; intros acc k Hd Hacc Hk.
  - simpl. rewrite Z.add_0_r. exact Hacc.
  - inversion Hd as [|? ? Hc Hrest]; subst.
    pose proof (digit_value_range c Hc).
    change (decimal_from acc (c :: digits))
      with (decimal_from (acc * 10 + digit_value c) digits).
    replace (k + Z.of_nat (List.length (c :: digits)))
      with ((k + 1) + Z.of_nat (List.length digits))
      by (simpl List.length; lia).
    apply IH; [assumption| |lia].
    rewrite Z.pow_add_r by lia. change (10 ^ 1) with 10. lia.
Qed.

Lemma skip_non_digits_app pre rest :
  Forall (fun c => c <> NUL /\ pv__isdigit c = false) pre ->
  is_digit (head_char rest) ->
  skip_non_digits (pre ++ rest) = rest.
Proof.
  intros Hpre Hrest.
  induction Hpre as [|c pre [Hnul Hnd] _ IH]; cbn [app skip_non_digits].
  - destruct rest as [|d rest]; [reflexivity|].
    cbn [head_char] in Hrest. unfold is_digit in Hrest.
    cbn [skip_non_digits]. rewrite Hrest.
    rewrite andb_false_r. reflexivity.
  - rewrite Hnd. destruct (Ascii.eqb_spec c NUL); [contradiction|].
    cbn [negb andb]. exact IH.
Qed.

Lemma parse_integral_app digits rest : forall acc,
  Forall is_digit digits ->
  pv__isdigit (head_char rest) = false ->
  0 <= acc -> decimal_from acc digits <= max64 ->
  parse_integral acc (digits ++ rest) = (decimal_from acc digits, rest).
Proof.
  induction digits as [|c digits IH]; intros acc Hd Hrest Hacc Hmax.
  - cbn [app decimal_from fold_left].
    destruct rest as [|d rest]; [reflexivity|].
    cbn [head_char] in Hrest. cbn [parse_integral]. rewrite Hrest. reflexivity.
  - inversion Hd as [|? ? Hc Hds]; subst.
    pose proof (digit_value_range c Hc) as Hv.
    change (decimal_from acc (c :: digits))
      with (decimal_from (acc * 10 + digit_value c) digits) in *.
    pose proof (decimal_from_mono digits (acc * 10 + digit_value c) Hds
                  ltac:(lia)) as Hmono.
    cbn [app parse_integral]. unfold is_digit in Hc. rewrite Hc.
    unfold max64 in Hmax.
    rewrite (wrap64_small (acc * 10)) by (unfold in64, min64, max64; lia).
    rewrite (wrap64_small (acc * 10 + digit_value c))
      by (unfold in64, min64, max64; lia).
    apply IH; try assumption; unfold max64; lia.
Qed.

(** After [k <= 4] counted digits the divisor is [10^k]; at most [4 - k]
    further digits are counted and the others are skipped. *)
Lemma parse_fractional_app digits rest : forall (k : nat) acc,
  (k <= 4)%nat ->
  Forall is_digit digits ->
  pv__isdigit (head_char rest) = false ->
  0 <= acc < 10 ^ Z.of_nat k ->
  parse_fractional acc (10 ^ Z.of_nat k) (digits ++ rest)
  = (decimal_from acc (firstn (4 - k) digits),
     10 ^ Z.of_nat (k + List.length (firstn (4 - k) digits)),
     rest).
Proof.
  induction digits as [|c digits IH]; intros k acc Hk Hd Hrest Hacc.
  - rewrite firstn_nil. cbn [List.length]. rewrite Nat.add_0_r.
    cbn [app decimal_from fold_left].
    destruct rest as [|d rest]; [reflexivity|].
    cbn [head_char] in Hrest. cbn [parse_fractional].
    rewrite Hrest. reflexivity.
  - inversion Hd as [|? ? Hc Hds]; subst.
    pose proof (digit_value_range c Hc) as Hv.
    cbn [app parse_fractional]. unfold is_digit in Hc. rewrite Hc.
    destruct (Nat.eq_dec k 4) as [->|Hk4].
    + change (10 ^ Z.of_nat 4 <? 10000) with false. cbv iota.
      rewrite (IH 4%nat acc) by (try assumption; lia).
      reflexivity.
    + assert (Hlt : (10 ^ Z.of_nat k <? 10000) = true).
      { apply Z.ltb_lt. change 10000 with (10 ^ 4).
        apply Z.pow_lt_mono_r; lia. }
      rewrite Hlt.
      assert (Hpow : 10 ^ Z.of_nat k <= 1000).
      { change 1000 with (10 ^ 3). apply Z.pow_le_mono_r; lia. }
      rewrite (wrap64_small (acc * 10)) by (unfold in64, min64, max64; lia).
      rewrite (wrap64_small (acc * 10 + digit_value c))
        by (unfold in64, min64, max64; lia).
      rewrite (wrap_uint_small (10 ^ Z.of_nat k * 10)) by lia.
      replace (10 ^ Z.of_nat k * 10) with (10 ^ Z.of_nat (S k))
        by (rewrite Nat2Z.inj_succ, Z.pow_succ_r; lia).
      rewrite (IH (S k) (acc * 10 + digit_value c)); try assumption; try lia.
      * replace (4 - k)%nat with (S (4 - S k)) by lia.
        cbn [firstn List.length].
        replace (S k + List.length (firstn (4 - S k) digits))%nat
          with (k + S (List.length (firstn (4 - S k) digits)))%nat by lia.
        reflexivity.
      * rewrite Nat2Z.inj_succ, Z.pow_succ_r by lia. lia.
Qed.

Lemma skip_blanks_app blanks tail :
  Forall (fun c => is_blank c = true) blanks ->
  is_blank (head_char tail) = false ->
  skip_blanks (blanks ++ tail) = tail.
Proof.
  intros Hb Ht. induction Hb as [|c blanks Hc _ IH]; cbn [app skip_blanks].
  - destruct tail as [|d tail]; [reflexivity|].
    cbn [head_char] in Ht. cbn [skip_blanks]. rewrite Ht. reflexivity.
  - rewrite Hc. exact IH.
Qed.

Lemma units_shift_cases c :
  units_shift c = 0 \/ units_shift c = 10 \/ units_shift c = 20
  \/ units_shift c = 30 \/ units_shift c = 40.
Proof.
  unfold units_shift.
  repeat match goal with
  | |- context [if ?b then _ else _] => destruct b
  end; auto.
Qed.

Lemma blank_no_units c : is_blank c = true -> units_shift c = 0.
Proof.
  unfold is_blank. intros H. apply orb_true_iff in H.
  destruct H as [H|H]; apply Ascii.eqb_eq in H; subst; reflexivity.
Qed.

Lemma apply_shift_zero fuel i f : apply_shift fuel 0 i f = (i, f).
Proof. destruct fuel; reflexivity. Qed.

(** One round of the shifting loop. *)
Lemma apply_shift_round fuel shift i f :
  0 < shift < 2 ^ 32 ->
  apply_shift (S fuel) shift i f
  = apply_shift fuel (shift - Z.min shift 30)
      (wrap64 (Z.shiftl i (Z.min shift 30)))
      (wrap64 (Z.shiftl f (Z.min shift 30))).
Proof.
  intros Hs. cbn [apply_shift].
  destruct (Z.gtb_spec shift 0); [|lia].
  destruct (Z.gtb_spec shift 30).
  - rewrite Z.min_r by lia. rewrite wrap_uint_small by lia. reflexivity.
  - rewrite Z.min_l by lia. rewrite wrap_uint_small by lia. reflexivity.
Qed.

Lemma apply_shift_small fuel n i f :
  0 < n <= 30 -> 0 <= i -> 0 <= f ->
  i * 2 ^ n <= max64 -> f * 2 ^ n <= max64 ->
  apply_shift (S fuel) n i f = (i * 2 ^ n, f * 2 ^ n).
Proof.
  unfold max64. intros Hn Hi Hf Hin Hfn.
  rewrite apply_shift_round by lia.
  rewrite Z.min_l, Z.sub_diag, apply_shift_zero by lia.
  rewrite !Z.shiftl_mul_pow2 by lia.
  rewrite !wrap64_small by (unfold in64, min64, max64; lia).
  reflexivity.
Qed.

Lemma apply_shift_exact shift i f :
  (shift = 0 \/ shift = 10 \/ shift = 20 \/ shift = 30 \/ shift = 40) ->
  0 <= i -> i * 2 ^ shift <= max64 ->
  0 <= f -> f * 2 ^ shift <= max64 ->
  apply_shift (Z.to_nat shift) shift i f = (i * 2 ^ shift, f * 2 ^ shift).
Proof.
  intros Hs Hi Himax Hf Hfmax.
  destruct Hs as [-> | [-> | [-> | [-> | ->]]]].
  - change (Z.to_nat 0) with 0%nat. cbn [apply_shift].
    rewrite !Z.mul_1_r. reflexivity.
  - change (Z.to_nat 10) with (S 9). apply apply_shift_small; lia.
  - change (Z.to_nat 20) with (S 19). apply apply_shift_small; lia.
  - change (Z.to_nat 30) with (S 29). apply apply_shift_small; lia.
  - change (Z.to_nat 40) with (S (S 38)). unfold max64 in *.
    rewrite apply_shift_round by lia.
    change (Z.min 40 30) with 30. change (40 - 30) with 10.
    rewrite !Z.shiftl_mul_pow2 by lia.
    rewrite !wrap64_small by (unfold in64, min64, max64; lia).
    change (2 ^ 40) with (2 ^ 30 * 2 ^ 10) in *.
    rewrite apply_shift_small by (unfold max64; lia).
    f_equal; lia.
Qed.

Lemma mark_not_digit c : is_decimal_mark c = true -> pv__isdigit c = false.
Proof.
  unfold is_decimal_mark. intros H. apply orb_true_iff in H.
  destruct H as [H|H]; apply Ascii.eqb_eq in H; subst; reflexivity.
Qed.

(** The units are looked for only when the string has not ended, and then
    behind the blanks. *)
Lemma shift_after_number blanks tail :
  Forall (fun c => is_blank c = true) blanks ->
  is_blank (head_char tail) = false ->
  (if negb (at_end (blanks ++ tail))
   then units_shift (head_char (skip_blanks (blanks ++ tail)))
   else 0)
  = units_shift (head_char tail).
Proof.
  intros Hb Ht. rewrite (skip_blanks_app blanks tail Hb Ht).
  destruct blanks as [|c blanks]; cbn [app at_end].
  - destruct tail as [|d tail]; [reflexivity|]. cbn [head_char at_end].
    destruct (Ascii.eqb_spec d NUL) as [->|]; reflexivity.
  - inversion Hb as [|? ? Hc _]; subst.
    destruct (Ascii.eqb_spec c NUL) as [->|]; [|reflexivity].
    vm_compute in Hc. discriminate.
Qed.

Lemma counted_digits digits :
  Forall is_digit digits -> Forall is_digit (counted digits).
Proof.
  intros H. apply Forall_forall. intros c Hc.
  apply (proj1 (Forall_forall _ _) H).
  unfold counted in Hc. rewrite <- (firstn_skipn 4 digits).
  apply in_or_app. left. exact Hc.
Qed.

Lemma counted_bound digits :
  Forall is_digit digits ->
  0 <= decimal (counted digits) < 10000
  /\ 0 < 10 ^ Z.of_nat (List.length (counted digits)).
Proof.
  intros H. split.
  - pose proof (decimal_from_bound (counted digits) 0 0
                  (counted_digits digits H) ltac:(lia) ltac:(lia)) as Hb.
    unfold decimal. fold (decimal_from 0 (counted digits)).
    assert (Hlen : Z.of_nat (List.length (counted digits)) <= 4).
    { unfold counted. pose proof (firstn_le_length 4 digits). lia. }
    assert (10 ^ (0 + Z.of_nat (List.length (counted digits))) <= 10 ^ 4)
      by (apply Z.pow_le_mono_r; lia).
    change (10 ^ 4) with 10000 in *. lia.
  - apply Z.pow_pos_nonneg; lia.
Qed.

(** C3: on every well-formed size string whose value fits an [off_t],
    [pv_getnum_size] skips the leading non-digits, reads the integer part,
    an optional fractional part of which four digits count, optional
    blanks and a k/m/g/t suffix standing for a shift by 10/20/30/40 bits,
    and returns the shifted integer part plus the shifted fractional part
    divided by its divisor; in particular ["1.5k"] gives 1536, ["2M"]
    gives 2097152 and ["1 TiB"] gives the same as ["1T"]. *)
Theorem pv_getnum_size_value :
  (forall pre int_digits frac frac_digits blanks tail,
      well_formed_size pre int_digits frac frac_digits blanks tail ->
      size_value int_digits frac_digits (units_shift (head_char tail))
      <= max64 ->
      pv_getnum_size (Some (pre ++ int_digits ++ frac ++ blanks ++ tail))
      = size_value int_digits frac_digits (units_shift (head_char tail)))
  /\ pv_getnum_size (Some (cstr "1.5k")) = 1536
  /\ pv_getnum_size (Some (cstr "2M")) = 2097152
  /\ pv_getnum_size (Some (cstr "1 TiB")) = pv_getnum_size (Some (cstr "1T")).
Proof.
  split; [|repeat split; vm_compute; reflexivity].
  intros pre ids frac fds blanks tail
    [Hpre Hint Hne Hfrac [Hnd Hnm] Hbl Htail] Hmax.
  set (sh := units_shift (head_char tail)) in *.
  assert (Hsh : sh = 0 \/ sh = 10 \/ sh = 20 \/ sh = 30 \/ sh = 40)
    by apply units_shift_cases.
  assert (Hfd : Forall is_digit fds) by (destruct Hfrac; [constructor|assumption]).
  destruct (counted_bound fds Hfd) as [HF HD].
  assert (HI : 0 <= decimal ids)
    by (apply (decimal_from_mono ids 0 Hint); lia).
  assert (Hpow : 1 <= 2 ^ sh <= 2 ^ 40).
  { split; [|apply Z.pow_le_mono_r; lia].
    pose proof (Z.pow_pos_nonneg 2 sh ltac:(lia) ltac:(lia)). lia. }
  assert (Hq : 0 <= (decimal (counted fds) * 2 ^ sh)
                    / 10 ^ Z.of_nat (List.length (counted fds))).
  { apply Z.div_pos; [apply Z.mul_nonneg_nonneg; lia|lia]. }
  assert (HIsh : decimal ids * 1 <= decimal ids * 2 ^ sh)
    by (apply Z.mul_le_mono_nonneg_l; lia).
  assert (HFsh : 0 <= decimal (counted fds) * 2 ^ sh <= 10000 * 2 ^ 40).
  { split; [apply Z.mul_nonneg_nonneg; lia|].
    apply Z.mul_le_mono_nonneg; lia. }
  unfold size_value, max64 in Hmax.
  unfold pv_getnum_size.
  rewrite skip_non_digits_app; [|assumption|].
  2:{ destruct ids as [|c ids]; [contradiction|].
      inversion Hint; subst. assumption. }
  rewrite (parse_integral_app ids (frac ++ blanks ++ tail) 0 Hint);
    [| |lia|].
  2:{ destruct Hfrac as [|mark digits Hmark _]; [exact Hnd|].
      cbn [app head_char]. apply mark_not_digit, Hmark. }
  2:{ change (decimal_from 0 ids) with (decimal ids). unfold max64. lia. }
  change (decimal_from 0 ids) with (decimal ids).
  assert (Hfracparse :
    (if is_decimal_mark (head_char (frac ++ blanks ++ tail))
     then parse_fractional 0 1 (tl (frac ++ blanks ++ tail))
     else (0, 1, frac ++ blanks ++ tail))
    = (decimal (counted fds),
       10 ^ Z.of_nat (List.length (counted fds)), blanks ++ tail)).
  { destruct Hfrac as [|mark digits Hmark Hdigits].
    - cbn [app]. rewrite (Hnm eq_refl). reflexivity.
    - cbn [app head_char tl]. rewrite Hmark.
      apply (parse_fractional_app digits (blanks ++ tail) 0 0);
        [lia|assumption|assumption|cbn; lia]. }
  rewrite Hfracparse.
  rewrite (shift_after_number blanks tail Hbl Htail). fold sh.
  rewrite apply_shift_exact; try assumption; try (unfold max64; lia).
  rewrite Z.quot_div_nonneg by lia.
  apply wrap64_small. unfold in64, min64, max64, size_value. lia.
Qed.

Lemma pv_getnum_size_value_witness :
  pv_getnum_size (Some (cstr "x12,5 Gi")) = 12 * 2 ^ 30 + 2 ^ 29.
Proof.
  change (cstr "x12,5 Gi")
    with (cstr "x" ++ cstr "12" ++ cstr ",5" ++ cstr " " ++ cstr "Gi")%list.
  rewrite (proj1 pv_getnum_size_value
             (cstr "x") (cstr "12") (cstr ",5") (cstr "5") (cstr " ") (cstr "Gi")).
  - vm_compute. reflexivity.
  - constructor.
    + repeat constructor; discriminate.
    + repeat constructor.
    + discriminate.
    + constructor; [reflexivity|repeat constructor].
    + split; [reflexivity|discriminate].
    + repeat constructor.
    + reflexivity.
  - vm_compute. discriminate.
Defined.

End NumberFacts.

(** ** string.c *)

Module PvStringFacts.
Import CInt CIntFacts Number PvString.

Lemma strlen_nat_le s : (strlen_nat s <= List.length s)%nat.
Proof.
  induction s as [|c s IH]; cbn [strlen_nat List.length]; [lia|].
  destruct (Ascii.eqb c NUL); lia.
Qed.

Lemma store_length buf i c : List.length (store buf i c) = List.length buf.
Proof.
  unfold store.
  destruct (Z.leb_spec 0 i), (Z.ltb_spec i (Z.of_nat (List.length buf)));
    cbn [andb]; try reflexivity.
  rewrite length_app. cbn [List.length].
  rewrite length_firstn, length_skipn. lia.
Qed.

Lemma write_at_length buf off chars :
  List.length (write_at buf off chars) = List.length buf.
Proof.
  unfold write_at.
  destruct (Z.leb_spec 0 off),
    (Z.leb_spec (off + Z.of_nat (List.length chars)) (Z.of_nat (List.length buf)));
    cbn [andb]; try reflexivity.
  rewrite !length_app, length_firstn, length_skipn. lia.
Qed.

Lemma store_nth buf i c :
  0 <= i < Z.of_nat (List.length buf) ->
  nth_error (store buf i c) (Z.to_nat i) = Some c.
Proof.
  intros Hi. unfold store.
  destruct (Z.leb_spec 0 i), (Z.ltb_spec i (Z.of_nat (List.length buf)));
    try lia. cbn [andb].
  rewrite nth_error_app2; rewrite length_firstn; [|lia].
  replace (Z.to_nat i - Nat.min (Z.to_nat i) (List.length buf))%nat
    with O by lia.
  reflexivity.
Qed.

(** Storing a NUL at index [i] cuts the string held in the buffer to at
    most [i] characters. *)
Lemma strlen_nat_cut buf : forall i : nat,
  (i < List.length buf)%nat ->
  strlen_nat (firstn i buf ++ NUL :: skipn (S i) buf)
  = Nat.min (strlen_nat buf) i.
Proof.
  induction buf as [|c buf IH]; intros i Hi; cbn [List.length] in Hi; [lia|].
  destruct i as [|i].
  - cbn [firstn app strlen_nat]. rewrite Nat.min_0_r. reflexivity.
  - cbn [firstn skipn app strlen_nat].
    destruct (Ascii.eqb c NUL); [reflexivity|].
    rewrite IH by lia. reflexivity.
Qed.

Lemma strlen_store_nul buf i :
  0 <= i < Z.of_nat (List.length buf) ->
  strlen (store buf i NUL) = Z.min (strlen buf) i.
Proof.
  intros Hi. unfold store, strlen.
  destruct (Z.leb_spec 0 i), (Z.ltb_spec i (Z.of_nat (List.length buf)));
    try lia. cbn [andb].
  rewrite strlen_nat_cut by lia. lia.
Qed.

Lemma vsnprintf_str_length buf off size precision src :
  List.length (snd (vsnprintf_str buf off size precision src))
  = List.length buf.
Proof.
  unfold vsnprintf_str. cbn [snd].
  rewrite store_length, write_at_length. reflexivity.
Qed.

(** The body compiled without [HAVE_STRLCAT]: for every destination
    buffer of at least [dstsize > 0] bytes and every source string, it
    leaves a NUL within the first [dstsize] bytes of the destination and
    returns the length of the destination string, cut to [dstsize - 1]
    characters if it was longer, plus the length of the source, whether
    or not the result was truncated; with a NULL pointer or a zero size
    it returns 0. *)
Lemma pv_strlcat_result :
  (forall dst src dstsize,
      0 < dstsize <= Z.of_nat (List.length dst) ->
      Z.of_nat (List.length dst) + Z.of_nat (List.length src) < 2 ^ 64 ->
      exists dst',
        pv_strlcat (Some dst) (Some src) dstsize
        = (Z.min (strlen dst) (dstsize - 1) + strlen src, Some dst')
        /\ List.length dst' = List.length dst
        /\ terminated_within dst' dstsize)
  /\ (forall src dstsize, fst (pv_strlcat None src dstsize) = 0)
  /\ (forall dst dstsize, fst (pv_strlcat dst None dstsize) = 0)
  /\ (forall dst src, fst (pv_strlcat dst src 0) = 0).
Proof.
  split; [|split; [|split]].
  - intros dst src dstsize Hsize Hfit.
    unfold pv_strlcat.
    destruct (Z.eqb_spec dstsize 0) as [|_]; [lia|].
    set (d := store dst (dstsize - 1) NUL).
    assert (Hdlen : List.length d = List.length dst) by apply store_length.
    assert (Hstr : strlen d = Z.min (strlen dst) (dstsize - 1))
      by (apply strlen_store_nul; lia).
    pose proof (strlen_nat_le dst) as Hle1.
    pose proof (strlen_nat_le src) as Hle2.
    assert (Hd0 : 0 <= strlen d <= dstsize - 1) by (unfold strlen in *; lia).
    rewrite (wrap_size_small (dstsize - strlen d)) by lia.
    rewrite (wrap_size_small (strlen d + strlen src))
      by (unfold strlen in *; lia).
    rewrite Hstr.
    destruct (Z.gtb_spec (dstsize - Z.min (strlen dst) (dstsize - 1)) 1)
      as [Havail|Havail].
    + unfold pv_snprintf_str.
      destruct (Z.eqb_spec (dstsize - Z.min (strlen dst) (dstsize - 1)) 0);
        [lia|].
      destruct (vsnprintf_str (store d (Z.min (strlen dst) (dstsize - 1)) NUL)
                  (Z.min (strlen dst) (dstsize - 1))
                  (dstsize - Z.min (strlen dst) (dstsize - 1))
                  (wrap32 (dstsize - Z.min (strlen dst) (dstsize - 1) - 1))
                  src) as [ret buf] eqn:Hv.
      cbn [snd].
      assert (Hbuf : List.length buf = List.length dst).
      { pose proof (vsnprintf_str_length
                      (store d (Z.min (strlen dst) (dstsize - 1)) NUL)
                      (Z.min (strlen dst) (dstsize - 1))
                      (dstsize - Z.min (strlen dst) (dstsize - 1))
                      (wrap32 (dstsize - Z.min (strlen dst) (dstsize - 1) - 1))
                      src) as Hl.
        rewrite Hv in Hl. cbn [snd] in Hl.
        rewrite Hl, store_length. exact Hdlen. }
      replace (Z.min (strlen dst) (dstsize - 1)
               + (dstsize - Z.min (strlen dst) (dstsize - 1)) - 1)
        with (dstsize - 1) by lia.
      eexists. split; [reflexivity|]. split.
      * rewrite store_length. exact Hbuf.
      * exists (Z.to_nat (dstsize - 1)). split; [lia|].
        apply store_nth. lia.
    + eexists. split; [reflexivity|]. split; [exact Hdlen|].
      exists (Z.to_nat (dstsize - 1)). split; [lia|].
      apply store_nth. lia.
  - intros [src|] dstsize; reflexivity.
  - intros [dst|] dstsize; reflexivity.
  - intros [dst|] [src|]; reflexivity.
Qed.

(** C10, as stated, fails in the build that has [strlcat]: with a size of
    zero the call returns the length of the source, 3 here, not 0. *)
Lemma pv_strlcat_libc_size_zero :
  pv_strlcat_built true (Some (cstr "ab")) (Some (cstr "cde")) 0
  = Some (3, Some (cstr "ab"))
  /\ 3 <> 0.
Proof. split; [vm_compute; reflexivity|discriminate]. Qed.

Lemma strlcat_result (dst src : list ascii) (dsize : Z) :
  0 < dsize <= Z.of_nat (List.length dst) ->
  Z.of_nat (List.length dst) + Z.of_nat (List.length src) < 2 ^ 64 ->
  fst (strlcat dst src dsize) = Z.min (strlen dst) dsize + strlen src
  /\ List.length (snd (strlcat dst src dsize)) = List.length dst.
Proof.
  intros Hsize Hfit. unfold strlcat.
  pose proof (strlen_nat_le dst) as Hle1.
  pose proof (strlen_nat_le src) as Hle2.
  rewrite wrap_size_small by (unfold strlen in *; lia).
  destruct (dsize - Z.min (strlen dst) dsize =? 0); cbn [fst snd].
  - split; reflexivity.
  - split; [reflexivity|]. rewrite store_length, write_at_length. reflexivity.
Qed.

(** C10 (amended): for every destination buffer of at least [dstsize > 0]
    bytes and every source string, [pv_strlcat] leaves a NUL within the
    first [dstsize] bytes of the destination, however it was built.  It
    returns the length of the destination string plus the length of the
    source, whether or not the result was truncated, where a destination
    with no NUL in its first [dstsize] bytes counts as [dstsize - 1]
    characters in the build without [strlcat] and as [dstsize] in the
    build with it.  With a NULL pointer or a zero size the build without
    [strlcat] returns 0; the build with it passes the call to [strlcat],
    which for a zero size returns the length of the source and writes
    nothing. *)
Theorem pv_strlcat_builds :
  (forall have_strlcat dst src dstsize,
      0 < dstsize <= Z.of_nat (List.length dst) ->
      Z.of_nat (List.length dst) + Z.of_nat (List.length src) < 2 ^ 64 ->
      exists dst',
        pv_strlcat_built have_strlcat (Some dst) (Some src) dstsize
        = Some (Z.min (strlen dst)
                  (if have_strlcat then dstsize else dstsize - 1)
                + strlen src, Some dst')
        /\ List.length dst' = List.length dst
        /\ terminated_within dst' dstsize)
  /\ (forall have_strlcat dst src dstsize,
      0 < dstsize <= Z.of_nat (List.length dst) ->
      Z.of_nat (List.length dst) + Z.of_nat (List.length src) < 2 ^ 64 ->
      strlen dst < dstsize ->
      option_map fst
        (pv_strlcat_built have_strlcat (Some dst) (Some src) dstsize)
      = Some (strlen dst + strlen src))
  /\ (forall src dstsize,
      option_map fst (pv_strlcat_built false None src dstsize) = Some 0)
  /\ (forall dst dstsize,
      option_map fst (pv_strlcat_built false dst None dstsize) = Some 0)
  /\ (forall dst src,
      option_map fst (pv_strlcat_built false dst src 0) = Some 0)
  /\ (forall dst src,
      Z.of_nat (List.length src) < 2 ^ 64 ->
      pv_strlcat_built true (Some dst) (Some src) 0
      = Some (strlen src, Some dst)).
Proof.
  assert (Hboth : forall have_strlcat dst src dstsize,
      0 < dstsize <= Z.of_nat (List.length dst) ->
      Z.of_nat (List.length dst) + Z.of_nat (List.length src) < 2 ^ 64 ->
      exists dst',
        pv_strlcat_built have_strlcat (Some dst) (Some src) dstsize
        = Some (Z.min (strlen dst)
                  (if have_strlcat then dstsize else dstsize - 1)
                + strlen src, Some dst')
        /\ List.length dst' = List.length dst
        /\ terminated_within dst' dstsize).
  { intros [|] dst src dstsize Hsize Hfit.
    - unfold pv_strlcat_built, pv_strlcat_libc.
      destruct (strlcat_result dst src dstsize Hsize Hfit) as [Hret Hlen].
      destruct (strlcat dst src dstsize) as [result d]. cbn [fst snd] in *.
      destruct (Z.gtb_spec dstsize 0) as [_|]; [|lia].
      subst result. eexists. split; [reflexivity|]. split.
      + rewrite store_length. exact Hlen.
      + exists (Z.to_nat (dstsize - 1)). split; [lia|].
        apply store_nth. lia.
    - destruct (proj1 pv_strlcat_result dst src dstsize Hsize Hfit)
        as (dst' & Heq & Hlen & Hterm).
      exists dst'. unfold pv_strlcat_built. rewrite Heq. auto. }
  split; [exact Hboth|]. split; [|split; [|split; [|split]]].
  - intros have_strlcat dst src dstsize Hsize Hfit Hshort.
    destruct (Hboth have_strlcat dst src dstsize Hsize Hfit)
      as (dst' & -> & _). cbn [option_map fst].
    destruct have_strlcat; f_equal; lia.
  - intros [src|] dstsize; reflexivity.
  - intros [dst|] dstsize; reflexivity.
  - intros [dst|] [src|]; reflexivity.
  - intros dst src Hfit. unfold pv_strlcat_built, pv_strlcat_libc, strlcat.
    pose proof (strlen_nat_le src) as Hle.
    assert (Hmin : Z.min (strlen dst) 0 = 0) by (unfold strlen; lia).
    rewrite Hmin. cbn [Z.sub Z.eqb Z.opp Z.add Z.gtb Z.compare].
    rewrite wrap_size_small by (unfold strlen; lia). reflexivity.
Qed.

Lemma pv_strlcat_builds_witness :
  exists dst',
    pv_strlcat_built true (Some (cstr "ab" ++ repeat NUL 6))
      (Some (cstr "cdefghij")) 8
    = Some (Z.min (strlen (cstr "ab" ++ repeat NUL 6)) 8
            + strlen (cstr "cdefghij"), Some dst')
    /\ List.length dst' = List.length (cstr "ab" ++ repeat NUL 6)
    /\ terminated_within dst' 8.
Proof.
  apply (proj1 pv_strlcat_builds true (cstr "ab" ++ repeat NUL 6)
           (cstr "cdefghij") 8).
  - cbn. lia.
  - cbn. lia.
Defined.

End PvStringFacts.

(** ** display.c *)

Module DisplayFacts.
Import CInt CIntFacts Number PvString PvStringFacts State Display.

(** *** What each step of [pv__format] leaves alone *)

Lemma component_eqb_eq a b : component_eqb a b = true <-> a = b.
Proof.
  unfold component_eqb. rewrite Nat.eqb_eq.
  split; [|intros ->; reflexivity].
  destruct a, b; cbn; intros H; try reflexivity; discriminate H.
Qed.

Lemma component_eqb_refl a : component_eqb a a = true.
Proof. apply component_eqb_eq. reflexivity. Qed.

Lemma component_eqb_neq a b : a <> b -> component_eqb a b = false.
Proof.
  intros H. destruct (component_eqb a b) eqn:E; [|reflexivity].
  apply component_eqb_eq in E. contradiction.
Qed.

Lemma update_percentage_control env total st :
  control (update_percentage env total st) = control st.
Proof.
  unfold update_percentage.
  destruct (size (control st) <=? 0); [reflexivity|].
  destruct (numeric (control st)
            || required (component (display st) PV_COMPONENT_PROGRESS));
    reflexivity.
Qed.

Lemma update_percentage_component env total st :
  component (display (update_percentage env total st))
  = component (display st).
Proof.
  unfold update_percentage.
  destruct (size (control st) <=? 0); [reflexivity|].
  destruct (numeric (control st)
            || required (component (display st) PV_COMPONENT_PROGRESS));
    reflexivity.
Qed.

Lemma ensure_display_buffer_keeps env st st' :
  ensure_display_buffer env st = Some st' ->
  control st' = control st
  /\ percentage (display st') = percentage (display st)
  /\ component (display st') = component (display st).
Proof.
  unfold ensure_display_buffer. intros H.
  repeat match type of H with
  | context [match ?x with _ => _ end] => destruct x
  end; inversion H; subst; repeat split; reflexivity.
Qed.

Lemma render_component_control env c st :
  control (render_component env c st) = control st.
Proof.
  unfold render_component.
  repeat match goal with
  | |- context [if ?b then _ else _] => destruct b
  end; reflexivity.
Qed.

Lemma render_component_percentage env c st :
  percentage (display (render_component env c st)) = percentage (display st).
Proof.
  unfold render_component.
  repeat match goal with
  | |- context [if ?b then _ else _] => destruct b
  end; reflexivity.
Qed.

Lemma render_component_other env c c' st :
  c <> c' ->
  component (display (render_component env c st)) c'
  = component (display st) c'.
Proof.
  intros Hne. unfold render_component.
  repeat match goal with
  | |- context [if ?b then _ else _] => destruct b
  end; cbn; unfold set_component_at;
    rewrite ?(component_eqb_neq c c' Hne); reflexivity.
Qed.

Lemma render_component_required env c c' st :
  required (component (display (render_component env c st)) c')
  = required (component (display st) c').
Proof.
  unfold render_component.
  destruct (required (component (display st) c)) eqn:Hreq; cbn [negb];
    [|reflexivity].
  repeat match goal with
  | |- context [if ?b then _ else _] => destruct b
  end; cbn; unfold set_component_at;
    destruct (component_eqb c c') eqn:E; try reflexivity;
    apply component_eqb_eq in E; subst c'; cbn; symmetry; exact Hreq.
Qed.

(** The components an unknown size leaves empty. *)
Definition eta_component (c : pv_display_component) : Prop :=
  c = PV_COMPONENT_ETA \/ c = PV_COMPONENT_FINETA.

Definition left_empty (c : pv_display_component) (st : pvstate) : Prop :=
  required (component (display st) c) = true
  /\ c_string (content (component (display st) c)) = []
  /\ content_length (component (display st) c) = 0.

Lemma c_string_store_nul buf : c_string (store buf 0 NUL) = [].
Proof.
  unfold c_string, store.
  destruct buf as [|c buf]; [reflexivity|].
  cbn. reflexivity.
Qed.

Lemma render_component_eta env c st :
  eta_component c -> size (control st) < 1 ->
  required (component (display st) c) = true ->
  left_empty c (render_component env c st).
Proof.
  intros Hc Hsize Hreq. unfold render_component. rewrite Hreq. cbn [negb].
  destruct (Z.ltb_spec (size (control st)) 1); [|lia].
  assert (Heta : component_eqb c PV_COMPONENT_ETA
                 || component_eqb c PV_COMPONENT_FINETA = true).
  { destruct Hc as [-> | ->]; reflexivity. }
  rewrite Heta. cbn [andb].
  unfold left_empty. cbn. unfold set_component_at.
  rewrite component_eqb_refl. cbn.
  split; [reflexivity|]. split; [apply c_string_store_nul|reflexivity].
Qed.

Lemma render_components_keep env c cs : forall st,
  ~ In c cs ->
  component (display (fold_left (fun st c => render_component env c st) cs st)) c
  = component (display st) c
  /\ control (fold_left (fun st c => render_component env c st) cs st)
     = control st.
Proof.
  induction cs as [|c' cs IH]; intros st Hin; cbn [fold_left].
  - split; reflexivity.
  - destruct (IH (render_component env c' st)) as [Hcomp Hctl].
    { intros H. apply Hin. right. exact H. }
    rewrite Hcomp, Hctl. split.
    + apply render_component_other. intros ->. apply Hin. left. reflexivity.
    + apply render_component_control.
Qed.

Lemma render_components_control env cs : forall st,
  control (fold_left (fun st c => render_component env c st) cs st)
  = control st.
Proof.
  induction cs as [|c' cs IH]; intros st; cbn [fold_left]; [reflexivity|].
  rewrite IH. apply render_component_control.
Qed.

Lemma render_components_percentage env cs : forall st,
  percentage (display (fold_left (fun st c => render_component env c st) cs st))
  = percentage (display st).
Proof.
  induction cs as [|c' cs IH]; intros st; cbn [fold_left]; [reflexivity|].
  rewrite IH. apply render_component_percentage.
Qed.

Lemma render_components_required env c cs : forall st,
  required (component (display
     (fold_left (fun st c => render_component env c st) cs st)) c)
  = required (component (display st) c).
Proof.
  induction cs as [|c' cs IH]; intros st; cbn [fold_left]; [reflexivity|].
  rewrite IH. apply render_component_required.
Qed.

(** After the loop over all the components, a required ETA component of
    a transfer of unknown size is empty. *)
Lemma render_components_eta env c st :
  eta_component c -> size (control st) < 1 ->
  required (component (display st) c) = true ->
  left_empty c
    (fold_left (fun st c => render_component env c st) all_components st).
Proof.
  intros Hc Hsize Hreq.
  assert (Hsplit : exists before after,
             all_components = before ++ c :: after
             /\ ~ In c before /\ ~ In c after).
  { destruct Hc as [-> | ->].
    - exists [PV_COMPONENT_STRING; PV_COMPONENT_PROGRESS; PV_COMPONENT_BYTES;
              PV_COMPONENT_TIMER; PV_COMPONENT_RATE; PV_COMPONENT_AVERAGERATE],
             [PV_COMPONENT_FINETA; PV_COMPONENT_NAME; PV_COMPONENT_BUFPERCENT;
              PV_COMPONENT_OUTPUTBUF].
      split; [reflexivity|].
      split; cbn; intros H; repeat destruct H as [H|H]; try discriminate H;
        exact H.
    - exists [PV_COMPONENT_STRING; PV_COMPONENT_PROGRESS; PV_COMPONENT_BYTES;
              PV_COMPONENT_TIMER; PV_COMPONENT_RATE; PV_COMPONENT_AVERAGERATE;
              PV_COMPONENT_ETA],
             [PV_COMPONENT_NAME; PV_COMPONENT_BUFPERCENT; PV_COMPONENT_OUTPUTBUF].
      split; [reflexivity|].
      split; cbn; intros H; repeat destruct H as [H|H]; try discriminate H;
        exact H. }
  destruct Hsplit as (before & after & -> & Hb & Ha).
  rewrite fold_left_app. cbn [fold_left].
  set (st1 := fold_left (fun st c => render_component env c st) before st).
  destruct (render_components_keep env c before st Hb) as [Hcomp1 Hctl1].
  fold st1 in Hcomp1, Hctl1.
  assert (Hmid : left_empty c (render_component env c st1)).
  { apply render_component_eta; [assumption|rewrite Hctl1; assumption|].
    rewrite Hcomp1. exact Hreq. }
  destruct (render_components_keep env c after (render_component env c st1) Ha)
    as [Hcomp2 _].
  unfold left_empty in *. rewrite Hcomp2. exact Hmid.
Qed.

(** The clamp applied to the percentage before the bar is drawn. *)
Definition clamp_percentage (p : Z) : Z :=
  let p := if p <? 0 then 0 else p in
  if p >? 100000 then 100000 else p.

Lemma known_size_bar_state sps buf st :
  snd (known_size_bar sps buf st)
  = with_display (set_percentage (clamp_percentage (percentage (display st)))) st.
Proof.
  unfold known_size_bar, clamp_percentage.
  repeat match goal with
  | |- context [for_loop ?f ?i ?hi ?body ?a] =>
      destruct (for_loop f i hi body a)
  | |- context [if ?b then (_, _) else (_, _)] => destruct b
  end; reflexivity.
Qed.

Lemma render_progress_control sps st :
  control (render_progress sps st) = control st.
Proof.
  unfold render_progress.
  destruct (negb (required (component (display st) PV_COMPONENT_PROGRESS)));
    [reflexivity|].
  destruct (size (control st) >? 0).
  - pose proof (known_size_bar_state sps
      (pv_snprintf_text
         (store (content (component (display st) PV_COMPONENT_PROGRESS)) 0 NUL)
         PV_SIZEOF_COMPONENT_STR ["["%char]) st) as Hk.
    destruct (known_size_bar _ _ st) as [buf st1]. cbn [snd] in Hk. subst st1.
    match goal with
    | |- context [if ?b then (_, _) else (_, _)] => destruct b
    end; reflexivity.
  - match goal with
    | |- context [if ?b then (_, _) else (_, _)] => destruct b
    end; reflexivity.
Qed.

Lemma render_progress_other sps st c :
  c <> PV_COMPONENT_PROGRESS ->
  component (display (render_progress sps st)) c = component (display st) c.
Proof.
  intros Hne. unfold render_progress.
  destruct (negb (required (component (display st) PV_COMPONENT_PROGRESS)));
    [reflexivity|].
  assert (Hneq : component_eqb PV_COMPONENT_PROGRESS c = false)
    by (apply component_eqb_neq; congruence).
  destruct (size (control st) >? 0).
  - pose proof (known_size_bar_state sps
      (pv_snprintf_text
         (store (content (component (display st) PV_COMPONENT_PROGRESS)) 0 NUL)
         PV_SIZEOF_COMPONENT_STR ["["%char]) st) as Hk.
    destruct (known_size_bar _ _ st) as [buf st1]. cbn [snd] in Hk. subst st1.
    match goal with
    | |- context [if ?b then (_, _) else (_, _)] => destruct b
    end; cbn; unfold set_component_at; rewrite Hneq; reflexivity.
  - match goal with
    | |- context [if ?b then (_, _) else (_, _)] => destruct b
    end; cbn; unfold set_component_at; rewrite Hneq; reflexivity.
Qed.

(** The bar leaves the percentage as it is, or clamped to [0, 100000]
    when the size is known. *)
Lemma render_progress_percentage sps st :
  percentage (display (render_progress sps st)) = percentage (display st)
  \/ (0 < size (control st)
      /\ percentage (display (render_progress sps st))
         = clamp_percentage (percentage (display st))).
Proof.
  unfold render_progress.
  destruct (negb (required (component (display st) PV_COMPONENT_PROGRESS)));
    [left; reflexivity|].
  destruct (Z.gtb_spec (size (control st)) 0).
  - right. split; [lia|].
    pose proof (known_size_bar_state sps
      (pv_snprintf_text
         (store (content (component (display st) PV_COMPONENT_PROGRESS)) 0 NUL)
         PV_SIZEOF_COMPONENT_STR ["["%char]) st) as Hk.
    destruct (known_size_bar _ _ st) as [buf st1]. cbn [snd] in Hk. subst st1.
    match goal with
    | |- context [if ?b then (_, _) else (_, _)] => destruct b
    end; reflexivity.
  - left.
    match goal with
    | |- context [if ?b then (_, _) else (_, _)] => destruct b
    end; reflexivity.
Qed.

Lemma assemble_line_keeps st :
  component (display (assemble_line st)) = component (display st)
  /\ percentage (display (assemble_line st)) = percentage (display st).
Proof.
  unfold assemble_line.
  destruct (display_buffer (display st)); [|split; reflexivity].
  destruct (append_segments _ _ _ _ _ _) as [buf len].
  match goal with
  | |- context [if ?b then (_, _) else (_, _)] => destruct b
  end; split; reflexivity.
Qed.

(** A successful update in the formatted mode ends with the components
    and the percentage of [render_all]. *)
Lemma pv__format_formatted env bsl total st :
  numeric (control st) = false ->
  fst (pv__format env bsl total st) = true ->
  exists st1,
    ensure_display_buffer env (update_percentage env total st) = Some st1
    /\ 0 <= total
    /\ component (display (snd (pv__format env bsl total st)))
       = component (display (render_all env st1))
    /\ percentage (display (snd (pv__format env bsl total st)))
       = percentage (display (render_all env st1)).
Proof.
  intros Hnum. unfold pv__format.
  destruct (Z.ltb_spec total 0); [discriminate|].
  destruct (ensure_display_buffer env (update_percentage env total st))
    as [st1|] eqn:Hbuf; [|discriminate].
  destruct (ensure_display_buffer_keeps _ _ _ Hbuf) as (Hctl & _ & _).
  rewrite Hctl, update_percentage_control, Hnum.
  intros _. exists st1. split; [reflexivity|]. split; [assumption|].
  cbn [snd]. apply assemble_line_keeps.
Qed.

(** C6, as stated, fails: with an unknown size the ETA components of the
    format ["%b %e %I|"] are empty strings, and the line shows nothing
    between the separators. *)
Definition sample_control (fmt : string) (total_size term_width : Z) : control_t :=
  mkControl false false false false false false 0 0 false false false false
    false 0 0 total_size term_width None (cstr fmt) None.

Definition sample_display : display_t :=
  mkDisplay None 0 0 0 false 0 0 0 [] 0 [] (fun _ => zero_component).

Definition sample_transfer : transfer_t :=
  mkTransfer None 0 0 0 (-1) 0 false (-1) false 0 0.

Definition sample_state (fmt : string) (total_size term_width : Z) : pvstate :=
  mkState 0 (sample_control fmt total_size term_width)
    sample_display sample_transfer [].

Definition sample_env : render_env :=
  mkEnv true true
    (fun c =>
       match c with
       | PV_COMPONENT_ETA => cstr "ETA 0:00:10"
       | PV_COMPONENT_FINETA => cstr "ETA 12:00:00"
       | PV_COMPONENT_BYTES => cstr " 500 B"
       | _ => cstr "?"
       end) [].

Lemma unknown_size_eta_not_spaces :
  let st := snd (pv__format sample_env 10 500
                   (pv__format_init (sample_state "%b %e %I|" 0 80))) in
  ~ rendered_as_spaces PV_COMPONENT_ETA st
  /\ ~ rendered_as_spaces PV_COMPONENT_FINETA st
  /\ display_line st = cstr " 500 B  |".
Proof.
  cbv zeta. split; [|split].
  - intros (n & Hn & Htext & _). vm_compute in Htext.
    destruct n; [lia|discriminate Htext].
  - intros (n & Hn & Htext & _). vm_compute in Htext.
    destruct n; [lia|discriminate Htext].
  - vm_compute. reflexivity.
Qed.

(** When the total size is unknown ([size < 1]), a display update in
    the formatted mode leaves every required [%e] and [%I] component
    empty, with length 0. *)
Lemma unknown_size_eta_empty env bsl total st c :
  eta_component c ->
  required (component (display st) c) = true ->
  size (control st) < 1 ->
  numeric (control st) = false ->
  fst (pv__format env bsl total st) = true ->
  left_empty c (snd (pv__format env bsl total st)).
Proof.
  intros Hc Hreq Hsize Hnum Hok.
  destruct (pv__format_formatted env bsl total st Hnum Hok)
    as (st1 & Hbuf & _ & Hcomp & _).
  destruct (ensure_display_buffer_keeps _ _ _ Hbuf) as (Hctl & _ & Hcomp1).
  rewrite update_percentage_control in Hctl.
  rewrite update_percentage_component in Hcomp1.
  unfold left_empty. rewrite Hcomp. unfold render_all.
  rewrite render_progress_other
    by (destruct Hc as [-> | ->]; discriminate).
  apply render_components_eta; [assumption|rewrite Hctl; assumption|].
  rewrite Hcomp1. exact Hreq.
Qed.

(** *** The working percentage *)

Lemma update_percentage_unknown env total st :
  size (control st) <= 0 ->
  0 <= percentage (display st) <= 2 ^ 31 - 3 ->
  0 <= percentage (display (update_percentage env total st)) < 200.
Proof.
  intros Hsize Hp. unfold update_percentage.
  destruct (Z.leb_spec (size (control st)) 0); [|lia].
  cbn [display set_display percentage set_percentage].
  destruct (rate_positive env).
  - rewrite wrap32_small by (unfold in32; lia).
    destruct (Z.gtb_spec (percentage (display st) + 2) 199); lia.
  - destruct (Z.gtb_spec (percentage (display st)) 199); lia.
Qed.

Lemma pv__calc_percentage_exact so_far total :
  0 <= so_far <= total -> 0 < total -> so_far * 100 <= max64 ->
  pv__calc_percentage so_far total = so_far * 100 / total
  /\ 0 <= so_far * 100 / total <= 100.
Proof.
  intros Hso Htot Hmax. unfold max64 in Hmax.
  assert (Hq : 0 <= so_far * 100 / total <= 100).
  { split; [apply Z.div_pos; lia|].
    apply Z.div_le_upper_bound; lia. }
  split; [|exact Hq].
  unfold pv__calc_percentage.
  destruct (Z.ltb_spec total 1); [lia|].
  rewrite (wrap64_small (so_far * 100)) by (unfold in64, min64, max64; lia).
  rewrite Z.quot_div_nonneg by lia.
  rewrite wrap64_small by (unfold in64, min64, max64; lia).
  apply wrap32_small. unfold in32. lia.
Qed.

Lemma update_percentage_known env total st :
  0 < size (control st) ->
  numeric (control st)
  || required (component (display st) PV_COMPONENT_PROGRESS) = true ->
  percentage (display (update_percentage env total st))
  = pv__calc_percentage total (size (control st)).
Proof.
  intros Hsize Hshown. unfold update_percentage.
  destruct (Z.leb_spec (size (control st)) 0); [lia|].
  rewrite Hshown. reflexivity.
Qed.

Lemma numeric_output_percentage env total st :
  percentage (display (numeric_output env total st)) = percentage (display st).
Proof.
  unfold numeric_output.
  destruct (display_buffer (display st)); reflexivity.
Qed.

(** After an update the percentage is the one computed at its head,
    clamped to [0, 100000] where the bar of a known size is drawn. *)
Lemma pv__format_percentage env bsl total st :
  0 <= total ->
  let p := percentage (display (update_percentage env total st)) in
  let p' := percentage (display (snd (pv__format env bsl total st))) in
  p' = p \/ (0 < size (control st) /\ p' = clamp_percentage p).
Proof.
  intros Htotal. cbv zeta. unfold pv__format.
  destruct (Z.ltb_spec total 0); [lia|].
  destruct (ensure_display_buffer env (update_percentage env total st))
    as [st1|] eqn:Hbuf.
  - destruct (ensure_display_buffer_keeps _ _ _ Hbuf) as (Hctl & Hp & _).
    rewrite update_percentage_control in Hctl.
    destruct (numeric (control st1)); cbn [snd].
    + left. rewrite numeric_output_percentage. exact Hp.
    + rewrite (proj2 (assemble_line_keeps _)). unfold render_all.
      destruct (render_progress_percentage
                  (static_portion (display (fold_left
                     (fun st c => render_component env c st)
                     all_components st1)))
                  (fold_left (fun st c => render_component env c st)
                     all_components st1)) as [H1|[Hs H1]].
      * left. rewrite H1, render_components_percentage. exact Hp.
      * right. rewrite render_components_control, Hctl in Hs.
        split; [exact Hs|].
        rewrite H1, render_components_percentage, Hp. reflexivity.
  - left. reflexivity.
Qed.

(** C4, as stated, fails: with a total size of 100 and 300 bytes
    transferred the working percentage is 300. *)
Lemma percentage_exceeds_100 :
  ~ percentage_in_spec_range
      (snd (pv__format sample_env 10 300
              (pv__format_init (sample_state "%p" 100 80)))).
Proof.
  set (st := snd (pv__format sample_env 10 300
                    (pv__format_init (sample_state "%p" 100 80)))).
  assert (Hs : size (control st) = 100) by (vm_compute; reflexivity).
  assert (Hp : percentage (display st) = 300) by (vm_compute; reflexivity).
  unfold percentage_in_spec_range. rewrite Hs, Hp.
  change (100 >? 0) with true. cbv iota. lia.
Qed.

(** Where the bar of a known size is drawn, the percentage is clamped. *)
Lemma render_progress_clamps sps st :
  required (component (display st) PV_COMPONENT_PROGRESS) = true ->
  0 < size (control st) ->
  percentage (display (render_progress sps st))
  = clamp_percentage (percentage (display st)).
Proof.
  intros Hreq Hsize. unfold render_progress. rewrite Hreq. cbn [negb].
  destruct (Z.gtb_spec (size (control st)) 0); [|lia].
  pose proof (known_size_bar_state sps
    (pv_snprintf_text
       (store (content (component (display st) PV_COMPONENT_PROGRESS)) 0 NUL)
       PV_SIZEOF_COMPONENT_STR ["["%char]) st) as Hk.
  destruct (known_size_bar _ _ st) as [buf st1]. cbn [snd] in Hk. subst st1.
  match goal with
  | |- context [if ?b then (_, _) else (_, _)] => destruct b
  end; reflexivity.
Qed.

Lemma clamp_percentage_range p : 0 <= clamp_percentage p <= 100000.
Proof.
  unfold clamp_percentage.
  destruct (Z.ltb_spec p 0).
  - destruct (Z.gtb_spec 0 100000); lia.
  - destruct (Z.gtb_spec p 100000); lia.
Qed.

(** The step of the liveness ticker. *)
Lemma update_percentage_ticker env total st :
  size (control st) <= 0 ->
  0 <= percentage (display st) <= 2 ^ 31 - 3 ->
  percentage (display (update_percentage env total st))
  = (let p := percentage (display st) in
     let p := if rate_positive env then p + 2 else p in
     if p >? 199 then 0 else p).
Proof.
  intros Hsize Hp. unfold update_percentage.
  destruct (Z.leb_spec (size (control st)) 0); [|lia].
  cbn [display set_display percentage set_percentage]. cbv zeta.
  destruct (rate_positive env); [|reflexivity].
  rewrite wrap32_small by (unfold in32; lia). reflexivity.
Qed.

(** C4 (amended): after a display update, if the total size is not
    positive and the working percentage was non-negative before, it has
    advanced by 2 if the rate is positive, has restarted at 0 if that
    took it above 199, and so lies in [0, 200); if the total size is
    positive and the percentage is shown (numeric mode, or a progress bar
    in the format) it is 100 * total / size rounded down, which lies in
    [0, 100] as long as no more than [size] has been transferred; and
    where the progress bar of a positive size is drawn the percentage is
    that quotient as [pv__calc_percentage] gives it, clamped to
    [0, 100000]. *)
Theorem percentage_after_update env bsl total st :
  0 <= total ->
  let st' := snd (pv__format env bsl total st) in
  (size (control st) <= 0 ->
   0 <= percentage (display st) <= 2 ^ 31 - 3 ->
   percentage (display st')
   = (let p := percentage (display st) in
      let p := if rate_positive env then p + 2 else p in
      if p >? 199 then 0 else p)
   /\ 0 <= percentage (display st') < 200)
  /\ (0 < size (control st) ->
      numeric (control st)
      || required (component (display st) PV_COMPONENT_PROGRESS) = true ->
      total <= size (control st) -> total * 100 <= max64 ->
      percentage (display st') = total * 100 / size (control st)
      /\ 0 <= percentage (display st') <= 100)
  /\ (0 < size (control st) ->
      numeric (control st) = false ->
      required (component (display st) PV_COMPONENT_PROGRESS) = true ->
      fst (pv__format env bsl total st) = true ->
      percentage (display st')
      = clamp_percentage (pv__calc_percentage total (size (control st)))
      /\ 0 <= percentage (display st') <= 100000).
Proof.
  intros Htotal. cbv zeta.
  pose proof (pv__format_percentage env bsl total st Htotal) as Hp.
  cbv zeta in Hp. split; [|split].
  - intros Hsize Hprev.
    destruct Hp as [Hp|[Hs _]]; [|lia].
    pose proof (update_percentage_unknown env total st Hsize Hprev) as Hr.
    rewrite <- Hp in Hr. split; [|exact Hr].
    rewrite Hp. apply update_percentage_ticker; assumption.
  - intros Hsize Hshown Hle Hmax.
    rewrite (update_percentage_known env total st Hsize Hshown) in Hp.
    destruct (pv__calc_percentage_exact total (size (control st)))
      as [Hcalc Hrange]; [lia|lia|assumption|].
    rewrite Hcalc in Hp.
    assert (Hclamp : clamp_percentage (total * 100 / size (control st))
                     = total * 100 / size (control st)).
    { unfold clamp_percentage.
      destruct (Z.ltb_spec (total * 100 / size (control st)) 0); [lia|].
      destruct (Z.gtb_spec (total * 100 / size (control st)) 100000); lia. }
    rewrite Hclamp in Hp.
    assert (Heq : percentage (display (snd (pv__format env bsl total st)))
                  = total * 100 / size (control st))
      by (destruct Hp as [Hp|[_ Hp]]; exact Hp).
    rewrite Heq. split; [reflexivity|exact Hrange].
  - intros Hsize Hnum Hreq Hok.
    assert (Hshown : numeric (control st)
                     || required (component (display st) PV_COMPONENT_PROGRESS)
                     = true) by (rewrite Hreq; apply orb_true_r).
    assert (Heq : percentage (display (snd (pv__format env bsl total st)))
                  = clamp_percentage
                      (pv__calc_percentage total (size (control st)))).
    { clear Hp. revert Hok. unfold pv__format.
      destruct (Z.ltb_spec total 0); [lia|].
      destruct (ensure_display_buffer env (update_percentage env total st))
        as [st1|] eqn:Hbuf; [|cbn [fst]; discriminate].
      destruct (ensure_display_buffer_keeps _ _ _ Hbuf) as (Hctl & Hp1 & Hc1).
      rewrite update_percentage_control in Hctl.
      rewrite update_percentage_component in Hc1.
      rewrite (update_percentage_known env total st Hsize Hshown) in Hp1.
      rewrite Hctl, Hnum. intros _. cbn [snd].
      rewrite (proj2 (assemble_line_keeps _)). unfold render_all.
      rewrite render_progress_clamps.
      - rewrite render_components_percentage, Hp1. reflexivity.
      - rewrite render_components_required, Hc1. exact Hreq.
      - rewrite render_components_control, Hctl. exact Hsize. }
    rewrite Heq. split; [reflexivity|apply clamp_percentage_range].
Qed.

Lemma percentage_after_update_witness :
  (let st := set_display (set_percentage 198 sample_display)
               (pv__format_init (sample_state "%p" 0 80)) in
   let st' := snd (pv__format sample_env 10 500 st) in
   percentage (display st') = 0)
  /\ (let st := pv__format_init (sample_state "%p" 1000 80) in
      let st' := snd (pv__format sample_env 10 500 st) in
      percentage (display st') = 500 * 100 / size (control st)
      /\ 0 <= percentage (display st') <= 100)
  /\ (let st := pv__format_init (sample_state "%p" 2 80) in
      let st' := snd (pv__format sample_env 10 5000 st) in
      percentage (display st') = 100000).
Proof.
  cbv zeta. split; [|split].
  - refine (eq_trans
      (proj1 (proj1 (percentage_after_update sample_env 10 500
                (set_display (set_percentage 198 sample_display)
                   (pv__format_init (sample_state "%p" 0 80)))
                ltac:(lia)) _ _)) _).
    + vm_compute. discriminate.
    + vm_compute. split; discriminate.
    + vm_compute. reflexivity.
  - apply (proj1 (proj2 (percentage_after_update sample_env 10 500
                    (pv__format_init (sample_state "%p" 1000 80))
                    ltac:(lia)))).
    + vm_compute. reflexivity.
    + vm_compute. reflexivity.
    + vm_compute. discriminate.
    + vm_compute. discriminate.
  - refine (eq_trans
      (proj1 (proj2 (proj2 (percentage_after_update sample_env 10 5000
                (pv__format_init (sample_state "%p" 2 80))
                ltac:(lia))) _ _ _ _)) _).
    + vm_compute. reflexivity.
    + vm_compute. reflexivity.
    + vm_compute. reflexivity.
    + vm_compute. reflexivity.
    + vm_compute. reflexivity.
Defined.

(** *** The line of a transfer of unknown size *)

(** The stored segments of the format. *)
Definition segments (d : display_t) : list format_segment :=
  firstn (Z.to_nat (format_segment_count d)) (format d).

Definition eta_segment (seg : format_segment) : bool :=
  match seg_type seg with
  | PV_COMPONENT_ETA | PV_COMPONENT_FINETA => true
  | _ => false
  end.

(** [component[c].required = false]. *)
Definition not_required (c : pv_display_component) (d : display_t)
  : display_t :=
  set_component
    (set_component_at c
       (mkComponent false (content (component d c))
          (content_length (component d c)))
       (component d)) d.

(** The state with the [%e] and [%I] segments taken out of the parsed
    format, as [pv__format_init] leaves it for the format string without
    these directives: the other segments in their order, and neither
    component required. *)
Definition without_eta (st : pvstate) : pvstate :=
  with_display
    (fun d =>
       let kept := filter (fun seg => negb (eta_segment seg)) (segments d) in
       let d := set_format kept d in
       let d := set_format_segment_count (Z.of_nat (List.length kept)) d in
       not_required PV_COMPONENT_FINETA (not_required PV_COMPONENT_ETA d))
    st.

(** [st] with another format array and component table. *)
Definition rebuild (st : pvstate) (count : Z) (fmt : list format_segment)
    (table : pv_display_component -> display_component) : pvstate :=
  set_display
    (set_component table
       (set_format fmt (set_format_segment_count count (display st)))) st.

(** [st'] is [st] without its [%e] and [%I] segments, whatever the two
    components hold. *)
Inductive omits_eta (st : pvstate) : pvstate -> Prop :=
| omits_eta_intro count fmt table :
    firstn (Z.to_nat count) fmt
    = filter (fun seg => negb (eta_segment seg)) (segments (display st)) ->
    (forall c, ~ eta_component c -> table c = component (display st) c) ->
    omits_eta st (rebuild st count fmt table).

Lemma omits_eta_make st st' count fmt table :
  st' = rebuild st count fmt table ->
  firstn (Z.to_nat count) fmt
  = filter (fun seg => negb (eta_segment seg)) (segments (display st)) ->
  (forall c, ~ eta_component c -> table c = component (display st) c) ->
  omits_eta st st'.
Proof. intros -> Hsegs Htable. constructor; assumption. Qed.

Ltac same_but_table count fmt table :=
  apply (omits_eta_make _ _ count fmt table);
  [reflexivity|assumption|assumption].

Lemma eta_component_dec c : {eta_component c} + {~ eta_component c}.
Proof.
  unfold eta_component.
  destruct c; first [left; left; reflexivity | left; right; reflexivity
                    | right; intros [H|H]; discriminate H].
Qed.

Lemma without_eta_omits st : omits_eta st (without_eta st).
Proof.
  set (kept := filter (fun seg => negb (eta_segment seg))
                 (segments (display st))).
  assert (Heq : without_eta st
                = rebuild st (Z.of_nat (List.length kept)) kept
                    (component (display (without_eta st))))
    by reflexivity.
  rewrite Heq. constructor.
  - rewrite Nat2Z.id. apply firstn_all.
  - intros c Hc. unfold without_eta, with_display, not_required.
    cbn [display set_display component set_component set_format
         set_format_segment_count]. unfold set_component_at.
    destruct c; try reflexivity; exfalso; apply Hc;
      [left|right]; reflexivity.
Qed.

Lemma not_eta_progress : ~ eta_component PV_COMPONENT_PROGRESS.
Proof. intros [H|H]; discriminate H. Qed.

Lemma update_percentage_omits env total st st' :
  omits_eta st st' ->
  omits_eta (update_percentage env total st) (update_percentage env total st').
Proof.
  intros [count fmt table Hsegs Htable]. unfold update_percentage.
  cbn [rebuild control set_display display component set_component].
  rewrite (Htable _ not_eta_progress).
  destruct (size (control st) <=? 0).
  - same_but_table count fmt table.
  - destruct (numeric (control st)
              || required (component (display st) PV_COMPONENT_PROGRESS)).
    + same_but_table count fmt table.
    + same_but_table count fmt table.
Qed.

Lemma ensure_display_buffer_omits env st st' :
  omits_eta st st' ->
  match ensure_display_buffer env st, ensure_display_buffer env st' with
  | Some s, Some s' => omits_eta s s'
  | None, None => True
  | _, _ => False
  end.
Proof.
  intros [count fmt table Hsegs Htable]. unfold ensure_display_buffer.
  cbn [rebuild control set_display display display_buffer
       display_buffer_size set_component set_format
       set_format_segment_count].
  destruct (display_buffer (display st)) as [buf|] eqn:Hb.
  - destruct (display_buffer_size (display st)
              <? wrap_uint (width (control st) * 2)).
    + cbn [display_buffer set_display_buffer set_display_buffer_size].
      destruct (display_alloc_ok env); [|exact I].
      same_but_table count fmt table.
    + cbn [display_buffer set_component set_format set_format_segment_count].
      rewrite Hb.
      same_but_table count fmt table.
  - cbn [display_buffer set_component set_format set_format_segment_count].
    rewrite Hb.
    destruct (display_alloc_ok env); [|exact I].
    same_but_table count fmt table.
Qed.

Lemma render_component_omits env c st st' :
  omits_eta st st' ->
  omits_eta (render_component env c st) (render_component env c st').
Proof.
  intros [count fmt table Hsegs Htable].
  destruct (eta_component_dec c) as [Hc|Hc].
  - (* an ETA component: only its own entry can change *)
    assert (Hother : forall v c', ~ eta_component c' ->
              set_component_at c v table c' = table c').
    { intros v c' Hc'. unfold set_component_at.
      rewrite component_eqb_neq; [reflexivity|].
      intros ->. contradiction. }
    assert (Hother1 : forall v c', ~ eta_component c' ->
              set_component_at c v (component (display st)) c'
              = component (display st) c').
    { intros v c' Hc'. unfold set_component_at.
      rewrite component_eqb_neq; [reflexivity|].
      intros ->. contradiction. }
    assert (Hleft : forall s, s = st \/
              (exists v, s = set_display
                             (set_component
                                (set_component_at c v (component (display st)))
                                (display st)) st) ->
              omits_eta s (render_component env c (rebuild st count fmt table))).
    { intros s Hs. unfold render_component.
      cbn [rebuild control set_display display component set_component].
      destruct (negb (required (table c))).
      - destruct Hs as [->|[v ->]].
        + same_but_table count fmt table.
        + apply (omits_eta_make _ _ count fmt table);
            [reflexivity|assumption|].
          intros c' Hc'. cbn [display set_display component set_component].
          rewrite Hother1 by assumption. auto.
      - match goal with
        | |- omits_eta _ (if ?b then _ else _) => destruct b
        end.
        all: destruct Hs as [->|[v ->]].
        all: match goal with
             | |- omits_eta _ (set_display (set_component
                                 (set_component_at _ ?w _) _) _) =>
                 apply (omits_eta_make _ _ count fmt
                          (set_component_at c w table));
                   [reflexivity|assumption|]
             end.
        all: intros c' Hc'; cbn [display set_display component set_component].
        all: rewrite ?Hother1, Hother by assumption; auto. }
    apply Hleft. unfold render_component.
    destruct (negb (required (component (display st) c))); [left; reflexivity|].
    match goal with
    | |- (if ?b then _ else _) = _ \/ _ => destruct b
    end; right; eexists; reflexivity.
  - (* another component: the same entry on both sides *)
    unfold render_component.
    cbn [rebuild control set_display display component set_component].
    rewrite (Htable c Hc).
    destruct (negb (required (component (display st) c))).
    + same_but_table count fmt table.
    + match goal with
      | |- omits_eta (if ?b then _ else _) _ => destruct b
      end.
      all: match goal with
           | |- omits_eta (set_display (set_component
                             (set_component_at _ ?w _) _) _) _ =>
               apply (omits_eta_make _ _ count fmt
                        (set_component_at c w table));
                 [reflexivity|assumption|]
           end.
      all: intros c' Hc'; cbn [display set_display component set_component].
      all: unfold set_component_at;
        destruct (component_eqb c c'); [reflexivity|auto].
Qed.

Lemma render_components_omits env cs : forall st st',
  omits_eta st st' ->
  omits_eta (fold_left (fun st c => render_component env c st) cs st)
    (fold_left (fun st c => render_component env c st) cs st').
Proof.
  induction cs as [|c cs IH]; intros st st' H; cbn [fold_left]; [exact H|].
  apply IH, render_component_omits, H.
Qed.

(** One round of the loop that sums the static width. *)
Definition static_step (table : pv_display_component -> display_component)
    (acc : Z) (seg : format_segment) : Z :=
  match seg_type seg with
  | PV_COMPONENT_STRING => wrap32 (acc + str_length seg)
  | PV_COMPONENT_PROGRESS => acc
  | c => wrap32 (acc + content_length (table c))
  end.

(** An ETA component of length 0 adds nothing to the static width. *)
Lemma static_portion_omits d table segs : forall acc,
  (forall c, ~ eta_component c -> table c = component d c) ->
  (forall seg, In seg segs -> eta_segment seg = true ->
     content_length (component d (seg_type seg)) = 0) ->
  in32 acc ->
  fold_left (static_step (component d)) segs acc
  = fold_left (static_step table)
      (filter (fun seg => negb (eta_segment seg)) segs) acc.
Proof.
  induction segs as [|seg segs IH]; intros acc Htable Hzero Hacc;
    [reflexivity|].
  cbn [fold_left filter].
  assert (Hrest : forall s, In s segs -> eta_segment s = true ->
            content_length (component d (seg_type s)) = 0)
    by (intros s Hs; apply Hzero; right; exact Hs).
  destruct (eta_segment seg) eqn:Heta; cbn [negb].
  - pose proof (Hzero seg (or_introl eq_refl) Heta) as Hlen.
    assert (Hstep : static_step (component d) acc seg = acc).
    { unfold static_step, eta_segment in *.
      destruct (seg_type seg); try discriminate Heta;
        rewrite Hlen, Z.add_0_r; apply wrap32_small; exact Hacc. }
    rewrite Hstep. apply IH; assumption.
  - cbn [fold_left].
    assert (Hstep : static_step table acc seg
                    = static_step (component d) acc seg).
    { unfold static_step, eta_segment in *.
      destruct (seg_type seg); try discriminate Heta; try reflexivity;
        rewrite Htable by (intros [H|H]; discriminate H); reflexivity. }
    rewrite Hstep. apply IH; [assumption|assumption|].
    unfold static_step.
    destruct (seg_type seg); try apply wrap32_range. exact Hacc.
Qed.

Lemma known_size_bar_rebuild sps buf st count fmt table :
  known_size_bar sps buf (rebuild st count fmt table)
  = (fst (known_size_bar sps buf st),
     rebuild (snd (known_size_bar sps buf st)) count fmt table).
Proof.
  unfold known_size_bar.
  cbn [rebuild control set_display display percentage set_component
       set_format set_format_segment_count with_display].
  repeat match goal with
  | |- context [for_loop ?f ?i ?hi ?body ?a] =>
      destruct (for_loop f i hi body a)
  | |- context [if ?b then (_, _) else (_, _)] => destruct b
  end; reflexivity.
Qed.

Lemma render_progress_omits sps st st' :
  omits_eta st st' ->
  omits_eta (render_progress sps st) (render_progress sps st').
Proof.
  intros [count fmt table Hsegs Htable]. unfold render_progress.
  cbn [rebuild control set_display display component set_component].
  rewrite (Htable _ not_eta_progress).
  destruct (negb (required (component (display st) PV_COMPONENT_PROGRESS))).
  { same_but_table count fmt table. }
  assert (Hother : forall v c', ~ eta_component c' ->
            set_component_at PV_COMPONENT_PROGRESS v table c'
            = set_component_at PV_COMPONENT_PROGRESS v
                (component (display st)) c').
  { intros v c' Hc'. unfold set_component_at.
    destruct (component_eqb PV_COMPONENT_PROGRESS c'); auto. }
  destruct (size (control st) >? 0).
  - fold (rebuild st count fmt table). rewrite known_size_bar_rebuild.
    pose proof (known_size_bar_state sps
      (pv_snprintf_text
         (store (content (component (display st) PV_COMPONENT_PROGRESS)) 0 NUL)
         PV_SIZEOF_COMPONENT_STR ["["%char]) st) as Hk.
    destruct (known_size_bar _ _ st) as [buf st1]. cbn [fst snd] in *.
    subst st1.
    cbn [rebuild control set_display display with_display].
    match goal with
    | |- context [if ?b then (_, _) else (_, _)] => destruct b
    end.
    all: match goal with
         | |- omits_eta (with_display (fun d => set_component
                           (set_component_at _ ?w _) _) _) _ =>
             apply (omits_eta_make _ _ count fmt
                      (set_component_at PV_COMPONENT_PROGRESS w table));
               [reflexivity|assumption|]
         end.
    all: intros c' Hc'; apply Hother; assumption.
  - assert (Hbar : forall buf,
              unknown_size_bar sps buf
                (set_display
                   (set_component table
                      (set_format fmt
                         (set_format_segment_count count (display st)))) st)
              = unknown_size_bar sps buf st).
    { intros buf. unfold unknown_size_bar.
      cbn [control set_display display percentage set_component set_format
           set_format_segment_count].
      reflexivity. }
    rewrite Hbar.
    cbn [rebuild control set_display display with_display].
    match goal with
    | |- context [if ?b then (_, _) else (_, _)] => destruct b
    end.
    all: match goal with
         | |- omits_eta (with_display (fun d => set_component
                           (set_component_at _ ?w _) _) _) _ =>
             apply (omits_eta_make _ _ count fmt
                      (set_component_at PV_COMPONENT_PROGRESS w table));
               [reflexivity|assumption|]
         end.
    all: intros c' Hc'; apply Hother; assumption.
Qed.

(** The assembly loop passes over an ETA segment of length 0. *)
Lemma append_segments_omits fmt d d' w segs : forall buf len,
  display_buffer_size d' = display_buffer_size d ->
  (forall c, ~ eta_component c -> component d' c = component d c) ->
  (forall seg, In seg segs -> eta_segment seg = true ->
     content_length (component d (seg_type seg)) = 0) ->
  append_segments segs fmt d w buf len
  = append_segments (filter (fun seg => negb (eta_segment seg)) segs)
      fmt d' w buf len.
Proof.
  induction segs as [|seg segs IH]; intros buf len Hsize Htable Hzero;
    [reflexivity|].
  assert (Hrest : forall s, In s segs -> eta_segment s = true ->
            content_length (component d (seg_type s)) = 0)
    by (intros s Hs; apply Hzero; right; exact Hs).
  cbn [append_segments filter].
  destruct (eta_segment seg) eqn:Heta; cbn [negb].
  - pose proof (Hzero seg (or_introl eq_refl) Heta) as Hlen.
    unfold eta_segment in Heta.
    destruct (seg_type seg); try discriminate Heta;
      rewrite Hlen; cbn [Z.eqb]; apply IH; assumption.
  - cbn [append_segments]. rewrite Hsize.
    assert (Hcomp : component d' (seg_type seg) = component d (seg_type seg)).
    { apply Htable. unfold eta_segment in Heta.
      intros [H|H]; rewrite H in Heta; discriminate Heta. }
    destruct (seg_type seg) eqn:Htype; rewrite ?Hcomp.
    all: repeat match goal with
         | |- (if ?b then _ else _) = (if ?b then _ else _) => destruct b
         end; try reflexivity; apply IH; assumption.
Qed.

(** Every [%e] and [%I] segment of the format has its component marked
    as required, as [pv__format_init] leaves it. *)
Definition eta_required (st : pvstate) : bool :=
  forallb
    (fun seg =>
       negb (eta_segment seg)
       || required (component (display st) (seg_type seg)))
    (segments (display st)).

Lemma static_portion_steps d :
  static_portion d = fold_left (static_step (component d)) (segments d) 0.
Proof. reflexivity. Qed.

Lemma update_percentage_segments env total st :
  segments (display (update_percentage env total st)) = segments (display st).
Proof.
  unfold update_percentage.
  destruct (size (control st) <=? 0); [reflexivity|].
  destruct (numeric (control st)
            || required (component (display st) PV_COMPONENT_PROGRESS));
    reflexivity.
Qed.

Lemma ensure_display_buffer_segments env st st' :
  ensure_display_buffer env st = Some st' ->
  segments (display st') = segments (display st).
Proof.
  unfold ensure_display_buffer. intros H.
  repeat match type of H with
  | context [match ?x with _ => _ end] => destruct x
  end; inversion H; subst; reflexivity.
Qed.

Lemma render_component_segments env c st :
  segments (display (render_component env c st)) = segments (display st).
Proof.
  unfold render_component.
  destruct (negb (required (component (display st) c))); [reflexivity|].
  match goal with
  | |- context [if ?b then _ else _] => destruct b
  end; reflexivity.
Qed.

Lemma render_components_segments env cs : forall st,
  segments (display (fold_left (fun st c => render_component env c st) cs st))
  = segments (display st).
Proof.
  induction cs as [|c cs IH]; intros st; cbn [fold_left]; [reflexivity|].
  rewrite IH. apply render_component_segments.
Qed.

Lemma render_progress_segments sps st :
  segments (display (render_progress sps st)) = segments (display st).
Proof.
  unfold render_progress.
  destruct (negb (required (component (display st) PV_COMPONENT_PROGRESS)));
    [reflexivity|].
  destruct (size (control st) >? 0).
  - pose proof (known_size_bar_state sps
      (pv_snprintf_text
         (store (content (component (display st) PV_COMPONENT_PROGRESS)) 0 NUL)
         PV_SIZEOF_COMPONENT_STR ["["%char]) st) as Hk.
    destruct (known_size_bar _ _ st) as [buf st1]. cbn [snd] in Hk. subst st1.
    match goal with
    | |- context [if ?b then (_, _) else (_, _)] => destruct b
    end; reflexivity.
  - match goal with
    | |- context [if ?b then (_, _) else (_, _)] => destruct b
    end; reflexivity.
Qed.

Lemma eta_segment_component seg :
  eta_segment seg = true -> eta_component (seg_type seg).
Proof.
  unfold eta_segment, eta_component.
  destruct (seg_type seg); intros H; try discriminate H; auto.
Qed.

(** After the loop over the components of a transfer of unknown size,
    the ETA segments of the format have length 0. *)
Lemma render_components_eta_zero env st :
  size (control st) < 1 ->
  eta_required st = true ->
  let st1 :=
    fold_left (fun st c => render_component env c st) all_components st in
  forall seg, In seg (segments (display st1)) -> eta_segment seg = true ->
    content_length (component (display st1) (seg_type seg)) = 0.
Proof.
  intros Hsize Hreq. cbv zeta. intros seg Hin Heta.
  rewrite render_components_segments in Hin.
  unfold eta_required in Hreq. rewrite forallb_forall in Hreq.
  specialize (Hreq seg Hin). rewrite Heta in Hreq. cbn [negb orb] in Hreq.
  destruct (render_components_eta env (seg_type seg) st
              (eta_segment_component seg Heta) Hsize Hreq) as (_ & _ & Hlen).
  exact Hlen.
Qed.

Lemma render_all_omits env st st' :
  omits_eta st st' ->
  size (control st) < 1 ->
  eta_required st = true ->
  omits_eta (render_all env st) (render_all env st')
  /\ (forall seg, In seg (segments (display (render_all env st))) ->
        eta_segment seg = true ->
        content_length (component (display (render_all env st)) (seg_type seg))
        = 0).
Proof.
  intros Homits Hsize Hreq. unfold render_all.
  pose proof (render_components_eta_zero env st Hsize Hreq) as Hzero.
  cbv zeta in Hzero.
  pose proof (render_components_omits env all_components st st' Homits)
    as Hloop.
  set (st1 := fold_left (fun st c => render_component env c st)
                all_components st) in *.
  set (st1' := fold_left (fun st c => render_component env c st)
                 all_components st') in *.
  assert (Hstatic : static_portion (display st1')
                    = static_portion (display st1)).
  { rewrite !static_portion_steps.
    destruct Hloop as [count fmt table Hsegs Htable].
    change (segments (display (rebuild st1 count fmt table)))
      with (firstn (Z.to_nat count) fmt).
    change (component (display (rebuild st1 count fmt table))) with table.
    rewrite Hsegs. symmetry.
    apply static_portion_omits; [exact Htable|exact Hzero|].
    unfold in32. lia. }
  rewrite Hstatic. split.
  - apply render_progress_omits. exact Hloop.
  - intros seg Hin Heta.
    rewrite render_progress_other
      by (intros H; unfold eta_segment in Heta; rewrite H in Heta;
          discriminate Heta).
    apply Hzero; [|exact Heta].
    rewrite render_progress_segments in Hin. exact Hin.
Qed.

Lemma assemble_line_omits st st' :
  omits_eta st st' ->
  (forall seg, In seg (segments (display st)) -> eta_segment seg = true ->
     content_length (component (display st) (seg_type seg)) = 0) ->
  display_line (assemble_line st) = display_line (assemble_line st').
Proof.
  intros [count fmt table Hsegs Htable] Hzero. unfold assemble_line.
  cbn [rebuild control set_display display display_buffer
       display_buffer_size display_string_len prev_screen_width
       format format_segment_count set_component set_format
       set_format_segment_count].
  destruct (display_buffer (display st)) as [buf|]; [|reflexivity].
  rewrite Hsegs.
  rewrite <- (append_segments_omits (formatstr (control st)) (display st)
                (set_component table
                   (set_format fmt
                      (set_format_segment_count count (display st))))
                (width (control st)) (segments (display st)));
    [|reflexivity|exact Htable|exact Hzero].
  fold (segments (display st)).
  destruct (append_segments _ _ _ _ _ _) as [line len].
  match goal with
  | |- context [if ?b then (_, _) else (_, _)] => destruct b
  end; reflexivity.
Qed.

(** C6 (amended): when the total size is unknown ([size < 1]), a display
    update in the formatted mode shows the line it would show for the
    format without its [%e] and [%I] directives: these components are
    omitted from the line (only the literal text around them remains),
    they are not replaced by spaces.  Each required [%e] and [%I]
    component is left as the empty string, with length 0. *)
Theorem unknown_size_eta_omitted env bsl total st :
  size (control st) < 1 ->
  numeric (control st) = false ->
  eta_required st = true ->
  let st' := snd (pv__format env bsl total st) in
  display_line st'
  = display_line (snd (pv__format env bsl total (without_eta st)))
  /\ fst (pv__format env bsl total st)
     = fst (pv__format env bsl total (without_eta st))
  /\ (fst (pv__format env bsl total st) = true ->
      forall c, eta_component c ->
        required (component (display st) c) = true -> left_empty c st').
Proof.
  intros Hsize Hnum Hreq. cbv zeta.
  split; [|split].
  3: { intros Hok c Hc Hrc.
       exact (unknown_size_eta_empty env bsl total st c Hc Hrc Hsize Hnum Hok). }
  all: pose proof (without_eta_omits st) as Homits.
  all: unfold pv__format.
  all: assert (Hcontrol : control (without_eta st) = control st)
         by reflexivity.
  all: destruct (total <? 0); [reflexivity|].
  all: pose proof (update_percentage_omits env total _ _ Homits) as Hup.
  all: pose proof (ensure_display_buffer_omits env _ _ Hup) as Hbuf.
  all: destruct (ensure_display_buffer env (update_percentage env total st))
         as [st1|] eqn:Hb1;
       destruct (ensure_display_buffer env
                   (update_percentage env total (without_eta st)))
         as [st1'|] eqn:Hb1'; try contradiction; try reflexivity.
  all: destruct (ensure_display_buffer_keeps _ _ _ Hb1) as (Hc1 & _ & Hcomp1).
  all: destruct (ensure_display_buffer_keeps _ _ _ Hb1') as (Hc1' & _ & _).
  all: rewrite update_percentage_control in Hc1, Hc1'.
  all: rewrite Hc1', Hcontrol, Hc1, Hnum; cbn [fst snd]; try reflexivity.
  assert (Hreq1 : eta_required st1 = true).
  { unfold eta_required.
    rewrite (ensure_display_buffer_segments _ _ _ Hb1), Hcomp1,
      update_percentage_segments, update_percentage_component.
    exact Hreq. }
  destruct (render_all_omits env st1 st1' Hbuf ltac:(rewrite Hc1; exact Hsize)
              Hreq1) as [Hall Hzero].
  apply assemble_line_omits; assumption.
Qed.

Lemma unknown_size_eta_omitted_witness :
  let st := pv__format_init (sample_state "%b %e %I|" 0 80) in
  let plain := pv__format_init (sample_state "%b  |" 0 80) in
  display_line (snd (pv__format sample_env 10 500 st))
  = display_line (snd (pv__format sample_env 10 500 plain))
  /\ display_line (snd (pv__format sample_env 10 500 st)) = cstr " 500 B  |".
Proof.
  cbv zeta. split.
  - refine (eq_trans
      (proj1 (unknown_size_eta_omitted sample_env 10 500
                (pv__format_init (sample_state "%b %e %I|" 0 80)) _ _ _)) _).
    + vm_compute. reflexivity.
    + reflexivity.
    + vm_compute. reflexivity.
    + vm_compute. reflexivity.
  - vm_compute. reflexivity.
Defined.

End DisplayFacts.

(** ** transfer.c *)

Module TransferFacts.
Import CInt CIntFacts Number PvString PvStringFacts State OS Transfer.

(** *** The error-skip schedule *)

(** A configuration with error skipping on and no fixed skip block. *)
Definition skipping_control : control_t :=
  mkControl false false false false false false 1 0 false false false true
    false 0 409600 0 80 None (cstr "%b") None.

(** The schedule of the code next to that of the specification: for a
    counter of 5 the code has 2, and for 10 it falls back to 1 where the
    specification has 2. *)
Lemma skip_schedule_differs :
  skip_distance skipping_control 5 <> spec_schedule 5
  /\ skip_distance skipping_control 10 <> spec_schedule 10
  /\ skip_distance skipping_control 11 <> spec_schedule 11.
Proof. repeat split; vm_compute; discriminate. Qed.

Lemma shiftl_one_small k : 0 <= k <= 9 -> wrap32 (Z.shiftl 1 k) = 2 ^ k.
Proof.
  intros Hk. rewrite Z.shiftl_mul_pow2, Z.mul_1_l by lia.
  apply wrap32_small. unfold in32.
  assert (0 < 2 ^ k) by (apply Z.pow_pos_nonneg; lia).
  assert (2 ^ k <= 2 ^ 9) by (apply Z.pow_le_mono_r; lia).
  lia.
Qed.

(** With no fixed error-skip block, the skip distance for a counter of
    [n] errors, before rounding and clamping to the room left in the
    buffer, is 1 for n = 1..4, 2 for n = 5..9, 2^(n-10) for n = 10..19,
    that is 1, 2, 4, ..., 512, and 512 from n = 20 on; it never exceeds
    512. *)
Lemma skip_schedule (c : control_t) (n : Z) :
  error_skip_block c <= 0 -> 1 <= n ->
  skip_distance c n
  = (if n <=? 4 then 1
     else if n <=? 9 then 2
     else if n <=? 19 then 2 ^ (n - 10)
     else 512)
  /\ 1 <= skip_distance c n <= 512.
Proof.
  intros Hblock Hn. unfold skip_distance.
  destruct (Z.gtb_spec (error_skip_block c) 0); [lia|].
  destruct (Z.ltb_spec n 10).
  - destruct (Z.ltb_spec n 5).
    + destruct (Z.leb_spec n 4); [|lia]. split; [reflexivity|lia].
    + destruct (Z.leb_spec n 4); [lia|].
      destruct (Z.leb_spec n 9); [|lia]. split; [reflexivity|lia].
  - destruct (Z.leb_spec n 4); [lia|].
    destruct (Z.leb_spec n 9); [lia|].
    destruct (Z.ltb_spec n 20).
    + destruct (Z.leb_spec n 19); [|lia].
      rewrite wrap_uint_small by lia.
      rewrite shiftl_one_small by lia.
      split; [reflexivity|].
      assert (0 < 2 ^ (n - 10)) by (apply Z.pow_pos_nonneg; lia).
      assert (2 ^ (n - 10) <= 2 ^ 9) by (apply Z.pow_le_mono_r; lia).
      change (2 ^ 9) with 512 in *. lia.
    + destruct (Z.leb_spec n 19); [lia|]. split; [reflexivity|lia].
Qed.

(** *** The line-mode restriction of the pending write *)

Lemma pv_memrchr_cons (c b : ascii) rest :
  pv_memrchr (b :: rest) c
  = match pv_memrchr rest c with
    | Some i => Some (i + 1)
    | None => if Ascii.eqb b c then Some 0 else None
    end.
Proof. reflexivity. Qed.

Lemma pv_memrchr_found (c : ascii) region : forall i,
  pv_memrchr region c = Some i ->
  exists front back,
    region = front ++ c :: back
    /\ Z.of_nat (List.length front) = i
    /\ ~ In c back.
Proof.
  induction region as [|b region IH]; intros i H.
  - discriminate.
  - rewrite pv_memrchr_cons in H.
    destruct (pv_memrchr region c) as [j|] eqn:Hrest.
    + injection H as <-.
      destruct (IH j eq_refl) as (front & back & Hreg & Hlen & Hnot).
      exists (b :: front), back. subst region.
      split; [reflexivity|]. split; [cbn [List.length]; lia|exact Hnot].
    + destruct (Ascii.eqb_spec b c) as [->|Hne]; [|discriminate].
      injection H as <-.
      exists [], region. split; [reflexivity|]. split; [reflexivity|].
      clear IH. induction region as [|d region IH]; [intros []|].
      rewrite pv_memrchr_cons in Hrest.
      destruct (pv_memrchr region c); [discriminate|].
      destruct (Ascii.eqb_spec d c); [discriminate|].
      intros [Hd|Hin]; [congruence|]. exact (IH eq_refl Hin).
Qed.

Lemma pv_memrchr_none (c : ascii) region :
  pv_memrchr region c = None -> ~ In c region.
Proof.
  induction region as [|d region IH]; [intros _ []|].
  rewrite pv_memrchr_cons. destruct (pv_memrchr region c); [discriminate|].
  destruct (Ascii.eqb_spec d c); [discriminate|].
  intros _ [Hd|Hin]; [congruence|]. exact (IH eq_refl Hin).
Qed.

(** The bytes the next write is allowed to send. *)
Definition pending_write (m : machine) : list ascii :=
  let t := transfer (state m) in
  slice (buffer_of t) (write_position t) (to_write t).

Lemma slice_length_le buf from len :
  (List.length (slice buf from len) <= Z.to_nat len)%nat.
Proof. unfold slice. rewrite length_firstn. lia. Qed.

Lemma slice_prefix buf from len front rest :
  slice buf from len = front ++ rest ->
  slice buf from (Z.of_nat (List.length front)) = front.
Proof.
  unfold slice. intros H. rewrite Nat2Z.id.
  assert (Hf : firstn (List.length front)
                 (firstn (Z.to_nat len) (skipn (Z.to_nat from) buf)) = front).
  { rewrite H, firstn_app, Nat.sub_diag, firstn_all, firstn_O.
    apply app_nil_r. }
  rewrite firstn_firstn in Hf.
  assert (Hlen : (List.length front <= Z.to_nat len)%nat).
  { pose proof (f_equal (@List.length ascii) H) as Hl.
    rewrite length_app, length_firstn in Hl. lia. }
  rewrite Nat.min_l in Hf by exact Hlen. exact Hf.
Qed.

(** The machine in line mode with a write pending, null-terminated lines
    being on or off. *)
Definition line_mode_machine (nul_lines : bool) (data : list ascii) : machine :=
  let c :=
    mkControl false false true false nul_lines false 0 0 false false false
      true false 0 8 0 80 None (cstr "%b") None in
  let t :=
    mkTransfer (Some (data ++ repeat NUL 32)) (Z.of_nat (List.length data))
      (Z.of_nat (List.length data)) 0 3 0 false (-1) false
      (Z.of_nat (List.length data)) 0 in
  mkMachine (mkState 0 c DisplayFacts.sample_display t [])
    (mkWorld [] 0 true [] []) true false (Some 0).

(** C2, as stated, fails for null-terminated lines: the pending write
    ["a\0b"] is left as it is and ends with the partial record ["b"]. *)
Lemma nul_lines_not_truncated :
  let m := line_mode_machine true ["a"; NUL; "b"]%char in
  In NUL (pending_write m)
  /\ ~ ends_with NUL (pending_write (line_mode_truncation m)).
Proof.
  cbv zeta. split.
  - vm_compute. right. left. reflexivity.
  - intros [front H].
    apply (f_equal (fun l => last l NUL)) in H.
    rewrite last_last in H. vm_compute in H. discriminate H.
Qed.

(** C2 (amended): in line mode without null-terminated lines, after the
    read phase the pending write is restricted to end just after the last
    newline among the bytes allowed to be written, when there is one;
    when they hold no newline, or when null-terminated lines are
    configured, the pending write is left unchanged. *)
Theorem line_mode_truncation_aligned (m : machine) :
  linemode (control (state m)) = true ->
  0 < to_write (transfer (state m)) < 2 ^ 62 ->
  (null_terminated_lines (control (state m)) = false ->
   In "010"%char (pending_write m) ->
   ends_with "010"%char (pending_write (line_mode_truncation m))
   /\ exists rest,
        pending_write m = pending_write (line_mode_truncation m) ++ rest
        /\ ~ In "010"%char rest)
  /\ (null_terminated_lines (control (state m)) = false ->
      ~ In "010"%char (pending_write m) ->
      line_mode_truncation m = m)
  /\ (null_terminated_lines (control (state m)) = true ->
      line_mode_truncation m = m).
Proof.
  intros Hline Hto.
  unfold line_mode_truncation, pending_write. rewrite Hline.
  destruct (Z.gtb_spec (to_write (transfer (state m))) 0); [|lia].
  cbn [andb].
  split; [|split].
  - intros Hnul Hin. rewrite Hnul. cbn [negb].
    destruct (pv_memrchr _ _) as [i|] eqn:Hfind.
    + destruct (pv_memrchr_found _ _ _ Hfind) as (front & back & Hreg & Hlen & Hnot).
      pose proof (slice_length_le (buffer_of (transfer (state m)))
                    (write_position (transfer (state m)))
                    (to_write (transfer (state m)))) as Hbound.
      rewrite Hreg, length_app in Hbound. cbn [List.length] in Hbound.
      rewrite wrap64_small by (unfold in64, min64, max64; lia).
      cbn [state transfer on_transfer on_state set_state with_transfer
           set_transfer set_to_write buffer_of transfer_buffer
           write_position to_write].
      change (buffer_of (set_to_write (i + 1) (transfer (state m))))
        with (buffer_of (transfer (state m))).
      assert (Hcut : slice (buffer_of (transfer (state m)))
                       (write_position (transfer (state m))) (i + 1)
                     = front ++ ["010"%char]).
      { replace (i + 1) with (Z.of_nat (List.length (front ++ ["010"%char])))
          by (rewrite length_app; cbn [List.length]; lia).
        apply slice_prefix with (rest := back) (len := to_write (transfer (state m))).
        rewrite Hreg, <- app_assoc. reflexivity. }
      rewrite Hcut. split.
      * exists front. reflexivity.
      * exists back. split; [|exact Hnot].
        rewrite Hreg, <- app_assoc. reflexivity.
    + exfalso. exact (pv_memrchr_none _ _ Hfind Hin).
  - intros Hnul Hnot. rewrite Hnul. cbn [negb].
    destruct (pv_memrchr _ _) as [i|] eqn:Hfind; [|reflexivity].
    destruct (pv_memrchr_found _ _ _ Hfind) as (front & back & Hreg & _ & _).
    exfalso. apply Hnot. rewrite Hreg. apply in_or_app. right. left. reflexivity.
  - intros Hnul. rewrite Hnul. reflexivity.
Qed.

Lemma line_mode_truncation_aligned_witness :
  let m := line_mode_machine false ["a"; "010"; "b"; "010"; "c"]%char in
  ends_with "010"%char (pending_write (line_mode_truncation m))
  /\ exists rest,
       pending_write m = pending_write (line_mode_truncation m) ++ rest
       /\ ~ In "010"%char rest.
Proof.
  cbv zeta.
  apply (proj1 (line_mode_truncation_aligned
                  (line_mode_machine false ["a"; "010"; "b"; "010"; "c"]%char)
                  eq_refl ltac:(cbn; lia))).
  - reflexivity.
  - vm_compute. right. left. reflexivity.
Defined.

(** *** A closed pipe downstream *)

(** C8: whenever the write to standard output fails with [EPIPE],
    [pv__transfer_write] sets both the end-of-input and the end-of-output
    flag and [pv_transfer] returns zero; the exit status is left as it
    was, and nothing is reported about the write (the only message that
    can appear is the one about the alarm handler, printed before the
    write when installing it failed). *)
Theorem epipe_ends_transfer os fd allowed m ready_to_read ready_to_write m0 rc m1 :
  wait_phase os fd allowed m = (ready_to_read, Continue ready_to_write m0) ->
  read_phase os fd allowed ready_to_read m0 = (rc, m1) ->
  rc <> 0 ->
  write_due ready_to_write m1 = true ->
  write_fails_with EPIPE os m1 ->
  exists m',
    pv__transfer_write os m1 = (0, m')
    /\ pv_transfer os fd allowed m = (0, m')
    /\ eof_in m' = true /\ eof_out m' = true
    /\ exit_status (state m') = exit_status (state m1)
    /\ reported (state m')
       = reported (state m1)
         ++ (if alarm_ok os then []
             else ["failed to set alarm signal handler"%string]).
Proof.
  intros Hwait Hread Hrc Hdue (buf & r & w' & Hbuf & Hdiscard & Hto & Hwrite & Hr).
  assert (Hw : exists m',
             pv__transfer_write os m1 = (0, m')
             /\ eof_in m' = true /\ eof_out m' = true
             /\ exit_status (state m') = exit_status (state m1)
             /\ reported (state m')
                = reported (state m1)
                  ++ (if alarm_ok os then []
                      else ["failed to set alarm signal handler"%string])).
  { unfold pv__transfer_write. rewrite Hbuf, Hdiscard.
    destruct (Z.gtb_spec (to_write (transfer (state m1))) 0); [|lia].
    destruct (alarm_ok os).
    - rewrite Hwrite.
      destruct (Z.eqb_spec r 0); [lia|].
      destruct (Z.gtb_spec r 0); [lia|].
      eexists. split; [reflexivity|].
      cbn. rewrite app_nil_r. repeat split; reflexivity.
    - cbn [world on_state set_state].
      rewrite Hwrite.
      destruct (Z.eqb_spec r 0); [lia|].
      destruct (Z.gtb_spec r 0); [lia|].
      eexists. split; [reflexivity|].
      cbn. repeat split; reflexivity. }
  destruct Hw as (m' & Hw & Hin & Hout & Hexit & Hrep).
  exists m'. split; [exact Hw|]. split; [|repeat split; assumption].
  unfold pv_transfer. rewrite Hwait, Hread.
  destruct (Z.eqb_spec rc 0); [contradiction|].
  unfold write_phase. rewrite Hdue, Hw. reflexivity.
Qed.

(** A machine with three bytes pending, and a kernel that reports the
    closed pipe on the first write. *)
Definition pipe_machine : machine :=
  let c :=
    mkControl false false false false false false 0 0 false false false
      true false 0 8 0 80 None (cstr "%b") None in
  let t :=
    mkTransfer (Some (cstr "abc" ++ repeat NUL 37)) 8 3 0 3 0 false (-1)
      false 0 0 in
  mkMachine (mkState 0 c DisplayFacts.sample_display t [])
    (mkWorld (cstr "abcdef") 3 true [] (cstr "abc")) false false (Some 0).

Definition closed_pipe : os_call :=
  mkOs true true (SelectReturned false true) (Failed EINVAL) false []
    None None true [mkWriteStep (Failed EPIPE) false false].

Definition machine_of (p : phase_result) : machine :=
  match p with
  | Return _ m => m
  | Continue _ m => m
  end.

(** The machine as the write phase finds it. *)
Definition pipe_machine_at_write : machine :=
  snd (read_phase closed_pipe 3 0 false
         (machine_of (snd (wait_phase closed_pipe 3 0 pipe_machine)))).

Lemma epipe_ends_transfer_witness :
  exists m',
    pv__transfer_write closed_pipe pipe_machine_at_write = (0, m')
    /\ pv_transfer closed_pipe 3 0 pipe_machine = (0, m')
    /\ eof_in m' = true /\ eof_out m' = true
    /\ exit_status (state m') = exit_status (state pipe_machine_at_write)
    /\ reported (state m')
       = reported (state pipe_machine_at_write)
         ++ (if alarm_ok closed_pipe then []
             else ["failed to set alarm signal handler"%string]).
Proof.
  apply (epipe_ends_transfer closed_pipe 3 0 pipe_machine false true
           (machine_of (snd (wait_phase closed_pipe 3 0 pipe_machine)))
           1 pipe_machine_at_write).
  - vm_compute. reflexivity.
  - vm_compute. reflexivity.
  - discriminate.
  - vm_compute. reflexivity.
  - eexists _, _, _.
    split; [vm_compute; reflexivity|].
    split; [reflexivity|].
    split; [vm_compute; reflexivity|].
    split; [vm_compute; reflexivity|].
    vm_compute. reflexivity.
Defined.

End TransferFacts.

(** ** Slices and in-place writes of a buffer *)

Module BufferFacts.
Import Number PvString PvStringFacts OS.

Section Lists.
Context {A : Type}.
Implicit Types (buf chars : list A).

(** The write of [chars] at index [off], within bounds. *)
Definition patch buf (off : nat) chars : list A :=
  firstn off buf ++ chars ++ skipn (off + List.length chars) buf.

Lemma patch_length buf off chars :
  (off + List.length chars <= List.length buf)%nat ->
  List.length (patch buf off chars) = List.length buf.
Proof.
  intros H. unfold patch.
  rewrite !length_app, length_firstn, length_skipn. lia.
Qed.

Lemma nth_patch buf off chars (i : nat) (d : A) :
  (off + List.length chars <= List.length buf)%nat ->
  nth i (patch buf off chars) d
  = if ((off <=? i) && (i <? off + List.length chars))%nat
    then nth (i - off) chars d
    else nth i buf d.
Proof.
  intros H. unfold patch.
  assert (Hlen : List.length (firstn off buf) = off)
    by (rewrite length_firstn; lia).
  destruct (Nat.leb_spec off i) as [Hle|Hlt]; cbn [andb].
  - rewrite app_nth2 by lia. rewrite Hlen.
    destruct (Nat.ltb_spec i (off + List.length chars)) as [Hin|Hout].
    + rewrite app_nth1 by lia. reflexivity.
    + rewrite app_nth2 by lia. rewrite nth_skipn. f_equal. lia.
  - rewrite app_nth1 by lia. rewrite nth_firstn.
    destruct (Nat.ltb_spec i off); [reflexivity|lia].
Qed.

Lemma nth_slice buf (a n i : nat) (d : A) :
  nth i (firstn n (skipn a buf)) d
  = if (i <? n)%nat then nth (a + i) buf d else d.
Proof. rewrite nth_firstn, nth_skipn. reflexivity. Qed.

Lemma slice_nat_length buf (a n : nat) :
  (a + n <= List.length buf)%nat ->
  List.length (firstn n (skipn a buf)) = n.
Proof. intros H. rewrite length_firstn, length_skipn. lia. Qed.

Lemma firstn_plus (n k : nat) : forall (l : list A),
  firstn (n + k) l = firstn n l ++ firstn k (skipn n l).
Proof.
  induction n as [|n IH]; intros l; [reflexivity|].
  destruct l as [|x l]; cbn [Nat.add firstn skipn app].
  - rewrite firstn_nil. reflexivity.
  - rewrite IH. reflexivity.
Qed.

Lemma slice_nat_split buf (a n k : nat) :
  firstn (n + k) (skipn a buf)
  = firstn n (skipn a buf) ++ firstn k (skipn (a + n) buf).
Proof.
  rewrite firstn_plus, skipn_skipn.
  replace (n + a)%nat with (a + n)%nat by lia. reflexivity.
Qed.

Lemma slice_patch_before buf off chars (a n : nat) :
  (off + List.length chars <= List.length buf)%nat ->
  (a + n <= off)%nat ->
  firstn n (skipn a (patch buf off chars)) = firstn n (skipn a buf).
Proof.
  intros Hin Hbefore.
  destruct buf as [|x0 buf0] eqn:Hbuf.
  { cbn [List.length] in Hin.
    assert (chars = []) by (destruct chars; [reflexivity|cbn in Hin; lia]).
    subst chars. unfold patch. rewrite firstn_nil, skipn_nil. reflexivity. }
  rewrite <- Hbuf in *. clear Hbuf buf0.
  apply (nth_ext _ _ x0 x0).
  - rewrite !slice_nat_length; [reflexivity|lia|rewrite patch_length; lia].
  - intros i Hi. rewrite slice_nat_length in Hi by (rewrite patch_length; lia).
    rewrite !nth_slice, nth_patch by exact Hin.
    destruct (Nat.ltb_spec i n); [|lia].
    destruct (Nat.leb_spec off (a + i)); [lia|]. reflexivity.
Qed.

Lemma slice_patch_append buf off chars (a : nat) :
  (off + List.length chars <= List.length buf)%nat ->
  (a <= off)%nat ->
  firstn (off - a + List.length chars) (skipn a (patch buf off chars))
  = firstn (off - a) (skipn a buf) ++ chars.
Proof.
  intros Hin Ha.
  rewrite slice_nat_split.
  rewrite slice_patch_before by lia. f_equal.
  replace (a + (off - a))%nat with off by lia.
  unfold patch. rewrite skipn_app, length_firstn.
  rewrite (skipn_all2 (n := off)) by (rewrite length_firstn; lia).
  rewrite Nat.min_l by lia. rewrite Nat.sub_diag. cbn [skipn app].
  rewrite firstn_app, Nat.sub_diag, firstn_all, firstn_O.
  apply app_nil_r.
Qed.

Lemma slice_patch_front buf chars :
  (List.length chars <= List.length buf)%nat ->
  firstn (List.length chars) (skipn 0 (patch buf 0 chars)) = chars.
Proof.
  intros H. unfold patch. cbn [firstn skipn app].
  rewrite firstn_app, Nat.sub_diag, firstn_all, firstn_O.
  apply app_nil_r.
Qed.

End Lists.

(** The same facts on [slice] and [write_at], with offsets in [Z]. *)

Lemma write_at_patch buf off chars :
  0 <= off -> off + Z.of_nat (List.length chars) <= Z.of_nat (List.length buf) ->
  write_at buf off chars = patch buf (Z.to_nat off) chars.
Proof.
  intros H0 H1. unfold write_at, patch.
  destruct (Z.leb_spec 0 off); [|lia].
  destruct (Z.leb_spec (off + Z.of_nat (List.length chars))
              (Z.of_nat (List.length buf))); [|lia].
  reflexivity.
Qed.

Lemma slice_length buf from len :
  0 <= from -> 0 <= len -> from + len <= Z.of_nat (List.length buf) ->
  Z.of_nat (List.length (slice buf from len)) = len.
Proof.
  intros. unfold slice. rewrite slice_nat_length by lia. lia.
Qed.



Lemma slice_write_before buf off chars from len :
  0 <= from -> 0 <= len -> from + len <= off ->
  off + Z.of_nat (List.length chars) <= Z.of_nat (List.length buf) ->
  slice (write_at buf off chars) from len = slice buf from len.
Proof.
  intros. rewrite write_at_patch by lia. unfold slice.
  apply slice_patch_before; lia.
Qed.

Lemma slice_write_append buf off chars from :
  0 <= from <= off ->
  off + Z.of_nat (List.length chars) <= Z.of_nat (List.length buf) ->
  slice (write_at buf off chars) from
    (off - from + Z.of_nat (List.length chars))
  = slice buf from (off - from) ++ chars.
Proof.
  intros. rewrite write_at_patch by lia. unfold slice.
  replace (Z.to_nat (off - from + Z.of_nat (List.length chars)))
    with (Z.to_nat off - Z.to_nat from + List.length chars)%nat by lia.
  replace (Z.to_nat (off - from)) with (Z.to_nat off - Z.to_nat from)%nat
    by lia.
  apply slice_patch_append; lia.
Qed.

Lemma slice_write_front buf chars :
  Z.of_nat (List.length chars) <= Z.of_nat (List.length buf) ->
  slice (write_at buf 0 chars) 0 (Z.of_nat (List.length chars)) = chars.
Proof.
  intros. rewrite write_at_patch by lia. unfold slice.
  rewrite Nat2Z.id. change (Z.to_nat 0) with 0%nat.
  apply slice_patch_front. lia.
Qed.

Lemma slice_all buf from len :
  0 <= from -> Z.of_nat (List.length buf) <= from + len ->
  slice buf from len = skipn (Z.to_nat from) buf.
Proof.
  intros. unfold slice. apply firstn_all2. rewrite length_skipn. lia.
Qed.

End BufferFacts.

(** ** The byte stream through the transfer engine *)

Module StreamFacts.
Import CInt CIntFacts Number PvString PvStringFacts State Display OS Transfer.
Import BufferFacts TransferFacts.

(** Projections of updated records. *)
Ltac simp_m :=
  cbn [numeric set_numeric wait set_wait linemode set_linemode bits set_bits null_terminated_lines set_null_terminated_lines no_display set_no_display skip_errors set_skip_errors error_skip_block set_error_skip_block stop_at_size set_stop_at_size sync_after_write set_sync_after_write direct_io_changed set_direct_io_changed no_splice set_no_splice discard_input set_discard_input rate_limit set_rate_limit target_buffer_size set_target_buffer_size size set_size width set_width name set_name default_format set_default_format format_string set_format_string display_buffer set_display_buffer display_buffer_size set_display_buffer_size display_string_len set_display_string_len prev_screen_width set_prev_screen_width display_visible set_display_visible percentage set_percentage initial_offset set_initial_offset lastoutput_length set_lastoutput_length lastoutput_buffer set_lastoutput_buffer format_segment_count set_format_segment_count format set_format component set_component transfer_buffer set_transfer_buffer buffer_size set_buffer_size read_position set_read_position write_position set_write_position last_read_skip_fd set_last_read_skip_fd read_errors_in_a_row set_read_errors_in_a_row read_error_warning_shown set_read_error_warning_shown splice_failed_fd set_splice_failed_fd splice_used set_splice_used to_write set_to_write written set_written exit_status set_exit_status control set_control display set_display transfer set_transfer reported set_reported state set_state world set_world eof_in set_eof_in eof_out set_eof_out lineswritten set_lineswritten input offset seekable stdout inflow with_control with_display with_transfer or_exit_status pv_error on_state on_transfer buffer_of store_buffer] in *.

(** A bound on buffer sizes that keeps the size arithmetic far from
    overflow. *)
Definition max_size : Z := 2305843009213693952.

Lemma max_size_eq : max_size = 2 ^ 61.
Proof. reflexivity. Qed.

(** *** The invariant of the engine *)


Definition buf_ok (t : transfer_t) : Prop :=
  0 <= write_position t <= read_position t
  /\ match transfer_buffer t with
     | None => read_position t = 0
     | Some b =>
         Z.of_nat (List.length b) = buffer_size t + 32
         /\ read_position t <= buffer_size t
         /\ buffer_size t < max_size
     end.











(** The pending bytes only depend on the buffer and the two positions. *)
Lemma pending_eq t t' :
  transfer_buffer t' = transfer_buffer t ->
  read_position t' = read_position t ->
  write_position t' = write_position t ->
  pending t' = pending t.
Proof.
  intros Hb Hr Hw. unfold pending, buffer_of. rewrite Hb, Hr, Hw. reflexivity.
Qed.

Lemma pending_empty t :
  read_position t = write_position t -> pending t = [].
Proof.
  intros H. unfold pending. rewrite H, Z.sub_diag. reflexivity.
Qed.

Lemma buf_ok_eq t t' :
  transfer_buffer t' = transfer_buffer t ->
  buffer_size t' = buffer_size t ->
  read_position t' = read_position t ->
  write_position t' = write_position t ->
  buf_ok t -> buf_ok t'.
Proof.
  intros Hb Hs Hr Hw. unfold buf_ok. rewrite Hb, Hs, Hr, Hw. tauto.
Qed.



(** *** The kernel calls *)


Lemma skipn_length_firstn {A} (n : nat) (l : list A) :
  skipn (List.length (firstn n l)) l = skipn n l.
Proof.
  rewrite length_firstn.
  destruct (Nat.le_gt_cases n (List.length l)) as [H | H].
  - rewrite Nat.min_l by exact H. reflexivity.
  - rewrite Nat.min_r by lia. rewrite skipn_all.
    symmetry. apply skipn_all2. lia.
Qed.

(** [w'] is [w] after [data] has been read from the input. *)
Definition reads_to (w : world_t) (data : list ascii) (w' : world_t) : Prop :=
  unread w = data ++ unread w'
  /\ inflow w' = inflow w ++ data
  /\ stdout w' = stdout w
  /\ 0 <= offset w'.

Lemma reads_to_nil w : 0 <= offset w -> reads_to w [] w.
Proof.
  intros H. unfold reads_to. rewrite app_nil_r. auto.
Qed.

Lemma reads_to_trans w d1 w1 d2 w2 :
  reads_to w d1 w1 -> reads_to w1 d2 w2 -> reads_to w (d1 ++ d2) w2.
Proof.
  intros (U1 & I1 & S1 & O1) (U2 & I2 & S2 & O2). unfold reads_to.
  rewrite U1, U2, I2, I1, S2, S1, !app_assoc. auto.
Qed.

Lemma os_read_reads_to w request want :
  0 <= offset w ->
  reads_to w (fst (os_read w request want)) (snd (os_read w request want)).
Proof.
  intros Ho. unfold os_read, reads_to. cbn [fst snd inflow stdout offset].
  split; [|split; [reflexivity|split; [reflexivity|lia]]].
  unfold unread at 3. cbn [offset input].
  rewrite Z2Nat.inj_add by lia. rewrite Nat2Z.id, Nat.add_comm.
  rewrite <- skipn_skipn. fold (unread w).
  rewrite skipn_length_firstn. symmetry. apply firstn_skipn.
Qed.


Lemma os_read_length w request want :
  0 <= request ->
  Z.of_nat (List.length (fst (os_read w request want))) <= request.
Proof.
  intros Hr. unfold os_read. cbn [fst]. rewrite length_firstn. lia.
Qed.


(** [w'] is [w] after standard output has accepted [data]. *)
Definition writes_to (w : world_t) (data : list ascii) (w' : world_t) : Prop :=
  stdout w' = stdout w ++ data
  /\ inflow w' = inflow w
  /\ input w' = input w
  /\ offset w' = offset w.





(** *** The buffer set-up *)




(** *** Up to the call of [select] *)



(** *** The read phase *)








(** *** The write phase *)

Lemma update_lastoutput_keeps n st :
  transfer (update_lastoutput n st) = transfer st
  /\ control (update_lastoutput n st) = control st.
Proof.
  unfold update_lastoutput.
  destruct (required (component (display st) PV_COMPONENT_OUTPUTBUF)
            && (n >? 0)); auto.
Qed.

Lemma firstn_slice buf from len k :
  0 <= k <= len ->
  firstn (Z.to_nat k) (slice buf from len) = slice buf from k.
Proof.
  intros Hk. unfold slice. rewrite firstn_firstn. f_equal. lia.
Qed.



(** *** One call of [pv_transfer] *)




End StreamFacts.
(** ** loop.c: the byte stream through the main loop *)

Module MainLoopFacts.
Import CInt CIntFacts Number PvString PvStringFacts State Display OS Transfer.
Import MainLoop BufferFacts DisplayFacts TransferFacts StreamFacts.

(** *** The display leaves the transfer alone *)

(** The configuration and the transfer state. *)
Definition core (st : pvstate) : control_t * transfer_t :=
  (control st, transfer st).

Lemma update_percentage_core env total st :
  core (update_percentage env total st) = core st.
Proof.
  unfold update_percentage.
  destruct (size (control st) <=? 0); [reflexivity|].
  destruct (numeric (control st)
            || required (component (display st) PV_COMPONENT_PROGRESS));
    reflexivity.
Qed.

Lemma ensure_display_buffer_core env st st' :
  ensure_display_buffer env st = Some st' -> core st' = core st.
Proof.
  unfold ensure_display_buffer. intros H.
  repeat match type of H with
  | context [match ?x with _ => _ end] => destruct x
  end; inversion H; subst; reflexivity.
Qed.

Lemma numeric_output_core env total st :
  core (numeric_output env total st) = core st.
Proof.
  unfold numeric_output. destruct (display_buffer (display st)); reflexivity.
Qed.

Lemma render_component_core env c st :
  core (render_component env c st) = core st.
Proof.
  unfold render_component.
  repeat match goal with
  | |- context [if ?b then _ else _] => destruct b
  end; reflexivity.
Qed.

Lemma render_components_core env cs : forall st,
  core (fold_left (fun st c => render_component env c st) cs st) = core st.
Proof.
  induction cs as [|c cs IH]; intros st; cbn [fold_left]; [reflexivity|].
  rewrite IH. apply render_component_core.
Qed.

Lemma render_progress_core sps st :
  core (render_progress sps st) = core st.
Proof.
  unfold render_progress.
  destruct (negb (required (component (display st) PV_COMPONENT_PROGRESS)));
    [reflexivity|].
  destruct (size (control st) >? 0).
  - pose proof (known_size_bar_state sps
      (pv_snprintf_text
         (store (content (component (display st) PV_COMPONENT_PROGRESS)) 0 NUL)
         PV_SIZEOF_COMPONENT_STR ["["%char]) st) as Hk.
    destruct (known_size_bar _ _ _) as [buf st']. cbn [snd] in Hk. subst st'.
    match goal with
    | |- context [if ?b then (_, _) else (_, _)] => destruct b
    end; reflexivity.
  - match goal with
    | |- context [if ?b then (_, _) else (_, _)] => destruct b
    end; reflexivity.
Qed.

Lemma assemble_line_core st : core (assemble_line st) = core st.
Proof.
  unfold assemble_line.
  destruct (display_buffer (display st)); [|reflexivity].
  destruct (append_segments _ _ _ _ _ _) as [buf len].
  match goal with
  | |- context [if ?b then (_, _) else (_, _)] => destruct b
  end; reflexivity.
Qed.

Lemma pv__format_core env sl tot st :
  core (snd (pv__format env sl tot st)) = core st.
Proof.
  unfold pv__format. destruct (tot <? 0); [reflexivity|].
  destruct (ensure_display_buffer env (update_percentage env tot st))
    as [st1|] eqn:E; [|cbn [snd]; apply update_percentage_core].
  apply ensure_display_buffer_core in E.
  rewrite update_percentage_core in E. rewrite <- E.
  destruct (numeric (control st1)); cbn [snd].
  - apply numeric_output_core.
  - rewrite assemble_line_core. unfold render_all.
    rewrite render_progress_core. apply render_components_core.
Qed.

Lemma pv_display_keeps tk sl tot ls :
  core (state (mach (pv_display tk sl tot ls))) = core (state (mach ls))
  /\ world (mach (pv_display tk sl tot ls)) = world (mach ls)
  /\ eof_in (mach (pv_display tk sl tot ls)) = eof_in (mach ls)
  /\ eof_out (mach (pv_display tk sl tot ls)) = eof_out (mach ls)
  /\ lineswritten (mach (pv_display tk sl tot ls)) = lineswritten (mach ls)
  /\ fd (pv_display tk sl tot ls) = fd ls
  /\ file_idx (pv_display tk sl tot ls) = file_idx ls
  /\ final_update (pv_display tk sl tot ls) = final_update ls.
Proof.
  unfold pv_display.
  set (st0 := if reparse_display ls then pv__format_init (state (mach ls))
              else state (mach ls)).
  assert (H0 : core st0 = core (state (mach ls))).
  { unfold st0. destruct (reparse_display ls); reflexivity. }
  pose proof (pv__format_core (env tk) sl tot st0) as Hf.
  destruct (pv__format (env tk) sl tot st0) as [ok st1]. cbn [snd] in Hf.
  rewrite <- H0, <- Hf.
  split; [|repeat split; reflexivity].
  cbn [mach on_mach set_mach set_reparse_display state set_state].
  destruct ok; [|reflexivity].
  destruct (display_buffer (display st1)); [|reflexivity].
  destruct (numeric (control st1)); [reflexivity|].
  destruct (shown tk); reflexivity.
Qed.
(** *** The stream of the inputs *)







(** *** Between two input files *)







(** *** One round of the loop *)





Definition round_state (r : round_result) : loop_state :=
  match r with
  | Goes_on ls | Breaks ls | Returns ls => ls
  end.

(** *** The whole run *)

(** What a run has put on standard output. *)
Definition output_of (r : run_result) : list ascii :=
  match r with
  | No_input _ => []
  | Completed _ w | Interrupted _ w | Aborted _ w => stdout w
  | Unfinished ls => stdout (world (mach ls))
  end.

(** The loop ran to its end: every input was read to its end and all of
    it written, or there was no input to open. *)
Definition runs_to_end (r : run_result) : bool :=
  match r with
  | No_input _ | Completed _ _ => true
  | _ => false
  end.





(** *** A run of three inputs *)

Definition run_control (skip : Z) : control_t :=
  mkControl false false false false false false skip 0 false false false true
    false 0 8 0 80 None (cstr "%b") None.

Definition run_state (skip : Z) : pvstate :=
  mkState 0 (run_control skip) sample_display sample_transfer [].

Definition run_os (first_read : io_result) : os_call :=
  mkOs true true (SelectReturned true true) (Failed EINVAL) false
    [mkReadStep first_read false true; mkReadStep (Transferred 100) false false]
    None None true
    [mkWriteStep (Transferred 3) false false;
     mkWriteStep (Transferred 100) false false].

Definition run_tick (first_read : io_result) : tick :=
  mkTick None false 0 (run_os first_read) true true true sample_env.

Definition run_files : list input_file :=
  [mkFile 3 None (cstr "hello world, ") true;
   mkFile 3 (Some 2) (cstr "XXX") true;
   mkFile 3 None (cstr "this is pv") true].

Definition run_ticks : list tick := repeat (run_tick (Transferred 5)) 10.


(** A [read] that is interrupted after an earlier [read] of the same
    call of [pv__transfer_read_repeated] has delivered bytes: the call
    returns the failure, ["hello"] has left the input and never reaches
    standard output. *)
Definition interrupted_tick : tick :=
  mkTick None false 0
    (mkOs true true (SelectReturned true true) (Failed EINVAL) false
       [mkReadStep (Transferred 5) false true;
        mkReadStep (Failed EINTR) false false]
       None None true [mkWriteStep (Transferred 100) false false])
    true true true sample_env.

Lemma interrupted_read_loses_bytes :
  let r :=
    pv_main_loop run_files None (interrupted_tick :: run_ticks) (run_state 0) in
  runs_to_end r = true
  /\ output_of r = cstr " world, this is pv".
Proof.
  cbv zeta. split; vm_compute; reflexivity.
Qed.

End MainLoopFacts.

Module TimeFacts.
Import CInt CIntFacts ElapsedTime ElapsedTimeFacts Number NumberFacts.
Import PvString PvStringFacts State Display OS Transfer MainLoop TotalSize.
Import BufferFacts DisplayFacts TransferFacts StreamFacts MainLoopFacts.

(** ** elapsedtime.c: order and sums *)

(** The time a possibly NULL operand stands for in a sum: nothing for
    NULL. *)
Definition nsec_of (t : option timespec) : Z :=
  match t with
  | None => 0
  | Some t => total_nsec t
  end.

Definition seconds_of (t : option timespec) : Z :=
  match t with
  | None => 0
  | Some t => tv_sec t
  end.

Definition normalized_operand (t : option timespec) : Prop :=
  match t with
  | None => True
  | Some t => normalized t
  end.

(** X1: on normalised times [pv_elapsedtime_compare] is the sign of the
    difference of the two times, so it is 0 only for equal times; a
    NULL pointer compares earlier than every time and equal to NULL. *)
Theorem compare_is_sign (a b : timespec) :
  normalized a -> normalized b ->
  pv_elapsedtime_compare (Some a) (Some b)
  = Z.sgn (total_nsec a - total_nsec b)
  /\ (pv_elapsedtime_compare (Some a) (Some b) = 0 -> a = b)
  /\ pv_elapsedtime_compare None (Some b) = -1
  /\ pv_elapsedtime_compare (Some a) None = 1
  /\ pv_elapsedtime_compare None None = 0.
Proof.
  unfold normalized, total_nsec, billion.
  destruct a as [sa na], b as [sb nb]; cbn [tv_sec tv_nsec].
  intros Ha Hb.
  split; [|split; [|repeat split]].
  - unfold pv_elapsedtime_compare; cbn [tv_sec tv_nsec].
    repeat match goal with
    | |- context [?x <? ?y] => destruct (Z.ltb_spec x y)
    | |- context [?x >? ?y] => rewrite (Z.gtb_ltb x y)
    end; lia.
  - unfold pv_elapsedtime_compare; cbn [tv_sec tv_nsec].
    repeat match goal with
    | |- context [?x <? ?y] => destruct (Z.ltb_spec x y)
    | |- context [?x >? ?y] => rewrite (Z.gtb_ltb x y)
    end; intros Hz; try discriminate Hz.
    f_equal; lia.
Qed.

Lemma compare_is_sign_witness :
  pv_elapsedtime_compare (Some (mkTimespec 3 999999999)) (Some (mkTimespec 4 0))
  = Z.sgn (total_nsec (mkTimespec 3 999999999) - total_nsec (mkTimespec 4 0)).
Proof.
  apply (compare_is_sign (mkTimespec 3 999999999) (mkTimespec 4 0));
    unfold normalized, billion; cbn [tv_sec tv_nsec]; lia.
Defined.

(** X2: [pv_elapsedtime_add] stores the exact sum of two normalised
    times, a NULL operand counting as zero, with the nanoseconds carried
    into the seconds so that the result is normalised; with a NULL
    result pointer nothing is stored. *)
Theorem add_exact (r : timespec) (a b : option timespec) :
  normalized_operand a -> normalized_operand b ->
  in64 (seconds_of a) -> in64 (seconds_of a + seconds_of b) ->
  in64 (seconds_of a + seconds_of b + 1) ->
  (exists res,
     pv_elapsedtime_add (Some r) a b = Some res
     /\ normalized res
     /\ total_nsec res = nsec_of a + nsec_of b)
  /\ pv_elapsedtime_add None a b = None.
Proof.
  intros Ha Hb Hsa Hs Hs1. split; [|reflexivity].
  unfold in64, min64, max64 in *.
  destruct a as [[sa na]|], b as [[sb nb]|];
    unfold normalized_operand, normalized, nsec_of, seconds_of, total_nsec,
      billion in *;
    cbn [tv_sec tv_nsec] in *;
    unfold pv_elapsedtime_add, accumulate, billion;
    cbn [tv_sec tv_nsec fst snd]; rewrite ?Z.add_0_l, ?Z.mul_1_l.
  - rewrite (wrap64_small sa), (wrap64_small na),
      (wrap64_small (sa + sb)), (wrap64_small (na + nb))
      by (unfold in64, min64, max64; lia).
    assert (Hq : 0 <= Z.quot (na + nb) 1000000000 <= 1) by euclid.
    rewrite wrap64_small by (unfold in64, min64, max64; lia).
    eexists; split; [reflexivity|]. cbn [tv_sec tv_nsec].
    split; euclid.
  - rewrite (wrap64_small sa), (wrap64_small na)
      by (unfold in64, min64, max64; lia).
    assert (Hq : Z.quot na 1000000000 = 0) by euclid.
    rewrite Hq, Z.add_0_r, wrap64_small by (unfold in64, min64, max64; lia).
    eexists; split; [reflexivity|]. cbn [tv_sec tv_nsec].
    split; euclid.
  - rewrite (wrap64_small sb), (wrap64_small nb)
      by (unfold in64, min64, max64; lia).
    assert (Hq : Z.quot nb 1000000000 = 0) by euclid.
    rewrite Hq, Z.add_0_r, wrap64_small by (unfold in64, min64, max64; lia).
    eexists; split; [reflexivity|]. cbn [tv_sec tv_nsec].
    split; euclid.
  - eexists; split; [reflexivity|]. cbn [tv_sec tv_nsec Z.quot Z.rem].
    vm_compute. repeat split; discriminate.
Qed.

Lemma add_exact_witness :
  exists res,
    pv_elapsedtime_add (Some zero_time)
      (Some (mkTimespec 7 900000000)) (Some (mkTimespec 2 300000000)) = Some res
    /\ normalized res
    /\ total_nsec res
       = nsec_of (Some (mkTimespec 7 900000000))
         + nsec_of (Some (mkTimespec 2 300000000)).
Proof.
  apply (add_exact zero_time (Some (mkTimespec 7 900000000))
           (Some (mkTimespec 2 300000000)));
    unfold normalized_operand, normalized, seconds_of, in64, min64, max64,
      billion; cbn [tv_sec tv_nsec]; lia.
Defined.

(** X3: [pv_elapsedtime_add_nsec] moves a normalised time by exactly the
    nanoseconds given, forwards or backwards; the result is normalised
    when the nanosecond field plus the amount is not negative, but when
    it is negative no second is borrowed and the nanosecond field is
    left negative or zero. *)
Theorem add_nsec_exact (t : timespec) (n : Z) :
  normalized t -> in64 (tv_sec t) ->
  - 2 ^ 62 <= n <= 2 ^ 62 ->
  in64 (tv_sec t + Z.quot (tv_nsec t + n) billion) ->
  exists res,
    pv_elapsedtime_add_nsec (Some t) n = Some res
    /\ total_nsec res = total_nsec t + n
    /\ (0 <= tv_nsec t + n -> normalized res)
    /\ (tv_nsec t + n < 0 -> - billion < tv_nsec res <= 0).
Proof.
  unfold normalized, total_nsec, in64, min64, max64.
  destruct t as [s ns]; cbn [tv_sec tv_nsec].
  intros Ht Hs Hn Hq.
  unfold pv_elapsedtime_add_nsec; cbn [tv_sec tv_nsec].
  rewrite (wrap64_small (ns + n))
    by (unfold in64, min64, max64, billion in *; lia).
  rewrite wrap64_small by (unfold in64, min64, max64; exact Hq).
  eexists; split; [reflexivity|]. cbn [tv_sec tv_nsec].
  unfold billion in *. repeat split; try euclid.
Qed.

Lemma add_nsec_exact_witness :
  exists res,
    pv_elapsedtime_add_nsec (Some (mkTimespec 5 100)) (-101) = Some res
    /\ total_nsec res = total_nsec (mkTimespec 5 100) + (-101)
    /\ (0 <= tv_nsec (mkTimespec 5 100) + (-101) -> normalized res)
    /\ (tv_nsec (mkTimespec 5 100) + (-101) < 0
        -> - billion < tv_nsec res <= 0).
Proof.
  apply (add_nsec_exact (mkTimespec 5 100) (-101));
    unfold normalized, in64, min64, max64, billion; cbn [tv_sec tv_nsec];
    try lia.
  vm_compute. split; discriminate.
Defined.

End TimeFacts.

Module CStringFacts.
Import CInt CIntFacts ElapsedTime ElapsedTimeFacts Number NumberFacts.
Import PvString PvStringFacts State Display OS Transfer MainLoop TotalSize.
Import BufferFacts DisplayFacts TransferFacts StreamFacts MainLoopFacts.
Import TimeFacts.

(** ** C strings *)

(** The end of a string and the characters before it. *)
Lemma at_end_head r : at_end r = Ascii.eqb (head_char r) NUL.
Proof. destruct r; reflexivity. Qed.

Lemma at_end_c_string r : at_end r = true -> c_string r = [].
Proof.
  destruct r as [|c r]; [reflexivity|]. cbn [at_end]. intros H.
  unfold c_string. cbn [strlen_nat]. rewrite H. reflexivity.
Qed.

Lemma c_string_app pre r :
  Forall (fun c => Ascii.eqb c NUL = false) pre ->
  c_string (pre ++ r) = pre ++ c_string r.
Proof.
  induction 1 as [|c pre Hc _ IH]; [reflexivity|].
  unfold c_string in *. cbn [app strlen_nat]. rewrite Hc.
  cbn [firstn]. rewrite IH. reflexivity.
Qed.

Lemma c_string_split s :
  exists r, s = c_string s ++ r /\ at_end r = true
            /\ Forall (fun c => Ascii.eqb c NUL = false) (c_string s).
Proof.
  induction s as [|c s (r & Hs & Hr & Hn)].
  - exists []. repeat split. constructor.
  - unfold c_string in *. cbn [strlen_nat].
    destruct (Ascii.eqb c NUL) eqn:E.
    + exists (c :: s). cbn [firstn app at_end]. repeat split; [exact E|constructor].
    + exists r. cbn [firstn app]. split; [f_equal; exact Hs|].
      split; [exact Hr|]. constructor; assumption.
Qed.

Lemma c_string_no_nul s : Forall (fun c => Ascii.eqb c NUL = false) (c_string s).
Proof. destruct (c_string_split s) as (r & _ & _ & H). exact H. Qed.

Lemma c_string_length s : Z.of_nat (List.length (c_string s)) = strlen s.
Proof.
  unfold c_string, strlen. rewrite length_firstn.
  pose proof (strlen_nat_le s). lia.
Qed.

Lemma c_string_fixed chars :
  Forall (fun c => Ascii.eqb c NUL = false) chars -> c_string chars = chars.
Proof.
  intros H. rewrite <- (app_nil_r chars) at 1.
  rewrite (c_string_app chars [] H). apply app_nil_r.
Qed.

Lemma c_string_app_nul pre rest :
  c_string (pre ++ NUL :: rest) = c_string pre.
Proof.
  induction pre as [|c pre IH]; [reflexivity|].
  unfold c_string in *. cbn [app strlen_nat].
  destruct (Ascii.eqb c NUL); [reflexivity|].
  cbn [firstn]. rewrite IH. reflexivity.
Qed.

Lemma strlen_nat_firstn s : forall n : nat,
  strlen_nat (firstn n s) = Nat.min n (strlen_nat s).
Proof.
  induction s as [|c s IH]; intros [|n]; try reflexivity.
  cbn [firstn strlen_nat].
  destruct (Ascii.eqb c NUL); [reflexivity|].
  rewrite IH. reflexivity.
Qed.

Lemma c_string_firstn s (n : nat) :
  c_string (firstn n s) = firstn n (c_string s).
Proof.
  unfold c_string. rewrite strlen_nat_firstn, !firstn_firstn.
  f_equal. lia.
Qed.

(** A NUL stored at index [i] cuts the string there. *)
Lemma c_string_store buf i :
  0 <= i < Z.of_nat (List.length buf) ->
  c_string (store buf i NUL) = firstn (Z.to_nat i) (c_string buf).
Proof.
  intros Hi. unfold store.
  destruct (Z.leb_spec 0 i), (Z.ltb_spec i (Z.of_nat (List.length buf)));
    try lia. cbn [andb].
  rewrite c_string_app_nul. apply c_string_firstn.
Qed.

Lemma firstn_store buf i c :
  firstn (Z.to_nat i) (store buf i c) = firstn (Z.to_nat i) buf.
Proof.
  unfold store.
  destruct ((0 <=? i) && (i <? Z.of_nat (List.length buf))) eqn:E;
    [|reflexivity].
  apply andb_true_iff in E. destruct E as [E1 E2].
  apply Z.leb_le in E1. apply Z.ltb_lt in E2.
  rewrite firstn_app, firstn_firstn, length_firstn.
  replace (Z.to_nat i - Nat.min (Z.to_nat i) (List.length buf))%nat
    with 0%nat by lia.
  cbn [firstn]. rewrite app_nil_r. f_equal. lia.
Qed.

(** Characters copied to offset [off] and closed by a NUL. *)
Lemma c_string_written buf off chars :
  0 <= off ->
  off + Z.of_nat (List.length chars) < Z.of_nat (List.length buf) ->
  c_string (store (write_at buf off chars) (off + Z.of_nat (List.length chars))
              NUL)
  = c_string (firstn (Z.to_nat off) buf ++ chars).
Proof.
  intros Hoff Hfit.
  rewrite c_string_store by (rewrite write_at_length; lia).
  rewrite <- c_string_firstn. f_equal.
  rewrite write_at_patch by lia. unfold patch.
  rewrite app_assoc, firstn_app.
  rewrite length_app, length_firstn.
  replace (Z.to_nat (off + Z.of_nat (List.length chars))
           - (Nat.min (Z.to_nat off) (List.length buf) + List.length chars))%nat
    with 0%nat by lia.
  cbn [firstn]. rewrite app_nil_r.
  apply firstn_all2. rewrite length_app, length_firstn. lia.
Qed.

End CStringFacts.

Module NumberCheckFacts.
Import CInt CIntFacts ElapsedTime ElapsedTimeFacts Number NumberFacts.
Import PvString PvStringFacts State Display OS Transfer MainLoop TotalSize.
Import BufferFacts DisplayFacts TransferFacts StreamFacts MainLoopFacts.
Import TimeFacts CStringFacts.

(** ** number.c: the check of a numeric argument *)

Definition is_blank_char (c : ascii) : Prop := is_blank c = true.

(** The characters of the argument up to its terminator, for an argument
    that [pv_getnum_check] takes as an integer: blanks, digits, and then
    nothing or blanks and one units letter. *)
Definition integer_argument (s digits : list ascii) (shift : Z) : Prop :=
  exists blanks suffix,
    c_string s = blanks ++ digits ++ suffix
    /\ Forall is_blank_char blanks
    /\ Forall is_digit digits /\ digits <> []
    /\ ((suffix = [] /\ shift = 0)
        \/ exists gap u,
             suffix = gap ++ [u] /\ Forall is_blank_char gap
             /\ is_units u = true /\ shift = units_shift u).

(** The same for a number with a fractional part: blanks, digits, and
    then nothing or a decimal mark and digits. *)
Definition double_argument (s : list ascii) : Prop :=
  exists blanks digits fraction,
    c_string s = blanks ++ digits ++ fraction
    /\ Forall is_blank_char blanks
    /\ Forall is_digit digits /\ digits <> []
    /\ (fraction = []
        \/ exists mark more,
             fraction = mark :: more /\ is_decimal_mark mark = true
             /\ Forall is_digit more).

(** Character classes. *)
Lemma blank_not_nul c : is_blank c = true -> Ascii.eqb c NUL = false.
Proof.
  intros H. destruct (Ascii.eqb_spec c NUL) as [->|]; [|reflexivity].
  vm_compute in H. discriminate.
Qed.

Lemma blank_not_digit c : is_blank c = true -> pv__isdigit c = false.
Proof.
  unfold is_blank. intros H. apply orb_true_iff in H.
  destruct H as [H | H]; apply Ascii.eqb_eq in H; subst; reflexivity.
Qed.

Lemma blank_not_mark c : is_blank c = true -> is_decimal_mark c = false.
Proof.
  unfold is_blank. intros H. apply orb_true_iff in H.
  destruct H as [H | H]; apply Ascii.eqb_eq in H; subst; reflexivity.
Qed.

Lemma units_cases c :
  is_units c = true ->
  In c ["k"; "K"; "m"; "M"; "g"; "G"; "t"; "T"]%char.
Proof.
  unfold is_units. intros H.
  repeat (apply orb_true_iff in H; destruct H as [H | H]);
    apply Ascii.eqb_eq in H; subst; cbn; tauto.
Qed.

Lemma units_class c :
  is_units c = true ->
  Ascii.eqb c NUL = false /\ pv__isdigit c = false
  /\ is_decimal_mark c = false /\ is_blank c = false
  /\ units_shift c <> 0.
Proof.
  intros H. apply units_cases in H. cbn [In] in H.
  repeat (destruct H as [H | H]; [subst; vm_compute; repeat split; discriminate|]).
  contradiction.
Qed.

Lemma mark_class c :
  is_decimal_mark c = true -> Ascii.eqb c NUL = false /\ is_blank c = false.
Proof.
  unfold is_decimal_mark. intros H. apply orb_true_iff in H.
  destruct H as [H | H]; apply Ascii.eqb_eq in H; subst; split; reflexivity.
Qed.

Lemma digit_not_blank c : is_digit c -> is_blank c = false.
Proof.
  intros H. destruct (is_blank c) eqn:E; [|reflexivity].
  apply blank_not_digit in E. unfold is_digit in H. congruence.
Qed.

(** The two skipping loops. *)
Lemma skip_blanks_split s :
  exists blanks,
    s = blanks ++ skip_blanks s /\ Forall is_blank_char blanks
    /\ is_blank (head_char (skip_blanks s)) = false.
Proof.
  induction s as [|c s (blanks & Hs & Hb & Hh)].
  - exists []. repeat split. constructor.
  - cbn [skip_blanks]. destruct (is_blank c) eqn:E.
    + exists (c :: blanks). cbn [app]. split; [f_equal; exact Hs|].
      split; [constructor; assumption | exact Hh].
    + exists []. repeat split; [constructor | exact E].
Qed.

Lemma skip_digits_split s :
  exists digits,
    s = digits ++ skip_digits s /\ Forall is_digit digits
    /\ pv__isdigit (head_char (skip_digits s)) = false.
Proof.
  induction s as [|c s (digits & Hs & Hd & Hh)].
  - exists []. repeat split. constructor.
  - cbn [skip_digits]. destruct (pv__isdigit c) eqn:E.
    + exists (c :: digits). cbn [app]. split; [f_equal; exact Hs|].
      split; [constructor; assumption | exact Hh].
    + exists []. repeat split; [constructor | exact E].
Qed.

Lemma skip_digits_app digits rest :
  Forall is_digit digits ->
  pv__isdigit (head_char rest) = false ->
  skip_digits (digits ++ rest) = rest.
Proof.
  intros Hd Hrest. induction Hd as [|c digits Hc _ IH].
  - destruct rest as [|d rest]; [reflexivity|].
    cbn [head_char] in Hrest. cbn [app skip_digits]. rewrite Hrest. reflexivity.
  - cbn [app skip_digits]. rewrite Hc. exact IH.
Qed.

Lemma blank_chars_not_nul blanks :
  Forall is_blank_char blanks ->
  Forall (fun c => Ascii.eqb c NUL = false) blanks.
Proof.
  intros H. eapply Forall_impl; [|exact H]. intros c. apply blank_not_nul.
Qed.

Lemma digits_not_nul digits :
  Forall is_digit digits ->
  Forall (fun c => Ascii.eqb c NUL = false) digits.
Proof.
  intros H. eapply Forall_impl; [|exact H]. intros c. apply digit_not_nul.
Qed.

Lemma head_char_app_digits digits rest :
  Forall is_digit digits -> digits <> [] ->
  is_digit (head_char (digits ++ rest)).
Proof.
  intros Hd Hne. destruct Hd as [|c digits Hc _]; [contradiction|exact Hc].
Qed.

(** What [pv_getnum_check] finds at the head of an argument it may
    accept: the blanks, the digits, and the rest. *)
Lemma check_head s :
  pv__isdigit (head_char (skip_blanks s)) = true ->
  exists blanks digits,
    s = blanks ++ digits ++ skip_digits (skip_blanks s)
    /\ Forall is_blank_char blanks
    /\ Forall is_digit digits /\ digits <> []
    /\ pv__isdigit (head_char (skip_digits (skip_blanks s))) = false.
Proof.
  intros Hdigit.
  destruct (skip_blanks_split s) as (blanks & Hs & Hb & _).
  destruct (skip_digits_split (skip_blanks s)) as (digits & Hs' & Hd & Hh).
  exists blanks, digits. split; [rewrite <- Hs'; exact Hs|].
  split; [exact Hb|]. split; [exact Hd|]. split; [|exact Hh].
  intros ->. cbn [app] in Hs'. rewrite <- Hs' in Hh. congruence.
Qed.

Lemma check_head_app blanks digits rest :
  Forall is_blank_char blanks ->
  Forall is_digit digits -> digits <> [] ->
  pv__isdigit (head_char rest) = false ->
  pv__isdigit (head_char (skip_blanks (blanks ++ digits ++ rest))) = true
  /\ skip_digits (skip_blanks (blanks ++ digits ++ rest)) = rest.
Proof.
  intros Hb Hd Hne Hrest.
  pose proof (head_char_app_digits digits rest Hd Hne) as Hhead.
  rewrite (skip_blanks_app blanks (digits ++ rest));
    [|exact Hb | apply digit_not_blank; exact Hhead].
  split; [exact Hhead|]. apply skip_digits_app; assumption.
Qed.

Lemma check_integer_sound (s : list ascii) :
  pv_getnum_check (Some s) PV_NUMTYPE_INTEGER = true ->
  exists digits shift, integer_argument s digits shift.
Proof.
  unfold pv_getnum_check. intros H.
  destruct (pv__isdigit (head_char (skip_blanks s))) eqn:Ehead;
    cbn [negb] in H; [|discriminate].
  destruct (check_head s Ehead) as (blanks & digits & Hs & Hb & Hd & Hne & Hh).
  set (r := skip_digits (skip_blanks s)) in *.
  destruct (is_decimal_mark (head_char r)); [discriminate|].
  pose proof (blank_chars_not_nul _ Hb) as Hbn.
  pose proof (digits_not_nul _ Hd) as Hdn.
  destruct (at_end r) eqn:Eend.
  - exists digits, 0, blanks, []. rewrite Hs.
    rewrite !c_string_app by assumption.
    rewrite (at_end_c_string r Eend).
    repeat split; auto.
  - destruct (skip_blanks_split r) as (gap & Hr & Hg & _).
    set (r' := skip_blanks r) in *.
    destruct (is_units (head_char r')) eqn:Eunits; [|discriminate].
    destruct r' as [|u r'']; [discriminate|].
    cbn [head_char tl] in *.
    destruct (at_end r'') eqn:Eend'; cbn [negb] in H; [|discriminate].
    exists digits, (units_shift u), blanks, (gap ++ [u]).
    rewrite Hs, Hr.
    rewrite !c_string_app by (assumption || apply blank_chars_not_nul; assumption).
    change (u :: r'') with ([u] ++ r'').
    rewrite c_string_app
      by (constructor; [apply (units_class u Eunits) | constructor]).
    rewrite (at_end_c_string r'' Eend'), app_nil_r.
    repeat split; auto. right. exists gap, u. auto.
Qed.

Lemma check_integer_complete (s digits : list ascii) (shift : Z) :
  integer_argument s digits shift ->
  pv_getnum_check (Some s) PV_NUMTYPE_INTEGER = true.
Proof.
  intros (blanks & suffix & Hs & Hb & Hd & Hne & Hsuffix).
  destruct (c_string_split s) as (r & Hsplit & Hr & _).
  rewrite Hs in Hsplit. rewrite <- !app_assoc in Hsplit.
  rewrite at_end_head in Hr. apply Ascii.eqb_eq in Hr.
  unfold pv_getnum_check. rewrite Hsplit.
  destruct Hsuffix as [[-> _] | (gap & u & -> & Hg & Hu & _)].
  - cbn [app].
    destruct (check_head_app blanks digits r Hb Hd Hne) as [-> ->];
      [rewrite Hr; reflexivity|].
    cbn [negb]. rewrite Hr. change (is_decimal_mark NUL) with false.
    cbv iota. rewrite at_end_head, Hr. reflexivity.
  - destruct (units_class u Hu) as (Hun & Hud & Hum & Hub & _).
    assert (Hhead :
      pv__isdigit (head_char ((gap ++ [u]) ++ r)) = false
      /\ is_decimal_mark (head_char ((gap ++ [u]) ++ r)) = false
      /\ at_end ((gap ++ [u]) ++ r) = false).
    { destruct Hg as [|b gap Hb' _]; cbn [app head_char at_end].
      - auto.
      - split; [exact (blank_not_digit b Hb')|].
        split; [exact (blank_not_mark b Hb') | exact (blank_not_nul b Hb')]. }
    destruct Hhead as (Hh1 & Hh2 & Hh3).
    destruct (check_head_app blanks digits ((gap ++ [u]) ++ r) Hb Hd Hne Hh1)
      as [-> ->].
    cbn [negb]. rewrite Hh2, Hh3.
    rewrite <- app_assoc. cbn [app].
    rewrite (skip_blanks_app gap (u :: r) Hg Hub).
    cbn [head_char tl]. rewrite Hu, at_end_head, Hr. reflexivity.
Qed.

(** X4: [pv_getnum_check] takes an argument as an integer exactly when
    it is made of optional blanks, at least one digit, and then either
    nothing or optional blanks and one units letter (k, m, g or t in
    either case); a decimal mark, trailing blanks without a letter, or
    anything behind the letter make it fail, and so does NULL. *)
Theorem check_integer_iff (s : list ascii) :
  (pv_getnum_check (Some s) PV_NUMTYPE_INTEGER = true
   <-> exists digits shift, integer_argument s digits shift)
  /\ pv_getnum_check None PV_NUMTYPE_INTEGER = false.
Proof.
  split; [|reflexivity]. split.
  - apply check_integer_sound.
  - intros (digits & shift & H). exact (check_integer_complete s digits shift H).
Qed.

(** X5: [pv_getnum_check] takes an argument as a number with a
    fractional part exactly when it is made of optional blanks, at least
    one digit, and then either nothing or a decimal mark ([.] or [,])
    and any number of digits; a units letter or any other trailing text
    makes it fail. *)
Theorem check_double_iff (s : list ascii) :
  (pv_getnum_check (Some s) PV_NUMTYPE_DOUBLE = true <-> double_argument s)
  /\ pv_getnum_check None PV_NUMTYPE_DOUBLE = false.
Proof.
  split; [|reflexivity]. split.
  - unfold pv_getnum_check. intros H.
    destruct (pv__isdigit (head_char (skip_blanks s))) eqn:Ehead;
      cbn [negb] in H; [|discriminate].
    destruct (check_head s Ehead) as (blanks & digits & Hs & Hb & Hd & Hne & Hh).
    set (r := skip_digits (skip_blanks s)) in *.
    pose proof (blank_chars_not_nul _ Hb) as Hbn.
    pose proof (digits_not_nul _ Hd) as Hdn.
    exists blanks, digits.
    destruct (is_decimal_mark (head_char r)) eqn:Emark.
    + destruct r as [|mark r']; [discriminate|]. cbn [head_char tl] in *.
      destruct (skip_digits_split r') as (more & Hr' & Hm & _).
      destruct (at_end (skip_digits r')) eqn:Eend; [|discriminate].
      exists (mark :: more). rewrite Hs, Hr'.
      rewrite !c_string_app by assumption.
      change (mark :: more ++ skip_digits r')
        with ((mark :: more) ++ skip_digits r').
      rewrite c_string_app
        by (constructor; [apply (mark_class mark Emark)
                         | apply digits_not_nul; exact Hm]).
      rewrite (at_end_c_string _ Eend), app_nil_r.
      repeat split; auto. right. exists mark, more. auto.
    + destruct (at_end r) eqn:Eend; [|discriminate].
      exists []. rewrite Hs.
      rewrite !c_string_app by assumption.
      rewrite (at_end_c_string r Eend).
      repeat split; auto.
  - intros (blanks & digits & fraction & Hs & Hb & Hd & Hne & Hfraction).
    destruct (c_string_split s) as (r & Hsplit & Hr & _).
    rewrite Hs in Hsplit. rewrite <- !app_assoc in Hsplit.
    rewrite at_end_head in Hr. apply Ascii.eqb_eq in Hr.
    unfold pv_getnum_check. rewrite Hsplit.
    destruct Hfraction as [-> | (mark & more & -> & Hmark & Hm)].
    + cbn [app].
      destruct (check_head_app blanks digits r Hb Hd Hne) as [-> ->];
        [rewrite Hr; reflexivity|].
      cbn [negb]. rewrite Hr. change (is_decimal_mark NUL) with false.
      cbv iota. rewrite at_end_head, Hr. reflexivity.
    + destruct (check_head_app blanks digits ((mark :: more) ++ r) Hb Hd Hne)
        as [-> ->];
        [cbn [app head_char]; apply mark_not_digit; exact Hmark|].
      cbn [negb app head_char tl]. rewrite Hmark.
      rewrite (skip_digits_app more r Hm) by (rewrite Hr; reflexivity).
      rewrite at_end_head, Hr. reflexivity.
Qed.

(** X6: an argument that [pv_getnum_check] takes as an integer is given
    by [pv_getnum_size] the value of its digits, shifted left by 10, 20,
    30 or 40 bits for the units letter k, m, g or t, as long as that
    value fits an [off_t]. *)
Theorem checked_integer_value (s digits : list ascii) (shift : Z) :
  integer_argument s digits shift ->
  decimal digits * 2 ^ shift <= max64 ->
  pv_getnum_check (Some s) PV_NUMTYPE_INTEGER = true
  /\ pv_getnum_size (Some s) = decimal digits * 2 ^ shift.
Proof.
  intros Harg Hfit.
  split; [exact (check_integer_complete s digits shift Harg)|].
  destruct Harg as (blanks & suffix & Hs & Hb & Hd & Hne & Hsuffix).
  destruct (c_string_split s) as (r & Hsplit & Hr & _).
  rewrite Hs in Hsplit. rewrite <- !app_assoc in Hsplit.
  pose proof Hr as Hend.
  rewrite at_end_head in Hr. apply Ascii.eqb_eq in Hr.
  assert (Hpre : Forall (fun c => c <> NUL /\ pv__isdigit c = false) blanks).
  { eapply Forall_impl; [|exact Hb]. intros c Hc. split.
    - intros ->. discriminate Hc.
    - apply blank_not_digit. exact Hc. }
  assert (Hshift : shift = 0 \/ shift = 10 \/ shift = 20 \/ shift = 30
                   \/ shift = 40).
  { destruct Hsuffix as [[_ ->] | (gap & u & _ & _ & _ & ->)];
      [auto | apply units_shift_cases]. }
  assert (Hvalue : 0 <= decimal digits).
  { unfold decimal. apply (decimal_from_mono digits 0 Hd). lia. }
  assert (Hpow : 1 <= 2 ^ shift)
    by (destruct Hshift as [-> | [-> | [-> | [-> | ->]]]]; lia).
  assert (Hint : decimal_from 0 digits <= max64).
  { change (decimal_from 0 digits) with (decimal digits). nia. }
  assert (Hrest :
    pv__isdigit (head_char (suffix ++ r)) = false
    /\ is_decimal_mark (head_char (suffix ++ r)) = false
    /\ (if negb (at_end (suffix ++ r))
        then units_shift (head_char (skip_blanks (suffix ++ r)))
        else 0) = shift).
  { destruct Hsuffix as [[-> ->] | (gap & u & -> & Hg & Hu & ->)].
    - cbn [app]. rewrite Hend, Hr. repeat split.
    - destruct (units_class u Hu) as (Hun & Hud & Hum & Hub & _).
      rewrite <- app_assoc. cbn [app].
      rewrite (shift_after_number gap (u :: r) Hg Hub).
      destruct Hg as [|b gap Hb' _]; cbn [app head_char].
      + auto.
      + split; [exact (blank_not_digit b Hb')|].
        split; [exact (blank_not_mark b Hb') | reflexivity]. }
  destruct Hrest as (Hh1 & Hh2 & Hh3).
  unfold pv_getnum_size. rewrite Hsplit.
  rewrite (skip_non_digits_app blanks (digits ++ suffix ++ r) Hpre
             (head_char_app_digits digits _ Hd Hne)).
  rewrite (parse_integral_app digits (suffix ++ r) 0 Hd Hh1 ltac:(lia) Hint).
  rewrite Hh2, Hh3.
  change (decimal_from 0 digits) with (decimal digits).
  rewrite (apply_shift_exact shift (decimal digits) 0 Hshift Hvalue Hfit
             ltac:(lia) ltac:(unfold max64; lia)).
  rewrite Z.mul_0_l. change (Z.quot 0 1) with 0.
  rewrite Z.add_0_r. apply wrap64_small.
  unfold in64, min64, max64 in *. nia.
Qed.

Lemma checked_integer_value_witness :
  pv_getnum_check (Some (cstr "  64 k")) PV_NUMTYPE_INTEGER = true
  /\ pv_getnum_size (Some (cstr "  64 k")) = decimal (cstr "64") * 2 ^ 10.
Proof.
  apply (checked_integer_value (cstr "  64 k") (cstr "64") 10).
  - exists (cstr "  "), (cstr " k").
    split; [reflexivity|].
    split; [repeat constructor|]. split; [repeat constructor|].
    split; [discriminate|]. right. exists (cstr " "), "k"%char.
    split; [reflexivity|]. split; [repeat constructor|].
    split; reflexivity.
  - vm_compute. discriminate.
Defined.

End NumberCheckFacts.

Module StringFacts.
Import CInt CIntFacts ElapsedTime ElapsedTimeFacts Number NumberFacts.
Import PvString PvStringFacts State Display OS Transfer MainLoop TotalSize.
Import BufferFacts DisplayFacts TransferFacts StreamFacts MainLoopFacts.
Import TimeFacts CStringFacts NumberCheckFacts.

(** ** string.c: copies and searches *)

Lemma char_code_inj a b : char_code a = char_code b -> a = b.
Proof.
  unfold char_code. intros H. apply N2Z.inj in H.
  rewrite <- (ascii_N_embedding a), <- (ascii_N_embedding b), H. reflexivity.
Qed.

Lemma char_code_range c : 0 <= char_code c < 256.
Proof.
  unfold char_code. pose proof (N_ascii_bounded c). lia.
Qed.

Lemma scan_back_found buffer match_ : forall (k : nat) i,
  scan_back buffer match_ k = Some i ->
  0 <= i < Z.of_nat k
  /\ char_code (nth (Z.to_nat i) buffer NUL) = match_
  /\ forall j : nat, i < Z.of_nat j < Z.of_nat k ->
       char_code (nth j buffer NUL) <> match_.
Proof.
  induction k as [|k IH]; intros i H; cbn [scan_back] in H; [discriminate|].
  destruct (Z.eqb_spec (char_code (nth k buffer NUL)) match_) as [Hk | Hk].
  - injection H as <-. rewrite Nat2Z.id.
    split; [lia|]. split; [exact Hk|]. intros j Hj. lia.
  - destruct (IH i H) as (Hi & Hc & Hlater).
    split; [lia|]. split; [exact Hc|].
    intros j Hj. destruct (Nat.eq_dec j k) as [-> | Hne]; [exact Hk|].
    apply Hlater. lia.
Qed.

Lemma scan_back_none buffer match_ : forall k : nat,
  scan_back buffer match_ k = None ->
  forall j : nat, (j < k)%nat -> char_code (nth j buffer NUL) <> match_.
Proof.
  induction k as [|k IH]; intros H j Hj; [lia|].
  cbn [scan_back] in H.
  destruct (Z.eqb_spec (char_code (nth k buffer NUL)) match_) as [Hk | Hk];
    [discriminate|].
  destruct (Nat.eq_dec j k) as [-> | Hne]; [exact Hk|].
  apply (IH H). lia.
Qed.

(** What the portable loop returns. *)
Lemma scan_back_last (buffer : list ascii) (match_ length : Z) :
  match pv_memrchr_portable buffer match_ length with
  | Some i =>
      0 <= i < length
      /\ char_code (nth (Z.to_nat i) buffer NUL) = match_
      /\ forall j : nat, i < Z.of_nat j < length ->
           char_code (nth j buffer NUL) <> match_
  | None =>
      forall j : nat, Z.of_nat j < length ->
        char_code (nth j buffer NUL) <> match_
  end.
Proof.
  unfold pv_memrchr_portable.
  destruct (Z.ltb_spec length 1) as [Hempty | Hsome]; [intros j Hj; lia|].
  destruct (scan_back buffer match_ (Z.to_nat length)) as [i|] eqn:E.
  - destruct (scan_back_found _ _ _ _ E) as (Hi & Hc & Hlater).
    split; [lia|]. split; [exact Hc|]. intros j Hj. apply Hlater. lia.
  - intros j Hj. apply (scan_back_none _ _ _ E). lia.
Qed.

(** X7: the portable [pv_memrchr] returns the offset of the last byte of
    the buffer equal to [match], and NULL exactly when no byte of the
    buffer equals it; in particular NULL for an empty buffer and for a
    [match] that is not the value of a byte. *)
Theorem pv_memrchr_portable_last (buffer : list ascii) (match_ length : Z) :
  match pv_memrchr_portable buffer match_ length with
  | Some i =>
      0 <= i < length
      /\ char_code (nth (Z.to_nat i) buffer NUL) = match_
      /\ forall j : nat, i < Z.of_nat j < length ->
           char_code (nth j buffer NUL) <> match_
  | None =>
      forall j : nat, Z.of_nat j < length ->
        char_code (nth j buffer NUL) <> match_
  end
  /\ (length < 1 -> pv_memrchr_portable buffer match_ length = None)
  /\ (~ 0 <= match_ < 256 -> pv_memrchr_portable buffer match_ length = None).
Proof.
  split; [apply scan_back_last|]. split.
  - unfold pv_memrchr_portable. intros H.
    destruct (Z.ltb_spec length 1); [reflexivity|lia].
  - intros Hmatch. pose proof (scan_back_last buffer match_ length) as H.
    destruct (pv_memrchr_portable buffer match_ length) as [i|];
      [|reflexivity].
    destruct H as (_ & Hc & _).
    pose proof (char_code_range (nth (Z.to_nat i) buffer NUL)). lia.
Qed.

(** X8: where the C library has [memrchr], [pv_memrchr] gives the same
    answer as the portable loop, for every byte looked for and every
    buffer taken whole. *)
Theorem pv_memrchr_branches_agree (buffer : list ascii) (c : ascii) :
  pv_memrchr_portable buffer (char_code c) (Z.of_nat (List.length buffer))
  = pv_memrchr buffer c.
Proof.
  pose proof (scan_back_last buffer (char_code c)
                (Z.of_nat (List.length buffer))) as H.
  destruct (pv_memrchr buffer c) as [i|] eqn:E.
  - destruct (pv_memrchr_found _ _ _ E) as (front & back & Hb & Hi & Hback).
    assert (Hat : nth (List.length front) buffer NUL = c)
      by (rewrite Hb, nth_middle; reflexivity).
    destruct (pv_memrchr_portable buffer (char_code c)
                (Z.of_nat (List.length buffer))) as [i'|].
    + destruct H as (Hi' & Hc & Hlater). f_equal.
      apply char_code_inj in Hc.
      destruct (Z.lt_trichotomy i' i) as [Hlt | [Heq | Hgt]]; [|exact Heq|].
      * exfalso. apply (Hlater (List.length front)); [|rewrite Hat; reflexivity].
        rewrite Hb, length_app. cbn [List.length]. lia.
      * exfalso. apply Hback. rewrite <- Hc.
        assert (Hpos : (List.length front < Z.to_nat i')%nat) by lia.
        rewrite Hb.
        rewrite app_nth2 by lia.
        replace (Z.to_nat i' - List.length front)%nat
          with (S (Z.to_nat i' - List.length front - 1)) by lia.
        cbn [nth]. apply nth_In.
        rewrite Hb, length_app in Hi'. cbn [List.length] in Hi'. lia.
    + exfalso. apply (H (List.length front)); [|rewrite Hat; reflexivity].
      rewrite Hb, length_app. cbn [List.length]. lia.
  - apply pv_memrchr_none in E.
    destruct (pv_memrchr_portable buffer (char_code c)
                (Z.of_nat (List.length buffer))) as [i'|]; [|reflexivity].
    destruct H as (Hi' & Hc & _). apply char_code_inj in Hc.
    exfalso. apply E. rewrite <- Hc. apply nth_In. lia.
Qed.

(** X9: [pv_strdup] returns a buffer one byte longer than the string,
    holding the same string and ended by a NUL; it returns NULL for a
    NULL argument and when the allocation fails. *)
Theorem pv_strdup_copy (original : list ascii) :
  Z.of_nat (List.length original) < 2 ^ 63 ->
  (exists duplicate,
     pv_strdup (Some original) true = Some duplicate
     /\ Z.of_nat (List.length duplicate) = strlen original + 1
     /\ c_string duplicate = c_string original
     /\ nth_error duplicate (Z.to_nat (strlen original)) = Some NUL)
  /\ pv_strdup (Some original) false = None
  /\ (forall calloc_ok, pv_strdup None calloc_ok = None).
Proof.
  intros Hlen. split; [|split; [reflexivity | intros; reflexivity]].
  unfold pv_strdup.
  pose proof (strlen_nat_le original) as Hle.
  assert (Hstr : 0 <= strlen original <= Z.of_nat (List.length original))
    by (unfold strlen; lia).
  rewrite wrap_size_small by lia.
  set (zeros := repeat NUL (Z.to_nat (1 + strlen original))).
  assert (Hzeros : Z.of_nat (List.length zeros) = 1 + strlen original)
    by (unfold zeros; rewrite repeat_length; lia).
  assert (Hchars : Z.of_nat (List.length
                     (firstn (Z.to_nat (strlen original)) original))
                   = strlen original)
    by (rewrite length_firstn; lia).
  eexists. split; [reflexivity|].
  split; [rewrite store_length, write_at_length; lia|]. split.
  - rewrite <- Hchars at 2.
    rewrite c_string_written by lia.
    cbn [Z.to_nat firstn app]. unfold strlen. rewrite Nat2Z.id.
    fold (c_string original). apply c_string_fixed, c_string_no_nul.
  - apply store_nth. rewrite write_at_length. lia.
Qed.

Lemma pv_strdup_copy_witness :
  exists duplicate,
    pv_strdup (Some (cstr "pv")) true = Some duplicate
    /\ Z.of_nat (List.length duplicate) = strlen (cstr "pv") + 1
    /\ c_string duplicate = c_string (cstr "pv")
    /\ nth_error duplicate (Z.to_nat (strlen (cstr "pv"))) = Some NUL.
Proof.
  apply (pv_strdup_copy (cstr "pv")). vm_compute. reflexivity.
Defined.

(** The copy that [vsnprintf] makes for ["%.*s"]: the string of [src]
    cut to the precision and to the room, put behind the first [off]
    bytes. *)
Lemma vsnprintf_str_string buf off size precision src :
  0 <= off -> 0 < size -> off + size <= Z.of_nat (List.length buf) ->
  (precision < 0 \/ size - 1 <= precision) ->
  c_string (snd (vsnprintf_str buf off size precision src))
  = c_string (firstn (Z.to_nat off) buf
              ++ firstn (Z.to_nat (size - 1)) (c_string src)).
Proof.
  intros Hoff Hsize Hfit Hprecision. unfold vsnprintf_str. cbn [snd].
  pose proof (c_string_length src) as Hlen.
  assert (Hstr : 0 <= strlen src) by (unfold strlen; lia).
  set (wanted := if precision <? 0 then strlen src
                 else Z.min precision (strlen src)).
  assert (Hcopied : Z.min wanted (size - 1) = Z.min (strlen src) (size - 1)).
  { unfold wanted. destruct (Z.ltb_spec precision 0); lia. }
  rewrite Hcopied.
  set (chars := firstn (Z.to_nat (Z.min (strlen src) (size - 1)))
                  (c_string src)).
  assert (Hchars : Z.of_nat (List.length chars)
                   = Z.min (strlen src) (size - 1)).
  { unfold chars. rewrite length_firstn. lia. }
  rewrite <- Hchars.
  rewrite c_string_written by lia.
  f_equal. f_equal. unfold chars.
  destruct (Z.le_ge_cases (strlen src) (size - 1)) as [Hshort | Hlong].
  - rewrite Z.min_l by lia.
    rewrite !firstn_all2 by lia. reflexivity.
  - rewrite Z.min_r by lia. reflexivity.
Qed.

Lemma pv_strlcat_string (dst src : list ascii) (dstsize : Z) :
  0 < dstsize <= Z.of_nat (List.length dst) ->
  dstsize <= 2 ^ 31 ->
  exists dst',
    snd (pv_strlcat (Some dst) (Some src) dstsize) = Some dst'
    /\ List.length dst' = List.length dst
    /\ c_string dst'
       = firstn (Z.to_nat (dstsize - 1)) (c_string dst ++ c_string src).
Proof.
  intros Hsize Hint. unfold pv_strlcat.
  destruct (Z.eqb_spec dstsize 0) as [|_]; [lia|].
  set (d := store dst (dstsize - 1) NUL).
  assert (Hdlen : List.length d = List.length dst) by apply store_length.
  assert (Hstr : strlen d = Z.min (strlen dst) (dstsize - 1))
    by (apply strlen_store_nul; lia).
  assert (Hd : c_string d = firstn (Z.to_nat (dstsize - 1)) (c_string dst))
    by (apply c_string_store; lia).
  pose proof (c_string_length dst) as Hcl.
  pose proof (strlen_nat_le dst) as Hle.
  assert (Hd0 : 0 <= strlen dst) by (unfold strlen; lia).
  rewrite (wrap_size_small (dstsize - strlen d)) by lia.
  cbn [snd]. rewrite Hstr.
  destruct (Z.gtb_spec (dstsize - Z.min (strlen dst) (dstsize - 1)) 1)
    as [Havail | Hfull].
  - assert (Hshort : strlen dst < dstsize - 1) by lia.
    rewrite Z.min_l in * by lia.
    unfold pv_snprintf_str.
    destruct (Z.eqb_spec (dstsize - strlen dst) 0); [lia|].
    rewrite wrap32_small by (unfold in32; lia).
    pose proof (vsnprintf_str_string (store d (strlen dst) NUL) (strlen dst)
                  (dstsize - strlen dst) (dstsize - strlen dst - 1) src
                  Hd0 ltac:(lia) ltac:(rewrite store_length; lia)
                  ltac:(right; lia)) as Hv.
    pose proof (vsnprintf_str_length (store d (strlen dst) NUL) (strlen dst)
                  (dstsize - strlen dst) (dstsize - strlen dst - 1) src) as Hl.
    destruct (vsnprintf_str (store d (strlen dst) NUL) (strlen dst)
                (dstsize - strlen dst) (dstsize - strlen dst - 1) src)
      as [ret buf].
    cbn [snd] in *. rewrite store_length in Hl.
    eexists. split; [reflexivity|].
    split; [rewrite store_length, Hl; exact Hdlen|].
    replace (strlen dst + (dstsize - strlen dst) - 1) with (dstsize - 1) by lia.
    rewrite c_string_store by lia.
    rewrite Hv, firstn_store.
    assert (Hprefix : firstn (Z.to_nat (strlen dst)) d = c_string dst).
    { unfold d, store.
      destruct (Z.leb_spec 0 (dstsize - 1)),
        (Z.ltb_spec (dstsize - 1) (Z.of_nat (List.length dst))); try lia.
      cbn [andb]. rewrite firstn_app, firstn_firstn, length_firstn.
      replace (Z.to_nat (strlen dst)
               - Nat.min (Z.to_nat (dstsize - 1)) (List.length dst))%nat
        with 0%nat by lia.
      cbn [firstn]. rewrite app_nil_r. unfold c_string, strlen in *.
      f_equal. lia. }
    rewrite Hprefix.
    rewrite c_string_app by apply c_string_no_nul.
    rewrite c_string_firstn, (c_string_fixed (c_string src))
      by apply c_string_no_nul.
    rewrite !firstn_app, firstn_firstn. f_equal. f_equal. lia.
  - assert (Hfull' : dstsize - 1 <= strlen dst) by lia.
    eexists. split; [reflexivity|]. split; [exact Hdlen|]. rewrite Hd.
    rewrite firstn_app.
    replace (Z.to_nat (dstsize - 1) - List.length (c_string dst))%nat
      with 0%nat by lia.
    cbn [firstn]. symmetry. apply app_nil_r.
Qed.

(** X10: [pv_strlcat] leaves in the destination the old string followed
    by the source string, cut to [dstsize - 1] characters: nothing is
    appended to a destination that is already full, and a string that
    fits is appended whole. *)
Theorem pv_strlcat_appends (dst src : list ascii) (dstsize : Z) :
  0 < dstsize <= Z.of_nat (List.length dst) ->
  dstsize <= 2 ^ 31 ->
  exists dst',
    snd (pv_strlcat (Some dst) (Some src) dstsize) = Some dst'
    /\ c_string dst'
       = firstn (Z.to_nat (dstsize - 1)) (c_string dst ++ c_string src).
Proof.
  intros Hsize Hint.
  destruct (pv_strlcat_string dst src dstsize Hsize Hint)
    as (dst' & Hdst & _ & Hstring).
  exists dst'. split; assumption.
Qed.


Lemma pv_strlcat_appends_witness :
  exists dst',
    snd (pv_strlcat (Some (cstr "ab" ++ repeat NUL 3)) (Some (cstr "cdef")) 5)
    = Some dst'
    /\ c_string dst'
       = firstn (Z.to_nat (5 - 1))
           (c_string (cstr "ab" ++ repeat NUL 3) ++ c_string (cstr "cdef")).
Proof.
  apply (pv_strlcat_appends (cstr "ab" ++ repeat NUL 3) (cstr "cdef") 5);
    cbn; lia.
Defined.

Lemma nth_store_other buf i c (j : nat) :
  Z.of_nat j <> i -> nth j (store buf i c) NUL = nth j buf NUL.
Proof.
  intros Hj. unfold store.
  destruct ((0 <=? i) && (i <? Z.of_nat (List.length buf))) eqn:E;
    [|reflexivity].
  apply andb_true_iff in E. destruct E as [E1 E2].
  apply Z.leb_le in E1. apply Z.ltb_lt in E2.
  change (firstn (Z.to_nat i) buf ++ c :: skipn (S (Z.to_nat i)) buf)
    with (firstn (Z.to_nat i) buf ++ [c] ++ skipn (S (Z.to_nat i)) buf).
  replace (S (Z.to_nat i)) with (Z.to_nat i + List.length [c])%nat
    by (cbn [List.length]; lia).
  fold (patch buf (Z.to_nat i) [c]).
  rewrite nth_patch by (cbn [List.length]; lia).
  cbn [List.length].
  destruct (Nat.leb_spec (Z.to_nat i) j), (Nat.ltb_spec j (Z.to_nat i + 1));
    cbn [andb]; try reflexivity.
  lia.
Qed.

Lemma nth_write_at_other buf off chars (j : nat) :
  Z.of_nat j < off \/ off + Z.of_nat (List.length chars) <= Z.of_nat j ->
  nth j (write_at buf off chars) NUL = nth j buf NUL.
Proof.
  intros Hj. unfold write_at.
  destruct ((0 <=? off)
            && (off + Z.of_nat (List.length chars)
                <=? Z.of_nat (List.length buf))) eqn:E; [|reflexivity].
  apply andb_true_iff in E. destruct E as [E1 E2].
  apply Z.leb_le in E1. apply Z.leb_le in E2.
  fold (patch buf (Z.to_nat off) chars).
  rewrite nth_patch by lia.
  destruct (Nat.leb_spec (Z.to_nat off) j),
    (Nat.ltb_spec j (Z.to_nat off + List.length chars));
    cbn [andb]; try reflexivity.
  lia.
Qed.

(** X11: [pv_snprintf], in the instance [pv_strlcat] calls, only writes
    in the [size] bytes it is given: every byte before the start and
    from [size] bytes after it on is left as it was, the buffer keeps
    its length, and the last byte of the window is a NUL; with a NULL
    buffer or a size of 0 it returns -1 and writes nothing. *)
Theorem pv_snprintf_window (buf src : list ascii) (off size precision : Z) :
  0 <= off -> 0 < size -> off + size <= Z.of_nat (List.length buf) ->
  (exists buf',
     snd (pv_snprintf_str (Some buf) off size precision src) = Some buf'
     /\ List.length buf' = List.length buf
     /\ (forall i : nat,
           Z.of_nat i < off \/ off + size <= Z.of_nat i ->
           nth i buf' NUL = nth i buf NUL)
     /\ nth_error buf' (Z.to_nat (off + size - 1)) = Some NUL)
  /\ pv_snprintf_str None off size precision src = (-1, None)
  /\ pv_snprintf_str (Some buf) off 0 precision src = (-1, Some buf).
Proof.
  intros Hoff Hsize Hfit. split; [|split; reflexivity].
  unfold pv_snprintf_str.
  destruct (Z.eqb_spec size 0); [lia|].
  pose proof (vsnprintf_str_length (store buf off NUL) off size precision src)
    as Hl.
  assert (Hout : forall i : nat,
    Z.of_nat i < off \/ off + size <= Z.of_nat i ->
    nth i (snd (vsnprintf_str (store buf off NUL) off size precision src)) NUL
    = nth i buf NUL).
  { intros i Hi. unfold vsnprintf_str. cbn [snd].
    pose proof (c_string_length src) as Hsrc.
    assert (Hstr : 0 <= strlen src) by (unfold strlen; lia).
    set (wanted := if precision <? 0 then strlen src
                   else Z.min precision (strlen src)).
    assert (Hcopied : Z.min wanted (size - 1) <= size - 1) by lia.
    assert (Hchars : Z.of_nat (List.length
                       (firstn (Z.to_nat (Z.min wanted (size - 1)))
                          (c_string src)))
                     <= size - 1)
      by (rewrite length_firstn; lia).
    assert (Hwanted : wanted < 0 \/ 0 <= Z.min wanted (size - 1)) by lia.
    rewrite nth_store_other, nth_write_at_other, nth_store_other;
      try reflexivity; try lia.
    destruct Hwanted as [Hneg | Hpos]; [|lia].
    unfold wanted in Hneg. destruct (Z.ltb_spec precision 0); lia. }
  destruct (vsnprintf_str (store buf off NUL) off size precision src)
    as [ret buf1].
  cbn [snd] in *. rewrite store_length in Hl.
  eexists. split; [reflexivity|].
  split; [rewrite store_length; exact Hl|]. split.
  - intros i Hi. rewrite nth_store_other by lia. apply Hout. exact Hi.
  - apply store_nth. lia.
Qed.

Lemma pv_snprintf_window_witness :
  exists buf',
    snd (pv_snprintf_str (Some (cstr "abcdefgh")) 2 3 (-1) (cstr "XYZW"))
    = Some buf'
    /\ List.length buf' = List.length (cstr "abcdefgh")
    /\ (forall i : nat,
          Z.of_nat i < 2 \/ 2 + 3 <= Z.of_nat i ->
          nth i buf' NUL = nth i (cstr "abcdefgh") NUL)
    /\ nth_error buf' (Z.to_nat (2 + 3 - 1)) = Some NUL.
Proof.
  apply (pv_snprintf_window (cstr "abcdefgh") (cstr "XYZW") 2 3 (-1));
    cbn; lia.
Defined.

End StringFacts.

Module FormatFacts.
Import CInt CIntFacts ElapsedTime ElapsedTimeFacts Number NumberFacts.
Import PvString PvStringFacts State Display OS Transfer MainLoop TotalSize.
Import BufferFacts DisplayFacts TransferFacts StreamFacts MainLoopFacts.
Import TimeFacts CStringFacts NumberCheckFacts StringFacts.

(** ** display.c: the segments of the format string *)

Definition no_nul (chars : list ascii) : Prop :=
  Forall (fun c => Ascii.eqb c NUL = false) chars.

Lemma strlen_app pre rest :
  no_nul pre -> strlen (pre ++ rest) = Z.of_nat (List.length pre) + strlen rest.
Proof.
  intros H. unfold strlen.
  induction H as [|c pre Hc _ IH]; cbn [app strlen_nat List.length]; [lia|].
  rewrite Hc. lia.
Qed.

(** What a scan that stops somewhere in the string has passed over. *)
Definition passed (s : list ascii) (k : nat) : Prop :=
  exists pre, s = pre ++ skipn k s /\ List.length pre = k /\ no_nul pre.

Lemma passed_zero s : passed s 0.
Proof. exists []. repeat split. constructor. Qed.

Lemma passed_cons c s k :
  Ascii.eqb c NUL = false -> passed s k -> passed (c :: s) (S k).
Proof.
  intros Hc (pre & Hs & Hl & Hn). exists (c :: pre). cbn [skipn app List.length].
  split; [f_equal; exact Hs|]. split; [lia|]. constructor; assumption.
Qed.

Lemma passed_strlen s k :
  passed s k -> strlen s = Z.of_nat k + strlen (skipn k s).
Proof.
  intros (pre & Hs & Hl & Hn). rewrite Hs at 1.
  rewrite (strlen_app pre _ Hn), Hl. reflexivity.
Qed.

Lemma passed_add s k j :
  passed s k -> passed (skipn k s) j -> passed s (k + j).
Proof.
  intros (pre & Hs & Hl & Hn) (pre' & Hs' & Hl' & Hn').
  exists (pre ++ pre'). rewrite <- skipn_skipn, Nat.add_comm in *.
  rewrite skipn_skipn. rewrite <- app_assoc.
  replace (skipn (k + j) s) with (skipn j (skipn k s))
    by (rewrite skipn_skipn; f_equal; lia).
  split; [rewrite <- Hs'; exact Hs|].
  split; [rewrite length_app; lia | apply Forall_app; split; assumption].
Qed.

Lemma space_not_nul c : is_space c = true -> Ascii.eqb c NUL = false.
Proof.
  intros H. destruct (Ascii.eqb_spec c NUL) as [->|]; [|reflexivity].
  vm_compute in H. discriminate.
Qed.

Lemma skip_spaces_passed s :
  passed s (fst (skip_spaces s)) /\ snd (skip_spaces s) = skipn (fst (skip_spaces s)) s.
Proof.
  induction s as [|c s [IH1 IH2]]; cbn [skip_spaces].
  - split; [apply passed_zero | reflexivity].
  - destruct (is_space c) eqn:E.
    + destruct (skip_spaces s) as [k r]. cbn [fst snd] in *.
      split; [apply passed_cons; [apply space_not_nul; exact E | exact IH1]|].
      exact IH2.
    + cbn [fst snd]. split; [apply passed_zero | reflexivity].
Qed.

Lemma strtoul_digits_passed s : forall acc,
  passed s (snd (strtoul_digits acc s)).
Proof.
  induction s as [|c s IH]; intros acc; cbn [strtoul_digits].
  - apply passed_zero.
  - destruct (pv__isdigit c) eqn:E; [|apply passed_zero].
    specialize (IH (Z.min (acc * 10 + digit_value c) (2 ^ 64 - 1))).
    destruct (strtoul_digits _ s) as [v k]. cbn [snd] in *.
    apply passed_cons; [apply digit_not_nul; exact E | exact IH].
Qed.

(** [strtoul] only moves over characters of the string. *)
Lemma strtoul_passed s : passed s (snd (strtoul s)).
Proof.
  unfold strtoul.
  destruct (skip_spaces_passed s) as [Hblanks Hs1].
  destruct (skip_spaces s) as [blanks s1]. cbn [fst snd] in *.
  set (signed := match s1 with
                 | c :: rest =>
                     if Ascii.eqb c "-" then (1%nat, true, rest)
                     else if Ascii.eqb c "+" then (1%nat, false, rest)
                     else (O, false, s1)
                 | [] => (O, false, s1)
                 end).
  assert (Hsign : passed s1 (fst (fst signed))
                  /\ snd signed = skipn (fst (fst signed)) s1).
  { unfold signed. destruct s1 as [|c rest];
      [split; [apply passed_zero | reflexivity]|].
    destruct (Ascii.eqb_spec c "-") as [-> | _].
    - cbn [fst snd skipn]. split; [|reflexivity].
      apply passed_cons; [reflexivity | apply passed_zero].
    - destruct (Ascii.eqb_spec c "+") as [-> | _].
      + cbn [fst snd skipn]. split; [|reflexivity].
        apply passed_cons; [reflexivity | apply passed_zero].
      + cbn [fst snd]. split; [apply passed_zero | reflexivity]. }
  destruct signed as [[sign negative] s2]. cbn [fst snd] in Hsign.
  destruct Hsign as [Hsign Hs2].
  pose proof (strtoul_digits_passed s2 0) as Hdigits.
  destruct (strtoul_digits 0 s2) as [v k]. cbn [snd] in Hdigits.
  destruct k as [|k]; cbn [snd]; [apply passed_zero|].
  rewrite <- Nat.add_assoc. apply passed_add; [exact Hblanks|].
  rewrite <- Hs1. apply passed_add; [exact Hsign|].
  rewrite <- Hs2. exact Hdigits.
Qed.

Lemma literal_length_passed s :
  0 <= literal_length s /\ passed s (Z.to_nat (literal_length s)).
Proof.
  induction s as [|c s [IH1 IH2]]; cbn [literal_length].
  - split; [lia | apply passed_zero].
  - destruct (Ascii.eqb c NUL) eqn:E; cbn [orb].
    + split; [lia | apply passed_zero].
    + destruct (Ascii.eqb c "%"); [split; [lia | apply passed_zero]|].
      split; [lia|].
      replace (Z.to_nat (1 + literal_length s))
        with (S (Z.to_nat (literal_length s))) by lia.
      apply passed_cons; assumption.
Qed.

(** A segment of the array names a piece of the format string between
    [lo] and [hi], or a component. *)
Definition segment_within (lo hi : Z) (seg : format_segment) : Prop :=
  match seg_type seg with
  | PV_COMPONENT_STRING =>
      lo <= str_start seg /\ 0 < str_length seg
      /\ str_start seg + str_length seg <= hi
  | _ => str_start seg = 0 /\ str_length seg = 0
  end.

Lemma segment_within_wider lo hi lo' hi' seg :
  lo' <= lo -> hi <= hi' ->
  segment_within lo hi seg -> segment_within lo' hi' seg.
Proof.
  unfold segment_within. intros Hlo Hhi.
  destruct (seg_type seg); intros H; try exact H; lia.
Qed.

(** Whether some segment of the list is of type [c]. *)
Definition names (c : pv_display_component) (segs : list format_segment)
  : bool :=
  existsb (fun s => component_eqb (seg_type s) c) segs.

Definition is_string (c : pv_display_component) : bool :=
  component_eqb c PV_COMPONENT_STRING.

Lemma format_directive_spec c number_prefix strpos :
  Ascii.eqb c NUL = false ->
  let '(t, a, l, lastoutput) := format_directive c number_prefix strpos in
  (t = PV_COMPONENT_STRING /\ lastoutput = None
   /\ ((a = strpos /\ l = 1) \/ (a = strpos - 1 /\ l = 2)))
  \/ (t <> PV_COMPONENT_STRING /\ a = 0 /\ l = 0
      /\ (t = PV_COMPONENT_OUTPUTBUF ->
          exists m, lastoutput = Some m /\ 1 <= m <= 256)
      /\ (t <> PV_COMPONENT_OUTPUTBUF -> lastoutput = None)).
Proof.
  intros Hc. unfold format_directive. rewrite Hc.
  repeat match goal with
  | |- context [if Ascii.eqb c ?x then _ else _] => destruct (Ascii.eqb c x)
  end;
  try (left; repeat split; auto; fail);
  try (right; split; [discriminate|]; split; [reflexivity|];
       split; [reflexivity|]; split; [discriminate | reflexivity]).
  right. split; [discriminate|]. split; [reflexivity|]. split; [reflexivity|].
  split; [|intros H; contradiction].
  intros _. eexists. split; [reflexivity|].
  unfold PV_SIZEOF_LASTOUTPUT_BUFFER.
  destruct (Z.gtb_spec number_prefix 256).
  - cbn. lia.
  - destruct (Z.ltb_spec number_prefix 1); lia.
Qed.

Lemma add_segment_spec t a l d :
  format (add_segment t a l d) = format d ++ [mkSegment t a l]
  /\ format_segment_count (add_segment t a l d) = format_segment_count d + 1
  /\ lastoutput_length (add_segment t a l d) = lastoutput_length d
  /\ (forall c,
        required (component (add_segment t a l d) c)
        = required (component d c) || (negb (is_string t) && component_eqb t c))
  /\ (forall c,
        content (component (add_segment t a l d) c) = content (component d c)
        /\ content_length (component (add_segment t a l d) c)
           = content_length (component d c)).
Proof.
  unfold add_segment.
  split; [destruct t; reflexivity|]. split; [destruct t; reflexivity|].
  split; [destruct t; reflexivity|]. split.
  - intros c. destruct t;
      cbn [component set_component set_format set_format_segment_count
           is_string negb andb];
      try (change (is_string _) with false; cbn [negb andb]);
      unfold set_component_at;
      try (destruct (component_eqb _ c); cbn [required];
           rewrite ?orb_true_r, ?orb_false_r; reflexivity).
  - intros c. destruct t;
      cbn [component set_component set_format set_format_segment_count];
      unfold set_component_at;
      try (destruct (component_eqb _ c) eqn:E;
           [apply component_eqb_eq in E; subst c|];
           cbn [content content_length]; split; reflexivity).
    split; reflexivity.
Qed.

(** What the segment loop has done to the display state when it has
    added the segments [segs]. *)
Definition parsed (fuel : nat) (lo hi : Z) (d d' : display_t)
    (segs : list format_segment) : Prop :=
  format d' = format d ++ segs
  /\ format_segment_count d'
     = format_segment_count d + Z.of_nat (List.length segs)
  /\ (List.length segs <= fuel)%nat
  /\ Forall (segment_within lo hi) segs
  /\ (forall c,
        required (component d' c)
        = required (component d c) || (negb (is_string c) && names c segs))
  /\ (forall c,
        content (component d' c) = content (component d c)
        /\ content_length (component d' c) = content_length (component d c))
  /\ (if names PV_COMPONENT_OUTPUTBUF segs
      then 1 <= lastoutput_length d' <= 256
      else lastoutput_length d' = lastoutput_length d).

Lemma parsed_nil fuel lo hi d : parsed fuel lo hi d d [].
Proof.
  unfold parsed. cbn [List.length names existsb Z.of_nat].
  rewrite app_nil_r, Z.add_0_r.
  repeat split; try lia; try constructor.
  intros c. rewrite andb_false_r, orb_false_r. reflexivity.
Qed.

Lemma parsed_step fuel lo hi lo' hi' d d0 d' t a l segs :
  format d0 = format d ->
  format_segment_count d0 = format_segment_count d ->
  component d0 = component d ->
  (t = PV_COMPONENT_OUTPUTBUF -> 1 <= lastoutput_length d0 <= 256) ->
  (t <> PV_COMPONENT_OUTPUTBUF -> lastoutput_length d0 = lastoutput_length d) ->
  segment_within lo hi (mkSegment t a l) ->
  lo <= lo' -> hi' <= hi ->
  parsed fuel lo' hi' (add_segment t a l d0) d' segs ->
  parsed (S fuel) lo hi d d' (mkSegment t a l :: segs).
Proof.
  intros Hf Hc Hcomp Hout Hother Hseg Hlo Hhi
    (Pf & Pc & Pl & Pw & Pr & Pk & Po).
  destruct (add_segment_spec t a l d0) as (Af & Ac & Al & Ar & Ak).
  unfold parsed. cbn [List.length names existsb seg_type].
  split; [rewrite Pf, Af, Hf, <- app_assoc; reflexivity|].
  split; [rewrite Pc, Ac, Hc; lia|]. split; [lia|]. split.
  - constructor; [exact Hseg|].
    eapply Forall_impl; [|exact Pw]. intros seg.
    apply segment_within_wider; assumption.
  - split; [|split].
    + intros c. rewrite Pr, Ar, Hcomp. fold (names c segs).
      destruct (component_eqb t c) eqn:E.
      * apply component_eqb_eq in E. subst c.
        destruct (is_string t); cbn [negb andb orb];
          rewrite ?orb_false_r, ?orb_true_r; reflexivity.
      * cbn [orb]. rewrite andb_false_r, orb_false_r. reflexivity.
    + intros c. destruct (Pk c) as [-> ->]. destruct (Ak c) as [-> ->].
      rewrite Hcomp. split; reflexivity.
    + fold (names PV_COMPONENT_OUTPUTBUF segs).
      destruct (names PV_COMPONENT_OUTPUTBUF segs).
      * rewrite orb_true_r. exact Po.
      * rewrite orb_false_r. rewrite Po, Al.
        destruct (component_eqb t PV_COMPONENT_OUTPUTBUF) eqn:E.
        -- apply component_eqb_eq in E. exact (Hout E).
        -- apply Hother. intros ->. rewrite component_eqb_refl in E.
           discriminate.
Qed.

Lemma format_segments_spec fuel : forall strpos rest d,
  0 <= strpos ->
  exists segs,
    parsed fuel strpos (strpos + strlen rest) d
      (format_segments fuel strpos rest d) segs.
Proof.
  induction fuel as [|fuel IH]; intros strpos rest d Hpos;
    cbn [format_segments]; [exists []; apply parsed_nil|].
  destruct rest as [|c after]; [exists []; apply parsed_nil|].
  destruct (Ascii.eqb c NUL) eqn:Ec; [exists []; apply parsed_nil|].
  assert (Hrest : strlen (c :: after) = 1 + strlen after).
  { unfold strlen. cbn [strlen_nat]. rewrite Ec. lia. }
  destruct (Ascii.eqb c "%") eqn:Epercent.
  - pose proof (strtoul_passed after) as Hpassed.
    destruct (strtoul after) as [number_prefix consumed]. cbn [snd] in Hpassed.
    pose proof (passed_strlen _ _ Hpassed) as Hlen.
    destruct (at_end (skipn consumed after)) eqn:Eend;
      [exists []; apply parsed_nil|].
    destruct (skipn consumed after) as [|c' after'] eqn:Eafter;
      [discriminate|].
    cbn [at_end] in Eend. cbn [head_char tl].
    assert (Hafter : strlen (c' :: after') = 1 + strlen after').
    { unfold strlen. cbn [strlen_nat]. rewrite Eend. lia. }
    assert (Hstr : 0 <= strlen after') by (unfold strlen; lia).
    pose proof (format_directive_spec c' number_prefix
                  (strpos + 1 + Z.of_nat consumed) Eend) as Hdir.
    destruct (format_directive c' number_prefix
                (strpos + 1 + Z.of_nat consumed))
      as [[[t a] l] lastoutput].
    set (d0 := match lastoutput with
               | Some n => set_lastoutput_length n d
               | None => d
               end).
    destruct (IH (strpos + 1 + Z.of_nat consumed + 1) after'
                (add_segment t a l d0) ltac:(lia)) as [segs Hsegs].
    exists (mkSegment t a l :: segs).
    refine (parsed_step fuel strpos _ _ _ d d0 _ t a l segs
              _ _ _ _ _ _ _ _ Hsegs);
      try lia; try (unfold d0; destruct lastoutput; reflexivity).
    + intros ->. destruct Hdir as [(Ht & _) | (_ & _ & _ & Hout & _)];
        [discriminate|].
      destruct (Hout eq_refl) as (m & -> & Hm). unfold d0.
      cbn [lastoutput_length set_lastoutput_length]. exact Hm.
    + intros Hne. destruct Hdir as [(_ & -> & _) | (_ & _ & _ & _ & Hnone)];
        [reflexivity|].
      unfold d0. rewrite (Hnone Hne). reflexivity.
    + unfold segment_within. cbn [seg_type str_start str_length].
      destruct Hdir as [(-> & _ & Hplace) | (Ht & -> & -> & _)].
      * lia.
      * destruct t; try contradiction; split; reflexivity.
  - pose proof (literal_length_passed (c :: after)) as [Hfound Hpassed].
    pose proof (passed_strlen _ _ Hpassed) as Hlen.
    assert (Hone : 1 <= literal_length (c :: after)).
    { cbn [literal_length]. rewrite Ec, Epercent. cbn [orb].
      pose proof (literal_length_passed after). lia. }
    assert (Hstr : 0 <= strlen (skipn (Z.to_nat (literal_length (c :: after)))
                              (c :: after)))
      by (unfold strlen; lia).
    destruct (IH (strpos + literal_length (c :: after))
                (skipn (Z.to_nat (literal_length (c :: after))) (c :: after))
                (add_segment PV_COMPONENT_STRING strpos
                   (literal_length (c :: after)) d) ltac:(lia))
      as [segs Hsegs].
    exists (mkSegment PV_COMPONENT_STRING strpos (literal_length (c :: after))
              :: segs).
    refine (parsed_step fuel strpos _ _ _ d d _ PV_COMPONENT_STRING strpos
              (literal_length (c :: after)) segs _ _ _ _ _ _ _ _ Hsegs);
      try reflexivity; try lia; try discriminate.
    unfold segment_within. cbn [seg_type str_start str_length]. lia.
Qed.

(** The state at the head of the segment loop of [pv__format_init], and
    what the loop makes of it. *)
Lemma pv__format_init_parsed st :
  exists segs,
    format (display (pv__format_init st)) = segs
    /\ format_segment_count (display (pv__format_init st))
       = Z.of_nat (List.length segs)
    /\ (List.length segs <= PV_FORMAT_ARRAY_MAX)%nat
    /\ Forall (segment_within 0 (strlen (formatstr (control st)))) segs
    /\ (forall c,
          required (component (display (pv__format_init st)) c)
          = negb (is_string c) && names c segs)
    /\ (if names PV_COMPONENT_OUTPUTBUF segs
        then 1 <= lastoutput_length (display (pv__format_init st)) <= 256
        else lastoutput_length (display (pv__format_init st))
             = lastoutput_length (display st)).
Proof.
  unfold pv__format_init.
  set (d1 := match name (control st) with
             | Some n => _
             | None => _
             end).
  assert (H1 : format d1 = [] /\ format_segment_count d1 = 0
               /\ (forall c, required (component d1 c) = false)
               /\ lastoutput_length d1 = lastoutput_length (display st)).
  { unfold d1. destruct (name (control st)).
    - cbn [format format_segment_count component lastoutput_length
           set_component set_format set_format_segment_count].
      repeat split. intros c. unfold set_component_at.
      destruct (component_eqb PV_COMPONENT_NAME c); reflexivity.
    - repeat split. }
  destruct H1 as (Hf & Hc & Hr & Hl).
  destruct (format_segments_spec PV_FORMAT_ARRAY_MAX 0
              (formatstr (control st)) d1 ltac:(lia))
    as (segs & Pf & Pc & Pl & Pw & Pr & _ & Po).
  exists segs. cbn [display set_display].
  rewrite Pf, Pc, Hf, Hc. cbn [app].
  split; [reflexivity|]. split; [lia|]. split; [exact Pl|].
  split; [exact Pw|]. split.
  - intros c. rewrite Pr, Hr. reflexivity.
  - rewrite <- Hl. exact Po.
Qed.

(** X12: [pv__format_init] never fills more than the
    [PV_FORMAT_ARRAY_MAX] entries of the segment array, the segment
    count is the number of entries filled, and every constant-string
    segment names a non-empty piece of the format string that lies
    within it. *)
Theorem format_init_segments_in_bounds st :
  let d := display (pv__format_init st) in
  format_segment_count d = Z.of_nat (List.length (format d))
  /\ (List.length (format d) <= PV_FORMAT_ARRAY_MAX)%nat
  /\ forall seg, In seg (format d) ->
       match seg_type seg with
       | PV_COMPONENT_STRING =>
           0 <= str_start seg /\ 0 < str_length seg
           /\ str_start seg + str_length seg <= strlen (formatstr (control st))
       | _ => str_start seg = 0 /\ str_length seg = 0
       end.
Proof.
  cbv zeta.
  destruct (pv__format_init_parsed st) as (segs & -> & -> & Hl & Hw & _).
  split; [reflexivity|]. split; [exact Hl|].
  intros seg Hin. rewrite Forall_forall in Hw. exact (Hw seg Hin).
Qed.

(** X13: after [pv__format_init] a component is marked as required
    exactly when a segment of the format refers to it, so that
    [pv__format] computes the components the format shows and no
    other. *)
Theorem format_init_required st c :
  required (component (display (pv__format_init st)) c) = true
  <-> c <> PV_COMPONENT_STRING
      /\ exists seg,
           In seg (format (display (pv__format_init st)))
           /\ seg_type seg = c.
Proof.
  destruct (pv__format_init_parsed st) as (segs & -> & _ & _ & _ & Hr & _).
  rewrite Hr, andb_true_iff, negb_true_iff. unfold names, is_string.
  rewrite existsb_exists. split.
  - intros [Hs (seg & Hin & Heq)]. split.
    + intros ->. discriminate Hs.
    + exists seg. split; [exact Hin|]. apply component_eqb_eq. exact Heq.
  - intros [Hs (seg & Hin & Heq)]. split.
    + apply component_eqb_neq. exact Hs.
    + exists seg. split; [exact Hin|]. apply component_eqb_eq. exact Heq.
Qed.

(** X14: when the format holds a [%A] directive, [pv__format_init]
    leaves a number of bytes to show between 1 and the size of the
    last-output buffer, whatever number, sign or blanks the directive
    carries; without [%A] the number is left as it was. *)
Theorem format_init_lastoutput_length st :
  let d := display (pv__format_init st) in
  ((exists seg, In seg (format d) /\ seg_type seg = PV_COMPONENT_OUTPUTBUF) ->
   1 <= lastoutput_length d <= PV_SIZEOF_LASTOUTPUT_BUFFER)
  /\ ((forall seg, In seg (format d) ->
         seg_type seg <> PV_COMPONENT_OUTPUTBUF) ->
      lastoutput_length d = lastoutput_length (display st)).
Proof.
  cbv zeta.
  destruct (pv__format_init_parsed st) as (segs & -> & _ & _ & _ & _ & Ho).
  unfold names in Ho. split.
  - intros (seg & Hin & Heq).
    assert (E : existsb
                  (fun s => component_eqb (seg_type s) PV_COMPONENT_OUTPUTBUF)
                  segs = true).
    { apply existsb_exists. exists seg. split; [exact Hin|].
      apply component_eqb_eq. exact Heq. }
    rewrite E in Ho. exact Ho.
  - intros Hnone.
    destruct (existsb
                (fun s => component_eqb (seg_type s) PV_COMPONENT_OUTPUTBUF)
                segs) eqn:E; [|exact Ho].
    apply existsb_exists in E. destruct E as (seg & Hin & Heq).
    apply component_eqb_eq in Heq. destruct (Hnone seg Hin Heq).
Qed.

Definition plain_text (text : list ascii) : Prop :=
  Forall (fun c => Ascii.eqb c NUL = false /\ Ascii.eqb c "%" = false) text.

Lemma literal_length_plain text rest :
  plain_text text ->
  Ascii.eqb (head_char rest) NUL || Ascii.eqb (head_char rest) "%" = true ->
  literal_length (text ++ rest) = Z.of_nat (List.length text).
Proof.
  intros Ht Hrest. induction Ht as [|c text [Hc1 Hc2] _ IH].
  - destruct rest as [|r rest]; [reflexivity|].
    cbn [app literal_length head_char] in *. rewrite Hrest. reflexivity.
  - cbn [app literal_length List.length]. rewrite Hc1, Hc2. cbn [orb].
    rewrite IH. lia.
Qed.

Lemma strtoul_digits_all digits : forall acc,
  Forall is_digit digits ->
  snd (strtoul_digits acc digits) = List.length digits.
Proof.
  induction digits as [|c digits IH]; intros acc Hd; [reflexivity|].
  inversion Hd as [|? ? Hc Hrest]; subst.
  cbn [strtoul_digits]. rewrite Hc.
  specialize (IH (Z.min (acc * 10 + digit_value c) (2 ^ 64 - 1)) Hrest).
  destruct (strtoul_digits _ digits) as [v k]. cbn [snd List.length] in *.
  congruence.
Qed.

Lemma digit_not_space c : is_digit c -> is_space c = false.
Proof.
  unfold is_digit, pv__isdigit, is_space.
  change (char_code "0") with 48. change (char_code "9") with 57.
  destruct (Z.leb_spec 48 (char_code c)), (Z.leb_spec (char_code c) 57);
    cbn [andb]; intros Hd; try discriminate.
  destruct (Z.eqb_spec (char_code c) 32); [lia|].
  destruct (Z.leb_spec 9 (char_code c)), (Z.leb_spec (char_code c) 13);
    cbn [andb orb]; try reflexivity; lia.
Qed.

Lemma strtoul_all_digits digits :
  Forall is_digit digits -> snd (strtoul digits) = List.length digits.
Proof.
  intros Hd. destruct Hd as [|c digits Hc Hrest]; [reflexivity|].
  unfold strtoul. cbn [skip_spaces]. rewrite (digit_not_space c Hc).
  destruct (Ascii.eqb_spec c "-") as [-> | _]; [vm_compute in Hc; discriminate|].
  destruct (Ascii.eqb_spec c "+") as [-> | _]; [vm_compute in Hc; discriminate|].
  pose proof (strtoul_digits_all (c :: digits) 0
                (Forall_cons c Hc Hrest)) as Hk.
  destruct (strtoul_digits 0 (c :: digits)) as [v k]. cbn [snd] in Hk.
  subst k. cbn [List.length snd]. reflexivity.
Qed.

(** X15: a format string made of plain text and a final [%], with or
    without digits behind it, gives the segment of the text and nothing
    for the [%]: the directive at the end of the string is dropped, not
    shown as a literal [%]. *)
Theorem format_init_trailing_percent st text digits :
  formatstr (control st) = text ++ "%"%char :: digits ->
  plain_text text -> Forall is_digit digits ->
  format (display (pv__format_init st))
  = match text with
    | [] => []
    | _ => [mkSegment PV_COMPONENT_STRING 0 (Z.of_nat (List.length text))]
    end.
Proof.
  intros Hfmt Htext Hdigits. unfold pv__format_init. rewrite Hfmt.
  set (d1 := match name (control st) with
             | Some n => _
             | None => _
             end).
  assert (H1 : format d1 = []) by (unfold d1; destruct (name (control st)); reflexivity).
  assert (Hlast : forall fuel strpos d,
    format_segments fuel strpos ("%"%char :: digits) d = d).
  { intros [|fuel] strpos d; [reflexivity|]. cbn [format_segments].
    change (Ascii.eqb "%" NUL) with false. change (Ascii.eqb "%" "%") with true.
    cbv iota.
    pose proof (strtoul_all_digits digits Hdigits) as Hk.
    destruct (strtoul digits) as [v k]. cbn [snd] in Hk. subst k.
    rewrite skipn_all. reflexivity. }
  cbn [display set_display].
  destruct Htext as [|c text [Hc1 Hc2] Hrest].
  - cbn [app]. rewrite Hlast. exact H1.
  - unfold PV_FORMAT_ARRAY_MAX.
    change (format_segments 100 0 ((c :: text) ++ "%"%char :: digits) d1)
      with (format_segments (S 99) 0 (c :: text ++ "%"%char :: digits) d1).
    generalize 99%nat. intros fuel.
    cbn [format_segments]. rewrite Hc1, Hc2.
    change (c :: text ++ "%"%char :: digits)
      with ((c :: text) ++ "%"%char :: digits).
    rewrite (literal_length_plain (c :: text) ("%"%char :: digits))
      by first [reflexivity | constructor; [split|]; assumption].
    rewrite Nat2Z.id, skipn_app, skipn_all, Nat.sub_diag. cbn [app skipn].
    rewrite Hlast.
    destruct (add_segment_spec PV_COMPONENT_STRING 0
                (Z.of_nat (List.length (c :: text))) d1) as (-> & _).
    rewrite H1. reflexivity.
Qed.

Lemma format_init_trailing_percent_witness :
  format (display (pv__format_init (sample_state "done 100%" 0 80)))
  = [mkSegment PV_COMPONENT_STRING 0 8].
Proof.
  apply (format_init_trailing_percent (sample_state "done 100%" 0 80)
           (cstr "done 100") []).
  - reflexivity.
  - repeat constructor.
  - constructor.
Defined.

End FormatFacts.

Module RecoveryFacts.
Import CInt CIntFacts ElapsedTime ElapsedTimeFacts Number NumberFacts.
Import PvString PvStringFacts State Display OS Transfer MainLoop TotalSize.
Import BufferFacts DisplayFacts TransferFacts StreamFacts MainLoopFacts.
Import TimeFacts CStringFacts NumberCheckFacts StringFacts FormatFacts.

(** ** transfer.c: skipping read errors *)

Lemma round_skip_multiple (orig_offset amount_to_skip : Z) :
  0 <= orig_offset -> orig_offset + amount_to_skip <= max64 ->
  (1 < amount_to_skip ->
   1 <= round_skip orig_offset amount_to_skip <= amount_to_skip
   /\ Z.rem (orig_offset + round_skip orig_offset amount_to_skip)
        amount_to_skip = 0)
  /\ (amount_to_skip <= 1 ->
      round_skip orig_offset amount_to_skip = amount_to_skip).
Proof.
  intros Horig Hfit. unfold round_skip, max64 in *. split.
  - intros Hamount.
    destruct (Z.gtb_spec amount_to_skip 1); [|lia].
    rewrite (wrap64_small (orig_offset + amount_to_skip))
      by (unfold in64, min64, max64; lia).
    assert (Hrem : 0 <= Z.rem (orig_offset + amount_to_skip) amount_to_skip
                   < amount_to_skip)
      by (apply Z.rem_bound_pos; lia).
    rewrite (wrap64_small (orig_offset + amount_to_skip - _))
      by (unfold in64, min64, max64; lia).
    destruct (Z.gtb_spec (orig_offset + amount_to_skip
                          - Z.rem (orig_offset + amount_to_skip) amount_to_skip)
                orig_offset); [|lia].
    rewrite wrap64_small by (unfold in64, min64, max64; lia).
    split; [lia|].
    replace (orig_offset
             + (orig_offset + amount_to_skip
                - Z.rem (orig_offset + amount_to_skip) amount_to_skip
                - orig_offset))
      with (orig_offset + amount_to_skip
            - Z.rem (orig_offset + amount_to_skip) amount_to_skip) by lia.
    pose proof (Z.quot_rem' (orig_offset + amount_to_skip) amount_to_skip) as Hqr.
    replace (orig_offset + amount_to_skip
             - Z.rem (orig_offset + amount_to_skip) amount_to_skip)
      with (Z.quot (orig_offset + amount_to_skip) amount_to_skip
            * amount_to_skip) by lia.
    apply Z.rem_mul. lia.
  - intros Hsmall. destruct (Z.gtb_spec amount_to_skip 1); [lia|reflexivity].
Qed.

(** X16: the rounding of the skip distance never lengthens the skip and
    never makes it empty, and it ends the skip on a multiple of the
    distance, so that after the first skip later skips start on block
    boundaries; a distance of 1 or less is left alone. *)
Theorem round_skip_aligned (orig_offset amount_to_skip : Z) :
  0 <= orig_offset -> orig_offset + amount_to_skip <= max64 ->
  (1 < amount_to_skip ->
   1 <= round_skip orig_offset amount_to_skip <= amount_to_skip
   /\ Z.rem (orig_offset + round_skip orig_offset amount_to_skip)
        amount_to_skip = 0)
  /\ (amount_to_skip <= 1 ->
      round_skip orig_offset amount_to_skip = amount_to_skip).
Proof. exact (round_skip_multiple orig_offset amount_to_skip). Qed.


Lemma round_skip_aligned_witness :
  1 <= round_skip 257 512 <= 512 /\ Z.rem (257 + round_skip 257 512) 512 = 0.
Proof.
  apply (round_skip_aligned 257 512); unfold max64; lia.
Defined.

Lemma skip_distance_range c n :
  0 <= error_skip_block c ->
  1 <= skip_distance c n <= Z.max (error_skip_block c) 512.
Proof.
  intros Hblock. unfold skip_distance.
  destruct (Z.gtb_spec (error_skip_block c) 0); [lia|].
  destruct (Z.ltb_spec n 10).
  - destruct (n <? 5); lia.
  - destruct (Z.ltb_spec n 20); [|lia].
    rewrite wrap_uint_small by lia.
    assert (Hn : n = 10 \/ n = 11 \/ n = 12 \/ n = 13 \/ n = 14 \/ n = 15
                 \/ n = 16 \/ n = 17 \/ n = 18 \/ n = 19) by lia.
    assert (Hshift : 1 <= wrap32 (Z.shiftl 1 (n - 10)) <= 512).
    { repeat (destruct Hn as [-> | Hn]; [vm_compute; split; discriminate|]).
      subst n. vm_compute. split; discriminate. }
    lia.
Qed.

Lemma round_skip_range orig amount :
  0 <= orig -> 1 <= amount -> orig + amount <= max64 ->
  1 <= round_skip orig amount <= amount.
Proof.
  intros Ho Ha Hfit.
  destruct (round_skip_multiple orig amount Ho Hfit) as [Hbig Hsmall].
  destruct (Z.le_gt_cases amount 1) as [H1 | H1].
  - rewrite (Hsmall H1). lia.
  - apply Hbig. lia.
Qed.

(** The warning that precedes the recovery only touches the error flag
    and the exit status. *)
Definition warned (m : machine) : machine :=
  if read_error_warning_shown (transfer (state m)) then m
  else
    on_transfer (set_read_error_warning_shown true)
      (on_state (pv_error "warning: read errors detected") m).

Lemma warned_keeps m :
  world (warned m) = world m
  /\ eof_in (warned m) = eof_in m
  /\ eof_out (warned m) = eof_out m
  /\ control (state (warned m)) = control (state m)
  /\ transfer_buffer (transfer (state (warned m)))
     = transfer_buffer (transfer (state m))
  /\ read_position (transfer (state (warned m)))
     = read_position (transfer (state m))
  /\ write_position (transfer (state (warned m)))
     = write_position (transfer (state m))
  /\ read_errors_in_a_row (transfer (state (warned m)))
     = read_errors_in_a_row (transfer (state m)).
Proof.
  unfold warned.
  destruct (read_error_warning_shown (transfer (state m)));
    simp_m; repeat split; reflexivity.
Qed.

Lemma pending_zero_fill t b k :
  transfer_buffer t = Some b ->
  0 <= write_position t <= read_position t -> 0 <= k ->
  read_position t + k <= Z.of_nat (List.length b) ->
  slice (write_at b (read_position t) (repeat NUL (Z.to_nat k)))
    (write_position t) (read_position t + k - write_position t)
  = pending t ++ repeat NUL (Z.to_nat k).
Proof.
  intros Hb Hpos Hk Hfit. unfold pending, buffer_of. rewrite Hb.
  replace (read_position t + k - write_position t)
    with (read_position t - write_position t
          + Z.of_nat (List.length (repeat NUL (Z.to_nat k))))
    by (rewrite repeat_length; lia).
  apply slice_write_append; rewrite ?repeat_length; lia.
Qed.

Lemma skip_read_error_fills os err bytes_can_read m b :
  transfer_buffer (transfer (state m)) = Some b ->
  0 <= write_position (transfer (state m))
    <= read_position (transfer (state m)) ->
  1 <= bytes_can_read ->
  read_position (transfer (state m)) + bytes_can_read
    <= Z.of_nat (List.length b) ->
  Z.of_nat (List.length b) < 2 ^ 62 ->
  0 <= offset (world m) < 2 ^ 62 ->
  0 <= error_skip_block (control (state m)) < 2 ^ 62 ->
  let m' := skip_read_error os err bytes_can_read m in
  let t := transfer (state m) in
  let t' := transfer (state m') in
  let skipped := offset (world m') - offset (world m) in
  0 <= skipped <= bytes_can_read
  /\ read_position t' = read_position t + skipped
  /\ write_position t' = write_position t
  /\ pending t' = pending t ++ repeat NUL (Z.to_nat skipped)
  /\ List.length (buffer_of t') = List.length b
  /\ stdout (world m') = stdout (world m)
  /\ inflow (world m') = inflow (world m)
  /\ input (world m') = input (world m)
  /\ (if skipped =? 0 then eof_in m' = true else eof_in m' = eof_in m).
Proof.
  intros Hb Hpos Hroom Hfit Hlen Hoff Hblock.
  assert (Hstay : forall m1 : machine,
    world m1 = world m ->
    transfer_buffer (transfer (state m1)) = Some b ->
    read_position (transfer (state m1)) = read_position (transfer (state m)) ->
    write_position (transfer (state m1)) = write_position (transfer (state m)) ->
    eof_in m1 = true ->
    let t := transfer (state m) in
    let t' := transfer (state m1) in
    let skipped := offset (world m1) - offset (world m) in
    0 <= skipped <= bytes_can_read
    /\ read_position t' = read_position t + skipped
    /\ write_position t' = write_position t
    /\ pending t' = pending t ++ repeat NUL (Z.to_nat skipped)
    /\ List.length (buffer_of t') = List.length b
    /\ stdout (world m1) = stdout (world m)
    /\ inflow (world m1) = inflow (world m)
    /\ input (world m1) = input (world m)
    /\ (if skipped =? 0 then eof_in m1 = true else eof_in m1 = eof_in m)).
  { intros m1 Hw Hb1 Hr1 Hw1 He1. cbv zeta. rewrite Hw, Z.sub_diag.
    cbn [Z.to_nat repeat Z.eqb]. rewrite app_nil_r.
    split; [lia|]. split; [lia|]. split; [exact Hw1|].
    split; [apply pending_eq; [rewrite Hb1, Hb; reflexivity|exact Hr1|exact Hw1]|].
    unfold buffer_of. rewrite Hb1. auto. }
  assert (Hended : forall m1 : machine,
    world (input_ended m1) = world m1
    /\ transfer (state (input_ended m1)) = transfer (state m1)
    /\ eof_in (input_ended m1) = true).
  { intros m1. unfold input_ended. simp_m.
    destruct (write_position (transfer (state m1))
              >=? read_position (transfer (state m1))); simp_m; auto. }
  destruct (warned_keeps m) as (Kw & Kin & Kout & Kc & Kb & Kr & Kwp & Ke).
  cbv zeta. unfold skip_read_error. cbv zeta. fold (warned m).
  set (m1 := warned m) in *.
  unfold os_tell. rewrite Kw.
  destruct (seekable (world m)).
  2: { cbn [Z.gtb Z.compare].
       destruct (Hended (on_state (pv_error "file is not seekable") m1))
         as (Ew & Et & Ei).
       apply Hstay; rewrite ?Ew, ?Et; simp_m; congruence. }
  destruct (Z.gtb_spec 0 (offset (world m))) as [Hneg | _]; [lia|].
  rewrite Kc, Ke.
  set (distance := skip_distance (control (state m))
                     (read_errors_in_a_row (transfer (state m)))).
  assert (Hdistance : 1 <= distance <= Z.max (error_skip_block (control (state m))) 512)
    by (apply skip_distance_range; lia).
  assert (Hround : 1 <= round_skip (offset (world m)) distance <= distance)
    by (apply round_skip_range; unfold max64; lia).
  rewrite (wrap64_small bytes_can_read) by (unfold in64, min64, max64; lia).
  set (amount :=
         if round_skip (offset (world m)) distance >? bytes_can_read
         then bytes_can_read else round_skip (offset (world m)) distance).
  assert (Hamount : 1 <= amount <= bytes_can_read)
    by (unfold amount;
        destruct (Z.gtb_spec (round_skip (offset (world m)) distance)
                    bytes_can_read); lia).
  rewrite (wrap64_small (offset (world m) + amount))
    by (unfold in64, min64, max64; lia).
  rewrite (wrap64_small (offset (world m) + 1))
    by (unfold in64, min64, max64; lia).
  assert (Hmoved : forall k m2,
    1 <= k <= bytes_can_read ->
    world m2 = mkWorld (input (world m)) (offset (world m) + k)
                 (seekable (world m)) (stdout (world m)) (inflow (world m)) ->
    transfer (state m2) = transfer (state m1) ->
    control (state m2) = control (state m1) ->
    eof_in m2 = eof_in m ->
    let m' :=
      if wrap64 (offset (world m) + k - offset (world m)) >? 0
      then
        let m3 :=
          on_transfer
            (set_read_position
               (wrap_size
                  (read_position (transfer (state m2))
                   + wrap64 (offset (world m) + k - offset (world m)))))
            (on_transfer
               (store_buffer
                  (write_at (buffer_of (transfer (state m2)))
                     (read_position (transfer (state m2)))
                     (repeat NUL
                        (Z.to_nat
                           (wrap_size
                              (wrap64
                                 (offset (world m) + k - offset (world m))))))))
               m2) in
        if skip_errors (control (state m)) <? 2
        then on_state (pv_error "skipped past read error") m3
        else m3
      else input_ended m2 in
    let t := transfer (state m) in
    let t' := transfer (state m') in
    let skipped := offset (world m') - offset (world m) in
    0 <= skipped <= bytes_can_read
    /\ read_position t' = read_position t + skipped
    /\ write_position t' = write_position t
    /\ pending t' = pending t ++ repeat NUL (Z.to_nat skipped)
    /\ List.length (buffer_of t') = List.length b
    /\ stdout (world m') = stdout (world m)
    /\ inflow (world m') = inflow (world m)
    /\ input (world m') = input (world m)
    /\ (if skipped =? 0 then eof_in m' = true else eof_in m' = eof_in m)).
  { intros k m2 Hk Hw2 Ht2 Hc2 He2.
    replace (offset (world m) + k - offset (world m)) with k by lia.
    rewrite (wrap64_small k) by (unfold in64, min64, max64; lia).
    rewrite (wrap_size_small k) by lia.
    destruct (Z.gtb_spec k 0) as [_ | Hno]; [|lia].
    rewrite Ht2, Kr. unfold buffer_of at 1. rewrite Kb, Hb.
    rewrite (wrap_size_small (read_position (transfer (state m)) + k)) by lia.
    assert (Hsame : forall m4 : machine,
      world m4 = world m2 -> eof_in m4 = eof_in m2 ->
      transfer_buffer (transfer (state m4))
      = Some (write_at b (read_position (transfer (state m)))
                (repeat NUL (Z.to_nat k))) ->
      read_position (transfer (state m4))
      = read_position (transfer (state m)) + k ->
      write_position (transfer (state m4))
      = write_position (transfer (state m)) ->
      let t := transfer (state m) in
      let t' := transfer (state m4) in
      let skipped := offset (world m4) - offset (world m) in
      0 <= skipped <= bytes_can_read
      /\ read_position t' = read_position t + skipped
      /\ write_position t' = write_position t
      /\ pending t' = pending t ++ repeat NUL (Z.to_nat skipped)
      /\ List.length (buffer_of t') = List.length b
      /\ stdout (world m4) = stdout (world m)
      /\ inflow (world m4) = inflow (world m)
      /\ input (world m4) = input (world m)
      /\ (if skipped =? 0 then eof_in m4 = true else eof_in m4 = eof_in m)).
    { intros m4 Hw4 He4 Hb4 Hr4 Hwp4. cbv zeta. rewrite Hw4, Hw2.
      cbn [offset stdout inflow input].
      replace (offset (world m) + k - offset (world m)) with k by lia.
      destruct (Z.eqb_spec k 0) as [Hzero | _]; [lia|].
      split; [lia|]. split; [exact Hr4|]. split; [exact Hwp4|].
      split.
      - unfold pending at 1. unfold buffer_of. rewrite Hb4, Hr4, Hwp4.
        apply (pending_zero_fill _ _ _ Hb); lia.
      - unfold buffer_of. rewrite Hb4, write_at_length.
        split; [reflexivity|]. repeat split; congruence. }
    cbv zeta.
    destruct (skip_errors (control (state m)) <? 2);
      apply Hsame; simp_m; rewrite ?Ht2; try reflexivity;
      unfold store_buffer; rewrite Kb, Hb; simp_m;
      solve [reflexivity | exact Kwp]. }
  unfold os_seek.
  destruct (seek_first os) as [e1|].
  - change (-1 <? 0) with true. cbv iota.
    destruct (seek_retry os) as [e2|].
    + change (-1 <? 0) with true. cbv iota.
      change (-1 >? 0) with false. cbv iota.
      destruct e2;
        match goal with
        | |- context [input_ended ?x] =>
            destruct (Hended x) as (Ew & Et & Ei);
            apply Hstay; rewrite ?Ew, ?Et; simp_m; congruence
        end.
    + assert (Hnn : (offset (world m) + 1 <? 0) = false)
        by (apply Z.ltb_ge; lia).
      rewrite Hnn.
      apply (Hmoved 1); simp_m; try reflexivity; try lia.
      exact Kin.
  - assert (Hnn : (offset (world m) + amount <? 0) = false)
      by (apply Z.ltb_ge; lia).
    rewrite Hnn. cbv beta iota. rewrite Hnn.
    apply (Hmoved amount); simp_m; try reflexivity; try lia.
    exact Kin.
Qed.

(** X17: the recovery from a read error stands in as many zero bytes as
    the file offset moves forward: at most the room that was offered,
    appended to the bytes waiting in the buffer, with nothing written
    and nothing recorded as read.  When the offset cannot be moved the
    input is declared ended. *)
Theorem skip_read_error_zero_fills os err bytes_can_read m b :
  transfer_buffer (transfer (state m)) = Some b ->
  0 <= write_position (transfer (state m))
    <= read_position (transfer (state m)) ->
  1 <= bytes_can_read ->
  read_position (transfer (state m)) + bytes_can_read
    <= Z.of_nat (List.length b) ->
  Z.of_nat (List.length b) < 2 ^ 62 ->
  0 <= offset (world m) < 2 ^ 62 ->
  0 <= error_skip_block (control (state m)) < 2 ^ 62 ->
  let m' := skip_read_error os err bytes_can_read m in
  let t := transfer (state m) in
  let t' := transfer (state m') in
  let skipped := offset (world m') - offset (world m) in
  0 <= skipped <= bytes_can_read
  /\ read_position t' = read_position t + skipped
  /\ write_position t' = write_position t
  /\ pending t' = pending t ++ repeat NUL (Z.to_nat skipped)
  /\ List.length (buffer_of t') = List.length b
  /\ stdout (world m') = stdout (world m)
  /\ inflow (world m') = inflow (world m)
  /\ input (world m') = input (world m)
  /\ (if skipped =? 0 then eof_in m' = true else eof_in m' = eof_in m).
Proof. exact (skip_read_error_fills os err bytes_can_read m b). Qed.

(** A machine in the middle of a transfer: three bytes read from the
    input, one of them written, twelve read errors in a row. *)
Definition sample_machine : machine :=
  mkMachine
    (mkState 0 (set_skip_errors 1 (sample_control "%b" 0 80)) sample_display
       (mkTransfer (Some (cstr "abcdefgh" ++ repeat NUL 32)) 8 3 1 (-1) 12
          false (-1) false 0 0) [])
    (mkWorld (cstr "abcdefghijkl") 3 true (cstr "a") (cstr "abc"))
    false false (Some 0).

Definition sample_os : os_call :=
  mkOs true true (SelectReturned true true) (Failed EINVAL) false
    [mkReadStep (Failed EIO) false false] None None true
    [mkWriteStep (Transferred 1) false false;
     mkWriteStep (Failed EAGAIN) false false].

(** Closed comparisons, by evaluation. *)
Ltac by_evaluation :=
  match goal with
  | |- _ /\ _ => split; by_evaluation
  | |- _ <= _ => apply Z.leb_le; vm_compute; reflexivity
  | |- _ < _ => apply Z.ltb_lt; vm_compute; reflexivity
  | |- _ = _ => vm_compute; reflexivity
  end.

Lemma skip_read_error_zero_fills_witness :
  let m' := skip_read_error sample_os (Some EIO) 5 sample_machine in
  offset (world m') - offset (world sample_machine) = 1
  /\ pending (transfer (state m')) = cstr "bc" ++ [NUL].
Proof.
  destruct (skip_read_error_zero_fills sample_os (Some EIO) 5 sample_machine
              (cstr "abcdefgh" ++ repeat NUL 32))
    as (_ & _ & _ & Hp & _); try by_evaluation.
  split; [vm_compute; reflexivity|].
  rewrite Hp. vm_compute. reflexivity.
Defined.

End RecoveryFacts.

Module KernelFacts.
Import CInt CIntFacts ElapsedTime ElapsedTimeFacts Number NumberFacts.
Import PvString PvStringFacts State Display OS Transfer MainLoop TotalSize.
Import BufferFacts DisplayFacts TransferFacts StreamFacts MainLoopFacts.
Import TimeFacts CStringFacts NumberCheckFacts StringFacts FormatFacts RecoveryFacts.

(** ** transfer.c: the repeated write and read under any kernel *)

(** What the return value of [pv__transfer_write_repeated] says about
    the [k] bytes standard output has accepted. *)
Definition write_report (total k : Z) (rc : Z) (err : option errno) : Prop :=
  match err with
  | None => rc = total + k
  | Some e =>
      if errno_eqb e EINTR || errno_eqb e EAGAIN
      then rc = total + k
      else rc = -1
  end.

Lemma pv__transfer_write_repeated_any fuel :
  forall steps sync data count total w,
  count = Z.of_nat (List.length data) ->
  0 <= total -> total + count < 2 ^ 62 ->
  exists k,
    0 <= k <= count
    /\ writes_to w (firstn (Z.to_nat k) data)
         (snd (pv__transfer_write_repeated fuel steps sync data count total w))
    /\ write_report total k
         (fst (fst (pv__transfer_write_repeated fuel steps sync data count
                      total w)))
         (snd (fst (pv__transfer_write_repeated fuel steps sync data count
                      total w))).
Proof.
  assert (Hstop : forall (data : list ascii) count total w err rc,
    0 <= count -> write_report total 0 rc err ->
    exists k,
      0 <= k <= count
      /\ writes_to w (firstn (Z.to_nat k) data) (snd (rc, err, w))
      /\ write_report total k (fst (fst (rc, err, w))) (snd (fst (rc, err, w)))).
  { intros data count total w err rc Hc Hr. exists 0.
    split; [lia|]. split; [|exact Hr].
    unfold writes_to. cbn [Z.to_nat firstn snd]. rewrite app_nil_r. auto. }
  induction fuel as [|fuel IH];
    intros steps sync data count total w Hcount Htotal Hbound.
  - cbn [pv__transfer_write_repeated]. apply Hstop; [lia|].
    unfold write_report. lia.
  - cbn [pv__transfer_write_repeated].
    destruct (Z.gtb_spec count 0) as [Hpositive | Hzero].
    2: { apply Hstop; [lia|]. unfold write_report. lia. }
    set (asked :=
           if count >? MAX_WRITE_AT_ONCE then MAX_WRITE_AT_ONCE else count).
    assert (Hasked : 0 < asked <= count).
    { unfold asked, MAX_WRITE_AT_ONCE.
      destruct (Z.gtb_spec count 524288); lia. }
    destruct (w_result (hd default_write_step steps)) as [want | e].
    2: { destruct (errno_eqb e EINTR || errno_eqb e EAGAIN) eqn:He;
           (apply Hstop; [lia|]); unfold write_report; rewrite He; lia. }
    unfold os_write.
    set (n := Z.min (Z.of_nat want) asked).
    assert (Hn : 0 <= n <= count) by lia.
    assert (Hlen : Z.of_nat (List.length (firstn (Z.to_nat n) data)) = n).
    { rewrite length_firstn. lia. }
    rewrite Hlen.
    set (w1 := mkWorld (input w) (offset w) (seekable w)
                 (stdout w ++ firstn (Z.to_nat n) data) (inflow w)).
    assert (Hw1 : writes_to w (firstn (Z.to_nat n) data) w1).
    { unfold writes_to, w1. cbn [stdout inflow input offset]. auto. }
    destruct (sync && w_sync_eio (hd default_write_step steps)).
    { exists n. split; [lia|]. split; [exact Hw1|]. reflexivity. }
    rewrite (wrap64_small (total + n)) by (unfold in64, min64, max64; lia).
    rewrite (wrap_size_small (count - n)) by lia.
    assert (Hbase : exists k,
      0 <= k <= count
      /\ writes_to w (firstn (Z.to_nat k) data) (snd (total + n, None (A:=errno), w1))
      /\ write_report total k (fst (fst (total + n, None (A:=errno), w1)))
           (snd (fst (total + n, None (A:=errno), w1)))).
    { exists n. split; [lia|]. split; [exact Hw1|]. reflexivity. }
    destruct (Z.eqb_spec n 0) as [Hnone | Hsome]; [exact Hbase|].
    destruct (w_expired (hd default_write_step steps)); [exact Hbase|].
    destruct (IH (tl steps) sync (skipn (Z.to_nat n) data) (count - n)
                (total + n) w1)
      as (k & Hk & (Hs & Hi & Hin & Ho) & Hr); try lia.
    { rewrite length_skipn. lia. }
    exists (n + k). split; [lia|]. split.
    + unfold writes_to. rewrite Hs, Hi, Hin, Ho. unfold w1.
      cbn [stdout inflow input offset].
      rewrite Z2Nat.inj_add by lia. rewrite firstn_plus, app_assoc. auto.
    + revert Hr. unfold write_report.
      destruct (snd (fst (pv__transfer_write_repeated fuel (tl steps) sync
                            (skipn (Z.to_nat n) data) (count - n) (total + n)
                            w1))) as [e|]; [|lia].
      destruct (errno_eqb e EINTR || errno_eqb e EAGAIN); lia.
Qed.

(** X18: whatever the kernel does, a call of
    [pv__transfer_write_repeated] puts a prefix of its data on standard
    output, in order, and touches nothing else.  The return value is the
    length of that prefix when the call ends normally or is interrupted
    ([EINTR], [EAGAIN]); after any other failure it is -1, also when
    earlier rounds of the same call had written bytes. *)
Theorem pv__transfer_write_repeated_accounting fuel :
  forall steps sync data count total w,
  count = Z.of_nat (List.length data) ->
  0 <= total -> total + count < 2 ^ 62 ->
  exists k,
    0 <= k <= count
    /\ writes_to w (firstn (Z.to_nat k) data)
         (snd (pv__transfer_write_repeated fuel steps sync data count total w))
    /\ write_report total k
         (fst (fst (pv__transfer_write_repeated fuel steps sync data count
                      total w)))
         (snd (fst (pv__transfer_write_repeated fuel steps sync data count
                      total w))).
Proof. exact (pv__transfer_write_repeated_any fuel). Qed.


(** One byte is written, then the disk reports an error. *)
Lemma pv__transfer_write_repeated_accounting_witness :
  exists k,
    0 <= k <= 3
    /\ writes_to (world sample_machine) (firstn (Z.to_nat k) (cstr "abc"))
         (snd (pv__transfer_write_repeated 3
                 [mkWriteStep (Transferred 1) false false;
                  mkWriteStep (Failed EIO) false false]
                 false (cstr "abc") 3 0 (world sample_machine)))
    /\ write_report 0 k
         (fst (fst (pv__transfer_write_repeated 3
                      [mkWriteStep (Transferred 1) false false;
                       mkWriteStep (Failed EIO) false false]
                      false (cstr "abc") 3 0 (world sample_machine))))
         (snd (fst (pv__transfer_write_repeated 3
                      [mkWriteStep (Transferred 1) false false;
                       mkWriteStep (Failed EIO) false false]
                      false (cstr "abc") 3 0 (world sample_machine)))).
Proof.
  apply (pv__transfer_write_repeated_accounting 3
           [mkWriteStep (Transferred 1) false false;
            mkWriteStep (Failed EIO) false false]
           false (cstr "abc") 3 0 (world sample_machine));
    [reflexivity | lia | lia].
Defined.

(** Two writes end to end are one write of the two pieces. *)
Lemma write_at_app buf off first second :
  0 <= off ->
  off + Z.of_nat (List.length first) + Z.of_nat (List.length second)
    <= Z.of_nat (List.length buf) ->
  write_at (write_at buf off first) (off + Z.of_nat (List.length first)) second
  = write_at buf off (first ++ second).
Proof.
  intros Hoff Hfit.
  rewrite (write_at_patch buf off first) by lia.
  rewrite write_at_patch by (rewrite ?patch_length by lia; lia).
  rewrite write_at_patch by (rewrite ?length_app; lia).
  apply (nth_ext _ _ NUL NUL).
  - rewrite !patch_length; rewrite ?patch_length, ?length_app; lia.
  - intros i _.
    rewrite !nth_patch; rewrite ?patch_length, ?length_app; try lia.
    replace (Z.to_nat (off + Z.of_nat (List.length first)))
      with (Z.to_nat off + List.length first)%nat by lia.
    destruct (Nat.leb_spec (Z.to_nat off + List.length first) i);
      destruct (Nat.ltb_spec i (Z.to_nat off + List.length first
                                + List.length second));
      destruct (Nat.leb_spec (Z.to_nat off) i);
      destruct (Nat.ltb_spec i (Z.to_nat off + List.length first));
      destruct (Nat.ltb_spec i (Z.to_nat off
                                + (List.length first + List.length second)));
      cbn [andb]; try lia; try reflexivity.
    + rewrite app_nth2 by lia. f_equal. lia.
    + rewrite app_nth1 by lia. reflexivity.
Qed.

Lemma write_at_nil buf off : write_at buf off [] = buf.
Proof.
  unfold write_at. cbn [List.length Z.of_nat].
  destruct ((0 <=? off) && (off + 0 <=? Z.of_nat (List.length buf))) eqn:H;
    [|reflexivity].
  apply andb_prop in H. destruct H as [H0 H1].
  apply Z.leb_le in H0, H1.
  rewrite Nat.add_0_r. cbn [app]. apply firstn_skipn.
Qed.

(** What the return value of [pv__transfer_read_repeated] says about the
    bytes it has taken from the input. *)
Definition read_report (total : Z) (data : list ascii) (rc : Z)
    (err : option errno) : Prop :=
  match err with
  | None => rc = total + Z.of_nat (List.length data)
  | Some _ => rc = -1
  end.

Lemma pv__transfer_read_repeated_any fuel :
  forall steps buf at_pos count total w,
  0 <= at_pos -> 0 <= count ->
  at_pos + count <= Z.of_nat (List.length buf) ->
  0 <= total -> total + count < 2 ^ 62 ->
  0 <= offset w ->
  exists data,
    let r := pv__transfer_read_repeated fuel steps buf at_pos count total w in
    Z.of_nat (List.length data) <= count
    /\ reads_to w data (snd r)
    /\ snd (fst r) = write_at buf at_pos data
    /\ read_report total data (fst (fst (fst r))) (snd (fst (fst r))).
Proof.
  assert (Hstop : forall buf at_pos count total w rc err,
    0 <= count -> 0 <= offset w -> read_report total [] rc err ->
    exists data,
      let r := (rc, err, buf, w) in
      Z.of_nat (List.length data) <= count
      /\ reads_to w data (snd r)
      /\ snd (fst r) = write_at buf at_pos data
      /\ read_report total data (fst (fst (fst r))) (snd (fst (fst r)))).
  { intros buf at_pos count total w rc err Hc Ho Hr. exists [].
    cbv zeta. cbn [fst snd List.length Z.of_nat].
    split; [lia|]. split; [apply reads_to_nil; exact Ho|].
    split; [symmetry; apply write_at_nil|exact Hr]. }
  induction fuel as [|fuel IH];
    intros steps buf at_pos count total w Hpos Hcount Hfit Htotal Hbound Hoff.
  - cbn [pv__transfer_read_repeated]. apply Hstop; try assumption.
    unfold read_report. cbn. lia.
  - cbn [pv__transfer_read_repeated].
    destruct (Z.gtb_spec count 0) as [Hpositive | Hzero].
    2: { apply Hstop; try assumption. unfold read_report. cbn. lia. }
    destruct (r_result (hd default_read_step steps)) as [want | e].
    2: { apply Hstop; try assumption. reflexivity. }
    set (request :=
           if count >? MAX_READ_AT_ONCE then MAX_READ_AT_ONCE else count).
    assert (Hrequest : 0 < request <= count).
    { unfold request, MAX_READ_AT_ONCE.
      destruct (Z.gtb_spec count 524288); lia. }
    pose proof (os_read_reads_to w request want Hoff) as Hreads.
    pose proof (os_read_length w request want ltac:(lia)) as Hlen.
    destruct (os_read w request want) as [data w1].
    cbn [fst snd] in Hreads, Hlen.
    set (nread := Z.of_nat (List.length data)) in *.
    rewrite (wrap64_small (total + nread))
      by (unfold in64, min64, max64; lia).
    rewrite (wrap_size_small (count - nread)) by lia.
    assert (Hbase : exists data0,
      let r := (total + nread, None (A:=errno), write_at buf at_pos data, w1) in
      Z.of_nat (List.length data0) <= count
      /\ reads_to w data0 (snd r)
      /\ snd (fst r) = write_at buf at_pos data0
      /\ read_report total data0 (fst (fst (fst r))) (snd (fst (fst r)))).
    { exists data. cbv zeta. cbn [fst snd]. fold nread.
      split; [lia|]. split; [exact Hreads|]. split; reflexivity. }
    destruct (Z.eqb_spec nread 0) as [Hnone | Hsome]; [exact Hbase|].
    destruct (r_expired (hd default_read_step steps)); [exact Hbase|].
    destruct ((count - nread >? 0)
              && negb (r_more (hd default_read_step steps)));
      [exact Hbase|].
    destruct (IH (tl steps) (write_at buf at_pos data) (at_pos + nread)
                (count - nread) (total + nread) w1)
      as (data2 & Hl2 & Hreads2 & Hb2 & Hr2); try lia.
    { rewrite write_at_length. lia. }
    { apply Hreads. }
    exists (data ++ data2). cbv zeta in *.
    rewrite length_app, Nat2Z.inj_add. fold nread.
    split; [lia|].
    split; [exact (reads_to_trans _ _ _ _ _ Hreads Hreads2)|].
    split.
    + rewrite Hb2. unfold nread. apply write_at_app; fold nread; lia.
    + revert Hr2. unfold read_report.
      rewrite length_app, Nat2Z.inj_add. fold nread.
      destruct (snd (fst (fst (pv__transfer_read_repeated fuel (tl steps)
                                 (write_at buf at_pos data) (at_pos + nread)
                                 (count - nread) (total + nread) w1))));
        [auto|lia].
Qed.

(** X19: whatever the kernel does, the bytes a call of
    [pv__transfer_read_repeated] takes from the input are stored in
    order at the given place of the buffer, at most [count] of them, and
    the rest of the buffer is left as it was.  The return value is their
    number unless a [read] fails: then it is -1, also when earlier
    rounds of the same call had taken bytes. *)
Theorem pv__transfer_read_repeated_window fuel :
  forall steps buf at_pos count total w,
  0 <= at_pos -> 0 <= count ->
  at_pos + count <= Z.of_nat (List.length buf) ->
  0 <= total -> total + count < 2 ^ 62 ->
  0 <= offset w ->
  exists data,
    let r := pv__transfer_read_repeated fuel steps buf at_pos count total w in
    Z.of_nat (List.length data) <= count
    /\ reads_to w data (snd r)
    /\ snd (fst r) = write_at buf at_pos data
    /\ read_report total data (fst (fst (fst r))) (snd (fst (fst r))).
Proof. exact (pv__transfer_read_repeated_any fuel). Qed.


(** Two bytes are read, then the next [read] is interrupted. *)
Lemma pv__transfer_read_repeated_window_witness :
  exists data,
    let r :=
      pv__transfer_read_repeated 5
        [mkReadStep (Transferred 2) false true;
         mkReadStep (Failed EINTR) false false]
        (cstr "abcdefgh" ++ repeat NUL 32) 3 5 0 (world sample_machine) in
    Z.of_nat (List.length data) <= 5
    /\ reads_to (world sample_machine) data (snd r)
    /\ snd (fst r) = write_at (cstr "abcdefgh" ++ repeat NUL 32) 3 data
    /\ read_report 0 data (fst (fst (fst r))) (snd (fst (fst r))).
Proof.
  apply (pv__transfer_read_repeated_window 5
           [mkReadStep (Transferred 2) false true;
            mkReadStep (Failed EINTR) false false]
           (cstr "abcdefgh" ++ repeat NUL 32) 3 5 0 (world sample_machine));
    by_evaluation.
Defined.

(** ** transfer.c: [pv__transfer_write] under any kernel *)

(** X21: whatever the kernel does, [pv__transfer_write] puts a prefix
    of the pending bytes on standard output and nothing else.  It
    returns 0 only with both end flags set (a broken pipe); and as long
    as it does not declare the output ended, it returns 1 and the bytes
    written have left the pending bytes and are counted in [written]. *)
Theorem pv__transfer_write_any os m b :
  let t := transfer (state m) in
  let r := pv__transfer_write os m in
  let t' := transfer (state (snd r)) in
  transfer_buffer t = Some b ->
  discard_input (control (state m)) = false ->
  0 <= write_position t -> 0 <= to_write t ->
  write_position t + to_write t <= read_position t ->
  read_position t <= Z.of_nat (List.length b) ->
  Z.of_nat (List.length b) < 2 ^ 61 ->
  0 <= written t < 2 ^ 62 ->
  exists k,
    0 <= k <= to_write t
    /\ writes_to (world m) (firstn (Z.to_nat k) (pending t)) (world (snd r))
    /\ (fst r = 0 -> eof_in (snd r) = true /\ eof_out (snd r) = true)
    /\ (eof_out (snd r) = false ->
        fst r = 1 /\ 0 < k
        /\ pending t' = skipn (Z.to_nat k) (pending t)
        /\ written t' = written t + k).
Proof.
  cbv zeta. intros Eb Hdiscard Hwp Hdue Hfit Hrp Hlen Hwritten.
  unfold pv__transfer_write. rewrite Eb, Hdiscard.
  assert (Hnone : writes_to (world m)
                    (firstn (Z.to_nat 0) (pending (transfer (state m))))
                    (world m)).
  { unfold writes_to. cbn [Z.to_nat firstn]. rewrite app_nil_r. auto. }
  destruct (Z.gtb_spec (to_write (transfer (state m))) 0) as [Hsome | Hnothing].
  2: { change (0 =? 0) with true. cbv iota. cbn [fst snd]. exists 0.
       split; [lia|]. split; [exact Hnone|]. simp_m.
       split; [discriminate|]. discriminate. }
  set (m0 := if alarm_ok os then m else _).
  assert (Hm0 : transfer (state m0) = transfer (state m)
                /\ control (state m0) = control (state m)
                /\ world m0 = world m
                /\ eof_in m0 = eof_in m /\ eof_out m0 = eof_out m
                /\ lineswritten m0 = lineswritten m).
  { unfold m0. destruct (alarm_ok os); simp_m; repeat split; reflexivity. }
  clearbody m0. destruct Hm0 as (Ht0 & Hc0 & Hw0 & Hin0 & Hout0 & Hl0).
  set (data := slice b (write_position (transfer (state m)))
                 (to_write (transfer (state m)))).
  rewrite (wrap_size_small (to_write (transfer (state m)))) by lia.
  destruct (pv__transfer_write_repeated_any
              (Z.to_nat (to_write (transfer (state m)))) (writes os)
              (sync_after_write (control (state m))) data
              (to_write (transfer (state m))) 0 (world m0))
    as (k & Hk & Hto & Hreport); try lia.
  { unfold data. rewrite slice_length; lia. }
  destruct (pv__transfer_write_repeated
              (Z.to_nat (to_write (transfer (state m)))) (writes os)
              (sync_after_write (control (state m))) data
              (to_write (transfer (state m))) 0 (world m0))
    as [[rc err] w'].
  cbn [fst snd] in Hto, Hreport.
  assert (Hprefix : firstn (Z.to_nat k) data
                    = firstn (Z.to_nat k) (pending (transfer (state m)))).
  { unfold data, pending, buffer_of. rewrite Eb.
    rewrite !firstn_slice by lia. reflexivity. }
  rewrite Hprefix, Hw0 in Hto.
  exists k. split; [exact Hk|].
  destruct (Z.eqb_spec rc 0) as [Hzero | Hnonzero].
  { cbn [fst snd]. simp_m. split; [exact Hto|].
    split; discriminate. }
  destruct (Z.gtb_spec rc 0) as [Hpositive | Hnegative].
  - assert (Hrc : rc = k).
    { revert Hreport. unfold write_report. destruct err as [e|]; [|lia].
      destruct (errno_eqb e EINTR || errno_eqb e EAGAIN); lia. }
    subst rc.
    rewrite (wrap_size_small (write_position (transfer (state m)) + k)) by lia.
    rewrite (wrap64_small (written (transfer (state m)) + k))
      by (unfold in64, min64, max64; lia).
    set (m1 := match lineswritten (set_world w' m0) with
               | Some _ => _
               | None => _
               end).
    assert (Hm1 : state m1 = state m0 /\ world m1 = w'
                  /\ eof_in m1 = eof_in m /\ eof_out m1 = eof_out m).
    { unfold m1. simp_m.
      destruct (lineswritten m0) as [lw|];
        [destruct (linemode (control (state m)))|];
        simp_m; repeat split; auto. }
    clearbody m1. destruct Hm1 as (Hs1 & Hw1 & Hin1 & Hout1).
    set (m2 := on_state (update_lastoutput k) _).
    assert (Hm2 : transfer_buffer (transfer (state m2)) = Some b
                  /\ read_position (transfer (state m2))
                     = read_position (transfer (state m))
                  /\ write_position (transfer (state m2))
                     = write_position (transfer (state m)) + k
                  /\ written (transfer (state m2))
                     = written (transfer (state m)) + k
                  /\ world m2 = w'
                  /\ eof_in m2 = eof_in m /\ eof_out m2 = eof_out m).
    { unfold m2. simp_m.
      destruct (update_lastoutput_keeps k
                  (with_transfer
                     (set_written (written (transfer (state m)) + k))
                     (with_transfer
                        (set_write_position
                           (write_position (transfer (state m)) + k))
                        (state m1)))) as [-> _].
      simp_m. rewrite Hs1, Ht0. repeat split; auto. }
    clearbody m2.
    destruct Hm2 as (Eb2 & Hrp2 & Hwp2 & Hwr2 & Hw2 & Hin2 & Hout2).
    assert (Hpart : slice b (write_position (transfer (state m)) + k)
                      (read_position (transfer (state m))
                       - (write_position (transfer (state m)) + k))
                    = skipn (Z.to_nat k) (pending (transfer (state m)))).
    { unfold pending, buffer_of, slice. rewrite Eb.
      rewrite skipn_firstn_comm, skipn_skipn. f_equal; [lia|].
      f_equal. lia. }
    rewrite Hwp2, Hrp2. cbn [fst snd].
    destruct (Z.geb_spec (write_position (transfer (state m)) + k)
                (read_position (transfer (state m)))) as [Hall | Hmore].
    + assert (Hempty : skipn (Z.to_nat k) (pending (transfer (state m))) = []).
      { rewrite <- Hpart.
        replace (read_position (transfer (state m))
                 - (write_position (transfer (state m)) + k)) with 0 by lia.
        reflexivity. }
      assert (Hdone : forall m3 : machine,
        world m3 = w' ->
        read_position (transfer (state m3)) = 0 ->
        write_position (transfer (state m3)) = 0 ->
        written (transfer (state m3)) = written (transfer (state m)) + k ->
        writes_to (world m)
          (firstn (Z.to_nat k) (pending (transfer (state m)))) (world m3)
        /\ (1 = 0 -> eof_in m3 = true /\ eof_out m3 = true)
        /\ (eof_out m3 = false ->
            1 = 1 /\ 0 < k
            /\ pending (transfer (state m3))
               = skipn (Z.to_nat k) (pending (transfer (state m)))
            /\ written (transfer (state m3))
               = written (transfer (state m)) + k)).
      { intros m3 Hw3 Hr3 Hwp3 Hwr3. rewrite Hw3.
        split; [exact Hto|]. split; [discriminate|]. intros _.
        split; [reflexivity|]. split; [lia|]. split; [|exact Hwr3].
        rewrite Hempty. apply pending_empty. lia. }
      simp_m. destruct (eof_in m2); apply Hdone; simp_m; auto.
    + rewrite Hw2. split; [exact Hto|]. split; [discriminate|]. intros _.
      split; [reflexivity|]. split; [lia|]. split; [|exact Hwr2].
      unfold pending at 1. unfold buffer_of. rewrite Eb2, Hwp2, Hrp2.
      exact Hpart.
  - assert (Hhard : exists e, err = Some e
                              /\ errno_eqb e EINTR || errno_eqb e EAGAIN = false).
    { revert Hreport. unfold write_report. destruct err as [e|]; [|lia].
      destruct (errno_eqb e EINTR || errno_eqb e EAGAIN) eqn:He; [lia|].
      intros _. exists e. auto. }
    destruct Hhard as (e & -> & He).
    destruct e; try discriminate He; cbn [fst snd]; simp_m;
      (split; [exact Hto|]); split; try discriminate; auto.
Qed.

(** One of two due bytes is taken, then the pipe is full. *)
Lemma pv__transfer_write_any_witness :
  let m := on_transfer (set_to_write 2) sample_machine in
  let r := pv__transfer_write sample_os m in
  exists k,
    0 <= k <= 2
    /\ writes_to (world m)
         (firstn (Z.to_nat k) (pending (transfer (state m)))) (world (snd r))
    /\ (fst r = 0 -> eof_in (snd r) = true /\ eof_out (snd r) = true)
    /\ (eof_out (snd r) = false ->
        fst r = 1 /\ 0 < k
        /\ pending (transfer (state (snd r)))
           = skipn (Z.to_nat k) (pending (transfer (state m)))
        /\ written (transfer (state (snd r)))
           = written (transfer (state m)) + k).
Proof.
  apply (pv__transfer_write_any sample_os
           (on_transfer (set_to_write 2) sample_machine)
           (cstr "abcdefgh" ++ repeat NUL 32));
    by_evaluation.
Defined.

(** X22: a first [write] that fails with [EINTR] or [EAGAIN] makes
    [pv__transfer_write_repeated] return 0, and [pv__transfer_write]
    takes that for the end of standard output: it returns 1 with
    [eof_out] set, while the due bytes are still in the buffer and
    nothing has been written. *)
Theorem interrupted_write_ends_output os m b e rest :
  transfer_buffer (transfer (state m)) = Some b ->
  discard_input (control (state m)) = false ->
  0 < to_write (transfer (state m)) < 2 ^ 61 ->
  hd default_write_step (writes os) = mkWriteStep (Failed e) false rest ->
  e = EINTR \/ e = EAGAIN ->
  let r := pv__transfer_write os m in
  fst r = 1
  /\ eof_out (snd r) = true
  /\ eof_in (snd r) = eof_in m
  /\ world (snd r) = world m
  /\ transfer (state (snd r)) = transfer (state m).
Proof.
  intros Eb Hdiscard Hdue Hstep He. cbv zeta.
  unfold pv__transfer_write. rewrite Eb, Hdiscard.
  destruct (Z.gtb_spec (to_write (transfer (state m))) 0) as [_ | Hno]; [|lia].
  set (m0 := if alarm_ok os then m else _).
  assert (Hm0 : transfer (state m0) = transfer (state m)
                /\ world m0 = world m /\ eof_in m0 = eof_in m).
  { unfold m0. destruct (alarm_ok os); simp_m; repeat split; reflexivity. }
  clearbody m0. destruct Hm0 as (Ht0 & Hw0 & Hin0).
  rewrite (wrap_size_small (to_write (transfer (state m)))) by lia.
  destruct (Z.to_nat (to_write (transfer (state m)))) as [|fuel] eqn:Hfuel;
    [lia|].
  cbn [pv__transfer_write_repeated].
  destruct (Z.gtb_spec (to_write (transfer (state m))) 0) as [_ | Hno]; [|lia].
  rewrite Hstep. cbn [w_result].
  assert (Hsoft : errno_eqb e EINTR || errno_eqb e EAGAIN = true)
    by (destruct He as [-> | ->]; reflexivity).
  rewrite Hsoft. change (0 =? 0) with true. cbv iota. cbn [fst snd].
  simp_m. rewrite Ht0, Hw0, Hin0. auto.
Qed.

Lemma interrupted_write_ends_output_witness :
  let m := on_transfer (set_to_write 2) sample_machine in
  let os :=
    mkOs true true (SelectReturned true true) (Failed EINVAL) false [] None
      None true [mkWriteStep (Failed EINTR) false false] in
  eof_out (snd (pv__transfer_write os m)) = true
  /\ pending (transfer (state (snd (pv__transfer_write os m)))) = cstr "bc".
Proof.
  destruct (interrupted_write_ends_output
              (mkOs true true (SelectReturned true true) (Failed EINVAL) false
                 [] None None true [mkWriteStep (Failed EINTR) false false])
              (on_transfer (set_to_write 2) sample_machine)
              (cstr "abcdefgh" ++ repeat NUL 32) EINTR false)
    as (_ & Hout & _ & _ & Ht);
    try by_evaluation; [left; reflexivity|].
  cbv zeta. rewrite Hout, Ht. split; reflexivity.
Defined.

(** ** transfer.c: the copy of the last bytes written *)

(** X20: when [%A] is displayed, the first [lastoutput_length] bytes of
    the last-output buffer are a sliding window on standard output:
    after [nwritten] more bytes they are the last [lastoutput_length]
    bytes of the old window followed by the bytes just written.  The
    rest of the buffer is not touched. *)
Theorem update_lastoutput_window (nwritten : Z) (st : pvstate) :
  let d := display st in
  let t := transfer st in
  let window := slice (lastoutput_buffer d) 0 (lastoutput_length d) in
  let fresh :=
    slice (buffer_of t) (write_position t - nwritten) nwritten in
  let d' := display (update_lastoutput nwritten st) in
  required (component d PV_COMPONENT_OUTPUTBUF) = true ->
  0 < nwritten <= write_position t ->
  write_position t <= Z.of_nat (List.length (buffer_of t)) ->
  write_position t < 2 ^ 62 ->
  0 <= lastoutput_length d <= Z.of_nat (List.length (lastoutput_buffer d)) ->
  lastoutput_length d < 2 ^ 62 ->
  slice (lastoutput_buffer d') 0 (lastoutput_length d')
  = skipn (Z.to_nat nwritten) (window ++ fresh)
  /\ List.length (lastoutput_buffer d') = List.length (lastoutput_buffer d)
  /\ skipn (Z.to_nat (lastoutput_length d)) (lastoutput_buffer d')
     = skipn (Z.to_nat (lastoutput_length d)) (lastoutput_buffer d).
Proof.
  cbv zeta. intros Hreq Hn Hwp Hwp62 HL HL62.
  unfold update_lastoutput. rewrite Hreq.
  destruct (Z.gtb_spec nwritten 0) as [_ | Hno]; [|lia].
  cbn [andb]. simp_m.
  set (lob := lastoutput_buffer (display st)) in *.
  set (L := lastoutput_length (display st)) in *.
  set (buf := match transfer_buffer (transfer st) with
              | Some b => b
              | None => []
              end).
  assert (Hbuf : buffer_of (transfer st) = buf) by reflexivity.
  rewrite Hbuf in *.
  set (wp := write_position (transfer st)) in *.
  assert (Hwindow : Z.of_nat (List.length (slice lob 0 L)) = L)
    by (apply slice_length; lia).
  destruct (Z.gtb_spec nwritten L) as [Hmore | Hless].
  - rewrite Z.sub_diag. change (wrap_size 0) with 0.
    change (0 >? 0) with false. cbv iota.
    rewrite (wrap_size_small (wp - L)) by lia.
    assert (Hfresh : Z.of_nat (List.length (slice buf (wp - L) L)) = L)
      by (apply slice_length; lia).
    split; [|split].
    + pose proof (slice_write_front lob (slice buf (wp - L) L)) as Hfront.
      rewrite Hfresh in Hfront. rewrite Hfront by lia.
      rewrite skipn_app.
      rewrite skipn_all2 by lia. cbn [app].
      replace (Z.to_nat nwritten - List.length (slice lob 0 L))%nat
        with (Z.to_nat (nwritten - L)) by lia.
      unfold slice. rewrite skipn_firstn_comm, skipn_skipn.
      f_equal; [lia|]. f_equal. lia.
    + apply write_at_length.
    + rewrite write_at_patch by lia. unfold patch.
      cbn [Z.to_nat firstn app Nat.add].
      rewrite skipn_app.
      rewrite skipn_all2 by lia. cbn [app].
      rewrite skipn_skipn. f_equal. lia.
  - rewrite (wrap_size_small (L - nwritten)) by lia.
    rewrite (wrap_size_small (wp - nwritten)) by lia.
    assert (Hfresh :
      Z.of_nat (List.length (slice buf (wp - nwritten) nwritten)) = nwritten)
      by (apply slice_length; lia).
    assert (Hold :
      Z.of_nat (List.length (slice lob nwritten (L - nwritten))) = L - nwritten)
      by (apply slice_length; lia).
    set (lob1 := if L - nwritten >? 0
                 then write_at lob 0 (slice lob nwritten (L - nwritten))
                 else lob).
    assert (Hlen1 : List.length lob1 = List.length lob)
      by (unfold lob1; destruct (L - nwritten >? 0);
          [apply write_at_length|reflexivity]).
    assert (Hfront : slice lob1 0 (L - nwritten)
                     = slice lob nwritten (L - nwritten)).
    { unfold lob1. destruct (Z.gtb_spec (L - nwritten) 0) as [Hsome | Hnone].
      - pose proof (slice_write_front lob (slice lob nwritten (L - nwritten)))
          as Hfront.
        rewrite Hold in Hfront. apply Hfront. lia.
      - replace (L - nwritten) with 0 by lia. reflexivity. }
    assert (Hback : skipn (Z.to_nat L) lob1 = skipn (Z.to_nat L) lob).
    { unfold lob1. destruct (Z.gtb_spec (L - nwritten) 0) as [Hsome | Hnone];
        [|reflexivity].
      rewrite write_at_patch by lia. unfold patch.
      cbn [Z.to_nat firstn app Nat.add].
      rewrite skipn_app. rewrite skipn_all2 by lia. cbn [app].
      rewrite skipn_skipn. f_equal. lia. }
    split; [|split].
    + replace L with (L - nwritten - 0
                      + Z.of_nat (List.length
                                    (slice buf (wp - nwritten) nwritten)))
        at 2 by lia.
      rewrite slice_write_append by lia.
      rewrite Z.sub_0_r, Hfront.
      rewrite skipn_app.
      replace (Z.to_nat nwritten - List.length (slice lob 0 L))%nat
        with 0%nat by lia.
      cbn [skipn]. f_equal.
      unfold slice. cbn [Z.to_nat skipn].
      rewrite skipn_firstn_comm. f_equal. lia.
    + rewrite write_at_length. exact Hlen1.
    + rewrite write_at_patch by lia. unfold patch.
      rewrite skipn_app. rewrite skipn_all2 by (rewrite length_firstn; lia).
      cbn [app].
      rewrite skipn_app. rewrite skipn_all2 by (rewrite length_firstn; lia).
      cbn [app]. rewrite skipn_skipn.
      rewrite <- Hback. f_equal.
      rewrite length_firstn. lia.
Qed.

(** A state that shows the last four bytes written: ["abcd"] so far;
    the three bytes ["567"] of the transfer buffer have just been
    written. *)
Definition window_state : pvstate :=
  let st := pv__format_init (sample_state "%4A" 0 80) in
  mkState 0 (control st)
    (set_lastoutput_buffer (cstr "abcd" ++ repeat NUL 252) (display st))
    (mkTransfer (Some (cstr "0123456789" ++ repeat NUL 32)) 10 10 8 (-1) 0
       false (-1) false 0 0) [].

Lemma update_lastoutput_window_witness :
  let d' := display (update_lastoutput 3 window_state) in
  slice (lastoutput_buffer d') 0 (lastoutput_length d') = cstr "d567".
Proof.
  destruct (update_lastoutput_window 3 window_state) as (Hw & _);
    try by_evaluation.
  cbv zeta. rewrite Hw. vm_compute. reflexivity.
Defined.

End KernelFacts.

Module AllowanceFacts.
Import CInt CIntFacts ElapsedTime ElapsedTimeFacts Number NumberFacts.
Import PvString PvStringFacts State Display OS Transfer MainLoop TotalSize.
Import BufferFacts DisplayFacts TransferFacts StreamFacts MainLoopFacts.
Import TimeFacts CStringFacts NumberCheckFacts StringFacts FormatFacts RecoveryFacts KernelFacts.

(** ** transfer.c: the allowance of a call *)

(** [pv__transfer_read_repeated] and the recovery from a read error
    leave standard output alone. *)
Lemma pv__transfer_read_repeated_stdout fuel :
  forall steps buf at_pos count total w,
  stdout (snd (pv__transfer_read_repeated fuel steps buf at_pos count total w))
  = stdout w.
Proof.
  induction fuel as [|fuel IH]; intros steps buf at_pos count total w;
    cbn [pv__transfer_read_repeated]; [reflexivity|].
  destruct (count >? 0); [|reflexivity].
  destruct (r_result (hd default_read_step steps)) as [want | e];
    [|reflexivity].
  unfold os_read.
  set (data := firstn _ (unread w)).
  set (w1 := mkWorld _ _ _ _ _).
  assert (Hw1 : stdout w1 = stdout w) by reflexivity.
  clearbody w1.
  destruct (Z.of_nat (List.length data) =? 0); [exact Hw1|].
  destruct (r_expired (hd default_read_step steps)); [exact Hw1|].
  destruct ((wrap_size (count - Z.of_nat (List.length data)) >? 0)
            && negb (r_more (hd default_read_step steps))); [exact Hw1|].
  rewrite IH. exact Hw1.
Qed.

(** The settings that decide how much the loop may transfer. *)
Definition settings (c : control_t) : bool * Z * bool * Z :=
  (linemode c, size c, stop_at_size c, rate_limit c).

Lemma settings_rate_limit c c' :
  settings c' = settings c -> rate_limit c' = rate_limit c.
Proof. unfold settings. intros H. injection H. auto. Qed.

(** What a phase of [pv_transfer] keeps of the machine when it moves no
    data to standard output. *)
Definition quiet (m m' : machine) : Prop :=
  stdout (world m') = stdout (world m)
  /\ to_write (transfer (state m')) = to_write (transfer (state m))
  /\ written (transfer (state m')) = written (transfer (state m))
  /\ splice_used (transfer (state m')) = splice_used (transfer (state m))
  /\ settings (control (state m')) = settings (control (state m))
  /\ buffer_size (transfer (state m')) = buffer_size (transfer (state m)).

Lemma quiet_refl m : quiet m m.
Proof. unfold quiet. auto 10. Qed.

Lemma quiet_trans m1 m2 m3 : quiet m1 m2 -> quiet m2 m3 -> quiet m1 m3.
Proof.
  unfold quiet.
  intros (A1 & A2 & A3 & A4 & A5 & A6) (B1 & B2 & B3 & B4 & B5 & B6).
  repeat split; congruence.
Qed.

Ltac quiet_step :=
  unfold quiet, settings; simp_m; repeat split; reflexivity.

Lemma input_ended_quiet m : quiet m (input_ended m).
Proof.
  unfold input_ended. simp_m.
  destruct (write_position (transfer (state m))
            >=? read_position (transfer (state m))); quiet_step.
Qed.

Lemma store_buffer_quiet buf m : quiet m (on_transfer (store_buffer buf) m).
Proof.
  unfold store_buffer.
  destruct (transfer_buffer (transfer (state m))) eqn:E;
    unfold quiet, settings; simp_m; rewrite ?E; simp_m; repeat split;
    reflexivity.
Qed.

Ltac failed_step :=
  repeat match goal with
         | |- quiet _ (match ?e with _ => _ end) => destruct e
         end;
  quiet_step.

Lemma skip_read_error_quiet os err bytes_can_read m :
  quiet m (skip_read_error os err bytes_can_read m).
Proof.
  unfold skip_read_error. cbv zeta. fold (warned m).
  assert (Hwarned : quiet m (warned m)).
  { unfold warned.
    destruct (read_error_warning_shown (transfer (state m))); quiet_step. }
  apply (quiet_trans _ _ _ Hwarned). generalize (warned m) as m1.
  clear Hwarned. intros m1.
  destruct (0 >? os_tell (world m1)).
  { apply (quiet_trans _ (on_state (pv_error "file is not seekable") m1));
      [quiet_step|apply input_ended_quiet]. }
  set (amount := if _ >? wrap64 bytes_can_read then _ else _).
  clearbody amount.
  unfold os_seek.
  assert (Htail : forall p : Z * machine,
    quiet m1 (snd p) ->
    quiet m1
      (let '(amount_skipped, m2) := p in
       if amount_skipped >? 0
       then
         if skip_errors (control (state m1)) <? 2
         then on_state (pv_error "skipped past read error")
                (on_transfer
                   (set_read_position
                      (wrap_size (read_position (transfer (state m2))
                                  + amount_skipped)))
                   (on_transfer
                      (store_buffer
                         (write_at (buffer_of (transfer (state m2)))
                            (read_position (transfer (state m2)))
                            (repeat NUL (Z.to_nat (wrap_size amount_skipped)))))
                      m2))
         else on_transfer
                (set_read_position
                   (wrap_size (read_position (transfer (state m2))
                               + amount_skipped)))
                (on_transfer
                   (store_buffer
                      (write_at (buffer_of (transfer (state m2)))
                         (read_position (transfer (state m2)))
                         (repeat NUL (Z.to_nat (wrap_size amount_skipped)))))
                   m2)
       else input_ended m2)).
  { intros [k m2] H2. cbn [snd] in H2.
    destruct (k >? 0);
      [|exact (quiet_trans _ _ _ H2 (input_ended_quiet m2))].
    set (buf := write_at _ _ _).
    pose proof (store_buffer_quiet buf m2) as H3.
    pose proof (quiet_trans _ _ _ H2 H3) as H4.
    destruct (skip_errors (control (state m1)) <? 2);
      (eapply quiet_trans; [exact H4|]); quiet_step. }
  destruct (seek_first os) as [e1|].
  - change (-1 <? 0) with true. cbv iota.
    destruct (seek_retry os) as [e2|].
    + change (-1 <? 0) with true. cbv iota.
      apply (Htail (-1, _)). cbn [snd]. failed_step.
    + destruct (wrap64 (os_tell (world m1) + 1) <? 0) eqn:Hneg.
      * apply (Htail (-1, _)). cbn [snd]. failed_step.
      * apply (Htail (_, _)). cbn [snd]. quiet_step.
  - destruct (wrap64 (os_tell (world m1) + amount) <? 0) eqn:Hneg.
    + destruct (seek_retry os) as [e2|].
      * change (-1 <? 0) with true. cbv iota.
        apply (Htail (-1, _)). cbn [snd]. failed_step.
      * destruct (wrap64 (os_tell (world m1) + 1) <? 0) eqn:Hneg1.
        -- apply (Htail (-1, _)). cbn [snd]. failed_step.
        -- apply (Htail (_, _)). cbn [snd]. quiet_step.
    + rewrite ?Hneg. apply (Htail (_, _)). cbn [snd]. quiet_step.
Qed.

Lemma pv__transfer_write_repeated_bound fuel :
  forall steps sync data count total w,
  0 <= count -> 0 <= total -> total + count < 2 ^ 62 ->
  exists out,
    stdout (snd (pv__transfer_write_repeated fuel steps sync data count total w))
    = stdout w ++ out
    /\ Z.of_nat (List.length out) <= count
    /\ fst (fst (pv__transfer_write_repeated fuel steps sync data count
                   total w))
       <= total + count.
Proof.
  assert (Hstop : forall count total w rc (err : option errno),
    0 <= count -> rc <= total + count ->
    exists out,
      stdout (snd (rc, err, w)) = stdout w ++ out
      /\ Z.of_nat (List.length out) <= count
      /\ fst (fst (rc, err, w)) <= total + count).
  { intros count total w rc err Hc Hrc. exists []. cbn [fst snd List.length].
    rewrite app_nil_r. split; [reflexivity|]. split; [lia|exact Hrc]. }
  induction fuel as [|fuel IH];
    intros steps sync data count total w Hcount Htotal Hbound.
  - cbn [pv__transfer_write_repeated]. apply Hstop; lia.
  - cbn [pv__transfer_write_repeated].
    destruct (Z.gtb_spec count 0) as [Hpositive | Hzero];
      [|apply Hstop; lia].
    set (asked :=
           if count >? MAX_WRITE_AT_ONCE then MAX_WRITE_AT_ONCE else count).
    assert (Hasked : 0 < asked <= count).
    { unfold asked, MAX_WRITE_AT_ONCE.
      destruct (Z.gtb_spec count 524288); lia. }
    destruct (w_result (hd default_write_step steps)) as [want | e].
    2: { destruct (errno_eqb e EINTR || errno_eqb e EAGAIN);
           apply Hstop; lia. }
    unfold os_write.
    set (accepted := firstn (Z.to_nat (Z.min (Z.of_nat want) asked)) data).
    assert (Hlen : 0 <= Z.of_nat (List.length accepted) <= count).
    { unfold accepted. rewrite length_firstn. lia. }
    set (n := Z.of_nat (List.length accepted)) in *.
    set (w1 := mkWorld (input w) (offset w) (seekable w)
                 (stdout w ++ accepted) (inflow w)).
    assert (Hbase : forall rc (err : option errno),
      rc <= total + count ->
      exists out,
        stdout (snd (rc, err, w1)) = stdout w ++ out
        /\ Z.of_nat (List.length out) <= count
        /\ fst (fst (rc, err, w1)) <= total + count).
    { intros rc err Hrc. exists accepted. cbn [fst snd]. unfold w1.
      cbn [stdout]. split; [reflexivity|]. split; [fold n; lia|exact Hrc]. }
    destruct (sync && w_sync_eio (hd default_write_step steps));
      [apply Hbase; lia|].
    rewrite (wrap64_small (total + n)) by (unfold in64, min64, max64; lia).
    rewrite (wrap_size_small (count - n)) by lia.
    destruct (Z.eqb_spec n 0) as [Hnone | Hsome]; [apply Hbase; lia|].
    destruct (w_expired (hd default_write_step steps)); [apply Hbase; lia|].
    destruct (IH (tl steps) sync (skipn (Z.to_nat n) data) (count - n)
                (total + n) w1) as (out & Hout & Hl & Hrc); try lia.
    exists (accepted ++ out). rewrite Hout.
    rewrite length_app, Nat2Z.inj_add. fold n.
    split; [unfold w1; cbn [stdout]; symmetry; apply app_assoc|].
    split; lia.
Qed.

(** The bytes that have reached standard output since [m0]. *)
Definition spent (allowed : Z) (m0 m : machine) : Prop :=
  exists out,
    stdout (world m) = stdout (world m0) ++ out
    /\ Z.of_nat (List.length out) <= allowed.

Lemma spent_quiet allowed m0 m m' :
  spent allowed m0 m -> quiet m m' -> spent allowed m0 m'.
Proof.
  intros (out & Hs & Hl) (Q1 & _). exists out. rewrite Q1. auto.
Qed.

Lemma spent_nothing allowed m0 m :
  0 <= allowed -> stdout (world m) = stdout (world m0) -> spent allowed m0 m.
Proof.
  intros Ha Hs. exists []. rewrite app_nil_r. cbn [List.length]. auto with zarith.
Qed.

(** The machine between the read phase and the write phase of a call
    that is limited to [allowed] bytes: either [splice] has moved bytes
    and [written] counts them, or nothing has been written yet. *)
Definition halfway (allowed : Z) (m0 m : machine) : Prop :=
  to_write (transfer (state m)) <= allowed
  /\ settings (control (state m)) = settings (control (state m0))
  /\ exists out,
       stdout (world m) = stdout (world m0) ++ out
       /\ written (transfer (state m)) = Z.of_nat (List.length out)
       /\ Z.of_nat (List.length out) <= allowed
       /\ (splice_used (transfer (state m)) = false -> out = []).

Lemma halfway_quiet allowed m0 m m' :
  halfway allowed m0 m -> quiet m m' -> halfway allowed m0 m'.
Proof.
  intros (Hto & Hd & out & Hs & Hw & Hl & Hsplice)
    (Q1 & Q2 & Q3 & Q4 & Q5 & _).
  split; [rewrite Q2; exact Hto|]. split; [congruence|].
  exists out. rewrite Q1, Q3, Q4. auto.
Qed.

Lemma prepare_buffer_calm os m m' :
  prepare_buffer os m = Some m' ->
  stdout (world m') = stdout (world m)
  /\ settings (control (state m')) = settings (control (state m)).
Proof.
  unfold prepare_buffer, pv__allocate_aligned_buffer.
  destruct (transfer_buffer (transfer (state m))) as [b|].
  - destruct (buffer_size (transfer (state m))
              <? target_buffer_size (control (state m)));
      [destruct (realloc_ok os)|];
      intros H; injection H as <-; split; reflexivity.
  - destruct (alloc_ok os); [|discriminate]. simp_m.
    destruct (target_buffer_size (control (state m))
              <? target_buffer_size (control (state m)));
      [destruct (realloc_ok os)|];
      intros H; injection H as <-; split; reflexivity.
Qed.

Lemma wait_phase_limits os fd allowed m :
  0 < rate_limit (control (state m)) \/ 0 < allowed ->
  0 <= allowed ->
  match snd (wait_phase os fd allowed m) with
  | Return rc m' =>
      rc <= 0 /\ stdout (world m') = stdout (world m)
      /\ settings (control (state m')) = settings (control (state m))
  | Continue _ m' =>
      stdout (world m') = stdout (world m)
      /\ to_write (transfer (state m')) <= allowed
      /\ written (transfer (state m')) = 0
      /\ settings (control (state m')) = settings (control (state m))
  end.
Proof.
  intros Hlimit Hallowed. unfold wait_phase.
  set (m1 := if negb (fd =? _) then _ else _).
  assert (H1 : stdout (world m1) = stdout (world m)
               /\ settings (control (state m1)) = settings (control (state m))).
  { unfold m1. destruct (negb (fd =? _)); split; reflexivity. }
  clearbody m1. destruct H1 as (Hs1 & Hset1).
  destruct (prepare_buffer os m1) as [m2|] eqn:Eprep.
  2: { cbn [snd]. simp_m. split; [lia|]. split; assumption. }
  destruct (prepare_buffer_calm _ _ _ Eprep) as (Hs2 & Hset2).
  rewrite Hs1 in Hs2. rewrite Hset1 in Hset2. clear Hs1 Hset1 Eprep m1.
  set (m3 := match lineswritten m2 with Some _ => _ | None => _ end).
  assert (H3 : world m3 = world m2 /\ state m3 = state m2).
  { unfold m3.
    destruct (lineswritten m2); [destruct (linemode (control (state m2)))|];
      split; reflexivity. }
  clearbody m3. destruct H3 as (Hw3 & Hst3).
  pose proof (settings_rate_limit _ _ Hset2) as Qr.
  destruct (eof_in m3 && eof_out m3);
    [cbn [snd]; rewrite Hw3, Hst3; split; [lia|]; auto|].
  set (due := wrap64 (wrap_size (read_position (transfer (state m3))
                                 - write_position (transfer (state m3))))).
  clearbody due.
  set (limited := if ((rate_limit (control (state m2)) >? 0) || (allowed >? 0))
                     && (due >? allowed) then allowed else due).
  assert (Hlimited : limited <= allowed).
  { unfold limited. rewrite Qr.
    assert (Hon : (rate_limit (control (state m)) >? 0) || (allowed >? 0)
                  = true).
    { destruct Hlimit as [H | H].
      - destruct (Z.gtb_spec (rate_limit (control (state m))) 0); [|lia].
        reflexivity.
      - destruct (Z.gtb_spec allowed 0); [|lia]. apply orb_true_r. }
    rewrite Hon. cbn [andb]. destruct (Z.gtb_spec due allowed); lia. }
  clearbody limited.
  destruct (is_data_ready _ _ _) as [[[n ready_to_read] ready_to_write] err].
  destruct (n <? 0).
  - destruct err as [[]|]; cbn [snd]; simp_m; rewrite Hw3, Hst3;
      (split; [lia|]); auto.
  - cbn [snd]. simp_m. rewrite Hw3, Hst3. auto.
Qed.

Lemma os_splice_bound w request want :
  0 <= request ->
  0 <= fst (os_splice w request want) <= request
  /\ exists out,
       stdout (snd (os_splice w request want)) = stdout w ++ out
       /\ Z.of_nat (List.length out) = fst (os_splice w request want).
Proof.
  intros Hr. unfold os_splice. cbn [fst snd stdout].
  split; [rewrite length_firstn; lia|].
  eexists. split; reflexivity.
Qed.

Lemma pv__transfer_read_spent os fd allowed m :
  0 < rate_limit (control (state m)) \/ 0 < allowed ->
  0 <= allowed < 2 ^ 62 ->
  written (transfer (state m)) = 0 ->
  to_write (transfer (state m)) <= allowed ->
  halfway allowed m (snd (pv__transfer_read os fd allowed m)).
Proof.
  intros Hlimit Hallowed Hwritten Hto.
  assert (Hstart : forall m1,
    stdout (world m1) = stdout (world m) ->
    to_write (transfer (state m1)) = to_write (transfer (state m)) ->
    written (transfer (state m1)) = 0 ->
    settings (control (state m1)) = settings (control (state m)) ->
    halfway allowed m m1).
  { intros m1 Q1 Q2 Q3 Q6.
    split; [rewrite Q2; exact Hto|]. split; [exact Q6|].
    exists []. rewrite app_nil_r, Q1, Q3. cbn [List.length Z.of_nat].
    repeat split; auto; lia. }
  assert (Hread : forall (nread : Z) (err : option errno) dns m1,
    halfway allowed m m1 ->
    halfway allowed m
      (snd (if nread =? 0 then (1, input_ended m1)
            else if nread >? 0
            then
              (1,
               if splice_used
                    (transfer
                       (state (on_transfer (set_read_errors_in_a_row 0) m1)))
               then on_transfer (set_read_errors_in_a_row 0) m1
               else
                 on_transfer
                   (set_read_position
                      (wrap_size
                         (read_position
                            (transfer
                               (state
                                  (on_transfer (set_read_errors_in_a_row 0)
                                     m1)))
                          + nread)))
                   (on_transfer (set_read_errors_in_a_row 0) m1))
            else
              match err with
              | Some EINTR | Some EAGAIN => (0, m1)
              | _ =>
                  if dns : bool
                  then
                    (1,
                     input_ended
                       (on_state (pv_error "read failed")
                          (on_transfer
                             (set_read_errors_in_a_row
                                (wrap64
                                   (read_errors_in_a_row
                                      (transfer
                                         (state
                                            (on_state (or_exit_status 16) m1)))
                                    + 1)))
                             (on_state (or_exit_status 16) m1))))
                  else
                    (1,
                     skip_read_error os err
                       (wrap_size
                          (buffer_size (transfer (state m))
                           - read_position (transfer (state m))))
                       (on_transfer
                          (set_read_errors_in_a_row
                             (wrap64
                                (read_errors_in_a_row
                                   (transfer
                                      (state
                                         (on_state (or_exit_status 16) m1)))
                                 + 1)))
                          (on_state (or_exit_status 16) m1)))
              end))).
  { intros nread err dns m1 H1.
    destruct (nread =? 0);
      [cbn [snd]; exact (halfway_quiet _ _ _ _ H1 (input_ended_quiet m1))|].
    destruct (nread >? 0).
    { cbn [snd]. apply (halfway_quiet _ _ _ _ H1).
      destruct (splice_used _); quiet_step. }
    set (m2 := on_transfer (set_read_errors_in_a_row _)
                 (on_state (or_exit_status 16) m1)).
    assert (H2 : quiet m1 m2) by (unfold m2; quiet_step).
    clearbody m2.
    assert (Hhard :
      halfway allowed m
        (snd (if dns
              then (1, input_ended (on_state (pv_error "read failed") m2))
              else
                (1,
                 skip_read_error os err
                   (wrap_size
                      (buffer_size (transfer (state m))
                       - read_position (transfer (state m)))) m2)))).
    { destruct dns; cbn [snd]; apply (halfway_quiet _ _ _ _ H1);
        apply (quiet_trans _ _ _ H2).
      - eapply quiet_trans; [|apply input_ended_quiet]. quiet_step.
      - apply skip_read_error_quiet. }
    destruct err as [[]|]; try exact Hhard; cbn [snd]; exact H1. }
  unfold pv__transfer_read.
  set (bytes_can_read := wrap_size _).
  unfold splice_phase.
  set (m0 := on_transfer (set_splice_used false) m).
  assert (H0 : halfway allowed m m0)
    by (apply Hstart; unfold m0; simp_m; first [reflexivity | exact Hwritten]).
  assert (Hplain : forall (nread : Z) (err : option errno) dns m1,
    halfway allowed m m1 ->
    stdout (world m1) = stdout (world m) ->
    written (transfer (state m1)) = 0 ->
    halfway allowed m
      (snd (let '(nread, err, m2) :=
              if splice_used (transfer (state m1)) then (nread, err, m1)
              else
                let '(nread0, err0, buf, w) :=
                  pv__transfer_read_repeated (Z.to_nat bytes_can_read)
                    (reads os) (buffer_of (transfer (state m1)))
                    (read_position (transfer (state m1))) bytes_can_read 0
                    (world m1) in
                (nread0, err0,
                 on_transfer (store_buffer buf) (set_world w m1)) in
            if nread =? 0 then (1, input_ended m2)
            else if nread >? 0
            then
              (1,
               if splice_used
                    (transfer
                       (state (on_transfer (set_read_errors_in_a_row 0) m2)))
               then on_transfer (set_read_errors_in_a_row 0) m2
               else
                 on_transfer
                   (set_read_position
                      (wrap_size
                         (read_position
                            (transfer
                               (state
                                  (on_transfer (set_read_errors_in_a_row 0)
                                     m2)))
                          + nread)))
                   (on_transfer (set_read_errors_in_a_row 0) m2))
            else
              match err with
              | Some EINTR | Some EAGAIN => (0, m2)
              | _ =>
                  if dns : bool
                  then
                    (1,
                     input_ended
                       (on_state (pv_error "read failed")
                          (on_transfer
                             (set_read_errors_in_a_row
                                (wrap64
                                   (read_errors_in_a_row
                                      (transfer
                                         (state
                                            (on_state (or_exit_status 16) m2)))
                                    + 1)))
                             (on_state (or_exit_status 16) m2))))
                  else
                    (1,
                     skip_read_error os err bytes_can_read
                       (on_transfer
                          (set_read_errors_in_a_row
                             (wrap64
                                (read_errors_in_a_row
                                   (transfer
                                      (state
                                         (on_state (or_exit_status 16) m2)))
                                 + 1)))
                          (on_state (or_exit_status 16) m2)))
              end))).
  { intros nread err dns m1 H1 Hs1 Hw1.
    destruct (splice_used (transfer (state m1))) eqn:Esplice;
      [apply Hread; exact H1|].
    pose proof (pv__transfer_read_repeated_stdout (Z.to_nat bytes_can_read)
                  (reads os) (buffer_of (transfer (state m1)))
                  (read_position (transfer (state m1))) bytes_can_read 0
                  (world m1)) as Hout.
    destruct (pv__transfer_read_repeated _ _ _ _ _ _ _)
      as [[[nread0 err0] buf] w].
    cbn [snd] in Hout.
    apply Hread. apply (halfway_quiet _ _ (set_world w m1)).
    - destruct H1 as (A1 & A2 & out & A3 & A4 & A5 & A6).
      split; [exact A1|]. split; [exact A2|]. exists out. simp_m.
      rewrite Hout. auto.
    - apply store_buffer_quiet. }
  destruct (negb (linemode (control (state m)))
            && negb (no_splice (control (state m)))
            && negb (fd =? splice_failed_fd (transfer (state m)))
            && (to_write (transfer (state m)) =? 0)).
  2: { apply Hplain; [exact H0|reflexivity|exact Hwritten]. }
  set (bytes_to_splice := if _ || negb (allowed =? 0) then _ else _).
  assert (Hsplice : bytes_to_splice = allowed).
  { unfold bytes_to_splice.
    assert (Hon : (rate_limit (control (state m)) >? 0) || negb (allowed =? 0)
                  = true).
    { destruct Hlimit as [H | H].
      - destruct (Z.gtb_spec (rate_limit (control (state m))) 0); [|lia].
        reflexivity.
      - destruct (Z.eqb_spec allowed 0); [lia|]. apply orb_true_r. }
    rewrite Hon. apply wrap_size_small. lia. }
  rewrite Hsplice. clear Hsplice bytes_to_splice.
  destruct (splice_res os) as [want | e].
  2: { destruct (errno_eqb e EINVAL); [|destruct (errno_eqb e EAGAIN)];
         apply Hplain; try apply Hstart;
         unfold m0; simp_m; first [reflexivity | exact Hwritten]. }
  destruct (os_splice_bound (world m0) allowed want ltac:(lia))
    as (Hn & out & Hs & Hl).
  destruct (os_splice (world m0) allowed want) as [nread w].
  cbn [fst snd] in Hn, Hs, Hl.
  destruct (Z.gtb_spec nread 0) as [Hsome | Hnone].
  - assert (Hmoved : forall m1,
      stdout (world m1) = stdout w ->
      written (transfer (state m1)) = nread ->
      to_write (transfer (state m1)) = to_write (transfer (state m)) ->
      settings (control (state m1)) = settings (control (state m)) ->
      splice_used (transfer (state m1)) = true ->
      halfway allowed m m1).
    { intros m1 Hs1 Hw1 Ht1 Hd1 Hu1. split; [rewrite Ht1; exact Hto|].
      split; [exact Hd1|]. exists out. rewrite Hs1, Hs, Hw1, Hl, Hu1.
      unfold m0. simp_m. split; [reflexivity|]. split; [reflexivity|].
      split; [lia|]. discriminate. }
    set (m1 := on_transfer (set_written nread)
                 (on_transfer (set_splice_used true) (set_world w m0))).
    assert (H1 : halfway allowed m m1)
      by (apply Hmoved; unfold m1, m0; simp_m; reflexivity).
    destruct (sync_after_write (control (state m)) && splice_sync_eio os).
    + exact (Hread (-1) (Some EIO) true m1 H1).
    + exact (Hread nread None (skip_errors (control (state m)) =? 0) m1 H1).
  - assert (Hnothing : out = []).
    { destruct out; [reflexivity|]. cbn [List.length] in Hl. lia. }
    subst out. rewrite app_nil_r in Hs.
    apply Hplain; try apply Hstart; simp_m; rewrite ?Hs;
      unfold m0; simp_m; first [reflexivity | exact Hwritten].
Qed.

Lemma pv_memrchr_bound region c i :
  pv_memrchr region c = Some i ->
  0 <= i < Z.of_nat (List.length region).
Proof.
  intros H. destruct (pv_memrchr_found c region i H)
    as (front & back & -> & <- & _).
  rewrite length_app. cbn [List.length]. lia.
Qed.

Lemma line_mode_truncation_halfway allowed m0 m :
  allowed < 2 ^ 62 ->
  halfway allowed m0 m -> halfway allowed m0 (line_mode_truncation m).
Proof.
  intros Hallowed H. unfold line_mode_truncation.
  destruct (Z.gtb_spec (to_write (transfer (state m))) 0) as [Hdue | Hnone];
    [|exact H].
  cbn [andb].
  destruct (linemode (control (state m))); cbn [andb]; [|exact H].
  destruct (negb (null_terminated_lines (control (state m)))); [|exact H].
  destruct (pv_memrchr _ _) as [end_offset|] eqn:Efound; [|exact H].
  apply pv_memrchr_bound in Efound.
  pose proof (slice_length_le (buffer_of (transfer (state m)))
                (write_position (transfer (state m)))
                (to_write (transfer (state m)))) as Hlen.
  destruct H as (Hto & Hd & out & Hs & Hw & Hl & Hu).
  split.
  - simp_m. rewrite wrap64_small by (unfold in64, min64, max64; lia). lia.
  - split; [exact Hd|]. exists out. simp_m. auto.
Qed.

Lemma pv__transfer_write_spent os allowed m0 m :
  0 <= allowed < 2 ^ 62 ->
  halfway allowed m0 m ->
  splice_used (transfer (state m)) = false ->
  spent allowed m0 (snd (pv__transfer_write os m))
  /\ written (transfer (state (snd (pv__transfer_write os m)))) <= allowed
  /\ settings (control (state (snd (pv__transfer_write os m))))
     = settings (control (state m0)).
Proof.
  intros Hallowed (Hto & Hset & out & Hs & Hw & _ & Hu) Hsplice.
  rewrite (Hu Hsplice) in Hs, Hw. rewrite app_nil_r in Hs.
  cbn [List.length Z.of_nat] in Hw. clear Hu out.
  assert (Hkeep : forall m1,
    stdout (world m1) = stdout (world m) ->
    written (transfer (state m1)) <= allowed ->
    control (state m1) = control (state m) ->
    spent allowed m0 m1 /\ written (transfer (state m1)) <= allowed
    /\ settings (control (state m1)) = settings (control (state m0))).
  { intros m1 H1 H2 H3. split; [|split; [exact H2|congruence]].
    apply spent_nothing; [lia|congruence]. }
  assert (Hafter : forall (k : Z) (w' : world_t) (m1 : machine),
    0 < k <= allowed ->
    world m1 = w' ->
    transfer (state m1) = transfer (state m) ->
    control (state m1) = control (state m) ->
    (exists out, stdout w' = stdout (world m) ++ out
                 /\ Z.of_nat (List.length out) <= allowed) ->
    let m2 :=
      on_state (update_lastoutput k)
        (on_transfer
           (set_written (wrap64 (written (transfer (state m)) + k)))
           (on_transfer
              (set_write_position
                 (wrap_size (write_position (transfer (state m)) + k)))
              m1)) in
    let m3 :=
      if write_position (transfer (state m2))
         >=? read_position (transfer (state m2))
      then
        if eof_in (on_transfer (set_read_position 0)
                     (on_transfer (set_write_position 0) m2))
        then set_eof_out true
               (on_transfer (set_read_position 0)
                  (on_transfer (set_write_position 0) m2))
        else on_transfer (set_read_position 0)
               (on_transfer (set_write_position 0) m2)
      else m2 in
    spent allowed m0 m3 /\ written (transfer (state m3)) <= allowed
    /\ settings (control (state m3)) = settings (control (state m0))).
  { intros k w' m1 Hk Hw1 Ht1 Hc1 (out & Ho & Hl). cbv zeta.
    set (m2 := on_state (update_lastoutput k) _).
    assert (Hm2 : world m2 = w'
                  /\ written (transfer (state m2)) = k
                  /\ control (state m2) = control (state m)).
    { unfold m2. simp_m.
      destruct (update_lastoutput_keeps k
                  (with_transfer
                     (set_written (wrap64 (written (transfer (state m)) + k)))
                     (with_transfer
                        (set_write_position
                           (wrap_size
                              (write_position (transfer (state m)) + k)))
                        (state m1)))) as [-> ->].
      simp_m. rewrite Hw, Z.add_0_l.
      split; [exact Hw1|]. split; [|exact Hc1].
      apply wrap64_small. unfold in64, min64, max64. lia. }
    clearbody m2. destruct Hm2 as (Hw2 & Hwr2 & Hc2).
    assert (Hfinal : forall m3,
      world m3 = w' -> written (transfer (state m3)) = k ->
      control (state m3) = control (state m) ->
      spent allowed m0 m3 /\ written (transfer (state m3)) <= allowed
      /\ settings (control (state m3)) = settings (control (state m0))).
    { intros m3 Hw3 Hwr3 Hc3. split; [|split; [lia|congruence]]. exists out.
      rewrite Hw3, Ho, Hs. auto. }
    destruct (write_position (transfer (state m2))
              >=? read_position (transfer (state m2)));
      [|apply Hfinal; assumption].
    destruct (eof_in _); apply Hfinal; simp_m; assumption. }
  unfold pv__transfer_write.
  destruct (transfer_buffer (transfer (state m))) as [b|].
  2: { cbn [snd]. apply Hkeep; simp_m; [reflexivity|lia|reflexivity]. }
  assert (Hlines : forall (k : Z) (m1 : machine),
    let m2 :=
      match lineswritten m1 with
      | Some lw =>
          if linemode (control (state m))
          then
            set_lineswritten
              (Some
                 (wrap64
                    (lw
                     + count_lines
                         (if null_terminated_lines (control (state m))
                          then NUL else "010"%char)
                         (slice b (write_position (transfer (state m))) k))))
              m1
          else m1
      | None => m1
      end in
    world m2 = world m1 /\ state m2 = state m1).
  { intros k m1. cbv zeta.
    destruct (lineswritten m1); [destruct (linemode (control (state m)))|];
      simp_m; auto. }
  destruct (discard_input (control (state m))).
  - destruct (Z.eqb_spec (to_write (transfer (state m))) 0) as [Hz | Hnz].
    { cbn [snd]. apply Hkeep; simp_m; [reflexivity|lia|reflexivity]. }
    destruct (Z.gtb_spec (to_write (transfer (state m))) 0) as [Hpos | Hneg].
    + cbn [snd].
      destruct (Hlines (to_write (transfer (state m))) m) as (Hw1 & Ht1).
      apply (Hafter (to_write (transfer (state m))) (world m) _);
        [lia | exact Hw1 | rewrite Ht1; reflexivity
         | rewrite Ht1; reflexivity |].
      exists []. rewrite app_nil_r. cbn [List.length Z.of_nat].
      split; [reflexivity|lia].
    + cbn [snd]. apply Hkeep; simp_m; [reflexivity|lia|reflexivity].
  - destruct (Z.gtb_spec (to_write (transfer (state m))) 0) as [Hpos | Hneg].
    2: { change (0 =? 0) with true. cbv iota. cbn [snd].
         apply Hkeep; simp_m; [reflexivity|lia|reflexivity]. }
    set (m1 := if alarm_ok os then m else _).
    assert (Hm1 : world m1 = world m
                  /\ transfer (state m1) = transfer (state m)
                  /\ control (state m1) = control (state m)).
    { unfold m1. destruct (alarm_ok os); simp_m; auto. }
    clearbody m1. destruct Hm1 as (Hw1 & Ht1 & Hc1).
    rewrite (wrap_size_small (to_write (transfer (state m)))) by lia.
    destruct (pv__transfer_write_repeated_bound
                (Z.to_nat (to_write (transfer (state m)))) (writes os)
                (sync_after_write (control (state m)))
                (slice b (write_position (transfer (state m)))
                   (to_write (transfer (state m))))
                (to_write (transfer (state m))) 0 (world m1))
      as (out & Ho & Hl & Hrc); try lia.
    destruct (pv__transfer_write_repeated _ _ _ _ _ _ _) as [[rc err] w'].
    cbn [fst snd] in Ho, Hl, Hrc. rewrite Hw1 in Ho.
    assert (Hquiet : forall m2,
      world m2 = w' -> written (transfer (state m2)) <= allowed ->
      control (state m2) = control (state m) ->
      spent allowed m0 m2 /\ written (transfer (state m2)) <= allowed
      /\ settings (control (state m2)) = settings (control (state m0))).
    { intros m2 Hw2 Hwr2 Hc2. split; [|split; [exact Hwr2|congruence]].
      exists out. rewrite Hw2, Ho, Hs. split; [reflexivity|lia]. }
    destruct (Z.eqb_spec rc 0) as [Hz | Hnz].
    { cbn [snd]. apply Hquiet; simp_m; rewrite ?Ht1, ?Hc1;
        [reflexivity|lia|reflexivity]. }
    destruct (Z.gtb_spec rc 0) as [Hsome | Hfail].
    + cbn [snd].
      destruct (Hlines rc (set_world w' m1)) as (Hw2 & Ht2).
      apply (Hafter rc w' _);
        [lia | exact Hw2 | rewrite Ht2; exact Ht1 | rewrite Ht2; exact Hc1 |].
      exists out. split; [exact Ho|lia].
    + destruct err as [[]|]; cbn [snd]; apply Hquiet; simp_m;
        rewrite ?Ht1, ?Hc1; try reflexivity; lia.
Qed.

Lemma maximise_buffer_fill_quiet m : quiet m (maximise_buffer_fill m).
Proof.
  unfold maximise_buffer_fill.
  destruct (write_position (transfer (state m)) >? 0); [|apply quiet_refl].
  destruct (write_position (transfer (state m))
            <? read_position (transfer (state m))); [|quiet_step].
  eapply quiet_trans; [apply store_buffer_quiet|]. quiet_step.
Qed.

Lemma pv_transfer_allowance os fd allowed m :
  0 < rate_limit (control (state m)) \/ 0 < allowed ->
  0 <= allowed < 2 ^ 62 ->
  fst (pv_transfer os fd allowed m) <= allowed
  /\ spent allowed m (snd (pv_transfer os fd allowed m))
  /\ settings (control (state (snd (pv_transfer os fd allowed m))))
     = settings (control (state m)).
Proof.
  intros Hlimit Hallowed. unfold pv_transfer.
  pose proof (wait_phase_limits os fd allowed m Hlimit (proj1 Hallowed))
    as Hwait.
  destruct (wait_phase os fd allowed m) as [ready_to_read [rc m1 | ready m1]];
    cbn [snd] in Hwait.
  { cbn [fst snd]. destruct Hwait as (Hrc & Hs & Hset).
    split; [lia|]. split; [apply spent_nothing; [lia|exact Hs]|exact Hset]. }
  destruct Hwait as (Hs1 & Hto1 & Hw1 & Hset1).
  pose proof (settings_rate_limit _ _ Hset1) as Hr1.
  unfold read_phase.
  assert (Hhalf : halfway allowed m1
                    (snd (if ready_to_read
                          then pv__transfer_read os fd allowed m1
                          else (1, m1)))).
  { destruct ready_to_read.
    - apply pv__transfer_read_spent; try assumption. rewrite Hr1. exact Hlimit.
    - cbn [snd]. split; [exact Hto1|]. split; [reflexivity|]. exists [].
      rewrite app_nil_r, Hw1. cbn. repeat split; auto; lia. }
  destruct (if ready_to_read then pv__transfer_read os fd allowed m1
            else (1, m1)) as [rc m2].
  cbn [snd] in Hhalf.
  assert (Hspent : forall m3,
    halfway allowed m1 m3 ->
    spent allowed m m3
    /\ settings (control (state m3)) = settings (control (state m))).
  { intros m3 (_ & Hset3 & out & Ho & _ & Hl & _).
    split; [|congruence]. exists out. rewrite Ho, Hs1. auto. }
  destruct (rc =? 0).
  { change (0 =? 0) with true. cbv iota. cbn [fst snd].
    split; [lia|apply Hspent; exact Hhalf]. }
  apply (line_mode_truncation_halfway _ _ _ (proj2 Hallowed)) in Hhalf.
  destruct (rc =? 0) eqn:Hrc;
    [cbn [fst snd]; split; [lia|apply Hspent; exact Hhalf]|].
  set (m3 := line_mode_truncation m2) in *. clearbody m3.
  unfold write_phase.
  assert (Hwritten : forall m4,
    spent allowed m1 m4 -> written (transfer (state m4)) <= allowed ->
    settings (control (state m4)) = settings (control (state m1)) ->
    let r := (written (transfer (state (maximise_buffer_fill m4))),
              maximise_buffer_fill m4) in
    fst r <= allowed /\ spent allowed m (snd r)
    /\ settings (control (state (snd r))) = settings (control (state m))).
  { intros m4 (out & Ho & Hl) Hw4 Hset4. cbv zeta. cbn [fst snd].
    destruct (maximise_buffer_fill_quiet m4) as (Q1 & _ & Q3 & _ & Q5 & _).
    rewrite Q3. split; [exact Hw4|]. split; [|congruence]. exists out.
    rewrite Q1, Ho, Hs1. auto. }
  unfold write_due.
  destruct (splice_used (transfer (state m3))) eqn:Esplice.
  - rewrite andb_false_r. cbn [andb]. change (1 =? 0) with false. cbv iota.
    destruct Hhalf as (_ & Hset3 & out & Ho & Hw3 & Hl & _).
    apply Hwritten; [exists out; auto|lia|exact Hset3].
  - destruct (ready && negb false
              && (read_position (transfer (state m3))
                  >? write_position (transfer (state m3)))
              && (to_write (transfer (state m3)) >? 0)
              && match lineswritten m3 with
                 | Some _ => true
                 | None => false
                 end).
    + destruct (pv__transfer_write_spent os allowed m1 m3 Hallowed Hhalf
                  Esplice) as (Hsp & Hwr & Hset4).
      destruct (pv__transfer_write os m3) as [rc4 m4].
      cbn [snd] in Hsp, Hwr, Hset4.
      destruct (rc4 =? 0);
        [cbn [fst snd]; split; [lia|]|apply Hwritten; assumption].
      split; [|congruence].
      destruct Hsp as (out & Ho & Hl). exists out. rewrite Ho, Hs1. auto.
    + change (1 =? 0) with false. cbv iota.
      destruct Hhalf as (_ & Hset3 & out & Ho & Hw3 & Hl & _).
      apply Hwritten; [exists out; auto|lia|exact Hset3].
Qed.

(** X24: a call of [pv_transfer] that is limited (a rate limit is set,
    or the allowance is positive) never returns more than its allowance,
    and however the kernel behaves no more than [allowed] bytes reach
    standard output during the call. *)
Theorem pv_transfer_respects_allowance os fd allowed m :
  0 < rate_limit (control (state m)) \/ 0 < allowed ->
  0 <= allowed < 2 ^ 62 ->
  fst (pv_transfer os fd allowed m) <= allowed
  /\ exists out,
       stdout (world (snd (pv_transfer os fd allowed m)))
       = stdout (world m) ++ out
       /\ Z.of_nat (List.length out) <= allowed.
Proof.
  intros Hlimit Hallowed.
  destruct (pv_transfer_allowance os fd allowed m Hlimit Hallowed)
    as (Hrc & Hspent & _).
  split; [exact Hrc|exact Hspent].
Qed.

(** One byte is allowed; two are pending. *)
Lemma pv_transfer_respects_allowance_witness :
  fst (pv_transfer sample_os 3 1 sample_machine) <= 1
  /\ exists out,
       stdout (world (snd (pv_transfer sample_os 3 1 sample_machine)))
       = stdout (world sample_machine) ++ out
       /\ Z.of_nat (List.length out) <= 1.
Proof.
  apply (pv_transfer_respects_allowance sample_os 3 1 sample_machine);
    [right; lia | lia].
Defined.

End AllowanceFacts.

Module PositionFacts.
Import CInt CIntFacts ElapsedTime ElapsedTimeFacts Number NumberFacts.
Import PvString PvStringFacts State Display OS Transfer MainLoop TotalSize.
Import BufferFacts DisplayFacts TransferFacts StreamFacts MainLoopFacts.
Import TimeFacts CStringFacts NumberCheckFacts StringFacts FormatFacts RecoveryFacts KernelFacts AllowanceFacts.

(** ** transfer.c: the positions stay inside the buffer *)

(** The buffer positions are in order and inside the buffer, and the
    amount due to be written is part of what has been read. *)
Definition fits (m : machine) : Prop :=
  buf_ok (transfer (state m))
  /\ to_write (transfer (state m))
     <= read_position (transfer (state m))
        - write_position (transfer (state m)).

(** The bounds on the configuration and on the file offset under which
    the arithmetic of a call does not wrap. *)
Definition moderate (m : machine) : Prop :=
  0 <= target_buffer_size (control (state m)) < max_size
  /\ 0 <= error_skip_block (control (state m)) < max_size
  /\ 0 <= offset (world m) < max_size.

Lemma prepare_buffer_fits os m :
  buf_ok (transfer (state m)) ->
  0 <= target_buffer_size (control (state m)) < max_size ->
  match prepare_buffer os m with
  | None => True
  | Some m' =>
      buf_ok (transfer (state m'))
      /\ transfer_buffer (transfer (state m')) <> None
      /\ world m' = world m
      /\ eof_in m' = eof_in m /\ eof_out m' = eof_out m
      /\ lineswritten m' = lineswritten m
      /\ error_skip_block (control (state m'))
         = error_skip_block (control (state m))
      /\ linemode (control (state m')) = linemode (control (state m))
  end.
Proof.
  intros (Hpos & Hbuf) Htarget. unfold prepare_buffer, pv__allocate_aligned_buffer.
  assert (Hnew : Z.of_nat (List.length
                   (repeat NUL
                      (Z.to_nat
                         (wrap_size (target_buffer_size (control (state m))
                                     + 32)))))
                 = target_buffer_size (control (state m)) + 32).
  { rewrite repeat_length, wrap_size_small by (unfold max_size in *; lia).
    lia. }
  destruct (transfer_buffer (transfer (state m))) as [b|] eqn:Eb.
  - destruct Hbuf as (Hlen & Hrp & Hbs).
    destruct (Z.ltb_spec (buffer_size (transfer (state m)))
                (target_buffer_size (control (state m)))) as [Hgrow | Hkeep].
    + destruct (realloc_ok os).
      * unfold buf_ok. simp_m.
        split; [|repeat split; try reflexivity; discriminate].
        split; [exact Hpos|]. split; [|lia].
        destruct (buffer_size (transfer (state m)) >? 0);
          [rewrite write_at_length|]; exact Hnew.
      * unfold buf_ok. simp_m. rewrite Eb.
        repeat split; try reflexivity; try lia; discriminate.
    + unfold buf_ok. rewrite Eb.
      repeat split; try reflexivity; try lia; discriminate.
  - destruct (alloc_ok os); [|exact I]. simp_m.
    destruct (Z.ltb_spec (target_buffer_size (control (state m)))
                (target_buffer_size (control (state m)))); [lia|].
    unfold buf_ok. simp_m.
    repeat split; try reflexivity; try lia; discriminate.
Qed.

Lemma wait_phase_fits os fd allowed m :
  buf_ok (transfer (state m)) -> moderate m ->
  match wait_phase os fd allowed m with
  | (_, Return rc m') => buf_ok (transfer (state m'))
  | (ready_to_read, Continue _ m') =>
      fits m' /\ 0 <= offset (world m') < max_size
      /\ 0 <= error_skip_block (control (state m')) < max_size
      /\ transfer_buffer (transfer (state m')) <> None
      /\ (ready_to_read = true ->
          read_position (transfer (state m'))
          < buffer_size (transfer (state m')))
  end.
Proof.
  intros Hbuf (Htarget & Hblock & Hoff). unfold wait_phase.
  set (m1 := if negb (fd =? _) then _ else _).
  assert (H1 : buf_ok (transfer (state m1))
               /\ control (state m1)
                  = set_direct_io_changed false (control (state m))
               /\ world m1 = world m).
  { unfold m1. destruct (negb (fd =? _)); simp_m; auto. }
  clearbody m1. destruct H1 as (Hbuf1 & Hc1 & Hw1).
  pose proof (prepare_buffer_fits os m1 Hbuf1) as Hprep.
  rewrite Hc1 in Hprep. simp_m. specialize (Hprep Htarget).
  destruct (prepare_buffer os m1) as [m2|].
  2: { simp_m. exact Hbuf1. }
  destruct Hprep as (Hbuf2 & Hsome2 & Hw2 & _ & _ & _ & Hblock2 & _).
  set (m3 := match lineswritten m2 with Some _ => _ | None => _ end).
  assert (H3 : transfer (state m3) = transfer (state m2)
               /\ control (state m3) = control (state m2)
               /\ world m3 = world m2).
  { unfold m3.
    destruct (lineswritten m2); [destruct (linemode (control (state m2)))|];
      auto. }
  clearbody m3. destruct H3 as (Ht3 & Hc3 & Hw3).
  destruct (eof_in m3 && eof_out m3); [rewrite Ht3; exact Hbuf2|].
  rewrite Ht3.
  pose proof Hbuf2 as (Hpos & Hb2).
  destruct (transfer_buffer (transfer (state m2))) as [b|] eqn:Eb;
    [|contradiction].
  destruct Hb2 as (Hlen & Hrp & Hbs).
  rewrite (wrap_size_small (read_position (transfer (state m2))
                            - write_position (transfer (state m2))))
    by (unfold max_size in *; lia).
  rewrite wrap64_small by (unfold in64, min64, max64, max_size in *; lia).
  set (limited := if _ && (_ >? allowed) then allowed else _).
  assert (Hlimited : limited <= read_position (transfer (state m2))
                                - write_position (transfer (state m2))).
  { unfold limited.
    destruct ((rate_limit (control (state m2)) >? 0) || (allowed >? 0));
      cbn [andb]; try lia.
    destruct (Z.gtb_spec (read_position (transfer (state m2))
                          - write_position (transfer (state m2))) allowed);
      lia. }
  clearbody limited.
  unfold is_data_ready.
  destruct (select_res os) as [e | can_read can_write].
  { change (-1 <? 0) with true. cbv iota.
    destruct e; simp_m; rewrite ?Ht3; exact Hbuf2. }
  set (r := can_read && (0 <=? _)).
  set (w := can_write && (0 <=? _)).
  destruct (Z.ltb_spec ((if r then 1 else 0) + (if w then 1 else 0)) 0);
    [destruct r, w; lia|].
  unfold fits. simp_m. rewrite Ht3, Hw3, Hw2, Hw1, Hc3, Hblock2, ?Hc1, Eb.
  simp_m.
  split; [split; [|exact Hlimited]|].
  { unfold buf_ok. simp_m. rewrite Eb. auto. }
  split; [exact Hoff|]. split; [exact Hblock|]. split; [discriminate|].
  unfold r. intros Hr. apply andb_prop in Hr. destruct Hr as [_ Hfd].
  destruct (negb (eof_in m3)
            && (read_position (transfer (state m2))
                <? buffer_size (transfer (state m2)))) eqn:Echeck.
  - apply andb_prop in Echeck. destruct Echeck as [_ Hlt].
    apply Z.ltb_lt in Hlt. exact Hlt.
  - discriminate Hfd.
Qed.

Lemma pv__transfer_read_repeated_offset fuel :
  forall steps buf at_pos count total w,
  0 <= count < max_size ->
  offset w
  <= offset (snd (pv__transfer_read_repeated fuel steps buf at_pos count
                    total w))
  <= offset w + count.
Proof.
  induction fuel as [|fuel IH]; intros steps buf at_pos count total w Hcount;
    cbn [pv__transfer_read_repeated]; [cbn [snd]; lia|].
  destruct (Z.gtb_spec count 0) as [Hpositive | Hzero]; [|cbn [snd]; lia].
  destruct (r_result (hd default_read_step steps)) as [want | e];
    [|cbn [snd]; lia].
  set (request :=
         if count >? MAX_READ_AT_ONCE then MAX_READ_AT_ONCE else count).
  assert (Hrequest : 0 < request <= count).
  { unfold request, MAX_READ_AT_ONCE.
    destruct (Z.gtb_spec count 524288); lia. }
  pose proof (os_read_length w request want ltac:(lia)) as Hlen.
  unfold os_read in *. cbn [fst] in Hlen.
  set (data := firstn _ (unread w)) in *.
  set (w1 := mkWorld _ _ _ _ _).
  assert (Hw1 : offset w1 = offset w + Z.of_nat (List.length data))
    by reflexivity.
  clearbody w1.
  rewrite (wrap_size_small (count - Z.of_nat (List.length data)))
    by (unfold max_size in *; lia).
  destruct (Z.of_nat (List.length data) =? 0); [cbn [snd]; lia|].
  destruct (r_expired (hd default_read_step steps)); [cbn [snd]; lia|].
  destruct ((count - Z.of_nat (List.length data) >? 0)
            && negb (r_more (hd default_read_step steps))); [cbn [snd]; lia|].
  match goal with
  | |- context [pv__transfer_read_repeated fuel ?s ?b ?a ?c ?t w1] =>
      specialize (IH s b a c t w1 ltac:(lia))
  end.
  lia.
Qed.

(** What the attempt to [splice] leaves of the buffer. *)
Definition untouched (m m' : machine) : Prop :=
  transfer_buffer (transfer (state m')) = transfer_buffer (transfer (state m))
  /\ buffer_size (transfer (state m')) = buffer_size (transfer (state m))
  /\ read_position (transfer (state m')) = read_position (transfer (state m))
  /\ write_position (transfer (state m')) = write_position (transfer (state m))
  /\ to_write (transfer (state m')) = to_write (transfer (state m))
  /\ control (state m') = control (state m).

Ltac untouched_step := unfold untouched; simp_m; repeat split; reflexivity.

Lemma untouched_fits m m' : untouched m m' -> fits m -> fits m'.
Proof.
  intros (Hb & Hs & Hr & Hw & Ht & _) (Hbuf & Hto). split.
  - exact (buf_ok_eq _ _ Hb Hs Hr Hw Hbuf).
  - rewrite Ht, Hr, Hw. exact Hto.
Qed.

Lemma splice_phase_untouched os fd allowed bytes_can_read dns m :
  let r := splice_phase os fd allowed bytes_can_read dns m in
  untouched m (snd r)
  /\ (fst (fst (fst r)) <= 0 ->
      snd (fst r) = true \/ offset (world (snd r)) = offset (world m))
  /\ (splice_used (transfer (state (snd r))) = false ->
      offset (world (snd r)) = offset (world m)).
Proof.
  cbv zeta. unfold splice_phase.
  destruct (negb (linemode (control (state m)))
            && negb (no_splice (control (state m)))
            && negb (fd =? splice_failed_fd (transfer (state m)))
            && (to_write (transfer (state m)) =? 0)).
  2: { cbn [fst snd]. split; [untouched_step|]. simp_m. auto. }
  destruct (splice_res os) as [want | e].
  - unfold os_splice.
    set (data := firstn _ (unread (world _))).
    destruct (Z.gtb_spec (Z.of_nat (List.length data)) 0) as [Hsome | Hnone].
    + destruct (sync_after_write (control (state m)) && splice_sync_eio os);
        cbn [fst snd]; (split; [untouched_step|]); simp_m;
        (split; [auto; lia|discriminate]).
    + cbn [fst snd]. split; [untouched_step|]. simp_m.
      split; intros _; [right|]; lia.
  - destruct (errno_eqb e EINVAL); [|destruct (errno_eqb e EAGAIN)];
      cbn [fst snd]; (split; [untouched_step|]); simp_m; auto.
Qed.

Lemma pv__transfer_read_fits os fd allowed m b :
  fits m ->
  transfer_buffer (transfer (state m)) = Some b ->
  read_position (transfer (state m)) < buffer_size (transfer (state m)) ->
  0 <= offset (world m) < max_size ->
  0 <= error_skip_block (control (state m)) < max_size ->
  fits (snd (pv__transfer_read os fd allowed m))
  /\ transfer_buffer (transfer (state (snd (pv__transfer_read os fd allowed m))))
     <> None.
Proof.
  intros Hfits Eb Hroom Hoff Hblock.
  pose proof Hfits as ((Hpos & Hbuf) & Hto). rewrite Eb in Hbuf.
  destruct Hbuf as (Hlen & Hrp & Hbs).
  set (t := transfer (state m)) in *.
  assert (Hsame : forall m2 b2,
    transfer_buffer (transfer (state m2)) = Some b2 ->
    List.length b2 = List.length b ->
    buffer_size (transfer (state m2)) = buffer_size t ->
    write_position (transfer (state m2)) = write_position t ->
    to_write (transfer (state m2)) = to_write t ->
    read_position t <= read_position (transfer (state m2)) <= buffer_size t ->
    fits m2 /\ transfer_buffer (transfer (state m2)) <> None).
  { intros m2 b2 Eb2 Hl2 Hs2 Hw2 Ht2 Hr2. split; [|rewrite Eb2; discriminate].
    split; [|lia]. unfold buf_ok. rewrite Eb2, Hl2, Hs2, Hw2.
    repeat split; lia. }
  assert (Hended : forall m2,
    transfer (state (input_ended m2)) = transfer (state m2)).
  { intros m2. unfold input_ended. simp_m.
    destruct (write_position (transfer (state m2))
              >=? read_position (transfer (state m2))); reflexivity. }
  assert (Hrest : forall (nread : Z) (err : option errno) (dns : bool) m2 b2,
    transfer_buffer (transfer (state m2)) = Some b2 ->
    List.length b2 = List.length b ->
    buffer_size (transfer (state m2)) = buffer_size t ->
    read_position (transfer (state m2)) = read_position t ->
    write_position (transfer (state m2)) = write_position t ->
    to_write (transfer (state m2)) = to_write t ->
    error_skip_block (control (state m2))
    = error_skip_block (control (state m)) ->
    (splice_used (transfer (state m2)) = false ->
     nread <= buffer_size t - read_position t) ->
    (nread < 0 -> dns = false -> 0 <= offset (world m2) < 2 ^ 62) ->
    let r :=
      if nread =? 0 then (1, input_ended m2)
      else if nread >? 0
      then
        (1,
         if splice_used
              (transfer
                 (state (on_transfer (set_read_errors_in_a_row 0) m2)))
         then on_transfer (set_read_errors_in_a_row 0) m2
         else
           on_transfer
             (set_read_position
                (wrap_size
                   (read_position
                      (transfer
                         (state
                            (on_transfer (set_read_errors_in_a_row 0) m2)))
                    + nread)))
             (on_transfer (set_read_errors_in_a_row 0) m2))
      else
        match err with
        | Some EINTR | Some EAGAIN => (0, m2)
        | _ =>
            if dns
            then
              (1,
               input_ended
                 (on_state (pv_error "read failed")
                    (on_transfer
                       (set_read_errors_in_a_row
                          (wrap64
                             (read_errors_in_a_row
                                (transfer
                                   (state (on_state (or_exit_status 16) m2)))
                              + 1)))
                       (on_state (or_exit_status 16) m2))))
            else
              (1,
               skip_read_error os err
                 (wrap_size (buffer_size t - read_position t))
                 (on_transfer
                    (set_read_errors_in_a_row
                       (wrap64
                          (read_errors_in_a_row
                             (transfer
                                (state (on_state (or_exit_status 16) m2)))
                           + 1)))
                    (on_state (or_exit_status 16) m2)))
        end in
    fits (snd r) /\ transfer_buffer (transfer (state (snd r))) <> None).
  { intros nread err dns m2 b2 Eb2 Hl2 Hs2 Hr2 Hw2 Ht2 Hblock2 Hn Hoff2.
    cbv zeta.
    assert (Hstay : forall m3,
      untouched m2 m3 ->
      fits m3 /\ transfer_buffer (transfer (state m3)) <> None).
    { intros m3 (U1 & U2 & U3 & U4 & U5 & _).
      apply (Hsame m3 b2);
        rewrite ?U1, ?U2, ?U3, ?U4, ?U5, ?Hr2; try assumption. lia. }
    destruct (Z.eqb_spec nread 0) as [Hzero | Hnonzero].
    { cbn [snd]. apply Hstay. unfold untouched. rewrite Hended.
      repeat split; try reflexivity.
      unfold input_ended. simp_m.
      destruct (write_position (transfer (state m2))
                >=? read_position (transfer (state m2))); reflexivity. }
    destruct (Z.gtb_spec nread 0) as [Hpositive | Hnegative].
    { cbn [snd]. simp_m.
      destruct (splice_used (transfer (state m2))) eqn:Esplice.
      - apply Hstay. untouched_step.
      - specialize (Hn eq_refl).
        apply (Hsame _ b2); simp_m; try assumption.
        rewrite Hr2, wrap_size_small by (unfold max_size in *; lia). lia. }
    set (m3 := on_transfer (set_read_errors_in_a_row _)
                 (on_state (or_exit_status 16) m2)).
    assert (H3 : transfer_buffer (transfer (state m3)) = Some b2
                 /\ buffer_size (transfer (state m3)) = buffer_size t
                 /\ read_position (transfer (state m3)) = read_position t
                 /\ write_position (transfer (state m3)) = write_position t
                 /\ to_write (transfer (state m3)) = to_write t
                 /\ control (state m3) = control (state m2)
                 /\ world m3 = world m2).
    { unfold m3. simp_m. auto 10. }
    clearbody m3. destruct H3 as (Eb3 & Hs3 & Hr3 & Hw3 & Ht3 & Hc3 & Hwo3).
    assert (Hhard :
      let r :=
        if dns
        then (1, input_ended (on_state (pv_error "read failed") m3))
        else
          (1,
           skip_read_error os err
             (wrap_size (buffer_size t - read_position t)) m3) in
      fits (snd r) /\ transfer_buffer (transfer (state (snd r))) <> None).
    { cbv zeta. destruct dns; cbn [snd].
      - apply (Hsame _ b2); rewrite ?Hended; simp_m; try assumption. lia.
      - rewrite wrap_size_small by (unfold max_size in *; lia).
        destruct (skip_read_error_fills os err
                    (buffer_size t - read_position t) m3 b2 Eb3)
          as (Hk & Hrp' & Hwp' & _ & Hlen' & _);
          rewrite ?Hr3, ?Hw3, ?Hwo3, ?Hc3, ?Hblock2;
          try (unfold max_size in *; lia).
        destruct (skip_read_error_quiet os err
                    (buffer_size t - read_position t) m3)
          as (_ & Qt & _ & _ & _ & Qs).
        set (m4 := skip_read_error os err
                     (buffer_size t - read_position t) m3) in *.
        cbv zeta in Hk, Hrp', Hwp', Hlen'.
        assert (Hb4 : exists b4,
          transfer_buffer (transfer (state m4)) = Some b4
          /\ List.length b4 = List.length b2).
        { unfold buffer_of in Hlen'.
          destruct (transfer_buffer (transfer (state m4))) as [b4|].
          - exists b4. auto.
          - cbn [List.length] in Hlen'. lia. }
        destruct Hb4 as (b4 & Eb4 & Hl4).
        apply (Hsame m4 b4);
          [exact Eb4 | rewrite Hl4; exact Hl2 | rewrite Qs; exact Hs3
           | rewrite Hwp'; exact Hw3 | rewrite Qt; exact Ht3 |].
        rewrite Hr3 in Hrp'. lia. }
    cbv zeta in Hhard.
    destruct err as [[]|]; try exact Hhard; cbn [snd]; apply Hstay;
      untouched_step. }
  unfold pv__transfer_read. fold t.
  set (bytes_can_read := wrap_size (buffer_size t - read_position t)).
  assert (Hbcr : bytes_can_read = buffer_size t - read_position t)
    by (apply wrap_size_small; unfold max_size in *; lia).
  destruct (splice_phase_untouched os fd allowed bytes_can_read
              (skip_errors (control (state m)) =? 0) m)
    as ((Ub & Us & Ur & Uw & Ut & Uc) & Uoff & Uplain).
  destruct (splice_phase os fd allowed bytes_can_read
              (skip_errors (control (state m)) =? 0) m)
    as [[[nread err] dns] m1].
  cbn [fst snd] in Ub, Us, Ur, Uw, Ut, Uc, Uoff, Uplain.
  fold t in Ub, Us, Ur, Uw, Ut.
  rewrite Eb in Ub.
  destruct (splice_used (transfer (state m1))) eqn:Esplice.
  - apply (Hrest nread err dns m1 b); try assumption; try reflexivity.
    + rewrite Uc. reflexivity.
    + rewrite Esplice. discriminate.
    + intros Hneg Hdns. destruct (Uoff ltac:(lia)) as [H | H]; [congruence|].
      rewrite H. unfold max_size in *. lia.
  - specialize (Uplain eq_refl).
    unfold buffer_of. rewrite Ub, Ur.
    destruct (pv__transfer_read_repeated_any (Z.to_nat bytes_can_read)
                (reads os) b (read_position t) bytes_can_read 0 (world m1))
      as (data & Hdata & _ & Hbuf' & Hreport);
      try (unfold max_size in *; lia).
    pose proof (pv__transfer_read_repeated_offset (Z.to_nat bytes_can_read)
                  (reads os) b (read_position t) bytes_can_read 0 (world m1)
                  ltac:(lia)) as Hmoved.
    cbv zeta in Hdata, Hbuf', Hreport.
    destruct (pv__transfer_read_repeated (Z.to_nat bytes_can_read) (reads os)
                b (read_position t) bytes_can_read 0 (world m1))
      as [[[nread0 err0] buf] w].
    cbn [fst snd] in Hbuf', Hreport, Hmoved. subst buf.
    apply (Hrest nread0 err0 dns _ (write_at b (read_position t) data));
      unfold store_buffer; simp_m; rewrite ?Ub; simp_m;
      try assumption; try reflexivity.
    + apply write_at_length.
    + rewrite Uc. reflexivity.
    + intros _. revert Hreport. unfold read_report.
      destruct err0; lia.
    + intros _ _. unfold max_size in *. lia.
Qed.

Lemma line_mode_truncation_fits m :
  fits m ->
  to_write (transfer (state m)) < max_size ->
  fits (line_mode_truncation m)
  /\ transfer_buffer (transfer (state (line_mode_truncation m)))
     = transfer_buffer (transfer (state m)).
Proof.
  intros (Hbuf & Hto) Hsmall. unfold line_mode_truncation.
  destruct (Z.gtb_spec (to_write (transfer (state m))) 0) as [Hdue | Hnone];
    [|split; [split; assumption|reflexivity]].
  cbn [andb].
  destruct (linemode (control (state m))); cbn [andb];
    [|split; [split; assumption|reflexivity]].
  destruct (negb (null_terminated_lines (control (state m))));
    [|split; [split; assumption|reflexivity]].
  destruct (pv_memrchr _ _) as [end_offset|] eqn:Efound;
    [|split; [split; assumption|reflexivity]].
  apply pv_memrchr_bound in Efound.
  pose proof (slice_length_le (buffer_of (transfer (state m)))
                (write_position (transfer (state m)))
                (to_write (transfer (state m)))) as Hlen.
  split; [|reflexivity]. split.
  - exact (buf_ok_eq _ _ eq_refl eq_refl eq_refl eq_refl Hbuf).
  - simp_m.
    rewrite wrap64_small by (unfold in64, min64, max64, max_size in *; lia).
    lia.
Qed.

Lemma pv__transfer_write_fits os m :
  fits m ->
  transfer_buffer (transfer (state m)) <> None ->
  0 < to_write (transfer (state m)) ->
  buf_ok (transfer (state (snd (pv__transfer_write os m)))).
Proof.
  intros (Hbuf & Hto) Hsome Hdue. unfold pv__transfer_write.
  pose proof Hbuf as (Hpos & Hb).
  destruct (transfer_buffer (transfer (state m))) as [b|] eqn:Eb;
    [|contradiction].
  destruct Hb as (Hlen & Hrp & Hbs).
  assert (Hkeep : forall m1,
    transfer_buffer (transfer (state m1)) = Some b ->
    buffer_size (transfer (state m1)) = buffer_size (transfer (state m)) ->
    read_position (transfer (state m1)) = read_position (transfer (state m)) ->
    write_position (transfer (state m1))
    = write_position (transfer (state m)) ->
    buf_ok (transfer (state m1))).
  { intros m1 H1 H2 H3 H4. apply (buf_ok_eq (transfer (state m))); try assumption.
    rewrite H1, Eb. reflexivity. }
  assert (Hafter : forall (k : Z) (m1 : machine),
    0 < k <= to_write (transfer (state m)) ->
    transfer (state m1) = transfer (state m) ->
    let m2 :=
      on_state (update_lastoutput k)
        (on_transfer
           (set_written (wrap64 (written (transfer (state m)) + k)))
           (on_transfer
              (set_write_position
                 (wrap_size (write_position (transfer (state m)) + k)))
              m1)) in
    let m3 :=
      if write_position (transfer (state m2))
         >=? read_position (transfer (state m2))
      then
        if eof_in (on_transfer (set_read_position 0)
                     (on_transfer (set_write_position 0) m2))
        then set_eof_out true
               (on_transfer (set_read_position 0)
                  (on_transfer (set_write_position 0) m2))
        else on_transfer (set_read_position 0)
               (on_transfer (set_write_position 0) m2)
      else m2 in
    buf_ok (transfer (state m3))).
  { intros k m1 Hk Ht1. cbv zeta.
    set (m2 := on_state (update_lastoutput k) _).
    assert (Hm2 : transfer_buffer (transfer (state m2)) = Some b
                  /\ buffer_size (transfer (state m2))
                     = buffer_size (transfer (state m))
                  /\ read_position (transfer (state m2))
                     = read_position (transfer (state m))
                  /\ write_position (transfer (state m2))
                     = write_position (transfer (state m)) + k).
    { unfold m2. simp_m.
      destruct (update_lastoutput_keeps k
                  (with_transfer
                     (set_written (wrap64 (written (transfer (state m)) + k)))
                     (with_transfer
                        (set_write_position
                           (wrap_size
                              (write_position (transfer (state m)) + k)))
                        (state m1)))) as [-> _].
      simp_m. rewrite Ht1.
      rewrite wrap_size_small by (unfold max_size in *; lia). auto. }
    clearbody m2. destruct Hm2 as (Eb2 & Hs2 & Hr2 & Hw2).
    assert (Hreset : forall m3,
      transfer_buffer (transfer (state m3)) = Some b ->
      buffer_size (transfer (state m3)) = buffer_size (transfer (state m)) ->
      read_position (transfer (state m3)) = 0 ->
      write_position (transfer (state m3)) = 0 ->
      buf_ok (transfer (state m3))).
    { intros m3 H1 H2 H3 H4. unfold buf_ok. rewrite H1, H2, H3, H4.
      repeat split; lia. }
    destruct (write_position (transfer (state m2))
              >=? read_position (transfer (state m2))).
    - destruct (eof_in _); apply Hreset; simp_m;
        first [assumption | reflexivity].
    - unfold buf_ok. rewrite Eb2, Hs2, Hr2, Hw2. repeat split; lia. }
  assert (Hlines : forall (k : Z) (m1 : machine),
    let m2 :=
      match lineswritten m1 with
      | Some lw =>
          if linemode (control (state m))
          then
            set_lineswritten
              (Some
                 (wrap64
                    (lw
                     + count_lines
                         (if null_terminated_lines (control (state m))
                          then NUL else "010"%char)
                         (slice b (write_position (transfer (state m))) k))))
              m1
          else m1
      | None => m1
      end in
    state m2 = state m1).
  { intros k m1. cbv zeta.
    destruct (lineswritten m1); [destruct (linemode (control (state m)))|];
      reflexivity. }
  destruct (discard_input (control (state m))).
  - destruct (Z.eqb_spec (to_write (transfer (state m))) 0); [lia|].
    destruct (Z.gtb_spec (to_write (transfer (state m))) 0); [|lia].
    cbn [snd].
    apply (Hafter (to_write (transfer (state m)))); [lia|].
    rewrite (Hlines (to_write (transfer (state m))) m). reflexivity.
  - destruct (Z.gtb_spec (to_write (transfer (state m))) 0); [|lia].
    set (m1 := if alarm_ok os then m else _).
    assert (Hm1 : transfer (state m1) = transfer (state m))
      by (unfold m1; destruct (alarm_ok os); reflexivity).
    clearbody m1.
    rewrite (wrap_size_small (to_write (transfer (state m))))
      by (unfold max_size in *; lia).
    destruct (pv__transfer_write_repeated_bound
                (Z.to_nat (to_write (transfer (state m)))) (writes os)
                (sync_after_write (control (state m)))
                (slice b (write_position (transfer (state m)))
                   (to_write (transfer (state m))))
                (to_write (transfer (state m))) 0 (world m1))
      as (out & _ & _ & Hrc); try (unfold max_size in *; lia).
    destruct (pv__transfer_write_repeated _ _ _ _ _ _ _) as [[rc err] w'].
    cbn [fst snd] in Hrc.
    destruct (Z.eqb_spec rc 0).
    { cbn [snd]. apply Hkeep; simp_m; rewrite Hm1; auto. }
    destruct (Z.gtb_spec rc 0).
    + cbn [snd]. apply (Hafter rc); [lia|].
      rewrite (Hlines rc (set_world w' m1)). simp_m. exact Hm1.
    + destruct err as [[]|]; cbn [snd]; apply Hkeep; simp_m; rewrite Hm1;
        auto.
Qed.

Lemma maximise_buffer_fill_fits m :
  buf_ok (transfer (state m)) ->
  buf_ok (transfer (state (maximise_buffer_fill m))).
Proof.
  intros (Hpos & Hbuf). unfold maximise_buffer_fill.
  destruct (Z.gtb_spec (write_position (transfer (state m))) 0);
    [|split; assumption].
  destruct (Z.ltb_spec (write_position (transfer (state m)))
              (read_position (transfer (state m)))).
  - unfold buf_ok, store_buffer, buffer_of. simp_m.
    destruct (transfer_buffer (transfer (state m))) as [b|] eqn:Eb; simp_m;
      rewrite ?Eb.
    + destruct Hbuf as (Hlen & Hrp & Hbs).
      rewrite wrap_size_small by (unfold max_size in *; lia).
      rewrite write_at_length. repeat split; lia.
    + lia.
  - unfold buf_ok. simp_m.
    destruct (transfer_buffer (transfer (state m))) as [b|];
      repeat split; try lia; apply Hbuf.
Qed.

Lemma pv_transfer_fits os fd allowed m :
  buf_ok (transfer (state m)) -> moderate m ->
  buf_ok (transfer (state (snd (pv_transfer os fd allowed m)))).
Proof.
  intros Hbuf Hmod. unfold pv_transfer.
  pose proof (wait_phase_fits os fd allowed m Hbuf Hmod) as Hwait.
  destruct (wait_phase os fd allowed m) as [ready_to_read [rc m1 | ready m1]];
    [exact Hwait|].
  destruct Hwait as (Hfits1 & Hoff1 & Hblock1 & Hsome1 & Hroom1).
  unfold read_phase.
  assert (Hread :
    fits (snd (if ready_to_read then pv__transfer_read os fd allowed m1
               else (1, m1)))
    /\ transfer_buffer
         (transfer
            (state (snd (if ready_to_read
                         then pv__transfer_read os fd allowed m1
                         else (1, m1))))) <> None).
  { destruct ready_to_read; [|cbn [snd]; auto].
    destruct (transfer_buffer (transfer (state m1))) as [b|] eqn:Eb;
      [|contradiction].
    apply (pv__transfer_read_fits os fd allowed m1 b); auto. }
  destruct (if ready_to_read then pv__transfer_read os fd allowed m1
            else (1, m1)) as [rc m2].
  cbn [snd] in Hread. destruct Hread as (Hfits2 & Hsome2).
  destruct (rc =? 0) eqn:Hrc;
    [change (0 =? 0) with true; cbv iota; cbn [snd]; apply Hfits2|].
  rewrite Hrc.
  assert (Hsmall : to_write (transfer (state m2)) < max_size).
  { destruct Hfits2 as ((Hpos & Hb) & Hto).
    destruct (transfer_buffer (transfer (state m2))); [|contradiction].
    lia. }
  destruct (line_mode_truncation_fits m2 Hfits2 Hsmall) as (Hfits3 & Eb3).
  set (m3 := line_mode_truncation m2) in *. clearbody m3.
  unfold write_phase, write_due.
  destruct (Z.gtb_spec (to_write (transfer (state m3))) 0) as [Hdue | Hnone].
  - destruct (ready && negb (splice_used (transfer (state m3)))
              && (read_position (transfer (state m3))
                  >? write_position (transfer (state m3)))
              && true
              && match lineswritten m3 with
                 | Some _ => true
                 | None => false
                 end).
    + pose proof (pv__transfer_write_fits os m3 Hfits3
                    ltac:(rewrite Eb3; exact Hsome2) Hdue) as Hw.
      destruct (pv__transfer_write os m3) as [rc4 m4]. cbn [snd] in Hw.
      destruct (rc4 =? 0); cbn [snd];
        [exact Hw|apply maximise_buffer_fill_fits; exact Hw].
    + change (1 =? 0) with false. cbv iota. cbn [snd].
      apply maximise_buffer_fill_fits. apply Hfits3.
  - rewrite andb_false_r. cbn [andb]. change (1 =? 0) with false. cbv iota.
    cbn [snd]. apply maximise_buffer_fill_fits. apply Hfits3.
Qed.

(** X26: whatever the kernel does during a call of [pv_transfer] --
    failed allocations, failed, short or interrupted reads and writes,
    skipped read errors -- the read and write positions stay in order
    and inside the transfer buffer, and the buffer keeps its 32 spare
    bytes. *)
Theorem pv_transfer_keeps_positions os fd allowed m :
  buf_ok (transfer (state m)) ->
  0 <= target_buffer_size (control (state m)) < max_size ->
  0 <= error_skip_block (control (state m)) < max_size ->
  0 <= offset (world m) < max_size ->
  let t' := transfer (state (snd (pv_transfer os fd allowed m))) in
  0 <= write_position t' <= read_position t'
  /\ match transfer_buffer t' with
     | None => read_position t' = 0
     | Some b =>
         Z.of_nat (List.length b) = buffer_size t' + 32
         /\ read_position t' <= buffer_size t'
     end.
Proof.
  intros Hbuf Htarget Hblock Hoff. cbv zeta.
  destruct (pv_transfer_fits os fd allowed m Hbuf
              (conj Htarget (conj Hblock Hoff))) as (Hpos & Hb).
  split; [exact Hpos|].
  destruct (transfer_buffer _); [|exact Hb]. split; apply Hb.
Qed.

Lemma pv_transfer_keeps_positions_witness :
  let t' := transfer (state (snd (pv_transfer sample_os 3 0 sample_machine))) in
  0 <= write_position t' <= read_position t'
  /\ match transfer_buffer t' with
     | None => read_position t' = 0
     | Some b =>
         Z.of_nat (List.length b) = buffer_size t' + 32
         /\ read_position t' <= buffer_size t'
     end.
Proof.
  apply (pv_transfer_keeps_positions sample_os 3 0 sample_machine);
    try by_evaluation.
  unfold buf_ok, max_size. cbn. lia.
Defined.

End PositionFacts.

Module LoopFacts.
Import CInt CIntFacts ElapsedTime ElapsedTimeFacts Number NumberFacts.
Import PvString PvStringFacts State Display OS Transfer MainLoop TotalSize.
Import BufferFacts DisplayFacts TransferFacts StreamFacts MainLoopFacts.
Import TimeFacts CStringFacts NumberCheckFacts StringFacts FormatFacts RecoveryFacts KernelFacts AllowanceFacts PositionFacts.

(** ** loop.c and file.c: the search for the first readable input *)

(** The exit-status bits of the inputs that cannot be read, in order. *)
Definition failure_bits (files : list input_file) : list Z :=
  flat_map (fun f => match file_error f with
                     | Some bit => [bit]
                     | None => []
                     end) files.

Lemma skipn_nth_error {A} (l : list A) : forall (k : nat) (x : A),
  nth_error l k = Some x -> skipn k l = x :: skipn (S k) l.
Proof.
  induction l as [|y l IH]; intros [|k] x H; try discriminate.
  - injection H as ->. reflexivity.
  - cbn [nth_error] in H. cbn [skipn]. rewrite (IH k x H). reflexivity.
Qed.

Lemma open_first_search files fuel : forall idx m,
  0 <= idx ->
  Z.of_nat (List.length files) <= idx + Z.of_nat fuel ->
  let rest := skipn (Z.to_nat idx) files in
  let r := open_first fuel files idx m in
  (existsb readable rest = true -> 0 <= fst (fst r))
  /\ (existsb readable rest = false ->
      fst (fst r) < 0
      /\ exit_status (state (snd r))
         = fold_left Z.lor (failure_bits rest) (exit_status (state m))).
Proof.
  assert (Hend : forall idx m,
    Z.of_nat (List.length files) <= idx ->
    let rest := skipn (Z.to_nat idx) files in
    let r := (-1, idx, m) in
    (existsb readable rest = true -> 0 <= fst (fst r))
    /\ (existsb readable rest = false ->
        fst (fst r) < 0
        /\ exit_status (state (snd r))
           = fold_left Z.lor (failure_bits rest) (exit_status (state m)))).
  { intros idx m Hidx. cbv zeta. rewrite skipn_all2 by lia.
    cbn [existsb failure_bits flat_map fold_left fst snd].
    split; [discriminate|]. intros _. split; [lia|reflexivity]. }
  induction fuel as [|fuel IH]; intros idx m Hidx Hfuel.
  - cbn [open_first]. apply Hend. lia.
  - cbn [open_first].
    destruct (Z.ltb_spec idx (Z.of_nat (List.length files))) as [Hmore | Hdone];
      [|apply Hend; exact Hdone].
    unfold pv_next_file. cbn [Z.geb Z.compare andb].
    destruct (Z.geb_spec idx (Z.of_nat (List.length files))); [lia|].
    destruct (nth_error files (Z.to_nat idx)) as [f|] eqn:Ef.
    2: { apply nth_error_None in Ef. lia. }
    cbv zeta. rewrite (skipn_nth_error files _ f Ef).
    replace (S (Z.to_nat idx)) with (Z.to_nat (idx + 1)) by lia.
    cbn [existsb failure_bits flat_map].
    fold (failure_bits (skipn (Z.to_nat (idx + 1)) files)).
    unfold readable at 1 3.
    destruct (file_error f) as [bit|].
    + change (-1 <? 0) with true. cbv iota. cbn [orb app fold_left].
      specialize (IH (idx + 1)
                    (on_state (or_exit_status bit)
                       (on_state (pv_error "failed to read file") m))
                    ltac:(lia) ltac:(lia)).
      cbv zeta in IH. revert IH. simp_m. intros IH. exact IH.
    + destruct (Z.leb_spec 0 (file_fd f)) as [Hopen | Hbad].
      * destruct (Z.ltb_spec (file_fd f) 0); [lia|]. cbn [orb fst snd].
        split; [intros _; exact Hopen|discriminate].
      * destruct (Z.ltb_spec (file_fd f) 0); [|lia]. cbn [orb app].
        specialize (IH (idx + 1)
                      (set_world
                         (mkWorld (contents f) 0 (file_seekable f)
                            (stdout (world m)) (inflow (world m))) m)
                      ltac:(lia) ltac:(lia)).
        cbv zeta in IH. revert IH. simp_m. intros IH. exact IH.
Qed.

Lemma run_loop_started files ticks : forall ls st,
  run_loop files ticks ls <> No_input st.
Proof.
  induction ticks as [|tk ticks IH]; intros ls st; cbn [run_loop];
    destruct (negb (eof_in (mach ls) && eof_out (mach ls))
              || negb (final_update ls)); try discriminate.
  destruct (loop_body files tk ls); try discriminate. apply IH.
Qed.

(** X23: [pv_main_loop] gives up before the first transfer exactly when
    none of the inputs can be read; the exit status it then returns is
    the one it started with, with the failure bit of every input set. *)
Theorem no_readable_input files st_blksize ticks st :
  let r := pv_main_loop files st_blksize ticks st in
  (existsb readable files = true -> forall st', r <> No_input st')
  /\ (existsb readable files = false ->
      exists st',
        r = No_input st'
        /\ exit_status st'
           = fold_left Z.lor (failure_bits files) (exit_status st)).
Proof.
  cbv zeta. unfold pv_main_loop.
  set (m0 := mkMachine (with_display (set_initial_offset 0) st)
               (mkWorld [] 0 false [] []) false false (Some 0)).
  destruct (open_first_search files (List.length files) 0 m0
              ltac:(lia) ltac:(lia)) as [Hsome Hnone].
  cbv zeta in Hsome, Hnone. cbn [Z.to_nat skipn] in Hsome, Hnone.
  destruct (open_first (List.length files) files 0 m0) as [[fd idx] m1].
  cbn [fst snd] in Hsome, Hnone.
  split.
  - intros Hfiles st'. specialize (Hsome Hfiles).
    destruct (Z.ltb_spec fd 0); [lia|]. apply run_loop_started.
  - intros Hfiles. destruct (Hnone Hfiles) as [Hfd Hexit].
    destruct (Z.ltb_spec fd 0); [|lia].
    exists (state m1). split; [reflexivity|exact Hexit].
Qed.

(** ** loop.c: stopping at the size *)

Lemma pv_next_file_settings files closes filenum oldfd m :
  settings (control (state (snd (pv_next_file files closes filenum oldfd m))))
  = settings (control (state m)).
Proof.
  unfold pv_next_file.
  destruct ((oldfd >=? 0) && negb closes); [reflexivity|].
  destruct (filenum >=? Z.of_nat (List.length files)); [reflexivity|].
  destruct (nth_error files (Z.to_nat filenum)) as [f|]; [|reflexivity].
  destruct (file_error f); reflexivity.
Qed.

Lemma advance_file_settings files closes fuel : forall ls,
  total_written (advance_file fuel files closes ls) = total_written ls
  /\ settings (control (state (mach (advance_file fuel files closes ls))))
     = settings (control (state (mach ls))).
Proof.
  induction fuel as [|fuel IH]; intros ls; cbn [advance_file];
    [split; reflexivity|].
  destruct (eof_in (mach ls) && eof_out (mach ls)
            && (file_idx ls <? wrap_uint (Z.of_nat (List.length files) - 1)));
    [|split; reflexivity].
  pose proof (pv_next_file_settings files closes (file_idx ls + 1) (fd ls)
                (mach ls)) as Hnext.
  destruct (pv_next_file files closes (file_idx ls + 1) (fd ls) (mach ls))
    as [fd' m']. cbn [snd] in Hnext.
  match goal with
  | |- context [advance_file fuel files closes ?x] =>
      destruct (IH x) as [Ht Hs]
  end.
  rewrite Ht, Hs. cbn [total_written set_mach set_fd set_file_idx mach].
  split; [reflexivity|].
  destruct (fd' >=? 0); exact Hnext.
Qed.

(** X25: with [-S] and a known size, one round of the main loop moves
    the count of transferred bytes forward without taking it past the
    size, whatever the kernel does, and leaves the settings that decide
    this as they are; so the bound holds round after round. *)
Theorem stop_at_size_round files tk ls :
  let c := control (state (mach ls)) in
  remote tk = None ->
  stop_at_size c = true -> linemode c = false ->
  0 <= rate_limit c ->
  0 < size c < 2 ^ 62 ->
  0 <= budget tk < 2 ^ 62 ->
  0 <= total_written ls <= size c ->
  let ls' := round_state (loop_body files tk ls) in
  total_written ls <= total_written ls' <= size c
  /\ settings (control (state (mach ls'))) = settings c.
Proof.
  cbv zeta. intros Hremote Hstop Hline Hrate Hsize Hbudget Htotal.
  unfold loop_body. rewrite Hremote.
  destruct (trigger_exit tk); [cbn [round_state]; split; [lia|reflexivity]|].
  rewrite Hstop. destruct (Z.ltb_spec 0 (size (control (state (mach ls)))));
    [|lia]. cbn [andb].
  set (c := control (state (mach ls))) in *.
  set (cansend0 := if rate_limit c >? 0 then budget tk else 0).
  assert (H0 : 0 <= cansend0 < 2 ^ 62)
    by (unfold cansend0; destruct (rate_limit c >? 0); lia).
  rewrite (wrap64_small (total_written ls + cansend0))
    by (unfold in64, min64, max64; lia).
  rewrite (wrap64_small (size c - total_written ls))
    by (unfold in64, min64, max64; lia).
  assert (Hround : forall cansend m,
    0 <= cansend <= size c - total_written ls ->
    settings (control (state m)) = settings c ->
    (0 < rate_limit c \/ 0 < cansend
     \/ (eof_in m && eof_out m = true)) ->
    let ls' :=
      round_state
        (let '(written, m0) :=
           if (0 >=? cansend) && eof_in m && eof_out m then (0, m)
           else pv_transfer (os tk) (fd ls) cansend m in
         if written <? 0 then Returns (set_mach m0 ls)
         else
           let moved :=
             if linemode (control (state (mach (set_mach m0 ls))))
             then match lineswritten m0 with
                  | Some lw => lw
                  | None => 0
                  end
             else written in
           let ls3 :=
             advance_file (List.length files) files (close_ok tk)
               (set_total_written
                  (wrap64
                     (total_written
                        (set_transferred_since_last
                           (wrap64 (transferred_since_last (set_mach m0 ls)
                                    + moved))
                           (set_mach m0 ls))
                      + moved))
                  (set_transferred_since_last
                     (wrap64 (transferred_since_last (set_mach m0 ls) + moved))
                     (set_mach m0 ls))) in
           let ls4 :=
             if eof_in (mach ls3) && eof_out (mach ls3)
             then set_final_update true ls3 else ls3 in
           if no_display (control (state (mach (set_mach m0 ls))))
           then Goes_on ls4
           else if wait (control (state (mach (set_mach m0 ls))))
                   && (moved <? 1)
           then Goes_on ls4
           else
             let ls5 :=
               if wait (control (state (mach (set_mach m0 ls))))
               then on_mach (on_state (with_control (set_wait false))) ls4
               else ls4 in
             if negb (update_due tk) then Goes_on ls5
             else
               Goes_on
                 (set_transferred_since_last 0
                    (pv_display tk
                       (if final_update ls5 then -1
                        else transferred_since_last ls5)
                       (total_written ls5) ls5))) in
    total_written ls <= total_written ls' <= size c
    /\ settings (control (state (mach ls'))) = settings c).
  { intros cansend m Hcan Hset Hlimited. cbv zeta.
    assert (Hmove : exists written m0,
      (if (0 >=? cansend) && eof_in m && eof_out m then (0, m)
       else pv_transfer (os tk) (fd ls) cansend m) = (written, m0)
      /\ written <= cansend
      /\ settings (control (state m0)) = settings c).
    { destruct ((0 >=? cansend) && eof_in m && eof_out m) eqn:Eskip.
      - exists 0, m. split; [reflexivity|]. split; [lia|exact Hset].
      - assert (Hlim : 0 < rate_limit (control (state m)) \/ 0 < cansend).
        { rewrite (settings_rate_limit _ _ Hset).
          destruct Hlimited as [Hl | [Hl | Hl]]; auto.
          rewrite <- andb_assoc, Hl, andb_true_r in Eskip.
          destruct (Z.geb_spec 0 cansend); [discriminate|]. right. lia. }
        destruct (pv_transfer_allowance (os tk) (fd ls) cansend m Hlim
                    ltac:(lia)) as (Hrc & _ & Hset').
        destruct (pv_transfer (os tk) (fd ls) cansend m) as [written m0].
        exists written, m0. cbn [fst snd] in Hrc, Hset'.
        split; [reflexivity|]. split; [exact Hrc|congruence]. }
    destruct Hmove as (written & m0 & -> & Hwritten & Hset0).
    destruct (Z.ltb_spec written 0) as [Hneg | Hpos].
    { cbn [round_state total_written set_mach mach].
      split; [lia|exact Hset0]. }
    cbn [mach set_mach].
    assert (Hline0 : linemode (control (state m0)) = false).
    { unfold settings in Hset0. injection Hset0 as Hl _ _ _.
      rewrite Hl. exact Hline. }
    rewrite Hline0.
    cbn [total_written set_transferred_since_last set_mach].
    rewrite (wrap64_small (total_written ls + written))
      by (unfold in64, min64, max64; lia).
    match goal with
    | |- context [advance_file ?n files ?cl ?x] =>
        destruct (advance_file_settings files cl n x) as [Ht3 Hs3];
        set (ls3 := advance_file n files cl x) in *
    end.
    cbn [total_written set_total_written mach set_mach
           set_transferred_since_last] in Ht3, Hs3.
    clearbody ls3.
    set (ls4 := if eof_in (mach ls3) && eof_out (mach ls3)
                then set_final_update true ls3 else ls3).
    assert (H4 : total_written ls4 = total_written ls + written
                 /\ settings (control (state (mach ls4))) = settings c).
    { unfold ls4. destruct (eof_in (mach ls3) && eof_out (mach ls3));
        cbn [total_written set_final_update mach];
        (split; [exact Ht3|congruence]). }
    clearbody ls4. destruct H4 as [Ht4 Hs4].
    assert (Hdone : total_written ls <= total_written ls4 <= size c
                    /\ settings (control (state (mach ls4))) = settings c)
      by (split; [lia|exact Hs4]).
    destruct (no_display (control (state m0))); [exact Hdone|].
    destruct (wait (control (state m0)) && (written <? 1)); [exact Hdone|].
    set (ls5 := if wait (control (state m0)) then _ else ls4).
    assert (H5 : total_written ls5 = total_written ls + written
                 /\ settings (control (state (mach ls5))) = settings c).
    { unfold ls5. destruct (wait (control (state m0)));
        [|split; assumption].
      split; [exact Ht4|]. rewrite <- Hs4. reflexivity. }
    clearbody ls5. destruct H5 as [Ht5 Hs5].
    destruct (negb (update_due tk));
      [cbn [round_state]; split; [lia|exact Hs5]|].
    cbn [round_state].
    set (sl := if final_update ls5 then -1 else transferred_since_last ls5).
    destruct (pv_display_keeps tk sl (total_written ls5) ls5) as (Hcore & _).
    cbn [total_written set_transferred_since_last mach].
    split.
    - unfold pv_display.
      destruct (pv__format _ _ _ _) as [ok st].
      cbn [total_written on_mach set_mach set_reparse_display]. lia.
    - unfold core in Hcore. injection Hcore as Hctl _. rewrite Hctl.
      exact Hs5. }
  destruct ((size c <? total_written ls + cansend0)
            || ((0 =? cansend0) && (0 =? rate_limit c))) eqn:Econd.
  - destruct (Z.geb_spec 0 (size c - total_written ls)) as [Hfull | Hroom].
    + apply Hround; [lia|reflexivity|]. right. right. reflexivity.
    + apply Hround; [lia|reflexivity|]. right. left. lia.
  - apply orb_false_iff in Econd. destruct Econd as [Hfits Hlimited].
    destruct (Z.ltb_spec (size c) (total_written ls + cansend0));
      [discriminate|].
    apply Hround; [lia|reflexivity|].
    destruct (Z.eqb_spec 0 (rate_limit c)) as [Hnolimit | Hlimit];
      [|left; lia].
    rewrite andb_true_r in Hlimited.
    destruct (Z.eqb_spec 0 cansend0); [discriminate|]. right. left. lia.
Qed.

(** Three of four bytes are counted; the round may move one more. *)
Definition sized_loop : loop_state :=
  mkLoop
    (on_state
       (with_control (fun c => set_stop_at_size true (set_size 4 c)))
       sample_machine)
    3 0 false 3 0 false.

Definition plain_tick : tick :=
  mkTick None false 0 sample_os true false false sample_env.

Lemma stop_at_size_round_witness :
  3 <= total_written (round_state (loop_body [] plain_tick sized_loop)) <= 4.
Proof.
  refine (proj1 (stop_at_size_round [] plain_tick sized_loop _ _ _ _ _ _ _));
    by_evaluation.
Defined.

End LoopFacts.

Module TotalSizeFacts.
Import CInt CIntFacts ElapsedTime ElapsedTimeFacts Number NumberFacts.
Import PvString PvStringFacts State Display OS Transfer MainLoop TotalSize.
Import BufferFacts DisplayFacts TransferFacts StreamFacts MainLoopFacts.
Import TimeFacts CStringFacts NumberCheckFacts StringFacts FormatFacts RecoveryFacts KernelFacts AllowanceFacts PositionFacts LoopFacts.

(** ** file.c: the total size of the inputs *)

(** What an input adds to the total. *)
Definition input_size (f : sized_input) : Z :=
  match stat_result f with
  | Some sb =>
      match st_mode sb with
      | S_IFREG => st_size sb
      | S_IFBLK =>
          match device_end f with
          | Some end_position => Z.max end_position 0
          | None => 0
          end
      | S_IFOTHER => 0
      end
  | None => 0
  end.

Definition total_of (files : list sized_input) : Z :=
  fold_right Z.add 0 (map input_size files).

(** The input can be examined: [stat] succeeds, and a block device can
    be opened. *)
Definition examined (f : sized_input) : Prop :=
  match stat_result f with
  | Some sb =>
      match st_mode sb with
      | S_IFBLK => device_end f <> None
      | _ => True
      end
  | None => False
  end.

(** The input is a regular file or a block device, of a size that is
    not negative. *)
Definition sized (f : sized_input) : Prop :=
  examined f
  /\ match stat_result f with
     | Some sb => st_mode sb <> S_IFOTHER /\ 0 <= st_size sb
     | None => False
     end.

Lemma input_size_nonneg f : sized f -> 0 <= input_size f.
Proof.
  intros (_ & Hs). unfold input_size.
  destruct (stat_result f) as [sb|]; [|lia].
  destruct (st_mode sb); [apply Hs| |lia].
  destruct (device_end f); lia.
Qed.

Lemma total_of_nonneg files : Forall sized files -> 0 <= total_of files.
Proof.
  induction 1 as [|f files Hf _ IH]; unfold total_of in *;
    cbn [map fold_right]; [lia|].
  pose proof (input_size_nonneg f Hf). lia.
Qed.

Lemma add_sizes_sized files : forall total,
  Forall sized files ->
  0 <= total -> total + total_of files <= max64 ->
  add_sizes files total = Some (total + total_of files).
Proof.
  induction files as [|f files IH]; intros total Hfiles Htotal Hfit.
  - cbn. f_equal. lia.
  - inversion Hfiles as [|f' files' Hf Hrest]. subst f' files'.
    pose proof (input_size_nonneg f Hf) as Hsize.
    pose proof (total_of_nonneg files Hrest) as Hlater.
    unfold total_of in Hfit |- *. cbn [map fold_right] in Hfit |- *.
    fold (total_of files) in Hfit |- *.
    destruct Hf as (Hex & Hsz).
    cbn [add_sizes]. unfold input_size in *. unfold examined in Hex.
    destruct (stat_result f) as [sb|]; [|contradiction].
    destruct Hsz as (Hmode & Hnonneg).
    destruct (st_mode sb); [| |contradiction].
    + rewrite wrap64_small by (unfold in64, min64, max64 in *; lia).
      rewrite IH by (assumption || lia). f_equal. lia.
    + destruct (device_end f) as [end_position|]; [|contradiction].
      destruct (Z.gtb_spec end_position 0) as [Hend | Hend].
      * rewrite wrap64_small by (unfold in64, min64, max64 in *; lia).
        rewrite IH by (assumption || lia). f_equal. lia.
      * rewrite IH by (assumption || lia). f_equal. lia.
Qed.

Lemma add_sizes_restart front : forall total other back,
  Forall examined front ->
  (exists sb, stat_result other = Some sb /\ st_mode sb = S_IFOTHER) ->
  add_sizes (front ++ other :: back) total = add_sizes back 0.
Proof.
  induction front as [|f front IH]; intros total other back Hfront Hother.
  - destruct Hother as (sb & Hs & Hm). cbn [app add_sizes].
    rewrite Hs, Hm. reflexivity.
  - inversion Hfront as [|f' front' Hf Hrest]. subst f' front'.
    cbn [app add_sizes]. unfold examined in Hf.
    destruct (stat_result f) as [sb|]; [|contradiction].
    destruct (st_mode sb).
    + apply IH; assumption.
    + destruct (device_end f); [|contradiction]. apply IH; assumption.
    + apply IH; assumption.
Qed.

(** X27: when every input can be examined, [pv_calc_total_bytes] adds
    up the sizes of the regular files and block devices; but an input of
    another kind (a pipe, a terminal) only resets the sum, so that the
    result is the total of the inputs that follow the last such input,
    and not zero. *)
Theorem total_bytes_counts_after_last_pipe front other back stdin_stat st :
  Forall examined front ->
  (exists sb, stat_result other = Some sb /\ st_mode sb = S_IFOTHER) ->
  Forall sized back ->
  1 <= total_of back <= max64 ->
  pv_calc_total_bytes (Some (front ++ other :: back)) stdin_stat None st
  = (total_of back, st)
  /\ pv_calc_total_bytes (Some back) stdin_stat None st = (total_of back, st).
Proof.
  intros Hfront Hother Hback Htotal.
  pose proof (add_sizes_sized back 0 Hback ltac:(lia) ltac:(lia)) as Hsum.
  rewrite Z.add_0_l in Hsum.
  unfold pv_calc_total_bytes. split.
  - destruct (front ++ other :: back) as [|f rest] eqn:Hfiles.
    { destruct front; discriminate Hfiles. }
    rewrite <- Hfiles, (add_sizes_restart front 0 other back Hfront Hother).
    rewrite Hsum. destruct (Z.ltb_spec (total_of back) 1); [lia|reflexivity].
  - destruct back as [|f rest] eqn:Hfiles.
    { cbn in Htotal. lia. }
    rewrite <- Hfiles in *. rewrite Hsum.
    destruct (Z.ltb_spec (total_of back) 1); [lia|reflexivity].
Qed.

Lemma total_bytes_counts_after_last_pipe_witness :
  pv_calc_total_bytes
    (Some [mkSized (Some (mkStat S_IFREG 100)) None;
           mkSized (Some (mkStat S_IFOTHER 0)) None;
           mkSized (Some (mkStat S_IFREG 7)) None;
           mkSized (Some (mkStat S_IFBLK 0)) (Some 512)])
    None None (sample_state "%b" 0 80)
  = (519, sample_state "%b" 0 80).
Proof.
  apply (total_bytes_counts_after_last_pipe
           [mkSized (Some (mkStat S_IFREG 100)) None]
           (mkSized (Some (mkStat S_IFOTHER 0)) None)
           [mkSized (Some (mkStat S_IFREG 7)) None;
            mkSized (Some (mkStat S_IFBLK 0)) (Some 512)]
           None (sample_state "%b" 0 80)).
  - repeat constructor.
  - eexists. split; reflexivity.
  - repeat constructor; cbn; try discriminate; lia.
  - unfold max64. cbn. lia.
Defined.

Lemma add_sizes_unreadable files : forall total f,
  In f files -> stat_result f = None -> add_sizes files total = None.
Proof.
  induction files as [|g files IH]; intros total f Hin Hf; [contradiction|].
  cbn [add_sizes]. destruct Hin as [-> | Hin]; [rewrite Hf; reflexivity|].
  destruct (stat_result g) as [sb|]; [|reflexivity].
  destruct (st_mode sb); try exact (IH _ f Hin Hf).
  destruct (device_end g); [exact (IH _ f Hin Hf)|reflexivity].
Qed.

(** X28: one named input that cannot be examined makes the total
    unknown: [pv_calc_total_bytes] returns 0 whatever the other inputs
    are, and does so without looking at standard output, so that the
    size of an output block device is not used and the state is left
    as it was. *)
Theorem total_bytes_unknown_when_unreadable files f stdin_stat output st :
  In f files -> stat_result f = None ->
  pv_calc_total_bytes (Some files) stdin_stat output st = (0, st).
Proof.
  intros Hin Hf. unfold pv_calc_total_bytes.
  destruct files as [|g rest] eqn:Hfiles; [contradiction|].
  rewrite <- Hfiles in *.
  rewrite (add_sizes_unreadable files 0 f Hin Hf). reflexivity.
Qed.

Lemma total_bytes_unknown_when_unreadable_witness :
  pv_calc_total_bytes
    (Some [mkSized (Some (mkStat S_IFREG 100)) None; mkSized None None])
    None (Some (mkOutput 4096 true)) (sample_state "%b" 0 80)
  = (0, sample_state "%b" 0 80).
Proof.
  apply (total_bytes_unknown_when_unreadable
           [mkSized (Some (mkStat S_IFREG 100)) None; mkSized None None]
           (mkSized None None)).
  - right. left. reflexivity.
  - reflexivity.
Defined.

End TotalSizeFacts.

Module DefaultFormatFacts.
Import CInt CIntFacts ElapsedTime ElapsedTimeFacts Number NumberFacts.
Import PvString PvStringFacts State Display OS Transfer MainLoop TotalSize.
Import BufferFacts DisplayFacts TransferFacts StreamFacts MainLoopFacts.
Import TimeFacts CStringFacts NumberCheckFacts StringFacts FormatFacts RecoveryFacts KernelFacts AllowanceFacts PositionFacts LoopFacts TotalSizeFacts.

(** ** state.c: the default format *)

(** [words] separated by single spaces. *)
Definition spaced (words : list (list ascii)) : list ascii :=
  match words with
  | [] => []
  | word :: words => word ++ flat_map (fun w => " "%char :: w) words
  end.

(** The words of [options] that are switched on, in order. *)
Definition selected (options : list (bool * list ascii)) : list (list ascii) :=
  map snd (filter fst options).

(** The directive for the last bytes written, as [pv_snprintf] leaves it
    in its 16-byte buffer. *)
Definition lastwritten_directive (lastwritten : Z) : list ascii :=
  "%"%char :: format_ld (wrap_uint lastwritten) ++ ["A"%char].

Lemma spaced_snoc words word :
  words <> [] -> spaced (words ++ [word]) = spaced words ++ " "%char :: word.
Proof.
  destruct words as [|w words]; [contradiction|]. intros _.
  cbn [app spaced]. rewrite flat_map_app. cbn [flat_map].
  rewrite app_nil_r, <- app_assoc. reflexivity.
Qed.

Lemma spaced_length words :
  (List.length (spaced words)
   <= fold_right (fun w n => S (List.length w) + n) 0 words)%nat.
Proof.
  destruct words as [|w words]; [cbn; lia|].
  cbn [spaced fold_right]. rewrite length_app.
  induction words as [|v words IH]; cbn [flat_map fold_right List.length];
    [lia|].
  rewrite length_app. cbn [List.length]. lia.
Qed.

Lemma head_char_c_string d :
  Ascii.eqb (head_char d) NUL = true <-> c_string d = [].
Proof.
  destruct d as [|c d]; [cbn; tauto|].
  unfold c_string. cbn [head_char strlen_nat].
  destruct (Ascii.eqb c NUL); cbn [firstn]; split; intros H;
    try reflexivity; discriminate.
Qed.

Lemma strlcat_into_string d y :
  List.length d = 512%nat ->
  List.length (strlcat_into d y PV_SIZEOF_DEFAULT_FORMAT) = 512%nat
  /\ c_string (strlcat_into d y PV_SIZEOF_DEFAULT_FORMAT)
     = firstn 511 (c_string d ++ c_string y).
Proof.
  intros Hd. unfold strlcat_into, PV_SIZEOF_DEFAULT_FORMAT.
  destruct (pv_strlcat_string d y 512) as (d' & -> & Hl & Hs);
    [rewrite Hd; lia | lia |].
  split; [congruence|exact Hs].
Qed.

(** One use of [PV_ADDFORMAT] on a buffer with room to spare. *)
Lemma PV_ADDFORMAT_string x word d words :
  List.length d = 512%nat ->
  c_string d = spaced words ->
  Forall (fun w => w <> []) words ->
  Forall (fun c => Ascii.eqb c NUL = false) word -> word <> [] ->
  (List.length (spaced words) + 1 + List.length word <= 511)%nat ->
  List.length (PV_ADDFORMAT x word d) = 512%nat
  /\ c_string (PV_ADDFORMAT x word d)
     = spaced (words ++ if x then [word] else []).
Proof.
  intros Hd Hs Hwords Hword Hne Hfit. unfold PV_ADDFORMAT.
  destruct x; [|rewrite app_nil_r; auto].
  pose proof (c_string_fixed word Hword) as Hfixed.
  destruct (Ascii.eqb (head_char d) NUL) eqn:Ehead; cbn [negb].
  - apply head_char_c_string in Ehead.
    assert (Hnone : words = []).
    { rewrite Hs in Ehead. destruct Hwords as [|w words Hw _];
        [reflexivity|].
      cbn [spaced] in Ehead. apply app_eq_nil in Ehead.
      destruct Ehead. contradiction. }
    subst words. cbn [app spaced flat_map].
    destruct (strlcat_into_string d word Hd) as [Hl ->].
    split; [exact Hl|]. cbn [spaced List.length] in Hfit.
    rewrite Hs, Hfixed, app_nil_r. cbn [spaced app].
    apply firstn_all2. lia.
  - assert (Hsome : words <> []).
    { intros ->. cbn [spaced] in Hs. apply head_char_c_string in Hs.
      congruence. }
    destruct (strlcat_into_string d [" "%char] Hd) as [Hl1 Hs1].
    destruct (strlcat_into_string
                (strlcat_into d [" "%char] PV_SIZEOF_DEFAULT_FORMAT) word Hl1)
      as [Hl2 ->].
    split; [exact Hl2|].
    rewrite Hs1, Hs, Hfixed.
    change (c_string [" "%char]) with [" "%char].
    rewrite (firstn_all2 (n := 511) (spaced words ++ [" "%char]))
      by (rewrite length_app; cbn [List.length]; lia).
    rewrite spaced_snoc by exact Hsome.
    rewrite <- app_assoc. cbn [app].
    apply firstn_all2. rewrite length_app. cbn [List.length]. lia.
Qed.

Lemma digit_char (m : nat) :
  (m < 10)%nat -> is_digit (ascii_of_nat (48 + m)).
Proof.
  intros H. do 10 (destruct m as [|m]; [reflexivity|]). lia.
Qed.

Lemma decimal_digits_chars fuel : forall n acc (k : nat),
  0 <= n < 10 ^ Z.of_nat k -> (1 <= k)%nat ->
  Forall is_digit acc ->
  Forall is_digit (decimal_digits fuel n acc)
  /\ (List.length (decimal_digits fuel n acc) <= k + List.length acc)%nat.
Proof.
  induction fuel as [|fuel IH]; intros n acc k Hn Hk Hacc;
    cbn [decimal_digits]; [split; [exact Hacc|lia]|].
  assert (Hd : is_digit (ascii_of_nat (48 + Z.to_nat (n mod 10)))).
  { apply digit_char. pose proof (Z.mod_pos_bound n 10 ltac:(lia)). lia. }
  destruct (Z.ltb_spec n 10) as [Hone | Hmore].
  - split; [constructor; assumption|cbn [List.length]; lia].
  - destruct k as [|[|k]]; [lia| |].
    { change (10 ^ Z.of_nat 1) with 10 in Hn. lia. }
    destruct (IH (n / 10) (ascii_of_nat (48 + Z.to_nat (n mod 10)) :: acc)
                (S k)) as [Hall Hlen].
    + split; [apply Z.div_pos; lia|].
      apply Z.div_lt_upper_bound; [lia|].
      replace (Z.of_nat (S (S k))) with (Z.of_nat (S k) + 1) in Hn by lia.
      rewrite Z.pow_add_r in Hn by lia. lia.
    + lia.
    + constructor; assumption.
    + split; [exact Hall|]. cbn [List.length] in Hlen. lia.
Qed.

Lemma lastwritten_directive_chars lastwritten :
  Forall (fun c => Ascii.eqb c NUL = false) (lastwritten_directive lastwritten)
  /\ (List.length (lastwritten_directive lastwritten) <= 12)%nat
  /\ lastwritten_directive lastwritten <> [].
Proof.
  unfold lastwritten_directive, format_ld.
  assert (Hrange : 0 <= wrap_uint lastwritten < 10 ^ Z.of_nat 10).
  { unfold wrap_uint, wrap_unsigned.
    pose proof (Z.mod_pos_bound lastwritten (2 ^ 32) ltac:(lia)).
    change (10 ^ Z.of_nat 10) with 10000000000. lia. }
  destruct (Z.ltb_spec (wrap_uint lastwritten) 0); [lia|].
  destruct (decimal_digits_chars 20 (wrap_uint lastwritten) [] 10 Hrange
              ltac:(lia) ltac:(constructor)) as [Hall Hlen].
  split; [|split; [|discriminate]].
  - constructor; [reflexivity|]. apply Forall_app. split.
    + eapply Forall_impl; [|exact Hall]. intros c Hc. apply digit_not_nul.
      exact Hc.
    + constructor; [reflexivity|constructor].
  - cbn [List.length]. rewrite length_app. cbn [List.length] in *. lia.
Qed.

Lemma lastwritten_buffer lastwritten :
  c_string
    (pv_snprintf_text (repeat NUL 16) 16 (lastwritten_directive lastwritten))
  = lastwritten_directive lastwritten.
Proof.
  destruct (lastwritten_directive_chars lastwritten) as (Hall & Hlen & _).
  unfold pv_snprintf_text, pv_snprintf_str.
  change (16 =? 0) with false. cbv iota.
  pose proof (vsnprintf_str_string (store (repeat NUL 16) 0 NUL) 0 16 (-1)
                (lastwritten_directive lastwritten)
                ltac:(lia) ltac:(lia) ltac:(cbn; lia) ltac:(left; lia)) as Hv.
  pose proof (vsnprintf_str_length (store (repeat NUL 16) 0 NUL) 0 16 (-1)
                (lastwritten_directive lastwritten)) as Hl.
  rewrite store_length in Hl.
  destruct (vsnprintf_str (store (repeat NUL 16) 0 NUL) 0 16 (-1)
              (lastwritten_directive lastwritten)) as [ret buf].
  cbn [snd] in *.
  rewrite c_string_store by (rewrite Hl; cbn; lia).
  rewrite Hv. cbn [Z.to_nat firstn app].
  rewrite (c_string_fixed _ Hall).
  change (Z.to_nat (16 - 1)) with 15%nat.
  change (Z.to_nat (0 + 16 - 1)) with 15%nat.
  rewrite (firstn_all2 (n := 15) (lastwritten_directive lastwritten)) by lia.
  rewrite (c_string_fixed _ Hall).
  apply firstn_all2. lia.
Qed.

(** What an option may add to the length of the format. *)
Definition room_for (options : list (bool * list ascii)) : nat :=
  fold_right (fun o n => S (List.length (snd o)) + n)%nat 0%nat options.

Definition well_formed_word (word : list ascii) : Prop :=
  Forall (fun c => Ascii.eqb c NUL = false) word /\ word <> [].

Lemma spaced_add (words : list (list ascii)) (x : bool) (word : list ascii) :
  word <> [] ->
  Forall (fun w => w <> []) words ->
  Forall (fun w => w <> []) (words ++ if x then [word] else [])
  /\ (List.length (spaced (words ++ if x then [word] else []))
      <= List.length (spaced words) + S (List.length word))%nat.
Proof.
  intros Hword Hwords. destruct x.
  - split; [apply Forall_app; split; [exact Hwords|constructor; auto]|].
    destruct words as [|w words].
    + cbn [app spaced flat_map]. rewrite app_nil_r. lia.
    + rewrite spaced_snoc by discriminate.
      rewrite length_app. cbn [List.length]. lia.
  - rewrite app_nil_r. split; [exact Hwords|lia].
Qed.

Lemma selected_app options more :
  selected (options ++ more) = selected options ++ selected more.
Proof. unfold selected. rewrite filter_app, map_app. reflexivity. Qed.

(** A run of [PV_ADDFORMAT] on a buffer with room to spare. *)
Lemma PV_ADDFORMAT_all options : forall d words,
  List.length d = 512%nat ->
  c_string d = spaced words ->
  Forall (fun w => w <> []) words ->
  Forall (fun o => well_formed_word (snd o)) options ->
  (List.length (spaced words) + room_for options <= 511)%nat ->
  let d' :=
    fold_left (fun d o => PV_ADDFORMAT (fst o) (snd o) d) options d in
  List.length d' = 512%nat
  /\ c_string d' = spaced (words ++ selected options)
  /\ Forall (fun w => w <> []) (words ++ selected options)
  /\ (List.length (spaced (words ++ selected options))
      <= List.length (spaced words) + room_for options)%nat.
Proof.
  induction options as [|[x word] options IH];
    intros d words Hd Hs Hwords Hoptions Hroom; cbv zeta.
  - cbn [fold_left selected filter map]. rewrite app_nil_r.
    repeat split; auto. lia.
  - inversion Hoptions as [|o os [Hnul Hne] Hrest]. subst o os.
    cbn [snd] in Hnul, Hne. cbn [room_for fold_right snd] in Hroom.
    fold (room_for options) in Hroom.
    destruct (PV_ADDFORMAT_string x word d words Hd Hs Hwords Hnul Hne
                ltac:(lia)) as [Hd1 Hs1].
    destruct (spaced_add words x word Hne Hwords) as [Hwords1 Hlen1].
    cbn [fold_left fst snd].
    destruct (IH (PV_ADDFORMAT x word d) (words ++ if x then [word] else [])
                Hd1 Hs1 Hwords1 Hrest ltac:(lia)) as (Hd2 & Hs2 & Hw2 & Hl2).
    cbv zeta in Hd2, Hs2.
    assert (Hsel : words ++ selected ((x, word) :: options)
                   = (words ++ (if x then [word] else [])) ++ selected options).
    { rewrite <- app_assoc. f_equal.
      change ((x, word) :: options) with ([(x, word)] ++ options).
      rewrite selected_app. f_equal.
      unfold selected. cbn [filter fst]. destruct x; reflexivity. }
    rewrite Hsel. split; [exact Hd2|]. split; [exact Hs2|].
    split; [exact Hw2|].
    cbn [room_for fold_right snd]. fold (room_for options). lia.
Qed.

(** The options of [pv_state_set_format] in the order it takes them. *)
Definition format_options (progress timer eta fineta rate average_rate bytes
    bufpercent : bool) (lastwritten : Z) (named : bool)
  : list (bool * list ascii) :=
  [(named, cstr "%N"); (bytes, cstr "%b"); (bufpercent, cstr "%T");
   (timer, cstr "%t"); (rate, cstr "%r"); (average_rate, cstr "%a");
   (progress, cstr "%p"); (eta, cstr "%e"); (fineta, cstr "%I");
   (lastwritten >? 0, lastwritten_directive lastwritten)].

(** X29: [pv_state_set_format] leaves as the default format the
    directives of the options that are switched on, in a fixed order
    and separated by single spaces: [%N] for a name, then [%b %T %t %r
    %a %p %e %I], then [%<n>A] for a positive number of last bytes to
    show, [n] being that number as an unsigned int; nothing is cut
    off and the buffer keeps its 512 bytes. *)
Theorem pv_state_set_format_text (progress timer eta fineta rate average_rate
    bytes bufpercent : bool) (lastwritten : Z)
    (new_name : option (list ascii)) (c : control_t) :
  let c' :=
    pv_state_set_format progress timer eta fineta rate average_rate bytes
      bufpercent lastwritten new_name c in
  List.length (default_format c) = 512%nat ->
  c_string (default_format c')
  = spaced
      (selected
         (format_options progress timer eta fineta rate average_rate bytes
            bufpercent lastwritten
            (match new_name with Some _ => true | None => false end)))
  /\ List.length (default_format c') = 512%nat.
Proof.
  cbv zeta. intros Hd. unfold pv_state_set_format.
  cbn [default_format set_default_format name set_name].
  set (named := match new_name with Some _ => true | None => false end).
  set (first_nine :=
         [(named, cstr "%N"); (bytes, cstr "%b"); (bufpercent, cstr "%T");
          (timer, cstr "%t"); (rate, cstr "%r"); (average_rate, cstr "%a");
          (progress, cstr "%p"); (eta, cstr "%e"); (fineta, cstr "%I")]).
  assert (Hnine : Forall (fun o => well_formed_word (snd o)) first_nine)
    by (unfold first_nine, well_formed_word; repeat constructor; discriminate).
  assert (Hroom : room_for first_nine = 27%nat) by reflexivity.
  destruct (PV_ADDFORMAT_all first_nine (store (default_format c) 0 NUL)
              [] ltac:(rewrite store_length; exact Hd)
              (c_string_store_nul _) ltac:(constructor) Hnine
              ltac:(rewrite Hroom; cbn [spaced flat_map List.length]; lia))
    as (Hl9 & Hs9 & Hwords9 & Hroom9).
  cbv zeta in Hl9, Hs9. rewrite Hroom in Hroom9.
  cbn [spaced flat_map List.length app] in Hroom9.
  cbn [app] in Hs9, Hwords9.
  unfold first_nine in Hl9. unfold first_nine at 1 in Hs9.
  cbn [fold_left fst snd] in Hl9, Hs9.
  destruct (lastwritten_directive_chars lastwritten) as (Hall & Hlen & Hne).
  fold (lastwritten_directive lastwritten).
  change (format_options progress timer eta fineta rate average_rate bytes
            bufpercent lastwritten named)
    with (first_nine
          ++ [(lastwritten >? 0, lastwritten_directive lastwritten)]).
  rewrite selected_app.
  assert (Hlast :
    selected [(lastwritten >? 0, lastwritten_directive lastwritten)]
    = if lastwritten >? 0 then [lastwritten_directive lastwritten] else [])
    by (unfold selected; cbn [filter fst]; destruct (lastwritten >? 0);
        reflexivity).
  rewrite Hlast.
  destruct (lastwritten >? 0).
  - rewrite lastwritten_buffer.
    destruct (PV_ADDFORMAT_string true (lastwritten_directive lastwritten)
                _ (selected first_nine) Hl9 Hs9 Hwords9 Hall Hne
                ltac:(lia)) as [Hl Hs].
    split; [exact Hs|exact Hl].
  - rewrite app_nil_r. split; [exact Hs9|exact Hl9].
Qed.

Definition blank_control : control_t :=
  set_default_format (repeat NUL 512) (sample_control "" 0 80).

Lemma pv_state_set_format_text_witness :
  List.length (default_format blank_control) = 512%nat
  /\ c_string
       (default_format
          (pv_state_set_format true true false false true false true false 16
             (Some (cstr "disk")) blank_control))
     = cstr "%N %b %t %r %p %16A".
Proof.
  split; [reflexivity|].
  refine (eq_trans
            (proj1 (pv_state_set_format_text true true false false true false
                      true false 16 (Some (cstr "disk")) blank_control _)) _).
  - reflexivity.
  - vm_compute. reflexivity.
Defined.

End DefaultFormatFacts.

Module SkipFacts.
Import CInt CIntFacts ElapsedTime ElapsedTimeFacts Number NumberFacts.
Import PvString PvStringFacts State Display OS Transfer MainLoop TotalSize.
Import BufferFacts DisplayFacts TransferFacts StreamFacts MainLoopFacts.
Import TimeFacts CStringFacts NumberCheckFacts StringFacts FormatFacts RecoveryFacts KernelFacts AllowanceFacts PositionFacts LoopFacts TotalSizeFacts DefaultFormatFacts.

(** *** The number of read errors in a row *)

(** What [pv__transfer_read] has in hand after [splice] and [read], before
    it looks at the result: [nread], the [errno], whether errors may
    still not be skipped, and the machine. *)
Definition read_outcome (os : os_call) (fd allowed : Z) (m : machine)
  : Z * option errno * bool * machine :=
  let c := control (state m) in
  let t := transfer (state m) in
  let do_not_skip_errors := skip_errors c =? 0 in
  let bytes_can_read := wrap_size (buffer_size t - read_position t) in
  let '(nread, err, do_not_skip_errors, m) :=
    splice_phase os fd allowed bytes_can_read do_not_skip_errors m in
  if splice_used (transfer (state m)) then (nread, err, do_not_skip_errors, m)
  else
    let t := transfer (state m) in
    let '(nread, err, buf, w) :=
      pv__transfer_read_repeated (Z.to_nat bytes_can_read) (reads os)
        (buffer_of t) (read_position t) bytes_can_read 0 (world m) in
    let m := set_world w m in
    (nread, err, do_not_skip_errors, on_transfer (store_buffer buf) m).

(** A failure other than [EINTR] and [EAGAIN]. *)
Definition lasting (err : option errno) : bool :=
  match err with
  | Some EINTR | Some EAGAIN => false
  | _ => true
  end.

(** What a call of [pv_transfer] meets when it reads. *)
Inductive read_event : Type :=
| NoRead | ReadEnd | ReadData | ReadTransient | ReadError.

Definition classify (nread : Z) (err : option errno) : read_event :=
  if nread =? 0 then ReadEnd
  else if nread >? 0 then ReadData
  else if lasting err then ReadError else ReadTransient.

Definition read_event_of (os : os_call) (fd allowed : Z) (m : machine)
  : read_event :=
  match wait_phase os fd allowed m with
  | (true, Continue _ m0) =>
      let '(nread, err, _, _) := read_outcome os fd allowed m0 in
      classify nread err
  | _ => NoRead
  end.

(** [m] is reached with [n] read errors in a row on descriptor [fd]: the
    descriptor is new to the engine, or the last read of it delivered
    data, and since then [n] calls of [pv_transfer] have met a lasting
    read error, with no call in between other than calls that did not
    read, met the end of the input or met a transient failure. *)
Inductive errors_in_a_row (fd : Z) : nat -> machine -> Prop :=
| new_descriptor m :
    last_read_skip_fd (transfer (state m)) <> fd ->
    errors_in_a_row fd 0 m
| after_data os allowed m :
    read_event_of os fd allowed m = ReadData ->
    errors_in_a_row fd 0 (snd (pv_transfer os fd allowed m))
| after_error n os allowed m :
    errors_in_a_row fd n m ->
    read_event_of os fd allowed m = ReadError ->
    errors_in_a_row fd (S n) (snd (pv_transfer os fd allowed m))
| after_other n os allowed m :
    errors_in_a_row fd n m ->
    read_event_of os fd allowed m <> ReadData ->
    read_event_of os fd allowed m <> ReadError ->
    errors_in_a_row fd n (snd (pv_transfer os fd allowed m)).

Lemma pv__transfer_read_outcome os fd allowed m :
  pv__transfer_read os fd allowed m
  = (let '(nread, err, do_not_skip_errors, m1) :=
       read_outcome os fd allowed m in
     if nread =? 0 then (1, input_ended m1)
     else if nread >? 0
     then
       let m2 := on_transfer (set_read_errors_in_a_row 0) m1 in
       (1, if splice_used (transfer (state m2)) then m2
           else on_transfer
                  (set_read_position
                     (wrap_size (read_position (transfer (state m2)) + nread)))
                  m2)
     else if lasting err
     then
       let m2 := on_state (or_exit_status 16) m1 in
       let m2 :=
         on_transfer
           (set_read_errors_in_a_row
              (wrap64 (read_errors_in_a_row (transfer (state m2)) + 1))) m2 in
       if do_not_skip_errors
       then (1, input_ended (on_state (pv_error "read failed") m2))
       else
         (1, skip_read_error os err
               (wrap_size (buffer_size (transfer (state m))
                           - read_position (transfer (state m)))) m2)
     else (0, m1)).
Proof.
  unfold pv__transfer_read, read_outcome.
  destruct (splice_phase os fd allowed _ _ m) as [[[nread err] flag] m1].
  destruct (splice_used (transfer (state m1))).
  - destruct (nread =? 0); [reflexivity|].
    destruct (nread >? 0); [reflexivity|].
    destruct err as [[]|]; reflexivity.
  - destruct (pv__transfer_read_repeated _ _ _ _ _ _ _)
      as [[[nread' err'] buf] w].
    destruct (nread' =? 0); [reflexivity|].
    destruct (nread' >? 0); [reflexivity|].
    destruct err' as [[]|]; reflexivity.
Qed.

(** The error counter and the descriptor it belongs to. *)
Definition tally (m : machine) : Z * Z :=
  (read_errors_in_a_row (transfer (state m)),
   last_read_skip_fd (transfer (state m))).

Ltac tally_step := unfold tally; simp_m; reflexivity.

Ltac tally_cases :=
  repeat match goal with
         | |- tally (if ?b then _ else _) = _ => destruct b
         | |- tally (match ?e with _ => _ end) = _ => destruct e
         end;
  try tally_step.

Lemma input_ended_tally m : tally (input_ended m) = tally m.
Proof. unfold input_ended. simp_m. tally_cases. Qed.

Lemma store_buffer_tally buf m :
  tally (on_transfer (store_buffer buf) m) = tally m.
Proof.
  unfold store_buffer.
  destruct (transfer_buffer (transfer (state m))) eqn:E;
    unfold tally; simp_m; rewrite ?E; simp_m; reflexivity.
Qed.

Lemma splice_phase_tally os fd allowed room flag m :
  tally (snd (splice_phase os fd allowed room flag m)) = tally m.
Proof.
  unfold splice_phase.
  destruct (negb (linemode (control (state m)))
            && negb (no_splice (control (state m)))
            && negb (fd =? splice_failed_fd (transfer (state m)))
            && (to_write (transfer (state m)) =? 0)); [|tally_step].
  destruct (splice_res os) as [want|e].
  - destruct (os_splice _ _ want) as [nread w].
    destruct (nread >? 0); [|tally_step].
    destruct (sync_after_write (control (state m)) && splice_sync_eio os);
      tally_step.
  - destruct (errno_eqb e EINVAL); [tally_step|].
    destruct (errno_eqb e EAGAIN); tally_step.
Qed.

Lemma read_outcome_tally os fd allowed m :
  tally (snd (read_outcome os fd allowed m)) = tally m.
Proof.
  unfold read_outcome.
  pose proof (splice_phase_tally os fd allowed
                (wrap_size (buffer_size (transfer (state m))
                            - read_position (transfer (state m))))
                (skip_errors (control (state m)) =? 0) m) as Hs.
  destruct (splice_phase os fd allowed _ _ m) as [[[nread err] flag] m1].
  cbn [snd] in Hs.
  destruct (splice_used (transfer (state m1))); [exact Hs|].
  destruct (pv__transfer_read_repeated _ _ _ _ _ _ _)
    as [[[nread' err'] buf] w].
  cbn [snd]. rewrite store_buffer_tally, <- Hs. tally_step.
Qed.

Lemma skip_read_error_tally os err room m :
  tally (skip_read_error os err room m) = tally m.
Proof.
  unfold skip_read_error. cbv zeta. fold (warned m).
  assert (Hwarned : tally (warned m) = tally m).
  { unfold warned.
    destruct (read_error_warning_shown (transfer (state m))); tally_step. }
  rewrite <- Hwarned. generalize (warned m) as m1. clear Hwarned. intros m1.
  destruct (0 >? os_tell (world m1)).
  { rewrite input_ended_tally. tally_step. }
  set (amount := if _ >? wrap64 room then _ else _). clearbody amount.
  assert (Htail : forall p : Z * machine,
    tally (snd p) = tally m1 ->
    tally
      (let '(amount_skipped, m2) := p in
       if amount_skipped >? 0
       then
         if skip_errors (control (state m1)) <? 2
         then on_state (pv_error "skipped past read error")
                (on_transfer
                   (set_read_position
                      (wrap_size (read_position (transfer (state m2))
                                  + amount_skipped)))
                   (on_transfer
                      (store_buffer
                         (write_at (buffer_of (transfer (state m2)))
                            (read_position (transfer (state m2)))
                            (repeat NUL (Z.to_nat (wrap_size amount_skipped)))))
                      m2))
         else on_transfer
                (set_read_position
                   (wrap_size (read_position (transfer (state m2))
                               + amount_skipped)))
                (on_transfer
                   (store_buffer
                      (write_at (buffer_of (transfer (state m2)))
                         (read_position (transfer (state m2)))
                         (repeat NUL (Z.to_nat (wrap_size amount_skipped)))))
                   m2)
       else input_ended m2) = tally m1).
  { intros [k m2] H2. cbn [snd] in H2.
    destruct (k >? 0); [|rewrite input_ended_tally; exact H2].
    set (buf := write_at _ _ _).
    pose proof (store_buffer_tally buf m2) as H3.
    rewrite H2 in H3. rewrite <- H3.
    destruct (skip_errors (control (state m1)) <? 2); tally_step. }
  unfold os_seek.
  destruct (seek_first os) as [e1|].
  - change (-1 <? 0) with true. cbv iota.
    destruct (seek_retry os) as [e2|].
    + change (-1 <? 0) with true. cbv iota.
      apply (Htail (-1, _)). cbn [snd]. tally_cases.
    + destruct (wrap64 (os_tell (world m1) + 1) <? 0) eqn:Hneg.
      * apply (Htail (-1, _)). cbn [snd]. tally_cases.
      * apply (Htail (_, _)). cbn [snd]. tally_step.
  - destruct (wrap64 (os_tell (world m1) + amount) <? 0) eqn:Hneg.
    + destruct (seek_retry os) as [e2|].
      * change (-1 <? 0) with true. cbv iota.
        apply (Htail (-1, _)). cbn [snd]. tally_cases.
      * destruct (wrap64 (os_tell (world m1) + 1) <? 0) eqn:Hneg1.
        -- apply (Htail (-1, _)). cbn [snd]. tally_cases.
        -- apply (Htail (_, _)). cbn [snd]. tally_step.
    + rewrite ?Hneg. apply (Htail (_, _)). cbn [snd]. tally_step.
Qed.

Lemma line_mode_truncation_tally m : tally (line_mode_truncation m) = tally m.
Proof. unfold line_mode_truncation. tally_cases. Qed.

Lemma maximise_buffer_fill_tally m : tally (maximise_buffer_fill m) = tally m.
Proof.
  unfold maximise_buffer_fill.
  destruct (write_position (transfer (state m)) >? 0); [|reflexivity].
  destruct (write_position (transfer (state m))
            <? read_position (transfer (state m))); [|tally_step].
  set (buf := write_at _ _ _).
  rewrite <- (store_buffer_tally buf m). tally_step.
Qed.

Lemma update_lastoutput_transfer nwritten st :
  transfer (update_lastoutput nwritten st) = transfer st.
Proof.
  unfold update_lastoutput.
  destruct (required (component (display st) PV_COMPONENT_OUTPUTBUF)
            && (nwritten >? 0)); reflexivity.
Qed.

Lemma pv__transfer_write_tally os m :
  tally (snd (pv__transfer_write os m)) = tally m.
Proof.
  unfold pv__transfer_write.
  destruct (transfer_buffer (transfer (state m))) as [buf|]; [|tally_step].
  destruct (discard_input (control (state m)));
    [|destruct (to_write (transfer (state m)) >? 0);
      [destruct (alarm_ok os); simp_m;
       destruct (pv__transfer_write_repeated _ _ _ _ _ _ _) as [[nw err] w]|]].
  all: repeat (cbv zeta;
               match goal with
               | |- context [match ?e with _ => _ end] => destruct e
               end).
  all: cbn [snd]; unfold tally; simp_m;
    rewrite ?update_lastoutput_transfer; simp_m; reflexivity.
Qed.

Lemma prepare_buffer_tally os m m' :
  prepare_buffer os m = Some m' -> tally m' = tally m.
Proof.
  unfold prepare_buffer, pv__allocate_aligned_buffer. intros H.
  destruct (transfer_buffer (transfer (state m))) as [b|].
  2: destruct (alloc_ok os); [|discriminate H].
  all: cbv zeta in H.
  all: repeat match type of H with
       | context [if ?x then _ else _] => destruct x
       end; inversion H; subst; tally_step.
Qed.

(** The counter after a call that met [event], from its value [count]
    when the call read. *)
Definition counter_after (event : read_event) (count : Z) : Z :=
  match event with
  | ReadData => 0
  | ReadError => wrap64 (count + 1)
  | _ => count
  end.

Lemma pv__transfer_read_tally os fd allowed m :
  tally (snd (pv__transfer_read os fd allowed m))
  = (counter_after
       (classify (fst (fst (fst (read_outcome os fd allowed m))))
          (snd (fst (fst (read_outcome os fd allowed m)))))
       (fst (tally m)),
     snd (tally m)).
Proof.
  rewrite pv__transfer_read_outcome.
  pose proof (read_outcome_tally os fd allowed m) as Ho.
  destruct (read_outcome os fd allowed m) as [[[nread err] flag] m1].
  cbn [fst snd] in *. unfold classify.
  destruct (nread =? 0).
  { cbn [snd counter_after]. rewrite input_ended_tally, Ho.
    destruct (tally m); reflexivity. }
  destruct (nread >? 0).
  { cbn [snd counter_after]. rewrite <- Ho.
    destruct (splice_used _); tally_step. }
  destruct (lasting err).
  - cbn [counter_after]. rewrite <- Ho. cbv zeta.
    destruct flag; cbn [snd].
    + rewrite input_ended_tally. tally_step.
    + rewrite skip_read_error_tally. tally_step.
  - cbn [snd counter_after]. rewrite Ho. destruct (tally m); reflexivity.
Qed.

Lemma wait_phase_tally os fd allowed m :
  match snd (wait_phase os fd allowed m) with
  | Return _ m0 | Continue _ m0 =>
      tally m0
      = (if fd =? last_read_skip_fd (transfer (state m))
         then read_errors_in_a_row (transfer (state m)) else 0,
         fd)
  end.
Proof.
  unfold wait_phase. cbv zeta.
  set (m1 := if negb (fd =? last_read_skip_fd _) then _ else _).
  assert (H1 : tally m1
                = (if fd =? last_read_skip_fd (transfer (state m))
                   then read_errors_in_a_row (transfer (state m)) else 0,
                   fd)).
  { unfold m1. simp_m.
    destruct (Z.eqb_spec fd (last_read_skip_fd (transfer (state m))))
      as [Heq|Hne]; cbn [negb]; unfold tally; simp_m;
      [rewrite <- Heq|]; reflexivity. }
  clearbody m1.
  destruct (prepare_buffer os m1) as [m2|] eqn:Hprep.
  2: { cbn [snd]. rewrite <- H1. tally_step. }
  apply prepare_buffer_tally in Hprep. rewrite <- H1, <- Hprep.
  set (m3 := match lineswritten m2 with Some _ => _ | None => _ end).
  assert (H3 : tally m3 = tally m2).
  { unfold m3. destruct (lineswritten m2); [|reflexivity].
    destruct (linemode (control (state m2))); tally_step. }
  clearbody m3. rewrite <- H3.
  destruct (eof_in m3 && eof_out m3); [reflexivity|].
  destruct (is_data_ready _ _ _) as [[[n r] w] err].
  destruct (n <? 0).
  - destruct err as [[]|]; cbn [snd]; tally_step.
  - cbn [snd]. tally_step.
Qed.

Lemma pv_transfer_tally os fd allowed m :
  tally (snd (pv_transfer os fd allowed m))
  = (counter_after (read_event_of os fd allowed m)
       (if fd =? last_read_skip_fd (transfer (state m))
        then read_errors_in_a_row (transfer (state m)) else 0),
     fd).
Proof.
  unfold pv_transfer, read_event_of.
  pose proof (wait_phase_tally os fd allowed m) as Hw.
  destruct (wait_phase os fd allowed m) as [r [rc m0|w m0]]; cbn [snd] in *.
  { destruct r; exact Hw. }
  assert (Hwrite : forall m1,
            tally (snd (write_phase os w m1)) = tally m1).
  { intros m1. unfold write_phase.
    pose proof (pv__transfer_write_tally os m1) as Hp.
    destruct (write_due w m1).
    - destruct (pv__transfer_write os m1) as [rc m2]. cbn [snd] in Hp.
      destruct (rc =? 0); cbn [snd]; [exact Hp|].
      rewrite maximise_buffer_fill_tally. exact Hp.
    - cbn [Z.eqb snd]. apply maximise_buffer_fill_tally. }
  unfold read_phase. destruct r.
  - pose proof (pv__transfer_read_tally os fd allowed m0) as Hr.
    destruct (read_outcome os fd allowed m0) as [[[nread err] flag] m1].
    cbn [fst snd] in Hr. rewrite Hw in Hr. cbn [fst snd] in Hr.
    destruct (pv__transfer_read os fd allowed m0) as [rc m2].
    cbn [snd] in Hr.
    destruct (Z.eqb_spec rc 0) as [->|Hrc]; [exact Hr|].
    destruct (Z.eqb_spec rc 0); [contradiction|].
    rewrite Hwrite, line_mode_truncation_tally. exact Hr.
  - cbn [Z.eqb]. rewrite Hwrite, line_mode_truncation_tally. exact Hw.
Qed.

(** The counter holds the number of errors in a row once the descriptor
    is the one of the last call. *)
Lemma errors_in_a_row_count fd n m :
  errors_in_a_row fd n m ->
  (if fd =? last_read_skip_fd (transfer (state m))
   then read_errors_in_a_row (transfer (state m)) else 0)
  = wrap64 (Z.of_nat n).
Proof.
  intros H. induction H as [m Hfd|os allowed m Hev|n os allowed m H IH Hev
                            |n os allowed m H IH Hev1 Hev2].
  - destruct (Z.eqb_spec fd (last_read_skip_fd (transfer (state m))));
      [congruence|reflexivity].
  - pose proof (pv_transfer_tally os fd allowed m) as Ht.
    rewrite Hev in Ht. unfold tally in Ht. injection Ht as Hc Hf.
    rewrite Hf, Z.eqb_refl, Hc. reflexivity.
  - pose proof (pv_transfer_tally os fd allowed m) as Ht.
    rewrite Hev, IH in Ht. unfold tally in Ht. injection Ht as Hc Hf.
    rewrite Hf, Z.eqb_refl, Hc. cbn [counter_after].
    rewrite wrap64_add_l. f_equal. lia.
  - pose proof (pv_transfer_tally os fd allowed m) as Ht.
    rewrite IH in Ht. unfold tally in Ht. injection Ht as Hc Hf.
    rewrite Hf, Z.eqb_refl, Hc.
    destruct (read_event_of os fd allowed m); try reflexivity; congruence.
Qed.

Lemma pv__transfer_write_repeated_offset fuel :
  forall steps sync data count total w,
  offset (snd (pv__transfer_write_repeated fuel steps sync data count total w))
  = offset w.
Proof.
  induction fuel as [|fuel IH]; intros steps sync data count total w;
    cbn [pv__transfer_write_repeated]; [reflexivity|].
  destruct (count >? 0); [|reflexivity].
  destruct (w_result (hd default_write_step steps)) as [want|e].
  2: { destruct (errno_eqb e EINTR || errno_eqb e EAGAIN); reflexivity. }
  unfold os_write.
  set (w1 := mkWorld _ _ _ _ _).
  assert (Hw1 : offset w1 = offset w) by reflexivity.
  clearbody w1.
  destruct (sync && w_sync_eio (hd default_write_step steps)); [exact Hw1|].
  destruct (_ =? 0); [exact Hw1|].
  destruct (w_expired (hd default_write_step steps)); [exact Hw1|].
  rewrite IH. exact Hw1.
Qed.

Lemma pv__transfer_write_offset os m :
  offset (world (snd (pv__transfer_write os m))) = offset (world m).
Proof.
  unfold pv__transfer_write.
  destruct (transfer_buffer (transfer (state m))) as [buf|]; [|reflexivity].
  destruct (discard_input (control (state m)));
    [|destruct (to_write (transfer (state m)) >? 0);
      [pose proof (pv__transfer_write_repeated_offset
                     (Z.to_nat (to_write (transfer (state m)))) (writes os)
                     (sync_after_write (control (state m)))
                     (slice buf (write_position (transfer (state m)))
                        (to_write (transfer (state m))))
                     (wrap_size (to_write (transfer (state m)))) 0 (world m))
         as Hoff;
       destruct (alarm_ok os); simp_m;
       destruct (pv__transfer_write_repeated _ _ _ _ _ _ _) as [[nw err] w];
       cbn [snd] in Hoff|]].
  all: repeat (cbv zeta;
               match goal with
               | |- context [match ?e with _ => _ end] => destruct e
               end).
  all: cbn [snd]; simp_m; try reflexivity; exact Hoff.
Qed.

Lemma write_phase_offset os ready m :
  offset (world (snd (write_phase os ready m))) = offset (world m).
Proof.
  unfold write_phase.
  assert (Hfill : forall m1,
            offset (world (maximise_buffer_fill m1)) = offset (world m1)).
  { intros m1. unfold maximise_buffer_fill.
    destruct (write_position (transfer (state m1)) >? 0); [|reflexivity].
    destruct (write_position (transfer (state m1))
              <? read_position (transfer (state m1))); reflexivity. }
  pose proof (pv__transfer_write_offset os m) as Hp.
  destruct (write_due ready m).
  - destruct (pv__transfer_write os m) as [rc m2]. cbn [snd] in Hp.
    destruct (rc =? 0); cbn [snd]; [exact Hp|].
    rewrite Hfill. exact Hp.
  - cbn [Z.eqb snd]. apply Hfill.
Qed.

Lemma line_mode_truncation_world m :
  world (line_mode_truncation m) = world m.
Proof.
  unfold line_mode_truncation.
  repeat match goal with
         | |- world (if ?b then _ else _) = _ => destruct b
         | |- world (match ?e with _ => _ end) = _ => destruct e
         end; reflexivity.
Qed.

(** The settings of the recovery stay as they are up to the read. *)
Lemma wait_phase_recovery os fd allowed m ready w m0 :
  wait_phase os fd allowed m = (ready, Continue w m0) ->
  error_skip_block (control (state m0)) = error_skip_block (control (state m)).
Proof.
  unfold wait_phase. cbv zeta.
  set (m1 := if negb (fd =? last_read_skip_fd _) then _ else _).
  assert (H1 : error_skip_block (control (state m1))
                = error_skip_block (control (state m))).
  { unfold m1. destruct (negb _); reflexivity. }
  clearbody m1.
  destruct (prepare_buffer os m1) as [m2|] eqn:Hprep; [|discriminate].
  assert (H2 : error_skip_block (control (state m2))
                = error_skip_block (control (state m1))).
  { revert Hprep. unfold prepare_buffer, pv__allocate_aligned_buffer.
    intros H.
    destruct (transfer_buffer (transfer (state m1))) as [b|].
    2: destruct (alloc_ok os); [|discriminate H].
    all: cbv zeta in H.
    all: repeat match type of H with
         | context [if ?x then _ else _] => destruct x
         end; inversion H; subst; reflexivity. }
  rewrite <- H1, <- H2.
  set (m3 := match lineswritten m2 with Some _ => _ | None => _ end).
  assert (H3 : control (state m3) = control (state m2)).
  { unfold m3. destruct (lineswritten m2); [|reflexivity].
    destruct (linemode (control (state m2))); reflexivity. }
  clearbody m3. rewrite <- H3.
  destruct (eof_in m3 && eof_out m3); [discriminate|].
  destruct (is_data_ready _ _ _) as [[[n r] w'] err].
  destruct (n <? 0).
  - destruct err as [[]|]; discriminate.
  - intros H. inversion H. reflexivity.
Qed.

Lemma read_outcome_control os fd allowed m :
  control (state (snd (read_outcome os fd allowed m))) = control (state m).
Proof.
  unfold read_outcome.
  assert (Hs : control (state (snd (splice_phase os fd allowed
                 (wrap_size (buffer_size (transfer (state m))
                             - read_position (transfer (state m))))
                 (skip_errors (control (state m)) =? 0) m)))
               = control (state m)).
  { unfold splice_phase.
    destruct (negb (linemode (control (state m)))
              && negb (no_splice (control (state m)))
              && negb (fd =? splice_failed_fd (transfer (state m)))
              && (to_write (transfer (state m)) =? 0)); [|reflexivity].
    destruct (splice_res os) as [want|e].
    - destruct (os_splice _ _ want) as [nread w].
      destruct (nread >? 0); [|reflexivity].
      destruct (sync_after_write (control (state m)) && splice_sync_eio os);
        reflexivity.
    - destruct (errno_eqb e EINVAL); [reflexivity|].
      destruct (errno_eqb e EAGAIN); reflexivity. }
  destruct (splice_phase os fd allowed _ _ m) as [[[nread err] flag] m1].
  cbn [snd] in Hs.
  destruct (splice_used (transfer (state m1))); [exact Hs|].
  destruct (pv__transfer_read_repeated _ _ _ _ _ _ _)
    as [[[nread' err'] buf] w].
  cbn [snd]. rewrite <- Hs. reflexivity.
Qed.

(** A recovery whose seek succeeds moves the input by the distance of
    the schedule, rounded and cut to the room in the buffer. *)
Lemma skip_read_error_moves os err room m :
  seekable (world m) = true ->
  0 <= offset (world m) < 2 ^ 62 ->
  seek_first os = None ->
  error_skip_block (control (state m)) <= 0 ->
  1 <= read_errors_in_a_row (transfer (state m)) ->
  0 < room < 2 ^ 62 ->
  offset (world (skip_read_error os err room m))
  = offset (world m)
    + Z.min
        (round_skip (offset (world m))
           (skip_distance (control (state m))
              (read_errors_in_a_row (transfer (state m)))))
        room.
Proof.
  intros Hseek Horig Hfirst Hblock Hcount Hroom.
  unfold skip_read_error. cbv zeta. fold (warned m).
  destruct (warned_keeps m) as (Hw & _ & _ & Hc & _ & _ & _ & Hn).
  revert Hseek Horig Hblock Hcount. rewrite <- Hw, <- Hc, <- Hn.
  generalize (warned m) as m1. clear m Hw Hc Hn.
  intros m Hseek Horig Hblock Hcount.
  unfold os_tell. rewrite Hseek.
  destruct (Z.gtb_spec 0 (offset (world m))); [lia|].
  set (d := skip_distance (control (state m))
              (read_errors_in_a_row (transfer (state m)))).
  assert (Hd : 1 <= d <= 512)
    by (apply (skip_schedule (control (state m))); assumption).
  assert (Hr : 1 <= round_skip (offset (world m)) d <= d)
    by (apply round_skip_range; unfold max64; lia).
  set (r := round_skip (offset (world m)) d) in *.
  rewrite (wrap64_small room) by (unfold in64, min64, max64; lia).
  set (amount := if r >? room then room else r).
  assert (Hamount : amount = Z.min r room)
    by (unfold amount; destruct (Z.gtb_spec r room); lia).
  assert (Ha : 1 <= amount <= 512) by lia.
  clearbody amount. rewrite <- Hamount.
  unfold os_seek. rewrite Hfirst.
  rewrite (wrap64_small (offset (world m) + amount))
    by (unfold in64, min64, max64; lia).
  destruct (Z.ltb_spec (offset (world m) + amount) 0); [lia|].
  cbv beta iota.
  destruct (Z.ltb_spec (offset (world m) + amount) 0); [lia|].
  replace (offset (world m) + amount - offset (world m)) with amount by lia.
  rewrite (wrap64_small amount) by (unfold in64, min64, max64; lia).
  destruct (Z.gtb_spec amount 0); [|lia].
  destruct (skip_errors (control (state m)) <? 2); unfold store_buffer;
    simp_m; destruct (transfer_buffer (transfer (state m))); reflexivity.
Qed.

(** C7 (amended): with skip-errors enabled, no fixed error-skip block
    configured and a seekable input, a call of [pv_transfer] that meets
    a lasting read error after [n] such errors in a row (the counter is
    reset by a read that delivers data and by a change of descriptor,
    and incremented before it is used, so it holds [N = n + 1]) skips
    the distance of the schedule: 1 for N = 1..4, 2 for N = 5..9,
    2^(N-10) for N = 10..19 (that is 1, 2, 4, ..., 512) and 512 for
    N >= 20, never more than 512.  The input moves by that distance
    after rounding to a block boundary and clamping to the room left
    in the buffer. *)
Theorem skip_schedule_nth fd (n : nat) os allowed m ready_to_write m0
    nread err m1 :
  errors_in_a_row fd n m ->
  wait_phase os fd allowed m = (true, Continue ready_to_write m0) ->
  read_outcome os fd allowed m0 = (nread, err, false, m1) ->
  nread < 0 -> lasting err = true ->
  error_skip_block (control (state m)) <= 0 ->
  seekable (world m1) = true -> 0 <= offset (world m1) < 2 ^ 62 ->
  seek_first os = None ->
  Z.of_nat n < 2 ^ 62 ->
  let room :=
    buffer_size (transfer (state m0)) - read_position (transfer (state m0)) in
  0 < room < 2 ^ 62 ->
  let N := Z.of_nat n + 1 in
  let distance :=
    if N <=? 4 then 1
    else if N <=? 9 then 2
    else if N <=? 19 then 2 ^ (N - 10)
    else 512 in
  let m' := snd (pv_transfer os fd allowed m) in
  read_errors_in_a_row (transfer (state m')) = N
  /\ offset (world m')
     = offset (world m1) + Z.min (round_skip (offset (world m1)) distance) room
  /\ 1 <= distance <= 512.
Proof.
  intros Hrow Hwait Hout Hneg Hlasting Hblock Hseek Horig Hfirst Hn.
  cbv zeta. intros Hroom.
  pose proof (errors_in_a_row_count fd n m Hrow) as Hcount.
  rewrite wrap64_small in Hcount by (unfold in64, min64, max64; lia).
  pose proof (wait_phase_tally os fd allowed m) as Htally.
  rewrite Hwait in Htally. cbn [snd] in Htally. rewrite Hcount in Htally.
  pose proof (read_outcome_tally os fd allowed m0) as Htally1.
  pose proof (read_outcome_control os fd allowed m0) as Hcontrol.
  rewrite Hout in Htally1, Hcontrol. cbn [snd] in Htally1, Hcontrol.
  rewrite Htally in Htally1. unfold tally in Htally1.
  injection Htally1 as Hcount1 Hfd1.
  pose proof (wait_phase_recovery _ _ _ _ _ _ _ Hwait) as Hblock0.
  assert (Hevent : read_event_of os fd allowed m = ReadError).
  { unfold read_event_of. rewrite Hwait, Hout. unfold classify.
    destruct (Z.eqb_spec nread 0); [lia|].
    destruct (Z.gtb_spec nread 0); [lia|]. rewrite Hlasting. reflexivity. }
  destruct (skip_schedule (control (state m)) (Z.of_nat n + 1) Hblock
              ltac:(lia)) as [Hdist Hrange].
  split; [|split].
  - pose proof (pv_transfer_tally os fd allowed m) as Ht.
    rewrite Hevent, Hcount in Ht. unfold tally in Ht.
    injection Ht as Hc _. rewrite Hc. cbn [counter_after].
    apply wrap64_small. unfold in64, min64, max64. lia.
  - unfold pv_transfer. rewrite Hwait. unfold read_phase.
    rewrite pv__transfer_read_outcome, Hout.
    destruct (Z.eqb_spec nread 0); [lia|].
    destruct (Z.gtb_spec nread 0); [lia|]. rewrite Hlasting.
    cbv beta iota zeta. change (1 =? 0) with false. cbv beta iota.
    change (1 =? 0) with false. cbv beta iota.
    rewrite write_phase_offset, line_mode_truncation_world.
    set (m2 := on_transfer _ (on_state (or_exit_status 16) m1)).
    assert (Hcount2 : read_errors_in_a_row (transfer (state m2))
                      = Z.of_nat n + 1).
    { unfold m2. simp_m. rewrite Hcount1.
      apply wrap64_small. unfold in64, min64, max64. lia. }
    assert (Hcontrol2 : control (state m2) = control (state m0))
      by (rewrite <- Hcontrol; reflexivity).
    assert (Hworld2 : world m2 = world m1) by reflexivity.
    rewrite wrap_size_small by lia.
    rewrite skip_read_error_moves.
    + rewrite Hworld2, Hcontrol2, Hcount2. do 3 f_equal.
      rewrite <- Hdist. unfold skip_distance. rewrite Hblock0. reflexivity.
    + rewrite Hworld2. exact Hseek.
    + rewrite Hworld2. exact Horig.
    + exact Hfirst.
    + rewrite Hcontrol2, Hblock0. exact Hblock.
    + rewrite Hcount2. lia.
    + exact Hroom.
  - rewrite <- Hdist. exact Hrange.
Qed.

(** A kernel whose [read] fails with [EIO] and whose seeks succeed. *)
Definition failing_read_os : os_call :=
  mkOs true true (SelectReturned true true) (Failed EINVAL) false
    [mkReadStep (Failed EIO) false false] None None true [].

(** An input at offset 4 on a descriptor the engine has not seen, the
    counter still holding 12 from the previous input. *)
Definition unseen_input : machine :=
  mkMachine
    (mkState 0 (set_skip_errors 1 (sample_control "%b" 0 80)) sample_display
       (mkTransfer (Some (cstr "abcdefgh" ++ repeat NUL 32)) 8 3 1 (-1) 12
          false (-1) false 0 0) [])
    (mkWorld (cstr "abcdefghijklmnop") 4 true (cstr "a") (cstr "abc"))
    false false (Some 0).

Definition after_read_error (m : machine) : machine :=
  snd (pv_transfer failing_read_os 0 0 m).

(** The machine after four calls that met the error. *)
Definition after_four_errors : machine :=
  after_read_error
    (after_read_error (after_read_error (after_read_error unseen_input))).

Definition phase_machine (p : phase_result) : machine :=
  match p with
  | Return _ m | Continue _ m => m
  end.

Lemma after_four_errors_row : errors_in_a_row 0 4 after_four_errors.
Proof.
  apply (after_error 0 3 failing_read_os 0); [|vm_compute; reflexivity].
  apply (after_error 0 2 failing_read_os 0); [|vm_compute; reflexivity].
  apply (after_error 0 1 failing_read_os 0); [|vm_compute; reflexivity].
  apply (after_error 0 0 failing_read_os 0); [|vm_compute; reflexivity].
  apply new_descriptor. vm_compute. discriminate.
Qed.

(** C7, as stated, fails: the fifth read error in a row on a descriptor
    already skips 2 bytes, from offset 8 to offset 10, where the
    schedule of the specification has 1 for the fifth error. *)
Lemma fifth_error_skips_two :
  errors_in_a_row 0 4 after_four_errors
  /\ offset (world after_four_errors) = 8
  /\ offset (world (snd (pv_transfer failing_read_os 0 0 after_four_errors)))
     = 8 + 2
  /\ skip_distance (control (state after_four_errors)) 5 = 2
  /\ spec_schedule 5 = 1.
Proof.
  split; [exact after_four_errors_row|].
  repeat split; vm_compute; reflexivity.
Qed.

Lemma skip_schedule_nth_witness :
  read_errors_in_a_row
    (transfer (state (snd (pv_transfer failing_read_os 0 0 after_four_errors))))
  = 5
  /\ offset (world after_four_errors) = 8
  /\ offset (world (snd (pv_transfer failing_read_os 0 0 after_four_errors)))
     = 10.
Proof.
  pose proof (skip_schedule_nth 0 4 failing_read_os 0 after_four_errors true
                (phase_machine
                   (snd (wait_phase failing_read_os 0 0 after_four_errors)))
                (-1) (Some EIO)
                (snd (read_outcome failing_read_os 0 0
                        (phase_machine
                           (snd (wait_phase failing_read_os 0 0
                                   after_four_errors)))))
                after_four_errors_row) as H.
  cbv zeta in H.
  destruct H as (Hcount & Hoffset & _).
  - vm_compute. reflexivity.
  - vm_compute. reflexivity.
  - reflexivity.
  - reflexivity.
  - vm_compute. discriminate.
  - vm_compute. reflexivity.
  - vm_compute. split; [discriminate|reflexivity].
  - reflexivity.
  - vm_compute. reflexivity.
  - vm_compute. split; reflexivity.
  - split; [exact Hcount|]. split; [vm_compute; reflexivity|].
    rewrite Hoffset. vm_compute. reflexivity.
Defined.

End SkipFacts.

Module CompletionFacts.
Import CInt CIntFacts ElapsedTime ElapsedTimeFacts Number NumberFacts.
Import PvString PvStringFacts State Display OS Transfer MainLoop TotalSize.
Import BufferFacts DisplayFacts TransferFacts StreamFacts MainLoopFacts.
Import TimeFacts CStringFacts NumberCheckFacts StringFacts FormatFacts RecoveryFacts KernelFacts AllowanceFacts PositionFacts LoopFacts TotalSizeFacts DefaultFormatFacts SkipFacts.

(** ** loop.c: a run that the kernel lets through comes to its end *)













(** *** The rounds a run needs *)










(** *** Between two inputs *)







(** *** One round of the loop *)





(** *** The whole run *)





(** *** Runs of three inputs *)




(** A round whose [write] fails with [EPIPE]. *)
Definition broken_pipe_tick : tick :=
  mkTick None false 0
    (mkOs true true (SelectReturned true true) (Failed EINVAL) false
       [mkReadStep (Transferred 5) false false]
       None None true [mkWriteStep (Failed EPIPE) false false])
    true true true sample_env.

(** Under other kernels the output differs by design: without [-E] a
    [read] that fails with [EIO] abandons its input, and a [write] that
    fails with [EPIPE] abandons what the input it came from still
    holds. *)
Lemma failed_calls_abandon_input :
  output_of
    (pv_main_loop run_files None (run_tick (Failed EIO) :: run_ticks)
       (run_state 0))
  = cstr "this is pv"
  /\ output_of
       (pv_main_loop run_files None
          (run_tick (Transferred 5) :: broken_pipe_tick :: run_ticks)
          (run_state 0))
     = cstr "hello wothis is pv".
Proof. split; vm_compute; reflexivity. Qed.



End CompletionFacts.
